(** * yt-summ: bounded URL queue, single worker and summarisation stages

    A shallow embedding of the Python sources
      - [src/url_queue.py]      ([UrlTask], [UrlQueue]),
      - [src/telegram_main.py]  ([process_single_url]),
      - [src/ai_chat.py]        ([is_503_error], [retry_on_503],
                                 [process_transcript_chat]),
      - [src/ai_pipeline.py]    ([run_clean], [run_full], [run_middle_10],
                                 [run_short_300], [run_resources]),
    together with the properties the specification states about them,
    and of the code around them
      - [src/url_queue.py]      ([get_position], [remove_task]),
      - [src/telegram_output.py] ([split_long_message] and the senders),
      - [src/telegram_main.py]  ([send_telegram_summaries],
                                 [telegram_worker_loop]),
      - [src/yt_processor.py]   ([validate_youtube_url],
                                 [extract_video_id], [generate_run_id],
                                 [process_youtube_url]),
      - [src/transcribe_mod.py] ([fetch_transcript], [_fetch_with_sdk]),
      - [src/notion_mod.py]     ([set_rich_text], [ensure_property_exists],
                                 [set_rich_text_with_overflow],
                                 [handle_api_error], [retry_with_backoff]),
      - [src/ai_chat.py]        ([init_chat_client]),
      - [src/prompt_notion.py]  ([split_long_text]),
      - [src/ai_mod.py]         ([call_model]),
    with properties read off that code.

    Conventions.
    - A Python [str] is the list of its Unicode code points ([pystr]); a
      Python [int] is a [Z]; a [dict] read as a record is a [Record], a
      [dict] used as a map is a [gmap], a [set] is a [gset].
    - A method of [UrlQueue] is a function from the queue to a result and
      the next queue.  Every method holds [self._lock] for its whole body,
      so one call is one atomic step.
    - A call that leaves the process (the chat transport, the language
      model, the prompt store) is a function of an explicit world state
      [W]; the clock is an explicit reading.  [json.loads], [str()] of a
      decoded value and [str.lower()] are taken from a library record.
    - A computation returns ([inl]) or raises ([inr]) and changes the
      process state; the exceptions are those [except Exception] catches.
    - The logging callback is [log_mod.log], or the default callback of
      [process_youtube_url]: it takes the line and returns.  The one call
      whose keyword is a parameter of the default callback, and so a
      [TypeError], is in [Transcribe._fetch_with_sdk].  The lines are
      recorded; the wall-clock ["performance"] readings of
      [process_transcript_chat] are left out.
    - [time.sleep] of a delay that the configuration gives raises its
      [ValueError] when the delay is negative. *)

From Stdlib Require Import ZArith NArith List Ascii String Lia Bool DecimalString.
From stdpp Require Import base decidable option list countable gmap.
Import ListNotations.

Set Warnings "-register-all,-inconsistent-scopes".

(** ** Python text primitives *)

Module Py.

Abbreviation char := N.
Abbreviation pystr := (list char).

(** Decoding of the UTF-8 bytes of a literal of this file into code
    points, so that the Cyrillic literals of the sources can be written
    down as they are. *)
Fixpoint utf8_decode (bs : list N) : pystr :=
  match bs with
  | [] => []
  | b0 :: r0 =>
      if (b0 <? 128)%N then b0 :: utf8_decode r0
      else match r0 with
           | [] => [b0]
           | b1 :: r1 =>
               if (b0 <? 224)%N
               then ((b0 mod 32) * 64 + b1 mod 64)%N :: utf8_decode r1
               else match r1 with
                    | [] => [b0; b1]
                    | b2 :: r2 =>
                        if (b0 <? 240)%N
                        then ((b0 mod 16) * 4096 + (b1 mod 64) * 64
                              + b2 mod 64)%N :: utf8_decode r2
                        else match r2 with
                             | [] => [b0; b1; b2]
                             | b3 :: r3 =>
                                 ((b0 mod 8) * 262144 + (b1 mod 64) * 4096
                                  + (b2 mod 64) * 64 + b3 mod 64)%N
                                   :: utf8_decode r3
                             end
                    end
           end
  end.

Definition u (s : string) : pystr :=
  utf8_decode (map N_of_ascii (list_ascii_of_string s)).

(** [str(n)] for an [int]. *)
Definition str_of_int (z : Z) : pystr :=
  u (NilEmpty.string_of_int (Z.to_int z)).

Definition SPACE : char := 32%N.
Definition NEWLINE : char := 10%N.

(** [str.isspace] on one character: the code points Python's [str.strip()]
    removes. *)
Definition isspace (c : char) : bool :=
  ((9 <=? c) && (c <=? 13) || (28 <=? c) && (c <=? 32)
   || (c =? 133) || (c =? 160) || (c =? 5760)
   || (8192 <=? c) && (c <=? 8202)
   || (c =? 8232) || (c =? 8233) || (c =? 8239) || (c =? 8287)
   || (c =? 12288))%N.

Fixpoint lstrip (s : pystr) : pystr :=
  match s with
  | [] => []
  | c :: r => if isspace c then lstrip r else s
  end.

Fixpoint rstrip (s : pystr) : pystr :=
  match s with
  | [] => []
  | c :: r =>
      match rstrip r with
      | [] => if isspace c then [] else [c]
      | r' => c :: r'
      end
  end.

(** [s.strip()] *)
Definition strip (s : pystr) : pystr := rstrip (lstrip s).

(** [len(s)] *)
Definition len {A} (l : list A) : Z := Z.of_nat (length l).

(** [l[:n]] for an [int] [n]: a negative [n] counts from the end. *)
Definition slice_to {A} (l : list A) (n : Z) : list A :=
  if (0 <=? n)%Z then firstn (Z.to_nat n) l
  else firstn (Z.to_nat (len l + n)) l.

(** [s.startswith(p)] *)
Fixpoint startswith (s p : pystr) : bool :=
  match p, s with
  | [], _ => true
  | _ :: _, [] => false
  | a :: p', b :: s' => (a =? b)%N && startswith s' p'
  end.

(** [p in s] *)
Fixpoint contains (s p : pystr) : bool :=
  startswith s p || match s with [] => false | _ :: r => contains r p end.

(** [s.rfind(c)] for a one-character needle: the highest index holding
    [c], or -1. *)
Fixpoint rfind (s : pystr) (c : char) : Z :=
  match s with
  | [] => (-1)%Z
  | a :: r =>
      let i := rfind r c in
      if (0 <=? i)%Z then (i + 1)%Z
      else if (a =? c)%N then 0%Z else (-1)%Z
  end.

(** [s.split(c)] for a one-character separator. *)
Fixpoint split (c : char) (s : pystr) : list pystr :=
  match s with
  | [] => [[]]
  | a :: r =>
      if (a =? c)%N then [] :: split c r
      else match split c r with
           | h :: t => (a :: h) :: t
           | [] => [[a]]
           end
  end.

(** [sep.join(parts)] *)
Fixpoint join (sep : pystr) (parts : list pystr) : pystr :=
  match parts with
  | [] => []
  | [p] => p
  | p :: rest => p ++ sep ++ join sep rest
  end.

(** [s.replace(old, new)] for a non-empty [old]: the occurrences are
    replaced from left to right and do not overlap.  [skip] counts the
    characters of the current occurrence still to be dropped. *)
Fixpoint replace_from (old new : pystr) (skip : nat) (s : pystr) : pystr :=
  match s with
  | [] => []
  | c :: r =>
      match skip with
      | S k => replace_from old new k r
      | O =>
          if startswith s old
          then new ++ replace_from old new (length old - 1) r
          else c :: replace_from old new 0 r
      end
  end.

Definition replace (s old new : pystr) : pystr := replace_from old new 0 s.

Definition QUOTE : pystr := [34%N].

End Py.
Import Py.

(** ** [url_queue.py] *)

(** The two clock values [UrlTask.__post_init__] reads: [datetime.now()]
    and [int(time.time())]. *)
Record clock := { datetime_now : Z; time_time : Z }.

Record UrlTask := {
  url : pystr;
  source : pystr;
  added_at : Z;
  task_id : pystr
}.

(** [UrlTask(url=url, source=source)]: [added_at] and [task_id] are left to
    [__post_init__]. *)
Definition new_UrlTask (url source : pystr) (ck : clock) : UrlTask :=
  {| url := url;
     source := source;
     added_at := datetime_now ck;
     task_id := source ++ u "_" ++ str_of_int (time_time ck) |}.

Record UrlQueue := {
  max_size : Z;
  _queue : list UrlTask;
  _processing_task : option UrlTask
}.

(** [UrlQueue(max_size)] *)
Definition UrlQueue_init (max_size : Z) : UrlQueue :=
  {| max_size := max_size; _queue := []; _processing_task := None |}.

(** The dictionary [add_url] returns. *)
Record add_result := {
  success : bool;
  message : pystr;
  res_task_id : option pystr;
  position : Z;
  queue_size : Z
}.

Definition add_url (q : UrlQueue) (url source : pystr) (ck : clock)
  : add_result * UrlQueue :=
  if (len (_queue q) >=? max_size q)%Z then
    ({| success := false;
        message := u "Очередь переполнена (максимум "
                   ++ str_of_int (max_size q) ++ u " ссылок)";
        res_task_id := None;
        position := (-1)%Z;
        queue_size := len (_queue q) |}, q)
  else
    let task := new_UrlTask url source ck in
    let queue' := _queue q ++ [task] in
    ({| success := true;
        message := u "URL добавлен в очередь";
        res_task_id := Some (task_id task);
        position := len queue';
        queue_size := len queue' |},
     {| max_size := max_size q;
        _queue := queue';
        _processing_task := _processing_task q |}).

Definition get_next_url (q : UrlQueue) : option UrlTask * UrlQueue :=
  match _queue q with
  | [] => (None, q)
  | task :: rest =>
      (Some task,
       {| max_size := max_size q;
          _queue := rest;
          _processing_task := Some task |})
  end.

Definition mark_completed (q : UrlQueue) (tid : pystr) : bool * UrlQueue :=
  match _processing_task q with
  | Some t =>
      if bool_decide (task_id t = tid)
      then (true, {| max_size := max_size q;
                     _queue := _queue q;
                     _processing_task := None |})
      else (false, q)
  | None => (false, q)
  end.

(** The snapshot [get_queue_status] returns ([added_at] is rendered by
    [strftime] in the source and is kept as the timestamp here). *)
Record queue_status := {
  st_queue_size : Z;
  st_max_size : Z;
  is_full : bool;
  is_empty : bool;
  processing_task : option pystr;
  waiting_tasks : list UrlTask
}.

Definition get_queue_status (q : UrlQueue) : queue_status :=
  {| st_queue_size := len (_queue q);
     st_max_size := max_size q;
     is_full := (len (_queue q) >=? max_size q)%Z;
     is_empty := (len (_queue q) =? 0)%Z;
     processing_task := task_id <$> _processing_task q;
     waiting_tasks := _queue q |}.

Definition clear_queue (q : UrlQueue) : Z * UrlQueue :=
  (len (_queue q),
   {| max_size := max_size q;
      _queue := [];
      _processing_task := _processing_task q |}).

(** The module-level instance [url_queue = UrlQueue(max_size=5)]. *)
Definition url_queue : UrlQueue := UrlQueue_init 5.

(** Runs of queue calls: a list of submissions enqueued one after the
    other, and [n] consecutive dequeues. *)
Definition submission : Type := pystr * pystr * clock.

Definition task_of (s : submission) : UrlTask :=
  new_UrlTask s.1.1 s.1.2 s.2.

Fixpoint enqueue_all (q : UrlQueue) (subs : list submission)
  : list add_result * UrlQueue :=
  match subs with
  | [] => ([], q)
  | s :: rest =>
      let '(r, q1) := add_url q s.1.1 s.1.2 s.2 in
      let '(rs, q2) := enqueue_all q1 rest in
      (r :: rs, q2)
  end.

Fixpoint dequeue_n (q : UrlQueue) (n : nat) : list (option UrlTask) * UrlQueue :=
  match n with
  | O => ([], q)
  | S k =>
      let '(t, q1) := get_next_url q in
      let '(ts, q2) := dequeue_n q1 k in
      (t :: ts, q2)
  end.

(** ** Effects: the running process *)

(** A raised Python exception ([except Exception] catches every one of
    them).  [Raised msg] is an exception a collaborator raises, with its
    [str()]; the other two are raised by the interpreter itself on a value
    of the wrong type. *)
Inductive exn :=
| Raised (msg : pystr)
| AttributeError
| TypeError.

(** [str(e)]; the interpreter's own message texts are not modelled. *)
Definition str_of_exn (e : exn) : pystr :=
  match e with
  | Raised msg => msg
  | AttributeError => u "AttributeError"
  | TypeError => u "TypeError"
  end.

(** One call of the logging callback: level, module, message and the
    keyword arguments. *)
Record log_record := {
  level : pystr;
  module : pystr;
  msg : pystr;
  kv : list (pystr * pystr)
}.

(** The state of the running process: the world outside ([W], owned by the
    collaborators), the module-level [url_queue], and what the process has
    done so far: the [time.sleep] calls in milliseconds, the lines handed
    to the logging callback, and the [mark_completed] calls with their
    return values. *)
Record process (W : Type) := Process {
  world : W;
  the_queue : UrlQueue;
  slept : list Z;
  logged : list log_record;
  marks : list (pystr * bool)
}.
Arguments Process {W}.
Arguments world {W}.
Arguments the_queue {W}.
Arguments slept {W}.
Arguments logged {W}.
Arguments marks {W}.

(** A computation that returns or raises, and changes the process. *)
Definition M (W A : Type) : Type := process W -> (A + exn) * process W.

Definition ret {W A} (a : A) : M W A := fun p => (inl a, p).
Definition raise {W A} (e : exn) : M W A := fun p => (inr e, p).
Definition bind {W A B} (c : M W A) (k : A -> M W B) : M W B :=
  fun p => match c p with
           | (inl a, p1) => k a p1
           | (inr e, p1) => (inr e, p1)
           end.
(** [try: c  except Exception as e: h e] *)
Definition try_except {W A} (c : M W A) (h : exn -> M W A) : M W A :=
  fun p => match c p with
           | (inl a, p1) => (inl a, p1)
           | (inr e, p1) => h e p1
           end.

Notation "x <- c ;; k" := (bind c (fun x => k))
  (at level 62, c at next level, right associativity).
Notation "c ;;; k" := (bind c (fun _ => k))
  (at level 62, right associativity).

(** A call to a collaborator: it sees and changes the world only. *)
Definition ext {W A} (f : W -> (A + exn) * W) : M W A :=
  fun p => let '(r, w) := f (world p) in
           (r, Process w (the_queue p) (slept p) (logged p) (marks p)).

(** [time.sleep(delay_ms / 1000.0)] *)
Definition sleep_ms {W} (delay_ms : Z) : M W unit :=
  fun p => (inl tt, Process (world p) (the_queue p) (slept p ++ [delay_ms])
                            (logged p) (marks p)).

(** [time.sleep] of a length that the configuration gives: a negative
    length is a [ValueError], raised before any sleeping. *)
Definition sleep_error : exn :=
  Raised (u "sleep length must be non-negative").
Definition time_sleep {W} (delay_ms : Z) : M W unit :=
  if (delay_ms <? 0)%Z then raise sleep_error else sleep_ms delay_ms.

(** [if log: log(level, module, msg, **kv)]; the callback is
    [log_mod.log], which prints the line and returns. *)
Definition log {W} (enabled : bool) (lv md : string) (ms : pystr)
    (kvs : list (pystr * pystr)) : M W unit :=
  fun p =>
    (inl tt,
     if enabled
     then Process (world p) (the_queue p) (slept p)
            (logged p ++ [{| level := u lv; module := u md; msg := ms;
                             kv := kvs |}])
            (marks p)
     else p).

(** The [url_queue.url_queue] methods, called on the module-level
    instance. *)
Definition url_queue_get_next_url {W} : M W (option UrlTask) :=
  fun p => let '(t, q) := get_next_url (the_queue p) in
           (inl t, Process (world p) q (slept p) (logged p) (marks p)).

Definition url_queue_mark_completed {W} (tid : pystr) : M W bool :=
  fun p => let '(b, q) := mark_completed (the_queue p) tid in
           (inl b, Process (world p) q (slept p) (logged p)
                     (marks p ++ [(tid, b)])).

(** ** [telegram_main.py] *)

Record summaries := {
  short : pystr;
  middle : pystr;
  full : pystr;
  resources : pystr
}.

(** The dictionary [yt_processor.process_youtube_url] returns, with the
    keys [process_single_url] reads. *)
Record url_result := {
  r_success : bool;                 (* 'success' *)
  r_error : option pystr;           (* 'error' *)
  r_run_id : option Z;              (* 'run_id' *)
  r_summaries : option summaries    (* 'summaries' *)
}.

Definition str_of_option (o : option pystr) : pystr :=
  match o with Some s => s | None => u "None" end.

Section TelegramMain.
Context {W : Type}.
(** [yt_processor.process_youtube_url(url, config, log_func)] *)
Variable process_youtube_url : pystr -> W -> (url_result + exn) * W.
(** [telegram_output.send_telegram_message(config, chat_id, text, log_func)] *)
Variable send_telegram_message : pystr -> pystr -> W -> (bool + exn) * W.
(** [send_telegram_summaries(config, chat_id, summaries, 0, log_func)]:
    a run of [send_telegram_message] calls. *)
Variable send_telegram_summaries : pystr -> summaries -> W -> (bool + exn) * W.
(** whether a [log_func] was passed *)
Variable log_func : bool.

Definition process_single_url : M W bool :=
  task <- url_queue_get_next_url ;;
  match task with
  | None => ret false
  | Some task =>
      log log_func "INFO" "telegram_main"
        (u "Начинаем обработку задачи")
        [(u "task_id", task_id task); (u "url", url task);
         (u "source", source task)] ;;;
      try_except
        (result <- ext (process_youtube_url (url task)) ;;
         (if r_success result then
            ext (send_telegram_message (source task)
                   (u "✅ Обработка завершена! Данные сохранены в Notion")) ;;;
            match r_summaries result with
            | Some s =>
                ext (send_telegram_summaries (source task) s) ;;; ret tt
            | None => ret tt
            end
          else
            ext (send_telegram_message (source task)
                   (u "❌ Ошибка обработки: "
                      ++ str_of_option (r_error result))) ;;;
            ret tt) ;;;
         url_queue_mark_completed (task_id task) ;;;
         (if r_success result then
            log log_func "INFO" "telegram_main"
              (u "Задача обработана успешно")
              [(u "task_id", task_id task);
               (u "run_id", str_of_option (str_of_int <$> r_run_id result))]
          else
            log log_func "ERROR" "telegram_main"
              (u "Ошибка обработки задачи")
              [(u "task_id", task_id task);
               (u "error", str_of_option (r_error result))]) ;;;
         ret true)
        (fun e =>
           url_queue_mark_completed (task_id task) ;;;
           ext (send_telegram_message (source task)
                  (u "❌ Ошибка обработки: " ++ str_of_exn e)) ;;;
           log log_func "ERROR" "telegram_main"
             (u "Исключение при обработке задачи")
             [(u "task_id", task_id task); (u "error", str_of_exn e)] ;;;
           ret true)
  end.

End TelegramMain.

(** ** What the sources take from the Python library *)

(** A value [json.loads] returns.  A [dict] keeps its keys in order; a
    [float] is carried with its zero-ness, which is all its truth value
    needs. *)
Inductive json :=
| JNull
| JBool (b : bool)
| JInt (z : Z)
| JFloat (is_zero : bool) (literal : pystr)
| JStr (s : pystr)
| JList (l : list json)
| JDict (d : list (pystr * json)).

(** Library functions that are taken as they are:
    [json.loads] (the value, or the message of the [JSONDecodeError]),
    [str()] of a decoded value, and [str.lower()]. *)
Record pylib := {
  json_loads : pystr -> json + pystr;
  py_str : json -> pystr;
  lower : pystr -> pystr
}.

(** [bool(v)] *)
Definition truthy (v : json) : bool :=
  match v with
  | JNull => false
  | JBool b => b
  | JInt z => negb (z =? 0)%Z
  | JFloat is_zero _ => negb is_zero
  | JStr s => negb (bool_decide (s = []))
  | JList l => match l with [] => false | _ => true end
  | JDict d => match d with [] => false | _ => true end
  end.

Fixpoint assoc (d : list (pystr * json)) (key : pystr) : option json :=
  match d with
  | [] => None
  | (k, v) :: rest => if bool_decide (k = key) then Some v else assoc rest key
  end.

(** [v.get(key, default)]: only a [dict] has the method. *)
Definition dict_get {W} (v : json) (key : pystr) (default : json) : M W json :=
  match v with
  | JDict d => ret (from_option id default (assoc d key))
  | _ => raise AttributeError
  end.

(** [re.search(r'\{.*\}', s, re.DOTALL)]: from the first opening brace to
    the last closing brace after it. *)
Fixpoint search_braces (s : pystr) : option pystr :=
  match s with
  | [] => None
  | c :: r =>
      if (c =? 123)%N then
        let j := rfind r 125%N in
        if (0 <=? j)%Z then Some (c :: firstn (Z.to_nat j + 1) r) else None
      else search_braces r
  end.

(** ** [ai_chat.py]: the retry on a 503 *)

Definition is_503_error (lib : pylib) (e : exn) : bool :=
  let error_str := lower lib (str_of_exn e) in
  contains error_str (u "503")
  && (contains error_str (u "unavailable")
      || contains error_str (u "overloaded")
      || contains error_str (u "try again later")).

Section Retry.
Context {W A : Type}.
Variable lib : pylib.
Variable func : M W A.
Variable max_retries : Z.
Variable log_on : bool.

(** The [for i, delay_ms in enumerate(backoff_ms[:max_retries])] loop
    and what follows it. *)
Fixpoint retry_loop (delays : list Z) (i : Z) (last_error : exn) : M W A :=
  match delays with
  | [] =>
      log log_on "ERROR" "ai_chat"
        (u "Все попытки повтора исчерпаны из-за ошибки 503 UNAVAILABLE") [] ;;;
      raise last_error
  | delay_ms :: rest =>
      log log_on "WARNING" "ai_chat"
        (u "Ошибка 503 UNAVAILABLE, повтор " ++ str_of_int (i + 1)
           ++ u "/" ++ str_of_int max_retries ++ u " через "
           ++ str_of_int delay_ms ++ u "мс") [] ;;;
      time_sleep delay_ms ;;;
      try_except func
        (fun e => if is_503_error lib e
                  then retry_loop rest (i + 1) e
                  else raise e)
  end.

Definition retry_on_503 (backoff_ms : list Z) : M W A :=
  try_except func
    (fun e => if is_503_error lib e
              then retry_loop (slice_to backoff_ms max_retries) 0 e
              else raise e).

End Retry.

(** ** [ai_pipeline.py] *)

Record model_error := { code : pystr; detail : pystr }.

(** The dictionary [ai_mod.call_model] returns, with the keys the stages
    read. *)
Record model_result := {
  ok : bool;
  text : pystr;
  error : option model_error
}.

(** The dictionary [run_clean] returns. *)
Record clean_result := {
  clean : pystr;
  links : list pystr;
  raw : pystr;
  clean_error : option model_error
}.

(** [re.split(r'[.!?]+', s)] *)
Definition is_mark (c : char) : bool :=
  ((c =? 46) || (c =? 33) || (c =? 63))%N.

Fixpoint re_split_marks (s : pystr) : list pystr :=
  match s with
  | [] => [[]]
  | c :: r =>
      if is_mark c then
        match r with
        | c' :: _ => if is_mark c' then re_split_marks r
                     else [] :: re_split_marks r
        | [] => [] :: re_split_marks r
        end
      else
        match re_split_marks r with
        | h :: t => (c :: h) :: t
        | [] => [[c]]
        end
  end.

Definition nonempty (s : pystr) : bool :=
  match s with [] => false | _ => true end.

(** [[s.strip() for s in re.split(r'[.!?]+', text) if s.strip()]] *)
Definition sentences_of (text : pystr) : list pystr :=
  map strip (filter (fun s => nonempty (strip s)) (re_split_marks text)).

(** [isinstance(link, str) and (link.startswith("http://") or
    link.startswith("https://"))] *)
Definition valid_link (v : json) : option pystr :=
  match v with
  | JStr s => if startswith s (u "http://") || startswith s (u "https://")
              then Some s else None
  | _ => None
  end.

Section AiPipeline.
Context {W : Type}.
Variable lib : pylib.
(** [ai_mod.call_model(prompt_id, input_text, config, log)] *)
Variable call_model : Z -> pystr -> W -> (model_result + exn) * W.
(** [config['ai']['prompts_map']] *)
Variable prompts_map : gmap pystr Z.

Definition try_parse_json (text : pystr) : option json * option pystr :=
  match json_loads lib text with
  | inl JNull => (None, None)
  | inl v => (Some v, None)
  | inr e => (None, Some e)
  end.

(** The repair step: when nothing is parsed yet, parse the brace
    substring of [text] if there is one. *)
Definition parse_braces (text : pystr)
    (parsed : option json * option pystr) : option json * option pystr :=
  match parsed.1 with
  | None =>
      match search_braces text with
      | Some json_text => try_parse_json json_text
      | None => parsed
      end
  | Some _ => parsed
  end.

Definition clarification_prompt : pystr :=
  u "Верни JSON строго в формате: {" ++ QUOTE ++ u "clean" ++ QUOTE
    ++ u ":" ++ QUOTE ++ u "текст" ++ QUOTE ++ u "," ++ QUOTE ++ u "links"
    ++ QUOTE ++ u ":[" ++ QUOTE ++ u "url1" ++ QUOTE ++ u "," ++ QUOTE
    ++ u "url2" ++ QUOTE ++ u "]}".

Definition run_clean (transcript_text : pystr) : M W clean_result :=
  log true "INFO" "ai_pipeline" (u "ai_clean_start")
    [(u "input_len", str_of_int (len transcript_text))] ;;;
  let prompt_id := default 1%Z (prompts_map !! u "CLEAN") in
  result <- ext (call_model prompt_id transcript_text) ;;
  if negb (ok result) then
    log true "ERROR" "ai_pipeline" (u "ai_clean_error") [] ;;;
    ret {| clean := []; links := []; raw := []; clean_error := error result |}
  else
    let raw_response := text result in
    let parsed := parse_braces raw_response (try_parse_json raw_response) in
    parsed <-
      match parsed.1 with
      | None =>
          log true "WARN" "ai_pipeline" (u "Invalid JSON, retrying")
            [(u "error", str_of_option parsed.2)] ;;;
          retry_result <-
            ext (call_model prompt_id
                   (transcript_text ++ [NEWLINE; NEWLINE]
                      ++ clarification_prompt)) ;;
          if ok retry_result then
            ret (parse_braces (text retry_result)
                   (try_parse_json (text retry_result)))
          else ret parsed
      | Some _ => ret parsed
      end ;;
    match parsed.1 with
    | None =>
        let detail := u "JSON parse error: " ++ str_of_option parsed.2 in
        log true "ERROR" "ai_pipeline" (u "ai_clean_error")
          [(u "error", detail)] ;;;
        ret {| clean := []; links := []; raw := raw_response;
               clean_error := Some {| code := u "invalid_json";
                                      detail := detail |} |}
    | Some parsed_data =>
        clean_text <- dict_get parsed_data (u "clean") (JStr []) ;;
        links <- dict_get parsed_data (u "links") (JList []) ;;
        let clean_text :=
          match clean_text with JStr s => s | v => py_str lib v end in
        let links :=
          match links with
          | JList l => omap valid_link l
          | _ => []
          end in
        log true "INFO" "ai_pipeline" (u "ai_clean_parsed")
          [(u "clean_len", str_of_int (len clean_text));
           (u "links", str_of_int (len links))] ;;;
        ret {| clean := clean_text; links := links; raw := raw_response;
               clean_error := None |}
    end.

Definition run_full (clean_text : pystr) : M W pystr :=
  let prompt_id := default 2%Z (prompts_map !! u "FULL") in
  result <- ext (call_model prompt_id clean_text) ;;
  if negb (ok result) then
    log true "ERROR" "ai_pipeline" (u "ai_full_error") [] ;;; ret []
  else
    let full_summary := strip (text result) in
    log true "INFO" "ai_pipeline" (u "ai_full_done")
      [(u "len", str_of_int (len full_summary))] ;;;
    ret full_summary.

Definition run_middle_10 (clean_text : pystr) : M W pystr :=
  let prompt_id := default 3%Z (prompts_map !! u "MIDDLE_10") in
  result <- ext (call_model prompt_id clean_text) ;;
  if negb (ok result) then
    log true "ERROR" "ai_pipeline" (u "ai_middle_error") [] ;;; ret []
  else
    let middle_text := strip (text result) in
    let sentences := sentences_of middle_text in
    let actual_count := len sentences in
    if (actual_count >? 10)%Z then
      let truncated_sentences := slice_to sentences 10 in
      let middle_text := join (u ". ") truncated_sentences ++ u "." in
      log true "INFO" "ai_pipeline" (u "ai_middle_done")
        [(u "sentences", u "10");
         (u "original_count", str_of_int actual_count);
         (u "truncated", u "True")] ;;;
      ret middle_text
    else
      log true "INFO" "ai_pipeline" (u "ai_middle_done")
        [(u "sentences", str_of_int actual_count);
         (u "short_count",
          if (actual_count <? 10)%Z then u "True" else u "False")] ;;;
      ret middle_text.

Definition run_short_300 (clean_text : pystr) : M W pystr :=
  let prompt_id := default 4%Z (prompts_map !! u "SHORT_300") in
  result <- ext (call_model prompt_id clean_text) ;;
  if negb (ok result) then
    log true "ERROR" "ai_pipeline" (u "ai_short_error") [] ;;; ret []
  else
    let short_text := strip (text result) in
    let original_len := len short_text in
    let '(short_text, truncated) :=
      if (original_len >? 300)%Z then
        let truncated_text := slice_to short_text 300 in
        let last_space := rfind truncated_text SPACE in
        (if (last_space >? 250)%Z
         then slice_to truncated_text last_space
         else truncated_text, true)
      else (short_text, false) in
    log true "INFO" "ai_pipeline" (u "ai_short_done")
      [(u "len", str_of_int (len short_text));
       (u "original_len", str_of_int original_len);
       (u "truncated", if truncated then u "True" else u "False")] ;;;
    ret short_text.

(** The first loop of [run_resources]: the stripped, non-blank links. *)
Definition add_links (acc : gset pystr) (links_from_clean : list pystr)
    : gset pystr :=
  foldl (fun acc link =>
           if nonempty (strip link) then acc ∪ {[ strip link ]} else acc)
        acc links_from_clean.

(** The second loop: the lines of the model's answer that look like a
    link. *)
Definition add_lines (acc : gset pystr) (resources_text : pystr)
    : gset pystr :=
  foldl (fun acc line =>
           let line := strip line in
           if nonempty line
              && (startswith line (u "http") || contains line (u "://"))
           then acc ∪ {[ line ]} else acc)
        acc (split NEWLINE resources_text).

Definition run_resources (clean_text : pystr)
    (links_from_clean : list pystr) : M W (list pystr) :=
  let all_resources := add_links ∅ links_from_clean in
  all_resources <-
    (if bool_decide (all_resources = ∅) then
       let prompt_id := default 5%Z (prompts_map !! u "RESOURCES") in
       result <- ext (call_model prompt_id clean_text) ;;
       if ok result
       then ret (add_lines all_resources (strip (text result)))
       else ret all_resources
     else ret all_resources) ;;
  let final_list := elements all_resources in
  log true "INFO" "ai_pipeline" (u "ai_resources_done")
    [(u "count", str_of_int (len final_list))] ;;;
  ret final_list.

End AiPipeline.

(** ** [ai_chat.py]: [process_transcript_chat] *)

(** [config['ai']], with the keys [process_transcript_chat] reads. *)
Record ai_config := {
  model_primary : option pystr;
  cfg_max_retries : option Z;
  cfg_backoff_ms : option (list Z)
}.

Record chat_error := { chat_code : pystr; chat_detail : pystr }.

(** The dictionary [process_transcript_chat] returns.  The ["performance"]
    entry (wall-clock readings) is left out. *)
Record chat_results := {
  clean_text : json;
  chat_links : json;
  full_summary : pystr;
  middle_summary : json;
  short_summary : pystr;
  chat_resources : list pystr;
  chat_err : option chat_error
}.

Definition failed_results (c d : pystr) : chat_results :=
  {| clean_text := JStr []; chat_links := JList []; full_summary := [];
     middle_summary := JStr []; short_summary := []; chat_resources := [];
     chat_err := Some {| chat_code := c; chat_detail := d |} |}.

(** [response.text.strip()]: the text of an answer may be [None]. *)
Definition text_strip {W} (response_text : option pystr) : M W pystr :=
  match response_text with
  | Some t => ret (strip t)
  | None => raise AttributeError
  end.

(** [template.replace(old, value)] with a decoded value: only a [str] is
    accepted. *)
Definition replace_value {W} (template old : pystr) (value : json) : M W pystr :=
  match value with
  | JStr s => ret (replace template old s)
  | _ => raise TypeError
  end.

(** [', '.join(v)], of which only the exception matters (the result is
    never used). *)
Definition join_check {W} (v : json) : M W unit :=
  match v with
  | JList l =>
      if forallb (fun x => match x with JStr _ => true | _ => false end) l
      then ret tt else raise TypeError
  | JStr _ | JDict _ => ret tt
  | _ => raise TypeError
  end.

(** [len(v)] *)
Definition len_value {W} (v : json) : M W Z :=
  match v with
  | JStr s => ret (len s)
  | JList l => ret (len l)
  | JDict d => ret (len d)
  | _ => raise TypeError
  end.

(** [v[:797] + "..."] *)
Definition cut_797 {W} (v : json) : M W json :=
  match v with
  | JStr s => ret (JStr (slice_to s 797 ++ u "..."))
  | _ => raise TypeError
  end.

(** The values [for ... in v] goes through. *)
Definition iter_value {W} (v : json) : M W (list json) :=
  match v with
  | JList l => ret l
  | JStr s => ret (map (fun c => JStr [c]) s)
  | JDict d => ret (map (fun kv => JStr kv.1) d)
  | _ => raise TypeError
  end.

(** [f"{v}"] *)
Definition format_value (lib : pylib) (v : json) : pystr :=
  match v with JStr s => s | _ => py_str lib v end.

(** The non-blank lines of a text, stripped. *)
Definition stripped_lines (s : pystr) : list pystr :=
  filter (fun l => nonempty l) (map strip (split NEWLINE s)).

Section AiChat.
Context {W : Type}.
Variable lib : pylib.
(** [init_chat_client(config, log)]: whether a client was obtained. *)
Variable init_chat_client : W -> bool * W.
(** [load_prompts_from_notion(config, log)] *)
Variable load_prompts_from_notion : W -> gmap pystr pystr * W.
(** [client.chats.create(model=model).send_message(prompt)]: the [text]
    of the answer. *)
Variable send_message : pystr -> pystr -> W -> (option pystr + exn) * W.
Variable config : ai_config.

Definition lift {A} (f : W -> A * W) : M W A :=
  ext (fun w => let '(a, w') := f w in (inl a, w')).

(** [prompts.get(name, '')], with the fallback text when it is empty. *)
Definition template (prompts : gmap pystr pystr) (name : string)
    (fallback : pystr) : M W pystr :=
  let t := default [] (prompts !! u name) in
  if nonempty t then ret t
  else
    log true "ERROR" "ai_chat"
      (u "Промт " ++ u name ++ u " не найден в Notion") [] ;;;
    ret fallback.

Definition request (prompt : pystr) : M W (option pystr) :=
  retry_on_503 lib
    (ext (send_message
            (default (u "gemini-2.5-flash") (model_primary config)) prompt))
    (default 3%Z (cfg_max_retries config)) true
    (default [1000; 2000; 4000]%Z (cfg_backoff_ms config)).

(** The value parsed from an answer that should hold JSON: the text
    itself, else its brace substring; [None] when neither decodes. *)
Definition loads_or_braces (response : pystr) : option json :=
  match json_loads lib response with
  | inl v => Some v
  | inr _ =>
      match search_braces response with
      | Some g => match json_loads lib g with
                  | inl v => Some v
                  | inr _ => None
                  end
      | None => None
      end
  end.

(** Request 1: the cleaning. *)
Definition chat_clean (prompts : gmap pystr pystr) (transcript_text : pystr)
    : M W (json * json) :=
  clean_template <-
    template prompts "P1_CLEAN"
      (u "Очисти транскрипт от рекламы, спонсорских вставок, CTA. Верни JSON: {{"
         ++ QUOTE ++ u "clean" ++ QUOTE ++ u ":" ++ QUOTE ++ u "текст"
         ++ QUOTE ++ u ", " ++ QUOTE ++ u "links" ++ QUOTE ++ u ":["
         ++ QUOTE ++ u "ссылки" ++ QUOTE
         ++ u "]}}. Транскрипт: <<<transcript>>>") ;;
  let clean_prompt :=
    replace clean_template (u "<<<transcript>>>") transcript_text in
  log true "INFO" "ai_chat" (u "Запрос 1: Очистка транскрипта") [] ;;;
  response1 <- request clean_prompt ;;
  clean_response <- text_strip response1 ;;
  let clean_data :=
    default (JDict [(u "clean", JStr []); (u "links", JList [])])
            (loads_or_braces clean_response) in
  clean <- dict_get clean_data (u "clean") (JStr []) ;;
  links <- dict_get clean_data (u "links") (JList []) ;;
  if truthy clean then ret (clean, links)
  else
    log true "WARNING" "ai_chat"
      (u "Пустой результат очистки, используем исходный текст") [] ;;;
    ret (JStr transcript_text, links).

(** Request 2: the full summary. *)
Definition chat_full (prompts : gmap pystr pystr) (clean_text : json)
    : M W pystr :=
  full_template <-
    template prompts "P2_FULL_EXPANDED"
      (u "По чистому тексту дай максимально полезное ПОЛНОЕ саммари. Текст: <<<clean_text>>>") ;;
  full_prompt <- replace_value full_template (u "<<<clean_text>>>") clean_text ;;
  log true "INFO" "ai_chat" (u "Запрос 2: Полное саммари") [] ;;;
  response2 <- request full_prompt ;;
  text_strip response2.

(** Request 3: the middle summary. *)
Definition chat_middle (prompts : gmap pystr pystr) (clean_text : json)
    : M W json :=
  middle_template <-
    template prompts "P3_MIDDLE_800"
      (u "Суммаризируй чистый текст до 800 символов. Текст: <<<clean_text>>>") ;;
  middle_prompt <-
    replace_value middle_template (u "<<<clean_text>>>") clean_text ;;
  log true "INFO" "ai_chat" (u "Запрос 3: Среднее саммари") [] ;;;
  response3 <- request middle_prompt ;;
  middle_response <- text_strip response3 ;;
  middle_text <-
    match loads_or_braces middle_response with
    | Some middle_data =>
        dict_get middle_data (u "middle_800") (JStr middle_response)
    | None => ret (JStr middle_response)
    end ;;
  n <- len_value middle_text ;;
  if (n >? 800)%Z then cut_797 middle_text else ret middle_text.

(** Request 4: the short summary. *)
Definition chat_short_of (short_response : pystr) : pystr :=
  let lines := stripped_lines short_response in
  if (len lines >=? 2)%Z then
    let short_summary := nth 1 lines [] in
    if (len short_summary >? 300)%Z
    then slice_to short_summary 297 ++ u "..."
    else short_summary
  else slice_to short_response 300.

Definition chat_short (prompts : gmap pystr pystr) (clean_text : json)
    : M W pystr :=
  short_template <-
    template prompts "P4_SHORT_300_TITLECHECK"
      (u "Короткое саммари до 300 символов. Текст: <<<clean_text>>>") ;;
  short_prompt <-
    replace_value short_template (u "<<<clean_text>>>") clean_text ;;
  let short_prompt :=
    replace short_prompt (u "<<<video_title>>>") (u "неопределено") in
  log true "INFO" "ai_chat" (u "Запрос 4: Короткое саммари") [] ;;;
  response4 <- request short_prompt ;;
  short_response <- text_strip response4 ;;
  ret (chat_short_of short_response).

(** One entry of ["resources_real_world"], numbered from 1. *)
Definition resource_str (i : Z) (resource : json) : M W pystr :=
  name <- dict_get resource (u "name") (JStr (u "Ресурс " ++ str_of_int i)) ;;
  access <- dict_get resource (u "access_real") (JStr (u "unknown")) ;;
  notes <- dict_get resource (u "notes") (JStr []) ;;
  let resource_str :=
    str_of_int i ++ u ". " ++ format_value lib name ++ u " - "
      ++ format_value lib access in
  ret (if truthy notes
       then resource_str ++ u " - " ++ format_value lib notes
       else resource_str).

Fixpoint resource_strs (i : Z) (rs : list json) : M W (list pystr) :=
  match rs with
  | [] => ret []
  | r :: rest =>
      s <- resource_str i r ;;
      ss <- resource_strs (i + 1) rest ;;
      ret (s :: ss)
  end.

(** The line-by-line reading of an answer that holds no JSON. *)
Definition resource_lines (resources_response : pystr) : list pystr :=
  filter (fun line => nonempty line && negb (startswith line (u "#"))
                      && (len line >? 5)%Z)
         (map strip (split NEWLINE resources_response)).

(** Request 5: the resources. *)
Definition chat_resources_of (resources_response : pystr)
    : M W (list pystr) :=
  match loads_or_braces resources_response with
  | Some resources_data =>
      real_world_resources <-
        dict_get resources_data (u "resources_real_world") (JList []) ;;
      items <- iter_value real_world_resources ;;
      resource_strs 1 items
  | None => ret (resource_lines resources_response)
  end.

Definition chat_resources_stage (prompts : gmap pystr pystr)
    (clean_text links : json) : M W (list pystr) :=
  resources_template <-
    template prompts "P5_RESOURCES_FACT"
      (u "По чистому тексту выдай список упомянутых ресурсов/ссылок. Текст: <<<clean_text>>>") ;;
  (if truthy links then join_check links else ret tt) ;;;
  resources_prompt <-
    replace_value resources_template (u "<<<clean_text>>>") clean_text ;;
  log true "INFO" "ai_chat" (u "Запрос 5: Ресурсы") [] ;;;
  response5 <- request resources_prompt ;;
  resources_response <- text_strip response5 ;;
  chat_resources_of resources_response.

(** The [try] block: the five requests, one after the other, and the
    closing log line, whose arguments [len(results["clean_text"])] and
    [len(results["links"])] are taken of decoded values.  The wall-clock
    entries of that line are left out. *)
Definition five_requests (prompts : gmap pystr pystr)
    (transcript_text : pystr) : M W chat_results :=
  cl <- chat_clean prompts transcript_text ;;
  let '(clean_text, links) := cl in
  full_summary <- chat_full prompts clean_text ;;
  middle_summary <- chat_middle prompts clean_text ;;
  short_summary <- chat_short prompts clean_text ;;
  resources <- chat_resources_stage prompts clean_text links ;;
  clean_len <- len_value clean_text ;;
  links_count <- len_value links ;;
  log true "INFO" "ai_chat"
    (u "Независимая обработка с Notion промтами завершена")
    [(u "clean_len", str_of_int clean_len);
     (u "links_count", str_of_int links_count);
     (u "resources_count", str_of_int (len resources))] ;;;
  ret {| clean_text := clean_text; chat_links := links;
         full_summary := full_summary; middle_summary := middle_summary;
         short_summary := short_summary; chat_resources := resources;
         chat_err := None |}.

Definition process_transcript_chat (transcript_text : pystr)
    : M W chat_results :=
  log true "INFO" "ai_chat"
    (u "Начинаем независимую AI обработку с промтами из Notion")
    [(u "input_len", str_of_int (len transcript_text))] ;;;
  client <- lift init_chat_client ;;
  if negb client then
    ret (failed_results (u "no_client")
           (u "Не удалось инициализировать AI клиент"))
  else
    prompts <- lift load_prompts_from_notion ;;
    if bool_decide (prompts = ∅) then
      log true "ERROR" "ai_chat"
        (u "Не удалось загрузить промты из Notion") [] ;;;
      ret (failed_results (u "no_prompts")
             (u "Не удалось загрузить промты из Notion"))
    else
      try_except (five_requests prompts transcript_text)
        (fun e =>
           log true "ERROR" "ai_chat"
             (u "Ошибка независимой обработки с Notion промтами")
             [(u "error", str_of_exn e)] ;;;
           ret (failed_results (u "processing_error") (str_of_exn e))).

End AiChat.

(** A collaborator that follows a script: the outcome of its [n]-th call
    is [outcomes n], and the world is the number of calls made so far. *)
Definition scripted {A} (outcomes : nat -> A + exn) : M nat A :=
  ext (fun n => (outcomes n, S n)).

(** Whether an outcome is a failure that [retry_on_503] retries. *)
Definition transient {A} (lib : pylib) (o : A + exn) : bool :=
  match o with
  | inr e => is_503_error lib e
  | inl _ => false
  end.

(** ** Data for the examples *)

(** Two submissions. *)
Definition sub_a : submission :=
  (u "https://youtu.be/aaa", u "42", {| datetime_now := 100; time_time := 100 |}).
Definition sub_b : submission :=
  (u "https://youtu.be/bbb", u "43", {| datetime_now := 101; time_time := 101 |}).

(** The one JSON text the examples decode. *)
Definition clean_answer : pystr :=
  u "{" ++ QUOTE ++ u "clean" ++ QUOTE ++ u ": " ++ QUOTE ++ u "talk"
    ++ QUOTE ++ u ", " ++ QUOTE ++ u "links" ++ QUOTE ++ u ": [" ++ QUOTE
    ++ u "https://a.example" ++ QUOTE ++ u "]}".

(** A library for the examples: [json.loads] on [clean_answer] and on texts
    that hold no JSON value, [str.lower] on ASCII text. *)
Definition example_lib : pylib :=
  {| json_loads := fun s =>
       if bool_decide (s = clean_answer)
       then inl (JDict [(u "clean", JStr (u "talk"));
                        (u "links", JList [JStr (u "https://a.example")])])
       else inr (u "Expecting value: line 1 column 1 (char 0)");
     py_str := fun _ => [];
     lower := map (fun c => if ((65 <=? c) && (c <=? 90))%N
                            then (c + 32)%N else c) |}.

(** A model whose every answer is the text [t]. *)
Definition answering (t : pystr) : Z -> pystr -> nat -> (model_result + exn) * nat :=
  fun _ _ n => (inl {| ok := true; text := t; error := None |}, S n).

(** A SHORT answer of 311 characters whose only space is character 251
    (index 250). *)
Definition short_answer_250 : pystr :=
  replicate 250 97%N ++ [SPACE] ++ replicate 60 98%N.

(** A SHORT answer of 311 characters whose last space within the first 300
    is at index 270. *)
Definition short_answer_270 : pystr :=
  replicate 270 97%N ++ [SPACE] ++ replicate 40 98%N.

(** The initial process of the examples: no call made yet. *)
Definition p0 : process nat := Process 0%nat url_queue [] [] [].

(** A MIDDLE answer with eleven sentence-terminal marks and one sentence. *)
Definition middle_answer_marks : pystr := u "Wait..........!".

(** A MIDDLE answer of twelve sentences. *)
Definition middle_answer_twelve : pystr :=
  u "One. Two! Three? Four. Five. Six. Seven. Eight. Nine. Ten. Eleven. Twelve.".

(** A chat client for the examples: a client is obtained, one prompt is
    loaded, and the [n]-th request is answered by the [n]-th text of
    [answers]; the world is the number of requests sent. *)
Definition chat_init : nat -> bool * nat := fun n => (true, n).
Definition chat_prompts : nat -> gmap pystr pystr * nat :=
  fun n => ({[ u "P1_CLEAN" := u "Clean this: <<<transcript>>>" ]}, n).
Definition chat_send (answers : list pystr)
    : pystr -> pystr -> nat -> (option pystr + exn) * nat :=
  fun _ _ n => (inl (Some (nth n answers [])), S n).
Definition chat_config : ai_config :=
  {| model_primary := None; cfg_max_retries := None; cfg_backoff_ms := None |}.

(** Five answers that hold no JSON. *)
Definition answers_plain : list pystr :=
  [u "Sorry, no JSON here"; u "A full summary"; u "A middle summary";
   u "Title" ++ [NEWLINE] ++ u "A short summary"; u "nothing found"].

(** Five answers of which the first is [clean_answer], with one link, and
    the last names the same resource on two lines. *)
Definition answers_links : list pystr :=
  [clean_answer; u "A full summary"; u "A middle summary";
   u "Title" ++ [NEWLINE] ++ u "A short summary";
   u "https://b.example/docs" ++ [NEWLINE] ++ u "https://b.example/docs"].

(** A model for [run_clean] whose [n]-th answer is the [n]-th text of
    [answers]. *)
Definition answering_in_turn (answers : list pystr)
    : Z -> pystr -> nat -> (model_result + exn) * nat :=
  fun _ _ n => (inl {| ok := true; text := nth n answers []; error := None |},
                S n).

(** Three scripts for a function passed to [retry_on_503]: two overload
    errors and then an answer; an overload error on every call; an error
    that is not an overload. *)
Definition flaky (n : nat) : pystr + exn :=
  match n with
  | 0%nat => inr (Raised (u "503 UNAVAILABLE"))
  | 1%nat => inr (Raised (u "503 The model is overloaded"))
  | _ => inl (u "pong")
  end.
Definition always_503 (n : nat) : pystr + exn :=
  inr (Raised (u "503 UNAVAILABLE. Please try again later. #" ++ str_of_int (Z.of_nat n))).
Definition unauthorized (n : nat) : pystr + exn :=
  inr (Raised (u "401 Unauthorized")).

(** ** [url_queue.py]: the remaining methods *)

(** The scan of [get_position]: [enumerate] counts from [i]. *)
Fixpoint find_position (waiting : list UrlTask) (tid : pystr) (i : Z)
  : option Z :=
  match waiting with
  | [] => None
  | task :: rest =>
      if bool_decide (task_id task = tid) then Some (i + 1)%Z
      else find_position rest tid (i + 1)%Z
  end.

Definition get_position (q : UrlQueue) (tid : pystr) : option Z :=
  find_position (_queue q) tid 0.

(** [self._queue.pop(i)] at the first [i] whose task has the id. *)
Fixpoint pop_task (waiting : list UrlTask) (tid : pystr)
  : option (UrlTask * list UrlTask) :=
  match waiting with
  | [] => None
  | task :: rest =>
      if bool_decide (task_id task = tid) then Some (task, rest)
      else match pop_task rest tid with
           | Some (found, rest') => Some (found, task :: rest')
           | None => None
           end
  end.

(** The dictionary [remove_task] returns; [removed_task] holds the [url]
    and the [source] of the task. *)
Record remove_result := {
  remove_success : bool;
  remove_message : pystr;
  removed_task : option (pystr * pystr)
}.

Definition remove_task (q : UrlQueue) (tid : pystr)
  : remove_result * UrlQueue :=
  match pop_task (_queue q) tid with
  | Some (removed, rest) =>
      ({| remove_success := true;
          remove_message := u "Задача " ++ tid ++ u " удалена из очереди";
          removed_task := Some (url removed, source removed) |},
       {| max_size := max_size q;
          _queue := rest;
          _processing_task := _processing_task q |})
  | None =>
      ({| remove_success := false;
          remove_message := u "Задача " ++ tid ++ u " не найдена в очереди";
          removed_task := None |}, q)
  end.

(** One call of a method that may change the queue, and a run of such
    calls on one queue. *)
Inductive queue_call :=
| call_add_url (url source : pystr) (ck : clock)
| call_get_next_url
| call_mark_completed (tid : pystr)
| call_clear_queue
| call_remove_task (tid : pystr).

Definition queue_step (q : UrlQueue) (c : queue_call) : UrlQueue :=
  match c with
  | call_add_url url source ck => (add_url q url source ck).2
  | call_get_next_url => (get_next_url q).2
  | call_mark_completed tid => (mark_completed q tid).2
  | call_clear_queue => (clear_queue q).2
  | call_remove_task tid => (remove_task q tid).2
  end.

Definition queue_run (q : UrlQueue) (calls : list queue_call) : UrlQueue :=
  foldl queue_step q calls.

(** ** [telegram_output.py]: [split_long_message] *)

Module TelegramOutput.

(** [s.rstrip('\n')] *)
Fixpoint rstrip_newlines (s : pystr) : pystr :=
  match s with
  | [] => []
  | c :: r =>
      match rstrip_newlines r with
      | [] => if (c =? NEWLINE)%N then [] else [c]
      | r' => c :: r'
      end
  end.

(** The body of [for line in lines]; the state is
    [(parts, current_part)]. *)
Definition split_line (max_length : Z) (st : list pystr * pystr)
    (line : pystr) : list pystr * pystr :=
  let '(parts, current_part) := st in
  if (len current_part + len line + 1 >? max_length)%Z
     && nonempty current_part
  then (parts ++ [rstrip_newlines current_part], line)
  else if nonempty current_part
       then (parts, current_part ++ [NEWLINE] ++ line)
       else (parts, line).

(** [[part[i:i+step] for i in range(i, len(part), step)]] for a positive
    [step]; [fuel] bounds the number of rounds. *)
Fixpoint chunks_from (fuel : nat) (part : pystr) (i step : nat)
  : list pystr :=
  match fuel with
  | O => []
  | S fuel' =>
      if (i <? length part)%nat
      then take step (drop i part) :: chunks_from fuel' part (i + step) step
      else []
  end.

(** What one [part] adds to [final_parts].  [range(0, n, 0)] raises a
    [ValueError]; [range(0, n, step)] with a negative [step] and [0 < n]
    is empty. *)
Definition hard_split (max_length : Z) (part : pystr) : list pystr + exn :=
  if (len part <=? max_length)%Z then inl [part]
  else if (max_length =? 0)%Z
       then inr (Raised (u "range() arg 3 must not be zero"))
       else if (max_length <? 0)%Z then inl []
            else inl (chunks_from (length part) part 0 (Z.to_nat max_length)).

Fixpoint final_parts (max_length : Z) (parts final : list pystr)
  : list pystr + exn :=
  match parts with
  | [] => inl final
  | part :: rest =>
      match hard_split max_length part with
      | inl pieces => final_parts max_length rest (final ++ pieces)
      | inr e => inr e
      end
  end.

Definition split_long_message (text : pystr) (max_length : Z)
  : list pystr + exn :=
  if (len text <=? max_length)%Z then inl [text]
  else
    let '(parts, current_part) :=
      foldl (split_line max_length) ([], []) (split NEWLINE text) in
    let parts :=
      if nonempty current_part then parts ++ [current_part] else parts in
    final_parts max_length parts [].

(** *** Sending *)

(** [split_long_message] called from code that runs in the process. *)
Definition returned {W A} (r : A + exn) : M W A :=
  match r with inl a => ret a | inr e => raise e end.

Definition HTML_BREAK : pystr := [NEWLINE; NEWLINE].

Section Sending.
Context {W : Type}.
Variable lib : pylib.
(** [config.get('telegram', {}).get('bot_token')], for a configuration
    whose [telegram] entry, if there is one, is a dictionary, and whose
    token, if there is one, is a string. *)
Variable bot_token : option pystr.
(** [requests.post(url, json=payload, timeout=10).json()] for the payload
    made of [chat_id], [text] and the parse mode [HTML]. *)
Variable requests_post : pystr -> pystr -> pystr -> W -> (json + exn) * W.
(** whether a [log_func] was passed *)
Variable log_func : bool.

Definition send_telegram_message (chat_id text : pystr) : M W bool :=
  match bot_token with
  | Some (c :: token) =>
      let url := u "https://api.telegram.org/bot" ++ (c :: token)
                   ++ u "/sendMessage" in
      try_except
        (log log_func "INFO" "telegram_output" (u "Отправляем сообщение")
           [(u "chat_id", chat_id); (u "text_preview", slice_to text 50)] ;;;
         result <- ext (requests_post url chat_id text) ;;
         is_ok <- dict_get result (u "ok") JNull ;;
         if truthy is_ok then
           (if log_func then
              answer <- dict_get result (u "result") (JDict []) ;;
              message_id <- dict_get answer (u "message_id") JNull ;;
              log true "INFO" "telegram_output"
                (u "Сообщение отправлено успешно")
                [(u "message_id", py_str lib message_id)]
            else ret tt) ;;;
           ret true
         else
           (if log_func then
              description <- dict_get result (u "description") JNull ;;
              log true "ERROR" "telegram_output"
                (u "Ошибка отправки сообщения")
                [(u "error", py_str lib description)]
            else ret tt) ;;;
           ret false)
        (fun e =>
           log log_func "ERROR" "telegram_output"
             (u "Исключение при отправке") [(u "error", str_of_exn e)] ;;;
           ret false)
  | _ =>
      log log_func "ERROR" "telegram_output"
        (u "Отсутствует bot_token в конфигурации") [] ;;;
      ret false
  end.

(** [for msg in msgs: if not send_telegram_message(config, chat_id, msg,
    log_func): success = False], the loop of [send_formatted_message] and
    of [telegram_main.send_telegram_summaries]. *)
Fixpoint send_each (chat_id : pystr) (msgs : list pystr) (success : bool)
  : M W bool :=
  match msgs with
  | [] => ret success
  | msg :: rest =>
      sent <- send_telegram_message chat_id msg ;;
      send_each chat_id rest (if sent then success else false)
  end.

(** The loop of [send_telegram_messages]: [i] counts the texts sent so
    far and [n] is [len(texts)]. *)
Fixpoint send_telegram_messages_from (chat_id : pystr) (texts : list pystr)
    (i n : Z) (success : bool) : M W bool :=
  match texts with
  | [] => ret success
  | text :: rest =>
      sent <- send_telegram_message chat_id text ;;
      (if sent then ret tt
       else log log_func "ERROR" "telegram_output"
              (u "Ошибка отправки сообщения " ++ str_of_int (i + 1)
                 ++ u "/" ++ str_of_int n) []) ;;;
      sleep_ms 100 ;;;
      send_telegram_messages_from chat_id rest (i + 1) n
        (if sent then success else false)
  end.

Definition send_telegram_messages (chat_id : pystr) (texts : list pystr)
  : M W bool :=
  send_telegram_messages_from chat_id texts 0 (len texts) true.

(** [f"<b>{part_title}</b>\n\n{part}"] for the part at index [i] of [n]. *)
Definition formatted_part (title : pystr) (n : Z) (i : nat) (part : pystr)
  : pystr :=
  let part_title :=
    if (n >? 1)%Z
    then title ++ u " (часть " ++ str_of_int (Z.of_nat i + 1) ++ u "/"
           ++ str_of_int n ++ u ")"
    else title in
  u "<b>" ++ part_title ++ u "</b>" ++ HTML_BREAK ++ part.

Definition send_formatted_message (chat_id title content : pystr)
  : M W bool :=
  let max_length := 4000%Z in
  let formatted_text := u "<b>" ++ title ++ u "</b>" ++ HTML_BREAK ++ content in
  if (len formatted_text >? max_length)%Z then
    content_parts <-
      returned (split_long_message content
                  (max_length - len (u "<b>" ++ title ++ u "</b>" ++ HTML_BREAK)
                   - 20)) ;;
    send_each chat_id
      (imap (formatted_part title (len content_parts)) content_parts) true
  else send_telegram_message chat_id formatted_text.

Definition send_confirmation_message (chat_id original_text : pystr)
  : M W bool :=
  send_telegram_message chat_id (u "Обрабатываем - " ++ original_text).

Definition send_result_message (chat_id original_text : pystr) : M W bool :=
  send_telegram_message chat_id (original_text ++ u " обработан").

Definition send_error_message (chat_id error_text : pystr) : M W bool :=
  send_telegram_message chat_id (u "❌ Ошибка: " ++ error_text).

End Sending.

End TelegramOutput.

(** ** [telegram_main.py]: [send_telegram_summaries] *)

Module TelegramMain.
Section Summaries.
Context {W : Type}.
Variable lib : pylib.
Variable bot_token : option pystr.
Variable requests_post : pystr -> pystr -> pystr -> W -> (json + exn) * W.
Variable log_func : bool.

Local Abbreviation send_telegram_message :=
  (TelegramOutput.send_telegram_message lib bot_token requests_post log_func).
Local Abbreviation send_each :=
  (TelegramOutput.send_each lib bot_token requests_post log_func).

(** The message of the part at index [i] of [n] parts of a summary. *)
Definition part_message (title : pystr) (n : Z) (i : nat) (part : pystr)
  : pystr :=
  if (n >? 1)%Z
  then u "<b>" ++ title ++ u " (часть " ++ str_of_int (Z.of_nat i + 1)
         ++ u "/" ++ str_of_int n ++ u "):</b>" ++ TelegramOutput.HTML_BREAK
         ++ part
  else u "<b>" ++ title ++ u ":</b>" ++ TelegramOutput.HTML_BREAK ++ part.

(** The middle and the full summary are sent by the same code, under
    their two titles. *)
Definition send_in_parts (chat_id title summary : pystr) (success : bool)
  : M W bool :=
  if nonempty summary then
    parts <- TelegramOutput.returned
               (TelegramOutput.split_long_message summary 4000) ;;
    send_each chat_id (imap (part_message title (len parts)) parts) success
  else ret success.

Definition send_whole (chat_id title summary : pystr) (success : bool)
  : M W bool :=
  if nonempty summary then
    send_each chat_id
      [u "<b>" ++ title ++ u ":</b>" ++ TelegramOutput.HTML_BREAK ++ summary]
      success
  else ret success.

Definition FINAL_MSG : pystr := u "✅ Все саммари отправлены!".

Definition send_telegram_summaries (chat_id : pystr) (s : summaries)
  : M W bool :=
  success <- send_whole chat_id (u "Краткое саммари") (short s) true ;;
  success <- send_in_parts chat_id (u "Среднее саммари") (middle s) success ;;
  success <- send_in_parts chat_id (u "Полное саммари") (full s) success ;;
  success <- send_whole chat_id (u "Ресурсы") (resources s) success ;;
  send_telegram_message chat_id FINAL_MSG ;;;
  (if success
   then log log_func "INFO" "telegram_main"
          (u "Все саммари отправлены успешно") []
   else log log_func "ERROR" "telegram_main"
          (u "Ошибка отправки некоторых саммари") []) ;;;
  ret success.

End Summaries.
End TelegramMain.

(** A transport that keeps a journal: each request is written down with
    the answer it got. *)
Record journal_entry := {
  req_url : pystr;
  req_chat_id : pystr;
  req_text : pystr;
  req_answer : json + exn
}.

Definition journaled {W}
    (post : pystr -> pystr -> pystr -> W -> (json + exn) * W)
  : pystr -> pystr -> pystr -> W * list journal_entry
    -> (json + exn) * (W * list journal_entry) :=
  fun url0 chat_id text0 wj =>
    let '(answer, w) := post url0 chat_id text0 wj.1 in
    (answer,
     (w, wj.2 ++ [{| req_url := url0; req_chat_id := chat_id;
                     req_text := text0; req_answer := answer |}])).

(** The address [send_telegram_message] posts to. *)
Definition sendMessage_url (token : pystr) : pystr :=
  u "https://api.telegram.org/bot" ++ token ++ u "/sendMessage".

(** The answers of the Bot API on which [send_telegram_message] returns
    [True]: a dictionary with a true [ok], whose [result], when a
    [log_func] is passed, is a dictionary or is missing. *)
Definition delivered (log_func : bool) (answer : json + exn) : bool :=
  match answer with
  | inl (JDict d) =>
      truthy (from_option id JNull (assoc d (u "ok")))
      && (negb log_func
          || match assoc d (u "result") with
             | None | Some (JDict _) => true
             | Some _ => false
             end)
  | _ => false
  end.

(** ** [yt_processor.py]: the URL and the run id *)

Module YtProcessor.

(** [[a-zA-Z0-9_-]] *)
Definition id_char (c : char) : bool :=
  ((97 <=? c) && (c <=? 122) || (65 <=? c) && (c <=? 90)
   || (48 <=? c) && (c <=? 57) || (c =? 95) || (c =? 45))%N.

(** A literal prefix followed by at least one character of a class: what
    [re.match] needs of each of the patterns below. *)
Definition starts_then (prefix : pystr) (class : char -> bool) (s : pystr)
  : bool :=
  startswith s prefix
  && match drop (length prefix) s with
     | c :: _ => class c
     | [] => false
     end.

Section Validate.
(** [\w] of [re] on a [str]: the characters Unicode counts as
    alphanumeric, and the underscore. *)
Variable word_char : char -> bool.

(** [re.match(r'^https?://(?:opt)?host[\w-]+', s)], where [opt] and [host]
    are literals. *)
Definition re_match_url (opt host : pystr) (s : pystr) : bool :=
  existsb (fun prefix =>
             starts_then (prefix ++ host)
               (fun c => word_char c || (c =? 45)%N) s)
    [u "https://" ++ opt; u "https://"; u "http://" ++ opt; u "http://"].

Definition youtube_patterns : list (pystr * pystr) :=
  [(u "www.", u "youtube.com/watch?v=");
   (u "www.", u "youtu.be/");
   (u "m.", u "youtube.com/watch?v=");
   (u "music.", u "youtube.com/watch?v=")].

Definition validate_youtube_url (url0 : pystr) : bool :=
  if nonempty url0
  then existsb (fun pattern => re_match_url pattern.1 pattern.2 (strip url0))
         youtube_patterns
  else false.

End Validate.

(** [([a-zA-Z0-9_-]+)], greedy. *)
Fixpoint id_run (s : pystr) : pystr :=
  match s with
  | c :: r => if id_char c then c :: id_run r else []
  | [] => []
  end.

(** One alternative of a pattern, tried at the start of [s]: the literal
    and then the group. *)
Definition id_after (marker : pystr) (s : pystr) : option pystr :=
  if startswith s marker
  then match id_run (drop (length marker) s) with
       | [] => None
       | found => Some found
       end
  else None.

Fixpoint first_alternative (markers : list pystr) (s : pystr)
  : option pystr :=
  match markers with
  | [] => None
  | marker :: others =>
      match id_after marker s with
      | Some found => Some found
      | None => first_alternative others s
      end
  end.

(** [re.search(r'(?:m1|m2|...)([a-zA-Z0-9_-]+)', s)] and [group(1)] of
    its match: the leftmost position at which an alternative matches. *)
Fixpoint re_search_id (markers : list pystr) (s : pystr) : option pystr :=
  match first_alternative markers s with
  | Some found => Some found
  | None =>
      match s with
      | [] => None
      | _ :: r => re_search_id markers r
      end
  end.

Definition extract_video_id (url0 : pystr) : option pystr :=
  match re_search_id [u "youtube.com/watch?v="; u "youtu.be/";
                      u "youtube.com/embed/"] url0 with
  | Some found => Some found
  | None => re_search_id [u "youtube.com/v/"] url0
  end.

(** [f"{n:02d}"] for a minute or a second. *)
Definition two_digits (n : Z) : pystr :=
  if (n <? 10)%Z then u "0" ++ str_of_int n else str_of_int n.

(** [hash] is the interpreter's hash of a [str]; [minute] and [second]
    are read from [datetime.datetime.now()]. *)
Definition generate_run_id (hash : pystr -> Z) (minute second : Z)
    (video_id : pystr) : Z :=
  let combined := video_id ++ u "_" ++ two_digits minute ++ u ":"
                    ++ two_digits second in
  Z.land (hash combined) 2147483647.

End YtProcessor.

(** ** [transcribe_mod.py]: the rotation of the API keys *)

Module Transcribe.

(** The exceptions this module tells apart: [ValueError] with its code,
    the [SupadataError] of the SDK with its [error] and [message] fields,
    and any other exception; the last two carry their [str()]. *)
Inductive error :=
| ValueError (code : pystr)
| SupadataError (err message text : pystr)
| OtherError (text : pystr).

Definition str_of_error (e : error) : pystr :=
  match e with
  | ValueError code => code
  | SupadataError _ _ text => text
  | OtherError text => text
  end.

(** The dictionary a fetch returns; its [meta] entry is read by no
    caller and is left out. *)
Record transcript := { content : pystr; lang : pystr }.

(** A computation of this module: it returns or raises an [error], and
    changes the process. *)
Definition T (W A : Type) : Type := process W -> (A + error) * process W.

Definition tret {W A} (a : A) : T W A := fun p => (inl a, p).
Definition traise {W A} (e : error) : T W A := fun p => (inr e, p).
Definition tbind {W A B} (c : T W A) (k : A -> T W B) : T W B :=
  fun p => match c p with
           | (inl a, p1) => k a p1
           | (inr e, p1) => (inr e, p1)
           end.
(** [try: c  except ... as e: h e], where [h] re-raises what no clause
    catches. *)
Definition tcatch {W A} (c : T W A) (h : error -> T W A) : T W A :=
  fun p => match c p with
           | (inl a, p1) => (inl a, p1)
           | (inr e, p1) => h e p1
           end.
(** [log(level, module, msg, **kv)]: the callback is a required argument
    here. *)
Definition tlog {W} (lv : string) (ms : pystr) (kvs : list (pystr * pystr))
  : T W unit :=
  fun p => (inl tt, (log true lv "transcribe_mod" ms kvs p).2).
Definition text {W A} (f : W -> (A + error) * W) : T W A :=
  fun p => let '(r, w) := f (world p) in
           (r, Process w (the_queue p) (slept p) (logged p) (marks p)).

Declare Scope transcribe_scope.
Notation "x <- c ;; k" := (tbind c (fun x => k))
  (at level 62, c at next level, right associativity) : transcribe_scope.
Notation "c ;;; k" := (tbind c (fun _ => k))
  (at level 62, right associativity) : transcribe_scope.
Local Open Scope transcribe_scope.

Section FetchTranscript.
Context {W : Type}.
Variable lib : pylib.

(** What [client.transcript(...)] returns: an object with [content] (and
    [lang]), an object with a [job_id], or anything else. *)
Inductive sdk_answer :=
| Sync (content lang : pystr)
| Job (job_id : pystr)
| Unexpected.

(** [Supadata(api_key=api_key).transcript(url=url, text=True, mode=mode)] *)
Variable client_transcript :
  pystr -> pystr -> pystr -> W -> (sdk_answer + error) * W.
(** [_poll_sdk_job(client, job_id, timeout_sec, log)], the polling loop
    that watches the clock; the client is named by its key. *)
Variable _poll_sdk_job : pystr -> pystr -> T W transcript.
(** Whether the logging callback names its third parameter [message],
    as the default callback of [process_youtube_url] does
    ([lambda level, module, message, **kwargs: None]); [log_mod.log] names
    it [msg].  For such a callback the keyword [message=] of a call is a
    [TypeError]: the parameter gets two values. *)
Variable log_names_message : bool.

Definition _fetch_with_sdk (url0 api_key mode : pystr) : T W transcript :=
  tcatch
    (answer <- text (client_transcript url0 api_key mode) ;;
     tlog "INFO" (u "Получен ответ от Supadata SDK") [] ;;;
     match answer with
     | Sync content0 lang0 =>
         tlog "INFO" (u "Транскрипт получен успешно (синхронно)")
           [(u "lang", lang0);
            (u "content_length", str_of_int (len content0))] ;;;
         tret {| content := content0; lang := lang0 |}
     | Job job_id =>
         tlog "INFO" (u "Получен job_id, ожидаем завершения")
           [(u "job_id", job_id)] ;;;
         _poll_sdk_job api_key job_id
     | Unexpected =>
         tlog "ERROR" (u "Неожиданный формат ответа от SDK") [] ;;;
         traise (ValueError (u "unexpected_response_format"))
     end)
    (fun e =>
       match e with
       | SupadataError err message _ =>
           (if log_names_message
            then traise (OtherError
                           (u "<lambda>() got multiple values for argument 'message'"))
            else tlog "ERROR" (u "Ошибка Supadata SDK")
                   [(u "error_code", err); (u "message", message)]) ;;;
           if contains (lower lib err) (u "unauthorized")
              || contains (lower lib err) (u "authentication")
           then traise (ValueError (u "unauthorized"))
           else if contains (lower lib err) (u "rate")
                   || contains (lower lib err) (u "limit")
           then traise (ValueError (u "rate_limited"))
           else if contains (lower lib err) (u "invalid")
                   && contains (lower lib message) (u "url")
           then traise (ValueError (u "bad_url"))
           else traise (ValueError (u "server_error"))
       | _ =>
           tlog "ERROR" (u "Неожиданная ошибка SDK")
             [(u "error", str_of_error e)] ;;;
           traise (ValueError (u "sdk_error"))
       end).

(** [_fetch_with_sdk] or [_fetch_with_http], by the key. *)
Variable fetch : pystr -> T W transcript.

(** The loop [for i, api_key in enumerate(api_keys)] and what follows
    it; [n] is [len(api_keys)]. *)
Fixpoint try_keys (keys : list pystr) (i n : Z) : T W transcript :=
  match keys with
  | [] =>
      tlog "ERROR" (u "Все API ключи исчерпаны") [] ;;;
      traise (ValueError (u "all_keys_failed"))
  | api_key :: rest =>
      tlog "DEBUG"
        (u "Пробуем API ключ " ++ str_of_int (i + 1) ++ u "/" ++ str_of_int n)
        [] ;;;
      tcatch (fetch api_key)
        (fun e =>
           match e with
           | ValueError error_code =>
               if (bool_decide (error_code = u "unauthorized")
                   || bool_decide (error_code = u "rate_limited"))
                  && (i <? n - 1)%Z
               then
                 tlog "WARN"
                   (u "Ошибка с ключом " ++ str_of_int (i + 1)
                      ++ u ", пробуем следующий")
                   [(u "error", error_code)] ;;;
                 try_keys rest (i + 1) n
               else traise e
           | _ =>
               tlog "ERROR"
                 (u "Неожиданная ошибка с ключом " ++ str_of_int (i + 1))
                 [(u "error", str_of_error e)] ;;;
               if (i <? n - 1)%Z then try_keys rest (i + 1) n
               else traise (ValueError (u "unexpected_error"))
           end)
  end.

(** [api_keys] and [mode] are read from [config['supadata']]. *)
Definition fetch_transcript (url0 : pystr) (api_keys : list pystr)
    (mode : pystr) : T W transcript :=
  match api_keys with
  | [] =>
      tlog "ERROR" (u "Нет API ключей в конфигурации") [] ;;;
      traise (ValueError (u "no_api_keys"))
  | _ =>
      tlog "INFO" (u "Начинаем запрос транскрипта")
        [(u "url", url0); (u "mode", mode)] ;;;
      try_keys api_keys 0 (len api_keys)
  end.

End FetchTranscript.
End Transcribe.

(** A fetch whose outcome depends on the key alone, in a world that
    notes the keys it is given; and the outcomes after which
    [fetch_transcript] goes on to the next key, when there is one. *)
Definition keyed_fetch (outcome : pystr -> Transcribe.transcript + Transcribe.error)
  : pystr -> Transcribe.T (list pystr) Transcribe.transcript :=
  fun key => Transcribe.text (fun tried => (outcome key, tried ++ [key])).

Definition rotates (o : Transcribe.transcript + Transcribe.error) : bool :=
  match o with
  | inl _ => false
  | inr (Transcribe.ValueError error_code) =>
      bool_decide (error_code = u "unauthorized")
      || bool_decide (error_code = u "rate_limited")
  | inr _ => true
  end.

(** ** [notion_mod.py]: writing the properties of a page *)

(** [l[n:]] for an [int] [n]: a negative [n] counts from the end. *)
Definition slice_from {A} (l : list A) (n : Z) : list A :=
  if (0 <=? n)%Z then drop (Z.to_nat n) l
  else drop (Z.to_nat (len l + n)) l.

Module Notion.
Section Writes.
Context {W : Type}.
(** whether [client] is a [Client] (and not [None]) *)
Variable client : bool.
(** [client.pages.update(page_id=..., properties={name: {"rich_text":
    [{"text": {"content": content}}]}})] *)
Variable pages_update : pystr -> pystr -> pystr -> W -> (unit + exn) * W.
(** [client.pages.retrieve(page_id=...)['parent']['database_id']] *)
Variable pages_retrieve_database_id : pystr -> W -> (pystr + exn) * W.
(** the names in
    [client.databases.retrieve(database_id=...).get('properties', {})] *)
Variable databases_retrieve_properties : pystr -> W -> (list pystr + exn) * W.
(** [client.databases.update(database_id=..., properties={name:
    definition})], with the type of the definition *)
Variable databases_update : pystr -> pystr -> pystr -> W -> (unit + exn) * W.

(** [not page_id] *)
Definition no_page (page_id : option pystr) : bool :=
  match page_id with Some (_ :: _) => false | _ => true end.

Definition set_rich_text (page_id : option pystr) (property_name : pystr)
    (text0 : option pystr) (max_len : Z) : M W bool :=
  if negb client || no_page page_id then ret false
  else
    let page := default [] page_id in
    try_except
      (let truncated_text := slice_to (default [] text0) max_len in
       ext (pages_update page property_name truncated_text) ;;;
       log true "INFO" "notion_mod"
         (u "Обновлено свойство " ++ property_name)
         [(u "page_id", page);
          (u "chars", str_of_int (len truncated_text) ++ u "/"
                        ++ str_of_int max_len)] ;;;
       ret true)
      (fun e =>
         log true "ERROR" "notion_mod"
           (u "Ошибка обновления свойства " ++ property_name)
           [(u "page_id", page); (u "error", str_of_exn e)] ;;;
         ret false).

Definition ensure_property_exists (database_id property_name
    property_type : pystr) : M W bool :=
  try_except
    (properties <- ext (databases_retrieve_properties database_id) ;;
     if bool_decide (property_name ∈ properties) then
       log true "INFO" "notion_mod"
         (u "Свойство " ++ property_name ++ u " уже существует") [] ;;;
       ret true
     else if bool_decide (property_type ∈ [u "rich_text"; u "title";
                                           u "number"; u "url"; u "date"])
     then
       ext (databases_update database_id property_name property_type) ;;;
       log true "INFO" "notion_mod"
         (u "Свойство " ++ property_name
            ++ u " успешно добавлено в базу данных") [] ;;;
       ret true
     else
       log true "ERROR" "notion_mod"
         (u "Неизвестный тип свойства: " ++ property_type) [] ;;;
       ret false)
    (fun e =>
       log true "ERROR" "notion_mod"
         (u "Ошибка при добавлении свойства " ++ property_name)
         [(u "error", str_of_exn e)] ;;;
       ret false).

(** [len(text)] raises a [TypeError] on [None]. *)
Definition text_len (text0 : option pystr) : M W Z :=
  match text0 with Some t => ret (len t) | None => raise TypeError end.

Definition set_rich_text_with_overflow (page_id : option pystr)
    (property_name : pystr) (text0 : option pystr) (max_len : Z)
    (overflow_property_name : pystr) : M W bool :=
  if negb client || no_page page_id then ret false
  else
    let page := default [] page_id in
    try_except
      (n <- text_len text0 ;;
       if (n <=? max_len)%Z
       then set_rich_text page_id property_name text0 max_len
       else
         let main_text := slice_to (default [] text0) max_len in
         let overflow_text := slice_from (default [] text0) max_len in
         success1 <- set_rich_text page_id property_name (Some main_text)
                       max_len ;;
         (if success1 then
            try_except
              (database_id <- ext (pages_retrieve_database_id page) ;;
               ensure_property_exists database_id overflow_property_name
                 (u "rich_text") ;;;
               ret tt)
              (fun e =>
                 log true "WARNING" "notion_mod"
                   (u "Не удалось получить database_id для проверки свойства")
                   [(u "error", str_of_exn e)])
          else ret tt) ;;;
         success2 <- set_rich_text page_id overflow_property_name
                       (Some overflow_text) max_len ;;
         ret (success1 && success2))
      (fun e =>
         log true "ERROR" "notion_mod"
           (u "Ошибка обновления свойства " ++ property_name
              ++ u " с переполнением")
           [(u "page_id", page); (u "error", str_of_exn e)] ;;;
         ret false).

(** [lines] is a list of strings, or [None]. *)
Definition set_materials (page_id : option pystr)
    (lines : option (list pystr)) (max_len : Z) : M W bool :=
  let body := join [NEWLINE] (default [] lines) in
  set_rich_text page_id (u "Материалы") (Some body) max_len.

End Writes.

Section Retrying.
Context {W A : Type}.
Variable lib : pylib.

Definition handle_api_error (e : exn) (operation : pystr) : M W bool :=
  let error_str := str_of_exn e in
  if contains error_str (u "401") || contains error_str (u "403")
     || contains (lower lib error_str) (u "unauthorized")
  then
    log true "ERROR" "notion_mod"
      (u "Ошибка авторизации при " ++ operation ++ u ", отключаю Notion")
      [(u "error", error_str)] ;;;
    ret true
  else if contains error_str (u "429")
          || contains (lower lib error_str) (u "rate_limit")
  then
    log true "WARNING" "notion_mod"
      (u "Rate limit при " ++ operation ++ u ", повторю позже")
      [(u "error", error_str)] ;;;
    ret false
  else if existsb (contains error_str) [u "500"; u "502"; u "503"; u "504"]
  then
    log true "WARNING" "notion_mod"
      (u "Серверная ошибка при " ++ operation ++ u ", повторю позже")
      [(u "error", error_str)] ;;;
    ret false
  else
    log true "ERROR" "notion_mod"
      (u "Неизвестная ошибка при " ++ operation) [(u "error", error_str)] ;;;
    ret false.

Variable func : M W A.
Variable operation : pystr.

(** What follows the loop of [retry_with_backoff]. *)
Definition exhausted (last_error : option exn) : M W (option A) :=
  log true "ERROR" "notion_mod"
    (u "Все попытки " ++ operation ++ u " исчерпаны")
    [(u "error", str_of_option (str_of_exn <$> last_error))] ;;;
  ret None.

(** The loop [for i, delay_ms in enumerate([0] + backoff_ms)]; [n] is
    [len(backoff_ms)]. *)
Fixpoint retry_rounds (delays : list Z) (i n : Z) (last_error : option exn)
  : M W (option A) :=
  match delays with
  | [] => exhausted last_error
  | delay_ms :: rest =>
      (if (delay_ms >? 0)%Z then
         sleep_ms delay_ms ;;;
         log true "INFO" "notion_mod"
           (u "Повтор " ++ str_of_int i ++ u "/" ++ str_of_int n ++ u " для "
              ++ operation ++ u " через " ++ str_of_int delay_ms ++ u "мс") []
       else ret tt) ;;;
      try_except (r <- func ;; ret (Some r))
        (fun e =>
           should_stop <- handle_api_error e operation ;;
           if should_stop then exhausted (Some e)
           else retry_rounds rest (i + 1) n (Some e))
  end.

Definition retry_with_backoff (backoff_ms : list Z) : M W (option A) :=
  retry_rounds (0%Z :: backoff_ms) 0 (len backoff_ms) None.

End Retrying.
End Notion.

(** A Notion that notes the page updates it is asked for, each with
    whether it went through; the other calls leave the notes alone. *)
Record page_update := {
  upd_page : pystr;
  upd_property : pystr;
  upd_content : pystr;
  upd_ok : bool
}.

Definition noting {W}
    (update : pystr -> pystr -> pystr -> W -> (unit + exn) * W)
  : pystr -> pystr -> pystr -> W * list page_update
    -> (unit + exn) * (W * list page_update) :=
  fun page name content0 wn =>
    let '(r, w) := update page name content0 wn.1 in
    (r, (w, wn.2 ++ [{| upd_page := page; upd_property := name;
                        upd_content := content0;
                        upd_ok := match r with inl _ => true | inr _ => false end |}])).

Definition aside {W N A} (f : W -> (A + exn) * W)
  : W * N -> (A + exn) * (W * N) :=
  fun wn => let '(r, w) := f wn.1 in (r, (w, wn.2)).

(** The errors on which [handle_api_error] asks to stop. *)
Definition auth_error (lib : pylib) (e : exn) : bool :=
  contains (str_of_exn e) (u "401") || contains (str_of_exn e) (u "403")
  || contains (lower lib (str_of_exn e)) (u "unauthorized").

(** ** [yt_processor.py]: [process_youtube_url] *)

Module YtPipeline.

(** The [summaries] entry of the result. *)
Record yt_summaries := {
  s_short : pystr;
  s_middle : json;
  s_full : pystr;
  s_resources : pystr
}.

(** The dictionary [process_youtube_url] returns.  The
    ['processing_time'] entry (wall-clock readings) is left out. *)
Record yt_result := {
  y_success : bool;
  y_error : option pystr;
  y_url : pystr;
  y_video_id : option pystr;
  y_run_id : option Z;
  y_transcript : option Transcribe.transcript;
  y_ai_results : option chat_results;
  y_summaries : option yt_summaries
}.

Definition failed (error_text url0 : pystr) (video_id : option pystr)
    (transcript_result : option Transcribe.transcript)
    (ai_results : option chat_results) : yt_result :=
  {| y_success := false; y_error := Some error_text; y_url := url0;
     y_video_id := video_id; y_run_id := None;
     y_transcript := transcript_result; y_ai_results := ai_results;
     y_summaries := None |}.

Section Pipeline.
Context {W : Type}.
(** [\w] of [re], the interpreter's [hash], and the minute and the second
    of [datetime.datetime.now()]. *)
Variable word_char : char -> bool.
Variable hash : pystr -> Z.
Variable now : W -> Z * Z.
(** [config['notion']]: [enabled] and [prop_max_len]. *)
Variable notion_enabled : bool.
Variable prop_max_len : Z.
(** [notion_mod.init_client(config, log_func)]: whether a client came
    back. *)
Variable init_client : M W bool.
(** [notion_mod.ensure_database(client, config, log_func)]: the [id] of
    the database, or [None]. *)
Variable ensure_database : M W (option pystr).
(** [notion_mod.upsert_page_for_run(client, db_id, run_id, url, None,
    created_at_iso, log_func)]: the id of the page, or [None]. *)
Variable upsert_page_for_run : pystr -> Z -> pystr -> M W (option pystr).
(** [notion_mod.set_rich_text(client, page_id, name, text, prop_max_len,
    log_func)] and [notion_mod.set_rich_text_with_overflow(client,
    page_id, name, text, prop_max_len, overflow_name, log_func)]; the
    text is whatever the AI stage left in the summary. *)
Variable set_rich_text : pystr -> pystr -> json -> Z -> M W bool.
Variable set_rich_text_with_overflow :
  pystr -> pystr -> json -> Z -> pystr -> M W bool.
(** [transcribe_mod.fetch_transcript(url, config, log_func)] *)
Variable fetch_transcript : pystr -> M W Transcribe.transcript.
(** [ai_chat.process_transcript_chat(text, config, log_func)] *)
Variable process_transcript_chat : pystr -> M W chat_results.
(** whether a [log_func] was passed (a missing one is replaced by a
    function that does nothing) *)
Variable log_func : bool.

(** [generate_run_id(video_id) if video_id else 0] *)
Definition run_id_of (video_id : option pystr) : M W Z :=
  match video_id with
  | Some (c :: v) =>
      fun p => (inl (YtProcessor.generate_run_id hash (now (world p)).1
                       (now (world p)).2 (c :: v)), p)
  | _ => ret 0%Z
  end.

(** The Notion page of the run: the client and the id of the page. *)
Definition open_notion_page (run_id : Z) (url0 : pystr)
  : M W (bool * option pystr) :=
  if notion_enabled then
    notion_client <- init_client ;;
    if notion_client then
      notion_db_info <- ensure_database ;;
      match notion_db_info with
      | Some db_id =>
          notion_page_id <- upsert_page_for_run db_id run_id url0 ;;
          ret (notion_client, notion_page_id)
      | None => ret (notion_client, None)
      end
    else ret (notion_client, None)
  else ret (false, None).

Definition save_to_notion (page : pystr) (s : yt_summaries) : M W unit :=
  try_except
    (set_rich_text page (u "Шорт саммари") (JStr (s_short s)) prop_max_len ;;;
     set_rich_text page (u "Мидл саммари") (s_middle s) prop_max_len ;;;
     set_rich_text_with_overflow page (u "Фулл саммари") (JStr (s_full s))
       prop_max_len (u "Большое саммари 2") ;;;
     set_rich_text page (u "Материалы") (JStr (s_resources s)) prop_max_len ;;;
     log log_func "INFO" "yt_processor" (u "Результаты сохранены в Notion")
       [(u "page_id", page)])
    (fun e =>
       log log_func "ERROR" "yt_processor"
         (u "Ошибка сохранения в Notion: " ++ str_of_exn e)
         [(u "error", str_of_exn e)]).

(** A step that may end the function with a result ([return] inside a
    [try]) or hand a value on. *)
Definition transcript_step (url0 : pystr) (video_id : option pystr)
  : M W (yt_result + Transcribe.transcript) :=
  try_except
    (transcript_result <- fetch_transcript url0 ;;
     if nonempty (Transcribe.content transcript_result)
     then ret (inr transcript_result)
     else ret (inl (failed (u "Ошибка в транскрибировании") url0 video_id
                      None None)))
    (fun e =>
       log log_func "ERROR" "yt_processor" (u "Ошибка транскрибации")
         [(u "error", str_of_exn e)] ;;;
       ret (inl (failed (u "Ошибка в транскрибировании") url0 video_id
                   None None))).

Definition ai_step (url0 : pystr) (video_id : option pystr)
    (transcript_result : Transcribe.transcript)
  : M W (yt_result + chat_results) :=
  try_except
    (ai_results <- process_transcript_chat
                     (Transcribe.content transcript_result) ;;
     match chat_err ai_results with
     | Some err =>
         log log_func "ERROR" "yt_processor" (u "Ошибка AI обработки")
           [(u "error", chat_detail err)] ;;;
         ret (inl (failed (chat_detail err) url0 video_id
                     (Some transcript_result) (Some ai_results)))
     | None => ret (inr ai_results)
     end)
    (fun e =>
       log log_func "ERROR" "yt_processor" (u "Исключение в AI обработке")
         [(u "error", str_of_exn e)] ;;;
       ret (inl (failed (u "Исключение в AI обработке: " ++ str_of_exn e)
                   url0 video_id (Some transcript_result) None))).

Definition process_youtube_url (url0 : pystr) : M W yt_result :=
  try_except
    (if negb (YtProcessor.validate_youtube_url word_char url0) then
       ret (failed (u "Некорректный YouTube URL") url0 None None None)
     else
       let video_id := YtProcessor.extract_video_id url0 in
       log log_func "INFO" "yt_processor" (u "Начинаем обработку")
         [(u "url", url0); (u "video_id", str_of_option video_id)] ;;;
       run_id <- run_id_of video_id ;;
       notion <- open_notion_page run_id url0 ;;
       log log_func "INFO" "yt_processor" (u "Получаем транскрипт") [] ;;;
       step <- transcript_step url0 video_id ;;
       match step with
       | inl result => ret result
       | inr transcript_result =>
           log log_func "INFO" "yt_processor" (u "Запускаем AI обработку") [] ;;;
           step <- ai_step url0 video_id transcript_result ;;
           match step with
           | inl result => ret result
           | inr ai_results =>
               let summaries :=
                 {| s_short := short_summary ai_results;
                    s_middle := middle_summary ai_results;
                    s_full := full_summary ai_results;
                    s_resources := join [NEWLINE] (chat_resources ai_results) |} in
               (match notion with
                | (true, Some (c :: page)) => save_to_notion (c :: page) summaries
                | _ => ret tt
                end) ;;;
               ret {| y_success := true; y_error := None; y_url := url0;
                      y_video_id := video_id; y_run_id := Some run_id;
                      y_transcript := Some transcript_result;
                      y_ai_results := Some ai_results;
                      y_summaries := Some summaries |}
           end
       end)
    (fun e =>
       log log_func "ERROR" "yt_processor" (u "Неожиданная ошибка в обработке")
         [(u "error", str_of_exn e)] ;;;
       ret (failed (u "Неожиданная ошибка: " ++ str_of_exn e) url0
              (if YtProcessor.validate_youtube_url word_char url0
               then YtProcessor.extract_video_id url0 else None)
              None None)).

End Pipeline.
End YtPipeline.

(** ** Postconditions of computations *)

(** Whenever [c] returns, what it returns satisfies [Q]. *)
Definition returns_with {W A} (c : M W A) (Q : A -> Prop) : Prop :=
  forall p, match (c p).1 with inl a => Q a | inr _ => True end.

(** ** [telegram_main.py]: [telegram_worker_loop] *)

Module TelegramLoop.

(** The objects of the Bot API the loop reads, as the API documents
    them: an update has an integer [update_id] and, optionally, a
    message; a message has a chat (whose id is kept as its [str()]) and,
    optionally, a text and a sender with a user name. *)
Record tg_message := {
  msg_text : option pystr;
  msg_chat_id : pystr;
  msg_username : option pystr
}.

Record tg_update := {
  upd_id : Z;
  upd_message : option tg_message
}.

Definition INVALID_MSG : pystr :=
  u "❌ Введите корректную YouTube ссылку" ++ [NEWLINE; NEWLINE]
    ++ u "Пример: https://www.youtube.com/watch?v=...".

Section Loop.
Context {W : Type}.
Variable word_char : char -> bool.
(** [datetime.now()] and [time.time()], read by [UrlTask]. *)
Variable clock_of : W -> clock.
(** [telegram_input.get_telegram_updates(config, offset)]: the [result]
    of an answer whose [ok] is true, [None] for any other answer (the
    function catches the exceptions of the request itself). *)
Variable get_telegram_updates : Z -> W -> option (list tg_update) * W.
Variable process_youtube_url : pystr -> W -> (url_result + exn) * W.
Variable send_telegram_message : pystr -> pystr -> W -> (bool + exn) * W.
Variable send_telegram_summaries : pystr -> summaries -> W -> (bool + exn) * W.
Variable log_func : bool.

(** [url_queue.url_queue.add_url(text, source=chat_id)] *)
Definition url_queue_add_url (url0 source0 : pystr) : M W add_result :=
  fun p => let '(r, q) := add_url (the_queue p) url0 source0
                            (clock_of (world p)) in
           (inl r, Process (world p) q (slept p) (logged p) (marks p)).

(** The body of the loop over the updates, after [last_update_id] has
    been set. *)
Definition handle_message (message0 : option tg_message) : M W unit :=
  match message0 with
  | Some {| msg_text := Some (c :: t); msg_chat_id := chat_id;
            msg_username := username |} =>
      let text0 := strip (c :: t) in
      log log_func "INFO" "telegram_main" (u "Получено сообщение")
        [(u "chat_id", chat_id); (u "text", text0);
         (u "username", default (u "unknown") username)] ;;;
      if negb (YtProcessor.validate_youtube_url word_char text0) then
        ext (send_telegram_message chat_id INVALID_MSG) ;;; ret tt
      else
        queue_result <- url_queue_add_url text0 chat_id ;;
        if success queue_result then
          let video_id := YtProcessor.extract_video_id text0 in
          ext (send_telegram_message chat_id
                 (u "📥 Принята ссылка: " ++ text0 ++ [NEWLINE]
                    ++ u "🆔 Видео: " ++ str_of_option video_id ++ [NEWLINE]
                    ++ u "📍 Позиция в очереди: "
                    ++ str_of_int (position queue_result)
                    ++ [NEWLINE; NEWLINE]
                    ++ u "⏳ Обработка начнется в ближайшее время...")) ;;;
          log log_func "INFO" "telegram_main" (u "URL добавлен в очередь")
            [(u "task_id", str_of_option (res_task_id queue_result));
             (u "position", str_of_int (position queue_result))]
        else
          ext (send_telegram_message chat_id
                 (u "🚫 " ++ message queue_result ++ [NEWLINE]
                    ++ u "⏳ Попробуйте позже")) ;;;
          ret tt
  | _ => ret tt
  end.

(** [for update in updates.get("result", [])]; [last_update_id] is a
    local variable of the loop function, so it keeps the value it had
    when an exception leaves the loop. *)
Fixpoint handle_updates (updates : list tg_update) (last_update_id : Z)
  : process W -> (unit + exn) * Z * process W :=
  match updates with
  | [] => fun p => (inl tt, last_update_id, p)
  | update :: rest =>
      if (upd_id update <=? last_update_id)%Z
      then handle_updates rest last_update_id
      else fun p =>
             match handle_message (upd_message update) p with
             | (inl _, p1) => handle_updates rest (upd_id update) p1
             | (inr e, p1) => (inr e, upd_id update, p1)
             end
  end.

(** [url_queue.url_queue.get_queue_status()['queue_size']] *)
Definition url_queue_size : M W Z :=
  fun p => (inl (st_queue_size (get_queue_status (the_queue p))), p).

(** The part of an iteration after the updates: at most one task. *)
Definition process_pending : M W unit :=
  queue_size <- url_queue_size ;;
  if (queue_size >? 0)%Z then
    log log_func "INFO" "telegram_main" (u "Обрабатываем задачу из очереди")
      [] ;;;
    process_single_url process_youtube_url send_telegram_message
      send_telegram_summaries log_func ;;;
    ret tt
  else ret tt.

(** [except Exception as e] of the loop. *)
Definition on_error (e : exn) : M W unit :=
  log log_func "ERROR" "telegram_main" (u "Ошибка в основном цикле")
    [(u "error", str_of_exn e)] ;;;
  sleep_ms 1000.

(** One pass of [while True], from the value of [last_update_id] to its
    next value.  [KeyboardInterrupt], which ends the loop, is not an
    [Exception] and is not among the exceptions of this model. *)
Definition iteration (last_update_id : Z) (p : process W) : Z * process W :=
  let '(updates, w) := get_telegram_updates (last_update_id + 1) (world p) in
  let p0 := Process w (the_queue p) (slept p) (logged p) (marks p) in
  match updates with
  | None => (last_update_id, (sleep_ms 1000 p0).2)
  | Some result =>
      let '(handled, last, p1) := handle_updates result last_update_id p0 in
      let '(r, p2) :=
        match handled with
        | inl _ => (process_pending ;;; sleep_ms 500) p1
        | inr e => (inr e, p1)
        end in
      match r with
      | inl _ => (last, p2)
      | inr e => (last, (on_error e p2).2)
      end
  end.

(** The first [rounds] passes of the loop, which starts with
    [last_update_id = 0]. *)
Fixpoint passes (rounds : nat) (last_update_id : Z) (p : process W)
  : Z * process W :=
  match rounds with
  | O => (last_update_id, p)
  | S n => let '(last, p1) := iteration last_update_id p in passes n last p1
  end.

Definition telegram_worker_loop (rounds : nat) (p : process W)
  : Z * process W :=
  passes rounds 0
    (log log_func "INFO" "telegram_main" (u "Запуск Telegram worker loop") []
       p).2.

End Loop.
End TelegramLoop.

(** A transport that writes down what it is asked to send. *)
Definition recorded {W A} (send : pystr -> pystr -> W -> (A + exn) * W)
  : pystr -> pystr -> W * list (pystr * pystr)
    -> (A + exn) * (W * list (pystr * pystr)) :=
  fun chat_id text0 wr =>
    let '(r, w) := send chat_id text0 wr.1 in
    (r, (w, wr.2 ++ [(chat_id, text0)])).

(** A batch of updates as [getUpdates] delivers it above the cursor: the
    ids ascend, and the first one is greater than the cursor. *)
Fixpoint ascending (last : Z) (ids : list Z) : bool :=
  match ids with
  | [] => true
  | i :: rest => (last <? i)%Z && ascending i rest
  end.

(** The message of an update when it has a text that is not empty. *)
Definition text_message (update : TelegramLoop.tg_update)
  : option TelegramLoop.tg_message :=
  match TelegramLoop.upd_message update with
  | Some m =>
      match TelegramLoop.msg_text m with
      | Some (_ :: _) => Some m
      | _ => None
      end
  | None => None
  end.

(** A batch of three updates: a link, an update without a message, and a
    message that is no link. *)
Definition example_updates : list TelegramLoop.tg_update :=
  [ {| TelegramLoop.upd_id := 5;
       TelegramLoop.upd_message :=
         Some {| TelegramLoop.msg_text := Some (u " https://youtu.be/abc ");
                 TelegramLoop.msg_chat_id := u "42";
                 TelegramLoop.msg_username := Some (u "ann") |} |};
    {| TelegramLoop.upd_id := 6; TelegramLoop.upd_message := None |};
    {| TelegramLoop.upd_id := 8;
       TelegramLoop.upd_message :=
         Some {| TelegramLoop.msg_text := Some (u "hello");
                 TelegramLoop.msg_chat_id := u "43";
                 TelegramLoop.msg_username := None |} |} ].

(** ** [ai_chat.py]: [init_chat_client] *)

Module AiChatClient.
Section Init.
Context {W : Type}.
(** whether [google-genai] could be imported *)
Variable GENAI_AVAILABLE : bool.
(** [os.environ['GOOGLE_API_KEY'] = api_key; genai.Client()] *)
Variable genai_Client : pystr -> W -> (unit + exn) * W.

(** The loop [for key_index, api_key in enumerate(api_keys)] and what
    follows it; a client is named by its key. *)
Fixpoint try_clients (api_keys : list pystr) (key_index : Z)
  : M W (option pystr) :=
  match api_keys with
  | [] =>
      log true "ERROR" "ai_chat" (u "Все API ключи исчерпаны") [] ;;;
      ret None
  | api_key :: rest =>
      try_except
        (ext (genai_Client api_key) ;;;
         log true "INFO" "ai_chat" (u "Google GenAI клиент инициализирован")
           [(u "key_index", str_of_int key_index)] ;;;
         ret (Some api_key))
        (fun e =>
           log true "WARNING" "ai_chat"
             (u "Ошибка с API ключом " ++ str_of_int key_index)
             [(u "error", str_of_exn e)] ;;;
           try_clients rest (key_index + 1))
  end.

(** [api_keys] is [config['ai']['api_keys']]. *)
Definition init_chat_client (api_keys : list pystr) : M W (option pystr) :=
  if negb GENAI_AVAILABLE then
    log true "ERROR" "ai_chat"
      (u "google-genai не установлен. Установите: pip install google-genai")
      [] ;;;
    ret None
  else
    match api_keys with
    | [] =>
        log true "ERROR" "ai_chat" (u "API ключи не настроены") [] ;;;
        ret None
    | _ => try_clients api_keys 0
    end.

End Init.
End AiChatClient.

(** A constructor of clients whose outcome depends on the key alone, in a
    world that notes the keys it is given. *)
Definition keyed_client (outcome : pystr -> unit + exn)
  : pystr -> list pystr -> (unit + exn) * list pystr :=
  fun key tried => (outcome key, tried ++ [key]).

Definition works (outcome : pystr -> unit + exn) (key : pystr) : bool :=
  match outcome key with inl _ => true | inr _ => false end.

(** ** [prompt_notion.py]: [split_long_text] *)

(** [s.rfind(sub)] for a [sub] that is not empty: the highest index at
    which [sub] starts, or -1. *)
Fixpoint rfind_sub (s sub : pystr) : Z :=
  match s with
  | [] => (-1)%Z
  | _ :: r =>
      let i := rfind_sub r sub in
      if (0 <=? i)%Z then (i + 1)%Z
      else if startswith s sub then 0%Z else (-1)%Z
  end.

Module PromptNotion.
Section Split.
(** [n > max_length * 0.7]: the comparison of an [int] with a [float],
    taken from the interpreter as it is. *)
Variable exceeds : Z -> Z -> bool.

(** [remaining_text.rfind(sub, 0, max_length)] searches in
    [remaining_text[0:max_length]]. *)
Definition cut_position_of (remaining_text : pystr) (max_length : Z) : Z :=
  let window := slice_to remaining_text max_length in
  let last_newline := rfind_sub window [NEWLINE] in
  if exceeds last_newline max_length then last_newline
  else
    let last_sentence := rfind_sub window (u ". ") in
    if exceeds last_sentence max_length then (last_sentence + 1)%Z
    else
      let last_space := rfind_sub window [SPACE] in
      if exceeds last_space max_length then last_space else max_length.

(** The loop [while len(remaining_text) > max_length] and what follows
    it.  [fuel] bounds the number of rounds: [None] is a loop that has
    not ended within them. *)
Fixpoint split_loop (fuel : nat) (remaining_text : pystr) (max_length : Z)
    (parts : list pystr) : option (list pystr) :=
  match fuel with
  | O =>
      if (len remaining_text >? max_length)%Z then None
      else Some (if nonempty remaining_text then parts ++ [remaining_text]
                 else parts)
  | S fuel' =>
      if (len remaining_text >? max_length)%Z then
        let cut_position := cut_position_of remaining_text max_length in
        let part := strip (slice_to remaining_text cut_position) in
        split_loop fuel'
          (strip (slice_from remaining_text cut_position)) max_length
          (if nonempty part then parts ++ [part] else parts)
      else Some (if nonempty remaining_text then parts ++ [remaining_text]
                 else parts)
  end.

Definition split_long_text (fuel : nat) (text0 : pystr) (max_length : Z)
  : option (list pystr) :=
  if (len text0 <=? max_length)%Z then Some [text0]
  else split_loop fuel text0 max_length [].

End Split.
End PromptNotion.

(** The double nearest to an integer [p] that is not negative: its 53
    leading bits, the rest rounded to nearest, a tie to the even
    neighbour. *)
Definition round53 (p : Z) : Z :=
  let sh := (Z.log2 p - 52)%Z in
  if (sh <=? 0)%Z then p
  else
    let q := Z.shiftr p sh in
    let r := (p - Z.shiftl q sh)%Z in
    let half := Z.shiftl 1 (sh - 1) in
    let q' := if (half <? r)%Z || ((r =? half)%Z && Z.odd q)
              then (q + 1)%Z else q in
    Z.shiftl q' sh.

(** The literal [0.7] is the double [3152519739159347 / 2^52]. *)
Definition SEVEN_TENTHS : Z := 3152519739159347.

(** [n > max_length * 0.7] for two [int]s: [max_length] is converted to
    a double, the product is rounded to a double, and an [int] is
    compared with a double exactly.  (The conversion of an [int] of 2^1024
    or more is an [OverflowError]; [split_long_text] multiplies only a
    limit that is below the length of a text.) *)
Definition float_exceeds (n max_length : Z) : bool :=
  (Z.sgn max_length * round53 (round53 (Z.abs max_length) * SEVEN_TENTHS)
   <? n * 2 ^ 52)%Z.

(** ** [ai_mod.py]: [call_model] *)

Module AiMod.

Local Abbreviation returned := TelegramOutput.returned.

(** What [requests.post] returns: the status, what [response.json()]
    gives (a value, or the exception of a body that is no JSON), and
    [response.text]. *)
Record response := {
  status_code : Z;
  response_json : json + exn;
  response_text : pystr
}.

(** How a [requests.post] call ends: with a response, with
    [requests.exceptions.Timeout], or with any other exception. *)
Inductive post_outcome :=
| Answered (r : response)
| Timeout
| Failed (e : exn).

(** An entry of the dictionary [load_prompts] returns. *)
Record prompt := { prompt_name : pystr; prompt_text : pystr }.

(** The dictionary [call_model] returns.  ["tokens_in"] and
    ["tokens_out"] are always [None]; the wall-clock reading
    ["latency_ms"] is left out, also of the log line that repeats it. *)
Record call_result := {
  c_ok : bool;
  c_text : pystr;
  c_model_used : pystr;
  c_key_index : Z;
  c_error : option model_error
}.

(** How one round of the innermost loop ends: [continue], [break], or
    [return]. *)
Inductive step :=
| Next_retry
| Next_key
| Return (r : call_result).

(** The exceptions of indexing, with their [str()]. *)
Definition KeyError (key : pystr) : exn := Raised ([39%N] ++ key ++ [39%N]).
Definition KeyError_0 : exn := Raised (u "0").
Definition IndexError_list : exn := Raised (u "list index out of range").
Definition IndexError_string : exn := Raised (u "string index out of range").
Definition ValueError_sleep : exn :=
  Raised (u "sleep length must be non-negative").

(** [v == 'text'] *)
Definition py_eq_str (v : json) (s : pystr) : bool :=
  match v with JStr s' => bool_decide (s' = s) | _ => false end.

(** ['key' in v] *)
Definition py_in (key : pystr) (v : json) : bool + exn :=
  match v with
  | JDict d => inl (bool_decide (is_Some (assoc d key)))
  | JList l =>
      inl (existsb (fun x => py_eq_str x key) l)
  | JStr s => inl (contains s key)
  | _ => inr TypeError
  end.

(** [len(v) > 0] *)
Definition py_len_positive (v : json) : bool + exn :=
  match v with
  | JDict d => inl (match d with [] => false | _ => true end)
  | JList l => inl (match l with [] => false | _ => true end)
  | JStr s => inl (nonempty s)
  | _ => inr TypeError
  end.

(** [v['key']] *)
Definition py_item (v : json) (key : pystr) : json + exn :=
  match v with
  | JDict d => match assoc d key with
               | Some x => inl x
               | None => inr (KeyError key)
               end
  | _ => inr TypeError
  end.

(** [v[0]]; the keys of a decoded [dict] are strings, so [0] is none of
    them. *)
Definition py_item_0 (v : json) : json + exn :=
  match v with
  | JList (x :: _) => inl x
  | JList [] => inr IndexError_list
  | JStr (c :: _) => inl (JStr [c])
  | JStr [] => inr IndexError_string
  | JDict _ => inr KeyError_0
  | _ => inr TypeError
  end.

(** [v.strip()]: only a [str] has the method. *)
Definition py_strip (v : json) : pystr + exn :=
  match v with
  | JStr s => inl (strip s)
  | _ => inr AttributeError
  end.

(** [l[i]] on a list, with an index counted from the end when it is
    negative. *)
Definition list_item (l : list Z) (i : Z) : Z + exn :=
  let j := if (i <? 0)%Z then (i + len l)%Z else i in
  if (j <? 0)%Z then inr IndexError_list
  else match l !! Z.to_nat j with
       | Some x => inl x
       | None => inr IndexError_list
       end.

(** [len(v)] of a value that has passed [v.strip()], as the log line
    prints it. *)
Definition text_of (v : json) : pystr :=
  match v with JStr s => s | _ => [] end.

Section CallModel.
Context {W : Type}.
Variable lib : pylib.
(** [json.dumps(v, ensure_ascii=False)] *)
Variable json_dumps : json -> pystr.
(** The text of the float [delay_ms / 1000]. *)
Variable seconds_str : Z -> pystr.
(** [load_prompts(config, log)] *)
Variable load_prompts : W -> (gmap Z prompt + exn) * W.
(** [requests.post(url, json=payload, headers=headers, timeout=timeout_sec)];
    of the payload only the prompt varies. *)
Variable requests_post : pystr -> pystr -> Z -> W -> post_outcome * W.
(** [config['ai']] *)
Variable timeout_sec : Z.
Variable max_retries : Z.
Variable backoff_ms : list Z.
Variable api_keys : list pystr.
Variable model_primary : pystr.
Variable model_backup : list pystr.

(** [time.sleep(delay_ms / 1000)] *)
Definition time_sleep (delay_ms : Z) : M W unit :=
  if (delay_ms <? 0)%Z then raise ValueError_sleep else sleep_ms delay_ms.

(** [backoff_ms[min(retry, len(backoff_ms) - 1)]] *)
Definition backoff_of (retry : Z) : M W Z :=
  returned (list_item backoff_ms (Z.min retry (len backoff_ms - 1))).

Definition url_of (model api_key : pystr) : pystr :=
  u "https://generativelanguage.googleapis.com/v1beta/models/" ++ model
    ++ u ":generateContent?key=" ++ api_key.

(** The text of the first part of the first candidate, or the empty
    string. *)
Definition extract_text (result : json) : M W json :=
  has_candidates <- returned (py_in (u "candidates") result) ;;
  some_candidates <-
    (if has_candidates : bool then
       candidates <- returned (py_item result (u "candidates")) ;;
       returned (py_len_positive candidates)
     else ret false) ;;
  if some_candidates : bool then
    candidates <- returned (py_item result (u "candidates")) ;;
    candidate <- returned (py_item_0 candidates) ;;
    log true "DEBUG" "ai_mod"
      (u "Candidate structure: " ++ slice_to (json_dumps candidate) 300
         ++ u "...") [] ;;;
    finish_reason <- dict_get candidate (u "finishReason")
                       (JStr (u "UNKNOWN")) ;;
    (if py_eq_str finish_reason (u "STOP") then ret tt
     else log true "WARN" "ai_mod"
            (u "Gemini finish_reason=" ++ py_str lib finish_reason
               ++ u ", возможна блокировка контента") []) ;;;
    has_content <- returned (py_in (u "content") candidate) ;;
    has_parts <-
      (if has_content : bool then
         content0 <- returned (py_item candidate (u "content")) ;;
         returned (py_in (u "parts") content0)
       else ret false) ;;
    if has_parts : bool then
      content0 <- returned (py_item candidate (u "content")) ;;
      parts <- returned (py_item content0 (u "parts")) ;;
      some_parts <- returned (py_len_positive parts) ;;
      has_text <-
        (if some_parts : bool then
           part <- returned (py_item_0 parts) ;;
           returned (py_in (u "text") part)
         else ret false) ;;
      if has_text : bool then
        part <- returned (py_item_0 parts) ;;
        returned (py_item part (u "text"))
      else ret (JStr [])
    else ret (JStr [])
  else ret (JStr []).

(** The two places where a failed request is retried after a pause; the
    line is logged between the reading of the pause and the sleep. *)
Definition pause (retry : Z) (line : Z -> M W unit) : M W step :=
  backoff <- backoff_of retry ;;
  line backoff ;;;
  time_sleep backoff ;;;
  ret Next_retry.

(** The body of the [try] once the response is there. *)
Definition on_response (r : response) (model : pystr) (key_index retry : Z)
  : M W step :=
  if (status_code r =? 200)%Z then
    result <- returned (response_json r) ;;
    log true "DEBUG" "ai_mod"
      (u "Response structure: " ++ slice_to (json_dumps result) 500
         ++ u "...") [] ;;;
    text_response <- extract_text result ;;
    stripped <- returned (py_strip text_response) ;;
    if negb (nonempty stripped) then
      log true "WARN" "ai_mod"
        (u "Gemini вернул пустой ответ, пробуем другой ключ") [] ;;;
      ret Next_key
    else
      log true "INFO" "ai_mod" (u "AI вызов успешен")
        [(u "model", model); (u "key_index", str_of_int key_index);
         (u "response_len", str_of_int (len (text_of text_response)))] ;;;
      ret (Return {| c_ok := true; c_text := text_of text_response;
                     c_model_used := model; c_key_index := key_index;
                     c_error := None |})
  else if (status_code r =? 429)%Z then
    if (retry <? max_retries)%Z then
      pause retry
        (fun backoff =>
           log true "WARN" "ai_mod"
             (u "Rate limit, retry " ++ str_of_int (retry + 1) ++ u "/"
                ++ str_of_int max_retries)
             [(u "backoff_sec", seconds_str backoff)])
    else
      log true "WARN" "ai_mod"
        (u "Rate limit, переключаемся на следующий ключ")
        [(u "key_index", str_of_int key_index)] ;;;
      ret Next_key
  else if (status_code r =? 401)%Z || (status_code r =? 403)%Z then
    log true "WARN" "ai_mod"
      (u "Auth failed, переключаемся на следующий ключ")
      [(u "status", str_of_int (status_code r));
       (u "key_index", str_of_int key_index)] ;;;
    ret Next_key
  else if (status_code r >=? 500)%Z then
    if (retry <? max_retries)%Z then
      pause retry
        (fun backoff =>
           log true "WARN" "ai_mod"
             (u "Server error, retry " ++ str_of_int (retry + 1) ++ u "/"
                ++ str_of_int max_retries)
             [(u "status", str_of_int (status_code r));
              (u "backoff_sec", seconds_str backoff)])
    else
      log true "WARN" "ai_mod"
        (u "Server error, переключаемся на следующий ключ")
        [(u "status", str_of_int (status_code r))] ;;;
      ret Next_key
  else
    log true "ERROR" "ai_mod" (u "Bad request")
      [(u "status", str_of_int (status_code r));
       (u "response", slice_to (response_text r) 200)] ;;;
    ret (Return {| c_ok := false; c_text := [];
                   c_model_used := model; c_key_index := key_index;
                   c_error :=
                     Some {| code := u "bad_request";
                             detail := u "HTTP " ++ str_of_int (status_code r)
                                         ++ u ": "
                                         ++ slice_to (response_text r) 200 |}
                |}).

(** [except requests.exceptions.Timeout:] *)
Definition on_timeout (retry : Z) : M W step :=
  if (retry <? max_retries)%Z then
    pause retry
      (fun backoff =>
         log true "WARN" "ai_mod"
           (u "Timeout, retry " ++ str_of_int (retry + 1) ++ u "/"
              ++ str_of_int max_retries)
           [(u "backoff_sec", seconds_str backoff)])
  else
    log true "WARN" "ai_mod"
      (u "Timeout, переключаемся на следующий ключ") [] ;;;
    ret Next_key.

(** [except Exception as e:] *)
Definition on_exception (retry : Z) (e : exn) : M W step :=
  log true "ERROR" "ai_mod"
    (u "Unexpected error during API call: " ++ str_of_exn e) [] ;;;
  if (retry <? max_retries)%Z then pause retry (fun _ => ret tt)
  else ret Next_key.

(** One round of [for retry in range(max_retries + 1)]: the [try]
    statement with its two handlers.  An exception raised in a handler
    leaves the function. *)
Definition attempt (full_prompt model api_key : pystr) (key_index retry : Z)
  : M W step :=
  outcome <- ext (fun w =>
                    let '(o, w') := requests_post (url_of model api_key)
                                      full_prompt timeout_sec w in
                    (inl o, w')) ;;
  match outcome with
  | Answered r =>
      try_except (on_response r model key_index retry) (on_exception retry)
  | Timeout => on_timeout retry
  | Failed e => on_exception retry e
  end.

(** [for retry in range(max_retries + 1)], [rounds] rounds being left;
    [None] when the loop ends without a [return]. *)
Fixpoint retry_loop (rounds : nat) (full_prompt model api_key : pystr)
    (key_index retry : Z) : M W (option call_result) :=
  match rounds with
  | O => ret None
  | S rounds' =>
      s <- attempt full_prompt model api_key key_index retry ;;
      match s with
      | Next_retry =>
          retry_loop rounds' full_prompt model api_key key_index (retry + 1)
      | Next_key => ret None
      | Return r => ret (Some r)
      end
  end.

(** [for key_index, api_key in enumerate(api_keys)] *)
Fixpoint key_loop (keys : list pystr) (full_prompt model : pystr)
    (key_index : Z) : M W (option call_result) :=
  match keys with
  | [] => ret None
  | api_key :: rest =>
      log true "INFO" "ai_mod" (u "Начинаем вызов AI")
        [(u "model", model); (u "key_index", str_of_int key_index)] ;;;
      r <- retry_loop (Z.to_nat (max_retries + 1)) full_prompt model api_key
             key_index 0 ;;
      match r with
      | Some res => ret (Some res)
      | None => key_loop rest full_prompt model (key_index + 1)
      end
  end.

(** [for model in models_to_try] *)
Fixpoint model_loop (models : list pystr) (full_prompt : pystr)
  : M W (option call_result) :=
  match models with
  | [] => ret None
  | model :: rest =>
      r <- key_loop api_keys full_prompt model 0 ;;
      match r with
      | Some res => ret (Some res)
      | None => model_loop rest full_prompt
      end
  end.

Definition no_result (code0 detail0 : pystr) : call_result :=
  {| c_ok := false; c_text := []; c_model_used := []; c_key_index := (-1)%Z;
     c_error := Some {| code := code0; detail := detail0 |} |}.

Definition full_prompt_of (prompt_text0 input_text : pystr) : pystr :=
  prompt_text0 ++ [NEWLINE; NEWLINE] ++ u "ВХОД: <<<" ++ input_text
    ++ u ">>>".

Definition call_model (prompt_id : Z) (input_text : pystr)
  : M W call_result :=
  prompts <- ext load_prompts ;;
  match prompts !! prompt_id with
  | None =>
      log true "ERROR" "ai_mod"
        (u "Промт с ID " ++ str_of_int prompt_id ++ u " не найден") [] ;;;
      ret (no_result (u "prompt_not_found")
             (u "Prompt ID " ++ str_of_int prompt_id ++ u " not found"))
  | Some entry =>
      let full_prompt := full_prompt_of (prompt_text entry) input_text in
      if negb (match api_keys with [] => false | _ => true end) then
        log true "ERROR" "ai_mod" (u "API ключи не настроены") [] ;;;
        ret (no_result (u "no_api_keys") (u "No API keys configured"))
      else
        r <- model_loop (model_primary :: model_backup) full_prompt ;;
        match r with
        | Some res => ret res
        | None =>
            log true "ERROR" "ai_mod"
              (u "Все AI ключи и модели исчерпаны") [] ;;;
            ret (no_result (u "all_failed")
                   (u "All API keys and models exhausted"))
        end
  end.

End CallModel.
End AiMod.

(** A transport that notes the address of every request. *)
Definition posting {W} (post : pystr -> pystr -> Z -> W -> AiMod.post_outcome * W)
  : pystr -> pystr -> Z -> W * list pystr
    -> AiMod.post_outcome * (W * list pystr) :=
  fun url0 full_prompt timeout_sec wr =>
    let '(o, w) := post url0 full_prompt timeout_sec wr.1 in
    (o, (w, wr.2 ++ [url0])).

(** [load_prompts] seen from a world that notes the requests. *)
Definition beside {W A B} (f : W -> A * W) : W * B -> A * (W * B) :=
  fun wr => let '(a, w) := f wr.1 in (a, (w, wr.2)).

(** What a returned dictionary of [call_model] holds together. *)
Definition call_coherent (models api_keys : list pystr)
    (res : AiMod.call_result)
  : Prop :=
  if AiMod.c_ok res
  then strip (AiMod.c_text res) <> [] /\ AiMod.c_error res = None
       /\ AiMod.c_model_used res ∈ models
       /\ (0 <= AiMod.c_key_index res < len api_keys)%Z
  else AiMod.c_text res = []
       /\ exists code0 detail0,
            AiMod.c_error res = Some {| code := code0; detail := detail0 |}
            /\ code0 ∈ [u "prompt_not_found"; u "no_api_keys";
                         u "bad_request"; u "all_failed"].

(** A computation that leaves the world as it is; when it returns, its
    value satisfies [Q]. *)
Definition calm {V A} (c : M V A) (Q : A -> Prop) : Prop :=
  forall p, exists r p',
    c p = (r, p') /\ world p' = world p
    /\ match r with inl a => Q a | inr _ => True end.

(** The same, for a computation that does not raise. *)
Definition sure {V A} (c : M V A) (Q : A -> Prop) : Prop :=
  forall p, exists a p', c p = (inl a, p') /\ world p' = world p /\ Q a.

(** What a round of [call_model] returns with: the model and the index
    of the key of the round, and either a text that is not blank or the
    error of a bad request. *)
Definition served (model : pystr) (key_index : Z) (res : AiMod.call_result)
  : Prop :=
  AiMod.c_model_used res = model /\ AiMod.c_key_index res = key_index
  /\ if AiMod.c_ok res
     then strip (AiMod.c_text res) <> [] /\ AiMod.c_error res = None
     else AiMod.c_text res = []
          /\ exists detail0,
               AiMod.c_error res
               = Some {| code := u "bad_request"; detail := detail0 |}.

Definition step_ok (model : pystr) (key_index : Z) (s : AiMod.step) : Prop :=
  match s with AiMod.Return res => served model key_index res | _ => True end.

(** The outcomes of a request after which [call_model] asks for a pause
    when retries are left. *)
Definition retryable (o : AiMod.post_outcome) : bool :=
  match o with
  | AiMod.Answered r =>
      (AiMod.status_code r =? 429)%Z || (500 <=? AiMod.status_code r)%Z
  | _ => true
  end.

Definition example_answer (t : pystr) : json :=
  JDict [(u "candidates",
          JList [JDict [(u "finishReason", JStr (u "STOP"));
                        (u "content",
                         JDict [(u "parts", JList [JDict [(u "text", JStr t)]])])]])].

(** A transport that is busy at the first request and answers the
    second; the world counts the requests. *)
Definition busy_then (t : pystr)
  : pystr -> pystr -> Z -> nat -> AiMod.post_outcome * nat :=
  fun _ _ _ n =>
    (AiMod.Answered
       (match n with
        | O => {| AiMod.status_code := 429;
                  AiMod.response_json := inr (Raised (u "no JSON"));
                  AiMod.response_text := u "busy" |}
        | S _ => {| AiMod.status_code := 200;
                    AiMod.response_json := inl (example_answer t);
                    AiMod.response_text := [] |}
        end), S n).

Definition example_prompts : nat -> (gmap Z AiMod.prompt + exn) * nat :=
  fun n => (inl {[ 2%Z := {| AiMod.prompt_name := u "P2_FULL";
                          AiMod.prompt_text := u "Summarise." |} ]}, n).

(** A transport that is always busy. *)
Definition always_busy
  : pystr -> pystr -> Z -> nat -> AiMod.post_outcome * nat :=
  fun _ _ _ n =>
    (AiMod.Answered {| AiMod.status_code := 429;
                       AiMod.response_json := inr (Raised (u "no JSON"));
                       AiMod.response_text := u "busy" |}, S n).

(** A CLEAN answer whose links are [null], and a library that decodes
    it. *)
Definition clean_answer_null : pystr :=
  u "{" ++ QUOTE ++ u "clean" ++ QUOTE ++ u ": " ++ QUOTE ++ u "talk"
    ++ QUOTE ++ u ", " ++ QUOTE ++ u "links" ++ QUOTE ++ u ": null}".

Definition example_lib_null : pylib :=
  {| json_loads := fun s =>
       if bool_decide (s = clean_answer_null)
       then inl (JDict [(u "clean", JStr (u "talk")); (u "links", JNull)])
       else inr (u "Expecting value: line 1 column 1 (char 0)");
     py_str := fun _ => [];
     lower := lower example_lib |}.

(** Five answers of which the first is [clean_answer_null]. *)
Definition answers_null : list pystr :=
  [clean_answer_null; u "A full summary"; u "A middle summary";
   u "Title" ++ [NEWLINE] ++ u "A short summary"; u "nothing found"].

(** * Properties *)

(** ** The text primitives on small inputs *)

Example str_of_int_examples :
  str_of_int 0 = u "0" /\ str_of_int (-5) = u "-5"
  /\ str_of_int 1700000000 = u "1700000000".
Proof. vm_compute. repeat split. Qed.

Example slice_to_examples :
  slice_to [1; 2; 3]%Z 2 = [1; 2]%Z /\ slice_to [1; 2; 3]%Z 5 = [1; 2; 3]%Z
  /\ slice_to [1; 2; 3]%Z (-1) = [1; 2]%Z /\ slice_to [1; 2; 3]%Z (-5) = [].
Proof. vm_compute. repeat split. Qed.

Example strip_examples :
  strip (u "  a b  ") = u "a b" /\ strip (u "   ") = [] /\ strip [] = []
  /\ strip ([NEWLINE; 160%N] ++ u "x" ++ [8232%N; 9%N]) = u "x".
Proof. vm_compute. repeat split. Qed.

Example rfind_examples :
  rfind (u "a b c") SPACE = 3%Z /\ rfind (u "abc") SPACE = (-1)%Z
  /\ rfind [] SPACE = (-1)%Z.
Proof. vm_compute. repeat split. Qed.

Example split_join_examples :
  split NEWLINE (u "a" ++ [NEWLINE] ++ u "b" ++ [NEWLINE; NEWLINE] ++ u "c")
    = [u "a"; u "b"; []; u "c"]
  /\ split NEWLINE [] = [[]]
  /\ join (u ". ") [u "a"; u "b"; u "c"] = u "a. b. c"
  /\ join (u ". ") [] = [].
Proof. vm_compute. repeat split. Qed.

Example replace_examples :
  replace (u "Clean: <<<t>>> and <<<t>>>.") (u "<<<t>>>") (u "XY")
    = u "Clean: XY and XY."
  /\ replace (u "aaa") (u "aa") (u "b") = u "ba"
  /\ replace (u "abc") (u "x") (u "y") = u "abc".
Proof. vm_compute. repeat split. Qed.

Example contains_examples :
  contains (u "error 503 unavailable") (u "503") = true
  /\ contains (u "abc") [] = true /\ contains [] (u "a") = false
  /\ startswith (u "https://x") (u "http") = true
  /\ startswith (u "ht") (u "http") = false.
Proof. vm_compute. repeat split. Qed.

Example search_braces_examples :
  search_braces (u "a {b} c {d} e") = Some (u "{b} c {d}")
  /\ search_braces (u "} {") = None
  /\ search_braces (u "no braces") = None.
Proof. vm_compute. repeat split. Qed.

Example re_split_marks_examples :
  re_split_marks (u "...a.b!?c.") = [[]; u "a"; u "b"; u "c"; []]
  /\ re_split_marks [] = [[]]
  /\ re_split_marks (u ".") = [[]; []]
  /\ sentences_of (u " Hi there.  How are you?! Fine")
     = [u "Hi there"; u "How are you"; u "Fine"].
Proof. vm_compute. repeat split. Qed.

Example new_UrlTask_example :
  task_id (task_of sub_a) = u "42_100".
Proof. vm_compute. reflexivity. Qed.

(** ** The queue *)

Lemma len_app {A} (l1 l2 : list A) : len (l1 ++ l2) = (len l1 + len l2)%Z.
Proof. unfold len. rewrite length_app. lia. Qed.

Lemma len_nonneg {A} (l : list A) : (0 <= len l)%Z.
Proof. unfold len. lia. Qed.

Lemma add_url_rejected q url source ck :
  (len (_queue q) >= max_size q)%Z ->
  add_url q url source ck =
    ({| success := false;
        message := u "Очередь переполнена (максимум "
                   ++ str_of_int (max_size q) ++ u " ссылок)";
        res_task_id := None;
        position := (-1)%Z;
        queue_size := len (_queue q) |}, q).
Proof.
  intros Hfull. unfold add_url.
  destruct (Z.geb_spec (len (_queue q)) (max_size q)) as [_ | Hlt]; [reflexivity | lia].
Qed.

Lemma add_url_accepted q url source ck :
  (len (_queue q) < max_size q)%Z ->
  add_url q url source ck =
    ({| success := true;
        message := u "URL добавлен в очередь";
        res_task_id := Some (task_id (new_UrlTask url source ck));
        position := (len (_queue q) + 1)%Z;
        queue_size := (len (_queue q) + 1)%Z |},
     {| max_size := max_size q;
        _queue := _queue q ++ [new_UrlTask url source ck];
        _processing_task := _processing_task q |}).
Proof.
  intros Hroom. unfold add_url.
  destruct (Z.geb_spec (len (_queue q)) (max_size q)) as [Hge | _]; [lia |].
  rewrite len_app. reflexivity.
Qed.

(** The size invariant of the specification's data model: no call of
    [add_url] takes the waiting sequence beyond [max_size]. *)
Lemma add_url_keeps_bound q url source ck :
  (len (_queue q) <= max_size q)%Z ->
  (len (_queue (add_url q url source ck).2)
   <= max_size (add_url q url source ck).2)%Z.
Proof.
  intros Hinv.
  destruct (Z_lt_ge_dec (len (_queue q)) (max_size q)) as [Hroom | Hfull].
  - rewrite add_url_accepted by exact Hroom. simpl. rewrite len_app.
    change (len [new_UrlTask url source ck]) with 1%Z. lia.
  - rewrite add_url_rejected by exact Hfull. exact Hinv.
Qed.

Lemma enqueue_all_keeps_bound subs : forall q,
  (len (_queue q) <= max_size q)%Z ->
  (len (_queue (enqueue_all q subs).2) <= max_size (enqueue_all q subs).2)%Z.
Proof.
  induction subs as [| s rest IH]; intros q Hinv; simpl; [exact Hinv |].
  pose proof (add_url_keeps_bound q s.1.1 s.1.2 s.2 Hinv) as Hstep.
  destruct (add_url q s.1.1 s.1.2 s.2) as [r q1].
  specialize (IH q1 Hstep).
  destruct (enqueue_all q1 rest) as [rs q2]. exact IH.
Qed.

(** C3.  The queue is bounded: an [add_url] call made while the size is at
    least [max_size] answers [success = False] and leaves the queue as it
    was; a call made while the size is below [max_size] is accepted and
    appends the new task; and every call returns (with a result and a next
    state), whatever the state. *)
Theorem add_url_bounded (q : UrlQueue) (url source : pystr) (ck : clock) :
  ((len (_queue q) >= max_size q)%Z ->
     success (add_url q url source ck).1 = false
     /\ (add_url q url source ck).2 = q)
  /\ ((len (_queue q) < max_size q)%Z ->
     success (add_url q url source ck).1 = true
     /\ _queue (add_url q url source ck).2
        = _queue q ++ [new_UrlTask url source ck]
     /\ _processing_task (add_url q url source ck).2 = _processing_task q
     /\ max_size (add_url q url source ck).2 = max_size q)
  /\ (success (add_url q url source ck).1 = false <->
      (len (_queue q) >= max_size q)%Z)
  /\ exists r q', add_url q url source ck = (r, q').
Proof.
  split; [| split; [| split]].
  - intros Hfull. rewrite add_url_rejected by exact Hfull. auto.
  - intros Hroom. rewrite add_url_accepted by exact Hroom. simpl. auto.
  - destruct (Z_lt_ge_dec (len (_queue q)) (max_size q)) as [Hroom | Hfull].
    + rewrite add_url_accepted by exact Hroom. simpl. split; [discriminate | lia].
    + rewrite add_url_rejected by exact Hfull. simpl. split; auto.
  - destruct (add_url q url source ck) as [r q']. eauto.
Qed.

(** The general shape of a dequeue: the head of the waiting sequence. *)
Lemma get_next_url_cons q t rest :
  _queue q = t :: rest ->
  get_next_url q =
    (Some t, {| max_size := max_size q; _queue := rest;
                _processing_task := Some t |}).
Proof. intros Hq. unfold get_next_url. rewrite Hq. reflexivity. Qed.

Lemma get_next_url_nil q : _queue q = [] -> get_next_url q = (None, q).
Proof. intros Hq. unfold get_next_url. rewrite Hq. reflexivity. Qed.

(** C1, as the code has it.  [get_next_url] answers [None] exactly when
    the waiting sequence is empty.  On a non-empty waiting sequence it
    returns the head task and records it in the single in-flight slot,
    whatever that slot held: a task still in flight is overwritten. *)
Theorem get_next_url_ignores_in_flight (q : UrlQueue) :
  ((get_next_url q).1 = None <-> _queue q = [])
  /\ (forall t rest, _queue q = t :: rest ->
        get_next_url q =
          (Some t, {| max_size := max_size q; _queue := rest;
                      _processing_task := Some t |})).
Proof.
  split.
  - unfold get_next_url. destruct (_queue q) as [| t rest]; simpl.
    + tauto.
    + split; discriminate.
  - intros t rest Hq. exact (get_next_url_cons q t rest Hq).
Qed.

(** C1 as stated fails: with two tasks waiting, the first dequeue puts
    [task_of sub_a] in flight; a second dequeue, made before any
    [mark_completed], does not answer [None] but hands out [task_of sub_b]
    and overwrites the in-flight record. *)
Lemma get_next_url_second_dequeue_not_empty :
  let q0 := (enqueue_all url_queue [sub_a; sub_b]).2 in
  let q1 := (get_next_url q0).2 in
  (get_next_url q0).1 = Some (task_of sub_a)
  /\ _processing_task q1 = Some (task_of sub_a)
  /\ _queue q1 <> []
  /\ (get_next_url q1).1 = Some (task_of sub_b)
  /\ (get_next_url q1).1 <> None
  /\ _processing_task (get_next_url q1).2 = Some (task_of sub_b).
Proof. vm_compute. repeat split; discriminate. Qed.

Lemma get_next_url_ignores_in_flight_witness :
  let q := {| max_size := 5; _queue := [task_of sub_b];
              _processing_task := Some (task_of sub_a) |} in
  get_next_url q =
    (Some (task_of sub_b),
     {| max_size := 5; _queue := []; _processing_task := Some (task_of sub_b) |}).
Proof.
  intros q.
  exact (proj2 (get_next_url_ignores_in_flight q) (task_of sub_b) [] eq_refl).
Defined.

Lemma add_url_bounded_witness :
  let q := (enqueue_all (UrlQueue_init 1) [sub_a]).2 in
  success (add_url q sub_b.1.1 sub_b.1.2 sub_b.2).1 = false
  /\ (add_url q sub_b.1.1 sub_b.1.2 sub_b.2).2 = q.
Proof.
  intros q.
  apply (proj1 (add_url_bounded q sub_b.1.1 sub_b.1.2 sub_b.2)).
  vm_compute. discriminate.
Defined.

(** C5.  [mark_completed] answers [True] exactly when a task is recorded
    in flight and its id is the given one, and it then clears the record
    and nothing else; on every other id, and when nothing is in flight, it
    answers [False] and the queue is unchanged. *)
Theorem mark_completed_iff_in_flight (q : UrlQueue) (tid : pystr) :
  ((mark_completed q tid).1 = true <->
     exists t, _processing_task q = Some t /\ task_id t = tid)
  /\ ((mark_completed q tid).1 = true ->
        (mark_completed q tid).2 =
          {| max_size := max_size q; _queue := _queue q;
             _processing_task := None |})
  /\ ((mark_completed q tid).1 = false -> (mark_completed q tid).2 = q).
Proof.
  unfold mark_completed.
  destruct (_processing_task q) as [t |] eqn:Hp; simpl.
  - destruct (decide (task_id t = tid)) as [Heq | Hne].
    + rewrite bool_decide_eq_true_2 by exact Heq. simpl.
      repeat split; eauto; discriminate.
    + rewrite bool_decide_eq_false_2 by exact Hne. simpl.
      repeat split; try discriminate; auto.
      intros (t' & Ht' & Hid). congruence.
  - repeat split; try discriminate; auto.
    intros (t' & Ht' & _). discriminate.
Qed.

Lemma mark_completed_iff_in_flight_witness :
  let q := (get_next_url (enqueue_all url_queue [sub_a; sub_b]).2).2 in
  (mark_completed q (task_id (task_of sub_b))).2 = q.
Proof.
  intros q.
  apply (proj2 (proj2 (mark_completed_iff_in_flight q (task_id (task_of sub_b))))).
  vm_compute. reflexivity.
Defined.

(** Accepted submissions are appended, in order, behind what waits. *)
Lemma enqueue_all_accepted subs : forall q,
  Forall (fun r => success r = true) (enqueue_all q subs).1 ->
  _queue (enqueue_all q subs).2 = _queue q ++ map task_of subs.
Proof.
  induction subs as [| s rest IH]; intros q Hall; simpl in *.
  - rewrite app_nil_r. reflexivity.
  - destruct (Z_lt_ge_dec (len (_queue q)) (max_size q)) as [Hroom | Hfull].
    + rewrite add_url_accepted in * by exact Hroom.
      match goal with
      | H : context [enqueue_all ?q1 rest] |- _ =>
          specialize (IH q1); destruct (enqueue_all q1 rest) as [rs q2] eqn:He
      end.
      simpl in *. inversion Hall as [| ? ? _ Hrest]; subst.
      rewrite (IH Hrest). simpl. rewrite <- app_assoc. reflexivity.
    + rewrite add_url_rejected in * by exact Hfull.
      destruct (enqueue_all q rest) as [rs q2].
      simpl in Hall. inversion Hall as [| ? ? Hhd _]; subst. discriminate.
Qed.

(** Submissions that fit under [max_size] are all accepted. *)
Lemma enqueue_all_room subs : forall q,
  (len (_queue q) + len subs <= max_size q)%Z ->
  Forall (fun r => success r = true) (enqueue_all q subs).1.
Proof.
  induction subs as [| s rest IH]; intros q Hroom; simpl; [constructor |].
  pose proof (len_nonneg rest) as Hrest.
  assert (Hlt : (len (_queue q) < max_size q)%Z).
  { unfold len in *. simpl length in Hroom. lia. }
  rewrite add_url_accepted by exact Hlt.
  match goal with
  | |- context [enqueue_all ?q1 rest] =>
      specialize (IH q1); destruct (enqueue_all q1 rest) as [rs q2]
  end.
  simpl in *. constructor; [reflexivity |].
  apply IH. rewrite len_app. unfold len in *. simpl length in *. lia.
Qed.

(** Consecutive dequeues hand out the waiting sequence from its head. *)
Lemma dequeue_n_waiting : forall (w : list UrlTask) q,
  _queue q = w ->
  (dequeue_n q (length w)).1 = map Some w
  /\ _queue (dequeue_n q (length w)).2 = [].
Proof.
  induction w as [| t rest IH]; intros q Hq; simpl.
  - auto.
  - rewrite (get_next_url_cons q t rest Hq).
    match goal with
    | |- context [dequeue_n ?q1 _] =>
        specialize (IH q1 eq_refl);
        destruct (dequeue_n q1 (length rest)) as [ts q2]
    end.
    simpl in *. destruct IH as [-> ->]. auto.
Qed.

(** C4.  FIFO order: when N submissions are enqueued on an empty waiting
    sequence and each is accepted, the N dequeues that follow return
    exactly the N tasks, in the order of their submission, and leave the
    waiting sequence empty. *)
Theorem fifo_order (q : UrlQueue) (subs : list submission) :
  _queue q = [] ->
  Forall (fun r => success r = true) (enqueue_all q subs).1 ->
  (dequeue_n (enqueue_all q subs).2 (length subs)).1
    = map Some (map task_of subs)
  /\ _queue (dequeue_n (enqueue_all q subs).2 (length subs)).2 = [].
Proof.
  intros Hempty Hall.
  pose proof (enqueue_all_accepted subs q Hall) as Hq.
  rewrite Hempty in Hq. simpl in Hq.
  pose proof (dequeue_n_waiting (map task_of subs) _ Hq) as Hd.
  rewrite length_map in Hd. exact Hd.
Qed.

Lemma fifo_order_witness :
  (dequeue_n (enqueue_all url_queue [sub_a; sub_b]).2 2).1
    = [Some (task_of sub_a); Some (task_of sub_b)]
  /\ _queue (dequeue_n (enqueue_all url_queue [sub_a; sub_b]).2 2).2 = [].
Proof.
  apply (fifo_order url_queue [sub_a; sub_b]).
  - reflexivity.
  - vm_compute. repeat constructor.
Defined.

(** ** The worker: [process_single_url] *)

(** Completing the task that was just dequeued succeeds and clears the
    in-flight record. *)
Lemma mark_completed_after_dequeue q task q1 :
  get_next_url q = (Some task, q1) ->
  mark_completed q1 (task_id task) =
    (true, {| max_size := max_size q1; _queue := _queue q1;
              _processing_task := None |}).
Proof.
  unfold get_next_url. destruct (_queue q) as [| t rest]; [discriminate |].
  intros [= <- <-]. unfold mark_completed. simpl.
  rewrite bool_decide_eq_true_2 by reflexivity. reflexivity.
Qed.

Section Worker.
Context {W : Type}.
Variable process_youtube_url : pystr -> W -> (url_result + exn) * W.
Variable send_telegram_message : pystr -> pystr -> W -> (bool + exn) * W.
Variable send_telegram_summaries : pystr -> summaries -> W -> (bool + exn) * W.
Variable log_func : bool.

Local Abbreviation worker :=
  (process_single_url process_youtube_url send_telegram_message
     send_telegram_summaries log_func).

(** The queue calls and the in-flight record are not touched by the
    logging callback. *)
Lemma log_keeps_queue (lv md : string) ms kvs (p : process W) :
  the_queue (log log_func lv md ms kvs p).2 = the_queue p
  /\ marks (log log_func lv md ms kvs p).2 = marks p
  /\ (log log_func lv md ms kvs p).1 = inl tt.
Proof. unfold log. destruct log_func; simpl; auto. Qed.

(** An empty waiting sequence: nothing is dequeued, nothing is marked. *)
Lemma process_single_url_idle (p : process W) :
  _queue (the_queue p) = [] ->
  worker p = (inl false, p).
Proof.
  intros Hq. unfold process_single_url, bind, url_queue_get_next_url.
  rewrite (get_next_url_nil _ Hq). destruct p; reflexivity.
Qed.

(** C2.  Whatever the processing of a dequeued task does (it returns a
    success, it returns a handled failure, or it or one of the replies
    raises an exception), [process_single_url] calls [mark_completed]
    exactly once, with the id of that task; the call answers [True], and
    when the worker is back in its loop no task is recorded in flight. *)
Theorem process_single_url_marks_once
    (p : process W) (task : UrlTask) (q1 : UrlQueue) :
  get_next_url (the_queue p) = (Some task, q1) ->
  marks (worker p).2 = marks p ++ [(task_id task, true)]
  /\ _processing_task (the_queue (worker p).2) = None
  /\ _queue (the_queue (worker p).2) = _queue q1.
Proof.
  intros Hget. pose proof (mark_completed_after_dequeue _ _ _ Hget) as Hmark.
  unfold process_single_url, bind, try_except,
    url_queue_get_next_url, url_queue_mark_completed, ext, ret, log.
  rewrite Hget. cbn [world the_queue slept logged marks].
  destruct log_func;
    cbn [world the_queue slept logged marks];
    (destruct (process_youtube_url (url task) (world p)) as [[result | e] w1];
     cbn [world the_queue slept logged marks];
     [ destruct (r_success result);
       repeat match goal with
         | |- context [send_telegram_message ?c ?m ?w] =>
             destruct (send_telegram_message c m w) as [[? | ?] ?];
             cbn [world the_queue slept logged marks]
         | |- context [match r_summaries result with _ => _ end] =>
             destruct (r_summaries result);
             cbn [world the_queue slept logged marks]
         | |- context [send_telegram_summaries ?c ?s ?w] =>
             destruct (send_telegram_summaries c s w) as [[? | ?] ?];
             cbn [world the_queue slept logged marks]
         end
     | ]);
    rewrite ?Hmark; cbn [world the_queue slept logged marks];
    repeat match goal with
      | |- context [send_telegram_message ?c ?m ?w] =>
          destruct (send_telegram_message c m w) as [[? | ?] ?];
          cbn [world the_queue slept logged marks]
      end;
    simpl; auto.
Qed.

End Worker.

Lemma process_single_url_marks_once_witness :
  let p := Process tt (enqueue_all url_queue [sub_a; sub_b]).2 [] [] [] in
  let worker :=
    process_single_url
      (fun _ w => (inr (Raised (u "connection reset")), w))
      (fun _ _ w => (inl true, w)) (fun _ _ w => (inl true, w)) true in
  marks (worker p).2 = marks p ++ [(task_id (task_of sub_a), true)]
  /\ _processing_task (the_queue (worker p).2) = None
  /\ _queue (the_queue (worker p).2)
     = _queue (get_next_url (the_queue p)).2.
Proof.
  intros p worker.
  apply (process_single_url_marks_once _ _ _ true p (task_of sub_a)
           (get_next_url (the_queue p)).2).
  reflexivity.
Defined.

(** ** The retry on a 503 *)

Lemma slice_to_nonneg {A} (l : list A) (n : Z) :
  (0 <= n)%Z ->
  slice_to l n = firstn (Z.to_nat n) l
  /\ (length (slice_to l n) <= Z.to_nat n)%nat.
Proof.
  intros Hn. unfold slice_to.
  destruct (Z.leb_spec 0 n) as [_ | Hneg]; [| lia].
  split; [reflexivity | apply firstn_le_length].
Qed.

Section RetrySpec.
Context {A : Type}.
Variable lib : pylib.
Variable outcomes : nat -> A + exn.
Variable max_retries : Z.
Variable log_on : bool.

Local Abbreviation func := (scripted outcomes).
Local Abbreviation loop := (retry_loop lib func max_retries log_on).

(** One round of the loop: a log line, a sleep, one more call. *)
Lemma retry_loop_round d rest i last (p : process nat) :
  (0 <= d)%Z ->
  loop (d :: rest) i last p =
    let p2 := Process (S (world p)) (the_queue p) (slept p ++ [d])
                (logged (log log_on "WARNING" "ai_chat"
                   (u "Ошибка 503 UNAVAILABLE, повтор " ++ str_of_int (i + 1)
                      ++ u "/" ++ str_of_int max_retries ++ u " через "
                      ++ str_of_int d ++ u "мс") [] p).2)
                (marks p) in
    match outcomes (world p) with
    | inl a => (inl a, p2)
    | inr e => if is_503_error lib e
               then loop rest (i + 1)%Z e p2
               else (inr e, p2)
    end.
Proof.
  intros Hd. unfold scripted. simpl.
  unfold bind, try_except, time_sleep, sleep_ms, ext, log.
  destruct (Z.ltb_spec d 0) as [Hneg | _]; [lia |].
  destruct log_on; simpl; destruct (outcomes (world p)) as [a | e];
    simpl; try reflexivity; destruct (is_503_error lib e); reflexivity.
Qed.

(** A round whose delay is negative: the log line, then the
    [ValueError] of [time.sleep]; no sleep, no call. *)
Lemma retry_loop_refused d rest i last (p : process nat) :
  (d < 0)%Z ->
  (loop (d :: rest) i last p).1 = inr sleep_error
  /\ world (loop (d :: rest) i last p).2 = world p
  /\ slept (loop (d :: rest) i last p).2 = slept p.
Proof.
  intros Hd. simpl.
  unfold bind, time_sleep, raise, log.
  destruct (Z.ltb_spec d 0) as [_ | Hpos]; [| lia].
  destruct log_on; simpl; auto.
Qed.

Lemma retry_loop_done i last (p : process nat) :
  (loop [] i last p).1 = inr last
  /\ world (loop [] i last p).2 = world p
  /\ slept (loop [] i last p).2 = slept p.
Proof.
  simpl. unfold bind, log, raise.
  destruct log_on; simpl; auto.
Qed.

(** The loop stops at the first outcome that is not a 503. *)
Lemma retry_loop_stops : forall delays k n i last (p : process nat),
  world p = S n ->
  (1 <= k <= length delays)%nat ->
  Forall (fun d => (0 <= d)%Z) (firstn k delays) ->
  (forall j, (1 <= j < k)%nat -> transient lib (outcomes (n + j)) = true) ->
  transient lib (outcomes (n + k)) = false ->
  (loop delays i last p).1 = outcomes (n + k)
  /\ world (loop delays i last p).2 = S (n + k)
  /\ slept (loop delays i last p).2 = slept p ++ firstn k delays.
Proof.
  induction delays as [| d rest IH]; intros k n i last p Hw Hk Hpos Hbefore Hstop.
  - simpl in Hk. lia.
  - assert (Hd : (0 <= d)%Z /\ Forall (fun d => (0 <= d)%Z) (firstn (k - 1) rest)).
    { destruct k as [| k']; [lia |]. cbn [firstn] in Hpos.
      apply Forall_cons in Hpos. replace (S k' - 1)%nat with k' by lia.
      exact Hpos. }
    destruct Hd as [Hd Hrest].
    rewrite (retry_loop_round _ _ _ _ _ Hd). cbv zeta. rewrite Hw.
    destruct (Nat.eq_dec k 1) as [-> | Hk1].
    + replace (n + 1) with (S n) in * by lia.
      destruct (outcomes (S n)) as [a | e]; simpl in *.
      * auto.
      * rewrite Hstop. simpl. auto.
    + assert (Hfirst : transient lib (outcomes (S n)) = true).
      { replace (S n) with (n + 1) by lia. apply Hbefore. lia. }
      destruct (outcomes (S n)) as [a | e]; simpl in Hfirst; [discriminate |].
      rewrite Hfirst.
      destruct (IH (k - 1) (S n) (i + 1)%Z e
                  (Process (S (S n)) (the_queue p) (slept p ++ [d])
                     (logged (log log_on "WARNING" "ai_chat"
                        (u "Ошибка 503 UNAVAILABLE, повтор "
                           ++ str_of_int (i + 1) ++ u "/"
                           ++ str_of_int max_retries ++ u " через "
                           ++ str_of_int d ++ u "мс") [] p).2)
                     (marks p)))
        as (Hr & Hworld & Hslept).
      * reflexivity.
      * simpl in Hk. lia.
      * exact Hrest.
      * intros j Hj. replace (S n + j) with (n + S j) by lia.
        apply Hbefore. lia.
      * replace (S n + (k - 1)) with (n + k) by lia. exact Hstop.
      * replace (S n + (k - 1)) with (n + k) in * by lia.
        rewrite Hr, Hworld, Hslept. simpl.
        destruct k as [| k']; [lia |]. simpl.
        replace (k' - 0) with k' by lia.
        rewrite <- app_assoc. auto.
Qed.

(** When every call within the budget fails with a 503, the loop gives
    up with the error of the last call. *)
Lemma retry_loop_exhausted : forall delays n i last (p : process nat),
  world p = S n ->
  outcomes n = inr last ->
  Forall (fun d => (0 <= d)%Z) delays ->
  (forall j, (1 <= j <= length delays)%nat ->
             transient lib (outcomes (n + j)) = true) ->
  (loop delays i last p).1 = outcomes (n + length delays)
  /\ world (loop delays i last p).2 = S (n + length delays)
  /\ slept (loop delays i last p).2 = slept p ++ delays.
Proof.
  induction delays as [| d rest IH]; intros n i last p Hw Hlast Hpos Hall.
  - destruct (retry_loop_done i last p) as (Hr & Hworld & Hslept).
    rewrite Hr, Hworld, Hslept, Hw. simpl.
    replace (n + 0) with n by lia. rewrite app_nil_r. auto.
  - apply Forall_cons in Hpos as [Hd Hrest].
    rewrite (retry_loop_round _ _ _ _ _ Hd). cbv zeta. rewrite Hw.
    assert (Hfirst : transient lib (outcomes (S n)) = true).
    { replace (S n) with (n + 1) by lia. apply Hall. simpl. lia. }
    destruct (outcomes (S n)) as [a | e] eqn:Ho; simpl in Hfirst; [discriminate |].
    rewrite Hfirst.
    destruct (IH (S n) (i + 1)%Z e
                (Process (S (S n)) (the_queue p) (slept p ++ [d])
                   (logged (log log_on "WARNING" "ai_chat"
                      (u "Ошибка 503 UNAVAILABLE, повтор "
                         ++ str_of_int (i + 1) ++ u "/"
                         ++ str_of_int max_retries ++ u " через "
                         ++ str_of_int d ++ u "мс") [] p).2)
                   (marks p)))
      as (Hr & Hworld & Hslept).
    + reflexivity.
    + exact Ho.
    + exact Hrest.
    + intros j Hj. replace (S n + j) with (n + S j) by lia.
      apply Hall. simpl. lia.
    + rewrite Hr, Hworld, Hslept. simpl.
      replace (S n + length rest) with (n + S (length rest)) by lia.
      rewrite <- app_assoc. auto.
Qed.

(** When the calls fail with a 503 up to a delay that is negative, the
    loop ends there with the [ValueError] of [time.sleep]. *)
Lemma retry_loop_negative : forall delays k d n i last (p : process nat),
  world p = S n ->
  delays !! k = Some d -> (d < 0)%Z ->
  Forall (fun d => (0 <= d)%Z) (firstn k delays) ->
  (forall j, (1 <= j <= k)%nat -> transient lib (outcomes (n + j)) = true) ->
  (loop delays i last p).1 = inr sleep_error
  /\ world (loop delays i last p).2 = S (n + k)
  /\ slept (loop delays i last p).2 = slept p ++ firstn k delays.
Proof.
  induction delays as [| d0 rest IH]; intros k d n i last p Hw Hk Hd Hpos Hall.
  - discriminate Hk.
  - destruct k as [| k'].
    + injection Hk as ->.
      destruct (retry_loop_refused d rest i last p Hd) as (Hr & Hworld & Hslept).
      rewrite Hr, Hworld, Hslept, Hw. cbn [firstn].
      replace (n + 0) with n by lia. rewrite app_nil_r. auto.
    + cbn [firstn] in Hpos. apply Forall_cons in Hpos as [Hd0 Hrest].
      rewrite (retry_loop_round _ _ _ _ _ Hd0). cbv zeta. rewrite Hw.
      assert (Hfirst : transient lib (outcomes (S n)) = true).
      { replace (S n) with (n + 1) by lia. apply Hall. lia. }
      destruct (outcomes (S n)) as [a | e]; simpl in Hfirst; [discriminate |].
      rewrite Hfirst.
      destruct (IH k' d (S n) (i + 1)%Z e
                  (Process (S (S n)) (the_queue p) (slept p ++ [d0])
                     (logged (log log_on "WARNING" "ai_chat"
                        (u "Ошибка 503 UNAVAILABLE, повтор "
                           ++ str_of_int (i + 1) ++ u "/"
                           ++ str_of_int max_retries ++ u " через "
                           ++ str_of_int d0 ++ u "мс") [] p).2)
                     (marks p)))
        as (Hr & Hworld & Hslept).
      * reflexivity.
      * exact Hk.
      * exact Hd.
      * exact Hrest.
      * intros j Hj. replace (S n + j) with (n + S j) by lia.
        apply Hall. lia.
      * rewrite Hr, Hworld, Hslept. cbn [firstn world slept].
        replace (S n + k') with (n + S k') by lia.
        rewrite <- app_assoc. auto.
Qed.


End RetrySpec.

(** ** Text primitives *)

Lemma rfind_range s c : (-1 <= rfind s c < len s)%Z.
Proof.
  unfold len. induction s as [| a r IH]; simpl; [lia |].
  destruct (Z.leb_spec 0 (rfind r c)); [lia |].
  destruct (a =? c)%N; lia.
Qed.

Lemma rfind_absent s c :
  (rfind s c < 0)%Z -> forall j, s !! j <> Some c.
Proof.
  induction s as [| a r IH]; simpl; intros Hneg j.
  - destruct j; discriminate.
  - destruct (Z.leb_spec 0 (rfind r c)) as [Hge | Hlt]; [lia |].
    destruct (N.eqb_spec a c) as [-> | Hne]; [lia |].
    destruct j as [| j']; simpl.
    + congruence.
    + apply IH. exact Hlt.
Qed.

Lemma rfind_last s c : forall i,
  rfind s c = Z.of_nat i ->
  s !! i = Some c /\ forall j, (i < j)%nat -> s !! j <> Some c.
Proof.
  induction s as [| a r IH]; simpl; intros i Hi; [lia |].
  destruct (Z.leb_spec 0 (rfind r c)) as [Hge | Hlt].
  - destruct i as [| i']; [lia |].
    destruct (IH i') as [Hat Hafter]; [lia |].
    split; [exact Hat |].
    intros [| j'] Hj; [lia |]. simpl. apply Hafter. lia.
  - destruct (N.eqb_spec a c) as [-> | Hne]; [| lia].
    assert (i = 0%nat) as -> by lia.
    split; [reflexivity |].
    intros [| j'] Hj; [lia |]. simpl. apply rfind_absent. exact Hlt.
Qed.

(** [rfind] is the position of the last occurrence. *)
Lemma rfind_is_last s c (i : nat) :
  s !! i = Some c ->
  (forall j, (i < j)%nat -> s !! j <> Some c) ->
  rfind s c = Z.of_nat i.
Proof.
  intros Hat Hafter.
  destruct (Z_lt_ge_dec (rfind s c) 0) as [Hneg | Hpos].
  - exfalso. exact (rfind_absent s c Hneg i Hat).
  - destruct (rfind_last s c (Z.to_nat (rfind s c))) as [Hat' Hafter']; [lia |].
    destruct (Nat.lt_trichotomy (Z.to_nat (rfind s c)) i) as [Hlt | [Heq | Hgt]].
    + exfalso. exact (Hafter' i Hlt Hat).
    + lia.
    + exfalso. exact (Hafter _ Hgt Hat').
Qed.

Lemma len_take_le {A} (l : list A) (n : nat) : (len (take n l) <= Z.of_nat n)%Z.
Proof. unfold len. rewrite length_take. lia. Qed.

Lemma slice_to_take {A} (l : list A) (n : Z) :
  (0 <= n)%Z -> slice_to l n = take (Z.to_nat n) l.
Proof. intros Hn. exact (proj1 (slice_to_nonneg l n Hn)). Qed.

(** ** The SHORT stage *)

Lemma length_dots : length (u "...") = 3%nat.
Proof. reflexivity. Qed.

(** The SHORT text [process_transcript_chat] keeps is never longer than
    300 characters. *)
Lemma chat_short_of_cap (short_response : pystr) :
  (len (chat_short_of short_response) <= 300)%Z.
Proof.
  unfold chat_short_of.
  destruct (len (stripped_lines short_response) >=? 2)%Z.
  - destruct (Z.gtb_spec (len (nth 1 (stripped_lines short_response) [])) 300)
      as [Hlong | Hfits].
    + rewrite slice_to_take by lia. rewrite len_app.
      pose proof (len_take_le (nth 1 (stripped_lines short_response) [])
                    (Z.to_nat 297)) as Hcut.
      unfold len at 2. rewrite length_dots. lia.
    + exact Hfits.
  - rewrite slice_to_take by lia.
    pose proof (len_take_le short_response (Z.to_nat 300)). lia.
Qed.

Section ShortSpec.
Context {W : Type}.
Variable call_model : Z -> pystr -> W -> (model_result + exn) * W.
Variable prompts_map : gmap pystr Z.

Local Abbreviation run_short := (run_short_300 call_model prompts_map).
Local Abbreviation short_id := (default 4%Z (prompts_map !! u "SHORT_300")).

(** What [run_short_300] returns, by the outcome of the model call. *)
Lemma run_short_300_unfold (clean_text : pystr) (p : process W) :
  (run_short clean_text p).1 =
    match call_model short_id clean_text (world p) with
    | (inr e, _) => inr e
    | (inl result, _) =>
        if negb (ok result) then inl []
        else
          let t := strip (text result) in
          if (len t >? 300)%Z then
            if (rfind (take 300 t) SPACE >? 250)%Z
            then inl (slice_to (take 300 t) (rfind (take 300 t) SPACE))
            else inl (take 300 t)
          else inl t
    end.
Proof.
  unfold run_short_300, bind, ext, log, ret.
  destruct (call_model short_id clean_text (world p)) as [[result | e] w'];
    simpl; [| reflexivity].
  destruct (ok result); simpl; [| reflexivity].
  destruct (len (strip (text result)) >? 300)%Z; [| reflexivity].
  rewrite (slice_to_take (strip (text result)) 300) by lia.
  change (Z.to_nat 300) with 300%nat.
  destruct (rfind (take 300 (strip (text result))) SPACE >? 250)%Z; reflexivity.
Qed.

(** The SHORT output of [run_short_300] has at most 300 characters,
    whatever the model answers. *)
Lemma run_short_300_cap (clean_text : pystr) (p : process W) (out : pystr) :
  (run_short clean_text p).1 = inl out -> (len out <= 300)%Z.
Proof.
  rewrite run_short_300_unfold.
  destruct (call_model short_id clean_text (world p)) as [[result | e] w'];
    [| discriminate].
  destruct (ok result); simpl; [| intros [= <-]; unfold len; simpl; lia].
  destruct (Z.gtb_spec (len (strip (text result))) 300) as [Hlong | Hfits].
  - pose proof (len_take_le (strip (text result)) 300) as Hwin.
    destruct (Z.gtb_spec (rfind (take 300 (strip (text result))) SPACE) 250)
      as [Hsp | Hno]; intros [= <-].
    + rewrite slice_to_take by lia.
      pose proof (len_take_le (take 300 (strip (text result)))
                    (Z.to_nat (rfind (take 300 (strip (text result))) SPACE))).
      pose proof (rfind_range (take 300 (strip (text result))) SPACE). lia.
    + lia.
  - intros [= <-]. exact Hfits.
Qed.

(** Where [run_short_300] cuts an answer [t] of more than 300 characters. *)
Lemma run_short_300_cut (clean_text : pystr) (p : process W)
    (result : model_result) (w' : W) :
  call_model short_id clean_text (world p) = (inl result, w') ->
  ok result = true ->
  let t := strip (text result) in
  ((len t <= 300)%Z -> (run_short clean_text p).1 = inl t)
  /\ ((len t > 300)%Z ->
      (forall j, (250 < j < 300)%nat -> t !! j = Some SPACE ->
         (forall j', (j < j' < 300)%nat -> t !! j' <> Some SPACE) ->
         (run_short clean_text p).1 = inl (take j t))
      /\ ((forall j, (250 < j < 300)%nat -> t !! j <> Some SPACE) ->
          (run_short clean_text p).1 = inl (take 300 t))).
Proof.
  intros Hcall Hok. cbv zeta.
  rewrite run_short_300_unfold, Hcall, Hok. cbn [negb].
  set (t := strip (text result)) in *.
  split; [| split].
  - intros Hfits. destruct (Z.gtb_spec (len t) 300); [lia | reflexivity].
  - intros j Hj Hat Hafter.
    destruct (Z.gtb_spec (len t) 300); [| lia].
    assert (Hr : rfind (take 300 t) SPACE = Z.of_nat j).
    { apply rfind_is_last.
      - rewrite lookup_take_lt by lia. exact Hat.
      - intros j' Hj'. destruct (Nat.lt_ge_cases j' 300) as [Hin | Hout].
        + rewrite lookup_take_lt by lia. apply Hafter. lia.
        + rewrite lookup_take_ge by lia. discriminate. }
    rewrite Hr. destruct (Z.gtb_spec (Z.of_nat j) 250); [| lia].
    rewrite slice_to_take by lia. rewrite Nat2Z.id.
    rewrite take_take. replace (j `min` 300)%nat with j by lia. reflexivity.
  - intros Hnone.
    destruct (Z.gtb_spec (len t) 300); [| lia].
    destruct (Z.gtb_spec (rfind (take 300 t) SPACE) 250) as [Hsp | Hno];
      [| reflexivity].
    exfalso.
    pose proof (rfind_range (take 300 t) SPACE) as Hrange.
    pose proof (len_take_le t 300) as Hwin.
    destruct (rfind_last (take 300 t) SPACE
                (Z.to_nat (rfind (take 300 t) SPACE))) as [Hat _]; [lia |].
    rewrite lookup_take_lt in Hat by lia.
    apply (Hnone (Z.to_nat (rfind (take 300 t) SPACE))); [lia | exact Hat].
Qed.

End ShortSpec.




(** ** The MIDDLE stage *)

Local Abbreviation unmarked s := (Forall (fun c => is_mark c = false) s).
Local Abbreviation blank s := (Forall (fun c => isspace c = true) s).
(** A sentence as [sentences_of] produces them. *)
Local Abbreviation plain s :=
  ((s : pystr) <> [] /\ unmarked s /\ strip s = s).

Lemma lstrip_blank_prefix pre s : blank pre -> lstrip (pre ++ s) = lstrip s.
Proof.
  induction 1 as [| c pre Hc _ IH]; simpl; [reflexivity |].
  rewrite Hc. exact IH.
Qed.

Lemma lstrip_head s :
  lstrip s = [] \/ exists c r, lstrip s = c :: r /\ isspace c = false.
Proof.
  induction s as [| c r IH]; simpl; [auto |].
  destruct (isspace c) eqn:Hc; [exact IH | right; eauto].
Qed.

Lemma rstrip_keeps_head c r :
  isspace c = false -> rstrip (c :: r) = c :: rstrip r.
Proof. intros Hc. simpl. rewrite Hc. destruct (rstrip r); reflexivity. Qed.

Lemma rstrip_idem s : rstrip (rstrip s) = rstrip s.
Proof.
  induction s as [| c r IH]; simpl; [reflexivity |].
  destruct (rstrip r) as [| a r'] eqn:Hr.
  - destruct (isspace c) eqn:Hc; simpl; [reflexivity |].
    rewrite Hc. reflexivity.
  - change (rstrip (c :: a :: r')) with
      (match rstrip (a :: r') with
       | [] => if isspace c then [] else [c]
       | x => c :: x
       end).
    rewrite IH. reflexivity.
Qed.

Lemma strip_idem s : strip (strip s) = strip s.
Proof.
  unfold strip at 2 3.
  destruct (lstrip_head s) as [Hnil | (c & r & Hcr & Hc)].
  - rewrite Hnil. reflexivity.
  - rewrite Hcr, (rstrip_keeps_head c r Hc).
    unfold strip. simpl lstrip. rewrite Hc.
    rewrite <- (rstrip_keeps_head c r Hc). apply rstrip_idem.
Qed.

Lemma lstrip_Forall (P : char -> Prop) s : Forall P s -> Forall P (lstrip s).
Proof.
  induction 1 as [| c r Hc Hr IH]; simpl; [constructor |].
  destruct (isspace c); [exact IH | constructor; assumption].
Qed.

Lemma rstrip_Forall (P : char -> Prop) s : Forall P s -> Forall P (rstrip s).
Proof.
  induction 1 as [| c r Hc Hr IH]; simpl; [constructor |].
  destruct (rstrip r) as [| a r'].
  - destruct (isspace c); repeat constructor; assumption.
  - constructor; assumption.
Qed.

Lemma strip_Forall (P : char -> Prop) s : Forall P s -> Forall P (strip s).
Proof. intros H. apply rstrip_Forall, lstrip_Forall, H. Qed.

Lemma strip_blank_prefix pre s : blank pre -> strip (pre ++ s) = strip s.
Proof. intros Hpre. unfold strip. rewrite lstrip_blank_prefix by exact Hpre. reflexivity. Qed.

Lemma re_split_marks_nonnil s : re_split_marks s <> [].
Proof.
  induction s as [| c r IH]; simpl; [discriminate |].
  destruct (is_mark c).
  - destruct r as [| c' r']; [discriminate |].
    destruct (is_mark c'); [exact IH | discriminate].
  - destruct (re_split_marks r); discriminate.
Qed.

Lemma re_split_marks_unmarked s : Forall (fun seg => unmarked seg) (re_split_marks s).
Proof.
  induction s as [| c r IH]; simpl.
  - repeat constructor.
  - destruct (is_mark c) eqn:Hc.
    + destruct r as [| c' r'].
      * repeat constructor.
      * destruct (is_mark c'); [exact IH | constructor; [constructor | exact IH]].
    + destruct (re_split_marks r) as [| h t].
      * repeat constructor. exact Hc.
      * inversion IH as [| ? ? Hh Ht]; subst.
        constructor; [constructor; assumption | assumption].
Qed.

(** An unmarked prefix stays in front of the first segment. *)
Lemma re_split_marks_prefix s r :
  unmarked s ->
  re_split_marks (s ++ r) =
    (s ++ hd [] (re_split_marks r)) :: tl (re_split_marks r).
Proof.
  induction 1 as [| c s' Hc _ IH]; simpl.
  - pose proof (re_split_marks_nonnil r).
    destruct (re_split_marks r); [contradiction | reflexivity].
  - rewrite Hc, IH. reflexivity.
Qed.

Lemma sentences_of_cons_segment (h : pystr) (segs : list pystr) :
  map strip (filter (fun s => nonempty (strip s)) (h :: segs)) =
    (if nonempty (strip h) then [strip h] else [])
      ++ map strip (filter (fun s => nonempty (strip s)) segs).
Proof.
  rewrite filter_cons. destruct (nonempty (strip h)) eqn:Hh.
  - rewrite decide_True by exact I. reflexivity.
  - rewrite decide_False by exact id. reflexivity.
Qed.

Lemma nonempty_true (s : pystr) : s <> [] -> nonempty s = true.
Proof. destruct s; [contradiction | reflexivity]. Qed.

(** Splitting the re-joined text gives back the sentences that were
    joined. *)
Lemma sentences_of_join : forall (ss : list pystr) (pre : pystr),
  ss <> [] ->
  Forall (fun s => plain s) ss ->
  blank pre -> unmarked pre ->
  sentences_of (pre ++ join [46; 32]%N ss ++ [46]%N) = ss.
Proof.
  induction ss as [| s rest IH]; intros pre Hne Hplain Hblank Hunm;
    [contradiction |].
  inversion Hplain as [| ? ? (Hs & Hsu & Hss) Hrest]; subst.
  assert (Hfirst : strip (pre ++ s) = s)
    by (rewrite strip_blank_prefix by exact Hblank; exact Hss).
  assert (Hpre_s : unmarked (pre ++ s)) by (apply Forall_app; auto).
  unfold sentences_of. destruct rest as [| s' rest'].
  - simpl join. rewrite app_assoc.
    rewrite re_split_marks_prefix by exact Hpre_s.
    change (re_split_marks [46%N]) with [[]; [] : pystr].
    cbn [hd tl]. rewrite app_nil_r.
    rewrite sentences_of_cons_segment, Hfirst, (nonempty_true s Hs).
    reflexivity.
  - change (join [46; 32]%N (s :: s' :: rest'))
      with (s ++ [46; 32]%N ++ join [46; 32]%N (s' :: rest')).
    replace (pre ++ (s ++ [46; 32]%N ++ join [46; 32]%N (s' :: rest')) ++ [46%N])
      with ((pre ++ s)
              ++ 46%N :: 32%N :: (join [46; 32]%N (s' :: rest') ++ [46%N]))
      by (rewrite <- !app_assoc; reflexivity).
    rewrite re_split_marks_prefix by exact Hpre_s.
    change (re_split_marks
              (46%N :: 32%N :: (join [46; 32]%N (s' :: rest') ++ [46%N])))
      with ([] :: re_split_marks
                    ([32%N] ++ join [46; 32]%N (s' :: rest') ++ [46%N])).
    cbn [hd tl]. rewrite app_nil_r.
    rewrite sentences_of_cons_segment, Hfirst, (nonempty_true s Hs).
    cbn [app]. f_equal.
    apply (IH [32%N]); [discriminate | exact Hrest | |];
      repeat constructor.
Qed.

Lemma filter_marks_unmarked (s : pystr) :
  unmarked s -> filter (fun c => is_mark c) s = [].
Proof.
  induction 1 as [| c r Hc _ IH]; [reflexivity |].
  rewrite filter_cons, decide_False by (rewrite Hc; exact id). exact IH.
Qed.

(** The re-joined text holds one terminal mark per sentence. *)
Lemma marks_of_join : forall ss : list pystr,
  ss <> [] ->
  Forall (fun s => plain s) ss ->
  length (filter (fun c => is_mark c) (join [46; 32]%N ss ++ [46]%N))
    = length ss.
Proof.
  induction ss as [| s rest IH]; intros Hne Hplain; [contradiction |].
  inversion Hplain as [| ? ? (Hs & Hsu & Hss) Hrest]; subst.
  destruct rest as [| s' rest'].
  - simpl join. rewrite filter_app, (filter_marks_unmarked s Hsu). reflexivity.
  - change (join [46; 32]%N (s :: s' :: rest'))
      with (s ++ [46; 32]%N ++ join [46; 32]%N (s' :: rest')).
    rewrite <- !app_assoc.
    rewrite filter_app, (filter_marks_unmarked s Hsu).
    cbn [app]. rewrite filter_cons, decide_True by exact I.
    rewrite filter_cons, decide_False by exact id.
    cbn [length]. f_equal. apply IH; [discriminate | exact Hrest].
Qed.

(** Every sentence the stage counts is non-empty, holds no terminal mark
    and has no blank at either end. *)
Lemma sentences_of_plain (t : pystr) : Forall (fun s => plain s) (sentences_of t).
Proof.
  unfold sentences_of.
  pose proof (re_split_marks_unmarked t) as Hunm.
  induction (re_split_marks t) as [| h segs IH]; [constructor |].
  inversion Hunm as [| ? ? Hh Hsegs]; subst.
  rewrite sentences_of_cons_segment.
  destruct (nonempty (strip h)) eqn:Hne; cbn [app]; [| exact (IH Hsegs)].
  constructor; [| exact (IH Hsegs)].
  split; [| split].
  - intros Hnil. rewrite Hnil in Hne. discriminate.
  - apply strip_Forall. exact Hh.
  - apply strip_idem.
Qed.

Section MiddleSpec.
Context {W : Type}.
Variable call_model : Z -> pystr -> W -> (model_result + exn) * W.
Variable prompts_map : gmap pystr Z.

Local Abbreviation run_middle := (run_middle_10 call_model prompts_map).
Local Abbreviation middle_id := (default 3%Z (prompts_map !! u "MIDDLE_10")).

(** What [run_middle_10] returns, by the outcome of the model call. *)
Lemma run_middle_10_unfold (clean_text : pystr) (p : process W) :
  (run_middle clean_text p).1 =
    match call_model middle_id clean_text (world p) with
    | (inr e, _) => inr e
    | (inl result, _) =>
        if negb (ok result) then inl []
        else
          let t := strip (text result) in
          if (len (sentences_of t) >? 10)%Z
          then inl (join [46; 32]%N (take 10 (sentences_of t)) ++ [46]%N)
          else inl t
    end.
Proof.
  unfold run_middle_10, bind, ext, log, ret.
  destruct (call_model middle_id clean_text (world p)) as [[result | e] w'];
    simpl; [| reflexivity].
  destruct (ok result); simpl; [| reflexivity].
  destruct (len (sentences_of (strip (text result))) >? 10)%Z; reflexivity.
Qed.

(** C8, as the code has it.  [run_middle_10] counts sentences, not marks:
    a sentence is a non-blank stretch of the answer between runs of
    terminal marks.  When the answer holds more than 10 sentences, the
    output is the first 10, stripped, joined by ". " and closed by a
    period; counted the same way, the output holds exactly these 10
    sentences, and it holds exactly 10 terminal marks.  When the answer
    holds 10 sentences or fewer, the output is the stripped answer,
    unchanged. *)
Theorem middle_sentence_cap (clean_text : pystr) (p : process W)
    (result : model_result) (w' : W) :
  call_model middle_id clean_text (world p) = (inl result, w') ->
  ok result = true ->
  let t := strip (text result) in
  ((10 < length (sentences_of t))%nat ->
     exists o,
       (run_middle clean_text p).1 = inl o
       /\ o = join (u ". ") (take 10 (sentences_of t)) ++ u "."
       /\ sentences_of o = take 10 (sentences_of t)
       /\ length (sentences_of o) = 10%nat
       /\ length (filter (fun c => is_mark c) o) = 10%nat)
  /\ ((length (sentences_of t) <= 10)%nat ->
      (run_middle clean_text p).1 = inl t).
Proof.
  intros Hcall Hok. cbv zeta.
  rewrite run_middle_10_unfold, Hcall, Hok. cbn [negb].
  set (t := strip (text result)).
  change (u ". ") with [46; 32]%N. change (u ".") with [46]%N.
  split.
  - intros Hmany.
    destruct (Z.gtb_spec (len (sentences_of t)) 10) as [_ | Hfew];
      [| unfold len in Hfew; lia].
    assert (Hten : length (take 10 (sentences_of t)) = 10%nat)
      by (rewrite length_take; lia).
    assert (Hne : take 10 (sentences_of t) <> [])
      by (intros Hnil; rewrite Hnil in Hten; discriminate).
    assert (Hplain : Forall (fun s => plain s) (take 10 (sentences_of t)))
      by (apply Forall_take, sentences_of_plain).
    pose proof (sentences_of_join (take 10 (sentences_of t)) [] Hne Hplain
                  (Forall_nil_2 _) (Forall_nil_2 _)) as Hjoin.
    cbn [app] in Hjoin.
    eexists. split; [reflexivity |]. split; [reflexivity |].
    rewrite Hjoin. split; [reflexivity |]. split; [exact Hten |].
    rewrite marks_of_join by assumption. exact Hten.
  - intros Hfew.
    destruct (Z.gtb_spec (len (sentences_of t)) 10) as [Hmany | _];
      [unfold len in Hmany; lia | reflexivity].
Qed.

End MiddleSpec.

(** C8 as stated fails on [middle_answer_marks]: the answer holds eleven
    terminal marks, but a single sentence, so [run_middle_10] returns it
    as it is; the output holds one sentence, not ten, and still eleven
    marks. *)
Lemma run_middle_10_marks_are_not_sentences :
  let t := middle_answer_marks in
  let out := (run_middle_10 (answering t) ∅ (u "talk") p0).1 in
  length (filter (fun c => is_mark c) t) = 11%nat
  /\ out = inl t
  /\ sentences_of t = [u "Wait"]
  /\ length (sentences_of t) <> 10%nat.
Proof.
  vm_compute. repeat split; try reflexivity. discriminate.
Qed.

Lemma middle_sentence_cap_witness :
  exists o,
    (run_middle_10 (answering middle_answer_twelve) ∅ (u "talk") p0).1 = inl o
    /\ o = join (u ". ") (take 10 (sentences_of (strip middle_answer_twelve)))
           ++ u "."
    /\ sentences_of o = take 10 (sentences_of (strip middle_answer_twelve))
    /\ length (sentences_of o) = 10%nat
    /\ length (filter (fun c => is_mark c) o) = 10%nat.
Proof.
  pose proof (middle_sentence_cap (answering middle_answer_twelve) ∅
                (u "talk") p0
                {| ok := true; text := middle_answer_twelve; error := None |}
                1%nat eq_refl eq_refl) as Hcap.
  cbv zeta in Hcap. cbn [text] in Hcap.
  destruct Hcap as [Hmany _]. apply Hmany.
  vm_compute. lia.
Defined.

Example run_middle_10_twelve :
  (run_middle_10 (answering middle_answer_twelve) ∅ (u "talk") p0).1
    = inl (u "One. Two. Three. Four. Five. Six. Seven. Eight. Nine. Ten.").
Proof. vm_compute. reflexivity. Qed.

(** ** The CLEAN stage *)

Section CleanSpec.
Context {W : Type}.
Variable lib : pylib.
Variable call_model : Z -> pystr -> W -> (model_result + exn) * W.
Variable prompts_map : gmap pystr Z.

Local Abbreviation clean_id := (default 1%Z (prompts_map !! u "CLEAN")).
Local Abbreviation parse t := (parse_braces lib t (try_parse_json lib t)).

(** A text that does not decode, and whose brace substring, if it has
    one, does not decode either, leaves [parsed_data] at [None]. *)
Lemma parse_braces_fails (t : pystr) :
  (exists e, json_loads lib t = inr e) ->
  (forall g, search_braces t = Some g -> exists e, json_loads lib g = inr e) ->
  (parse t).1 = None.
Proof.
  intros [e He] Hbraces. unfold parse_braces, try_parse_json.
  rewrite He. cbn [fst].
  destruct (search_braces t) as [g |]; [| reflexivity].
  destruct (Hbraces g eq_refl) as [e' He']. rewrite He'. reflexivity.
Qed.

(** [run_clean] when nothing is parsed from the first answer nor from the
    answer to the one clarification request. *)
Lemma run_clean_invalid_json (transcript_text : pystr) (p : process W)
    (r1 r2 : model_result) (w1 w2 : W) :
  call_model clean_id transcript_text (world p) = (inl r1, w1) ->
  ok r1 = true ->
  (parse (text r1)).1 = None ->
  call_model clean_id
    (transcript_text ++ [NEWLINE; NEWLINE] ++ clarification_prompt) w1
    = (inl r2, w2) ->
  (ok r2 = true -> (parse (text r2)).1 = None) ->
  exists d,
    (run_clean lib call_model prompts_map transcript_text p).1 =
      inl {| clean := []; links := []; raw := text r1;
             clean_error := Some {| code := u "invalid_json"; detail := d |} |}
    /\ world (run_clean lib call_model prompts_map transcript_text p).2 = w2.
Proof.
  intros Hcall1 Hok1 Hparse1 Hcall2 Hparse2.
  unfold run_clean, bind, ext, log, ret.
  cbn [world the_queue slept logged marks].
  rewrite Hcall1. cbn [world the_queue slept logged marks].
  rewrite Hok1. cbn [negb].
  rewrite Hparse1. cbn [world the_queue slept logged marks].
  rewrite Hcall2. cbn [world the_queue slept logged marks].
  destruct (ok r2).
  - cbn [world the_queue slept logged marks].
    rewrite (Hparse2 eq_refl). cbn [fst snd world]. eauto.
  - cbn [world the_queue slept logged marks].
    rewrite Hparse1. cbn [fst snd world]. eauto.
Qed.

End CleanSpec.

(** ** [process_transcript_chat] *)

Section ChatSpec.
Context {W : Type}.
Variable lib : pylib.
Variable init_chat_client : W -> bool * W.
Variable load_prompts_from_notion : W -> gmap pystr pystr * W.
Variable send_message : pystr -> pystr -> W -> (option pystr + exn) * W.
Variable config : ai_config.

Local Abbreviation chat :=
  (process_transcript_chat lib init_chat_client load_prompts_from_notion
     send_message config).

(** [process_transcript_chat] always returns a result dictionary, and the
    only error codes it reports are [no_client], [no_prompts] and
    [processing_error]. *)
Lemma process_transcript_chat_codes (transcript_text : pystr) (p : process W) :
  exists r,
    (chat transcript_text p).1 = inl r
    /\ forall err, chat_err r = Some err ->
         chat_code err = u "no_client"
         \/ chat_code err = u "no_prompts"
         \/ chat_code err = u "processing_error".
Proof.
  unfold process_transcript_chat, bind, lift, ext, log, ret, try_except.
  cbn [world the_queue slept logged marks].
  destruct (init_chat_client (world p)) as [[|] w1];
    cbn [world the_queue slept logged marks negb].
  - destruct (load_prompts_from_notion w1) as [prompts w2].
    cbn [world the_queue slept logged marks].
    destruct (bool_decide (prompts = ∅)).
    + eexists. split; [reflexivity |]. intros err [= <-]. auto.
    + match goal with
      | |- context [five_requests ?x1 ?x2 ?x3 ?x4 ?x5 ?x6] =>
          destruct (five_requests x1 x2 x3 x4 x5 x6) as [[res | e] p3] eqn:Hfive
      end.
      * exists res. split; [reflexivity |].
        intros err Herr. exfalso.
        unfold five_requests, bind in Hfive.
        repeat match type of Hfive with
          | context [match ?c ?q with _ => _ end] =>
              destruct (c q) as [[? | ?] ?]; try discriminate Hfive
          | context [let '(_, _) := ?x in _] => destruct x
          end.
        unfold log, ret in Hfive. injection Hfive as <- _.
        discriminate Herr.
      * eexists. split; [reflexivity |]. intros err [= <-]. auto.
  - eexists. split; [reflexivity |]. intros err [= <-]. auto.
Qed.

(** The CLEAN request of [process_transcript_chat] when its answer holds
    no JSON: a single request is sent, no error is raised, and the clean
    text is the transcript, with no links. *)
Lemma chat_clean_fallback (prompts : gmap pystr pystr)
    (transcript_text : pystr) (p : process W) (t : pystr) (w1 : W) :
  (forall model prompt, send_message model prompt (world p) = (inl (Some t), w1)) ->
  loads_or_braces lib (strip t) = None ->
  (chat_clean lib send_message config prompts transcript_text p).1
    = inl (JStr transcript_text, JList [])
  /\ world (chat_clean lib send_message config prompts transcript_text p).2
     = w1.
Proof.
  intros Hsend Hnone.
  assert (Hclean : assoc [(u "clean", JStr []); (u "links", JList [])]
                     (u "clean") = Some (JStr []))
    by (vm_compute; reflexivity).
  assert (Hlinks : assoc [(u "clean", JStr []); (u "links", JList [])]
                     (u "links") = Some (JList []))
    by (vm_compute; reflexivity).
  unfold chat_clean, template, request, retry_on_503, text_strip, dict_get.
  unfold bind, try_except, ext, log, ret, raise.
  destruct (nonempty (default [] (prompts !! u "P1_CLEAN")));
    cbn [world the_queue slept logged marks fst snd];
    rewrite Hsend; cbn [world the_queue slept logged marks fst snd];
    rewrite Hnone; cbn [default from_option id];
    rewrite Hclean, Hlinks; cbn [from_option id truthy];
    rewrite bool_decide_eq_true_2 by reflexivity;
    cbn [negb world the_queue slept logged marks fst snd]; auto.
Qed.

End ChatSpec.

(** C6, as the code has it.  In [run_clean], when nothing can be parsed
    from the first answer (as it is, or from its brace substring) nor from
    the answer to the one clarification request, the returned dictionary
    has the error code [invalid_json], an empty [clean] and no [links];
    its [raw] entry is the first answer, and exactly two model calls were
    made.  [process_transcript_chat], which assembles the pipeline result,
    never reports [invalid_json]: it always returns a result, whose error
    code, if any, is [no_client], [no_prompts] or [processing_error]; and
    when the answer to its CLEAN request holds no JSON, that stage sends
    no second request and takes the transcript as the clean text. *)
Theorem clean_unparseable_twice {W : Type} (lib : pylib)
    (call_model : Z -> pystr -> W -> (model_result + exn) * W)
    (prompts_map : gmap pystr Z)
    (init_chat_client : W -> bool * W)
    (load_prompts_from_notion : W -> gmap pystr pystr * W)
    (send_message : pystr -> pystr -> W -> (option pystr + exn) * W)
    (config : ai_config)
    (transcript_text : pystr) (p : process W) :
  (forall r1 r2 w1 w2,
     call_model (default 1%Z (prompts_map !! u "CLEAN")) transcript_text
       (world p) = (inl r1, w1) ->
     ok r1 = true ->
     (exists e, json_loads lib (text r1) = inr e) ->
     (forall g, search_braces (text r1) = Some g ->
                exists e, json_loads lib g = inr e) ->
     call_model (default 1%Z (prompts_map !! u "CLEAN"))
       (transcript_text ++ [NEWLINE; NEWLINE] ++ clarification_prompt) w1
       = (inl r2, w2) ->
     ok r2 = true ->
     (exists e, json_loads lib (text r2) = inr e) ->
     (forall g, search_braces (text r2) = Some g ->
                exists e, json_loads lib g = inr e) ->
     exists d,
       (run_clean lib call_model prompts_map transcript_text p).1 =
         inl {| clean := []; links := []; raw := text r1;
                clean_error :=
                  Some {| code := u "invalid_json"; detail := d |} |}
       /\ world (run_clean lib call_model prompts_map transcript_text p).2
          = w2)
  /\ (exists r,
        (process_transcript_chat lib init_chat_client load_prompts_from_notion
           send_message config transcript_text p).1 = inl r
        /\ forall err, chat_err r = Some err ->
             chat_code err <> u "invalid_json")
  /\ (forall prompts t w1,
        (forall model prompt,
           send_message model prompt (world p) = (inl (Some t), w1)) ->
        loads_or_braces lib (strip t) = None ->
        (chat_clean lib send_message config prompts transcript_text p).1
          = inl (JStr transcript_text, JList [])
        /\ world (chat_clean lib send_message config prompts
                    transcript_text p).2 = w1).
Proof.
  split; [| split].
  - intros r1 r2 w1 w2 Hcall1 Hok1 Hdec1 Hbr1 Hcall2 Hok2 Hdec2 Hbr2.
    apply (run_clean_invalid_json lib call_model prompts_map transcript_text p
             r1 r2 w1 w2); auto using parse_braces_fails.
  - destruct (process_transcript_chat_codes lib init_chat_client
                load_prompts_from_notion send_message config
                transcript_text p) as (r & Hr & Hcodes).
    exists r. split; [exact Hr |].
    intros err Herr Hbad.
    destruct (Hcodes err Herr) as [Hc | [Hc | Hc]];
      rewrite Hc in Hbad; vm_compute in Hbad; discriminate Hbad.
  - intros prompts t w1. apply chat_clean_fallback.
Qed.

(** C6 as stated fails on the pipeline result: when the model answers the
    CLEAN request of [process_transcript_chat] with a text that is not
    JSON and has no brace substring, no clarification request is made
    (five requests are sent in all, one per stage), the result carries no
    error, and its clean text is the transcript itself.  And in the
    dictionary [run_clean] returns with [invalid_json], the [raw] text is
    not empty: it is the first answer. *)
Lemma process_transcript_chat_no_invalid_json :
  let run :=
    process_transcript_chat example_lib chat_init chat_prompts
      (chat_send answers_plain) chat_config (u "raw transcript") p0 in
  let cleaned :=
    run_clean example_lib
      (answering_in_turn [u "Sorry, no JSON here"; u "Still no JSON"])
      ∅ (u "raw transcript") p0 in
  json_loads example_lib (u "Sorry, no JSON here")
    = inr (u "Expecting value: line 1 column 1 (char 0)")
  /\ search_braces (u "Sorry, no JSON here") = None
  /\ (exists r,
        run.1 = inl r
        /\ chat_err r = None
        /\ clean_text r = JStr (u "raw transcript")
        /\ clean_text r <> JStr []
        /\ world run.2 = 5%nat)
  /\ (exists r d,
        cleaned.1 = inl r
        /\ clean_error r = Some {| code := u "invalid_json"; detail := d |}
        /\ raw r = u "Sorry, no JSON here"
        /\ raw r <> []).
Proof.
  vm_compute. split; [reflexivity |]. split; [reflexivity |]. split.
  - eexists. repeat split. discriminate.
  - eexists. eexists. repeat split. discriminate.
Qed.

Lemma clean_unparseable_twice_witness :
  exists d,
    (run_clean example_lib
       (answering_in_turn [u "Sorry, no JSON here"; u "Still no JSON"])
       ∅ (u "raw transcript") p0).1 =
      inl {| clean := []; links := []; raw := u "Sorry, no JSON here";
             clean_error := Some {| code := u "invalid_json"; detail := d |} |}
    /\ world (run_clean example_lib
                (answering_in_turn [u "Sorry, no JSON here"; u "Still no JSON"])
                ∅ (u "raw transcript") p0).2 = 2%nat.
Proof.
  pose proof (proj1 (clean_unparseable_twice example_lib
                (answering_in_turn [u "Sorry, no JSON here"; u "Still no JSON"])
                ∅ chat_init chat_prompts (chat_send answers_plain) chat_config
                (u "raw transcript") p0)
                {| ok := true; text := u "Sorry, no JSON here"; error := None |}
                {| ok := true; text := u "Still no JSON"; error := None |}
                1%nat 2%nat eq_refl eq_refl) as Hclean.
  cbn [text] in Hclean. apply Hclean.
  - eexists. vm_compute. reflexivity.
  - intros g Hg. vm_compute in Hg. discriminate Hg.
  - reflexivity.
  - reflexivity.
  - eexists. vm_compute. reflexivity.
  - intros g Hg. vm_compute in Hg. discriminate Hg.
Defined.

(** ** The RESOURCES stage *)

(** A link as [run_clean] lets it through. *)
Local Abbreviation http_link l :=
  (startswith l (u "http://") || startswith l (u "https://") = true).

Lemma valid_link_http (v : json) (l : pystr) :
  valid_link v = Some l -> http_link l.
Proof.
  destruct v as [| | | | s | |]; simpl; try discriminate.
  destruct (startswith s (u "http://") || startswith s (u "https://")) eqn:Hs;
    [| discriminate].
  intros [= <-]. exact Hs.
Qed.

Lemma valid_links_http (v : json) :
  Forall (fun l => http_link l)
    (match v with JList l => omap valid_link l | _ => [] end).
Proof.
  destruct v as [| | | | | l |]; try constructor.
  apply Forall_forall. intros x Hx.
  apply list_elem_of_omap in Hx. destruct Hx as (y & _ & Hy).
  exact (valid_link_http y x Hy).
Qed.

(** A link that passed the filter of [run_clean] is not blank. *)
Lemma http_link_nonblank (l : pystr) : http_link l -> nonempty (strip l) = true.
Proof.
  intros Hl.
  assert (Hhead : exists r, l = 104%N :: r).
  { destruct l as [| c r]; [discriminate Hl |].
    change (u "http://") with [104; 116; 116; 112; 58; 47; 47]%N in Hl.
    change (u "https://") with [104; 116; 116; 112; 115; 58; 47; 47]%N in Hl.
    cbn [startswith] in Hl.
    destruct (N.eqb_spec 104 c) as [<- | Hne]; [eauto | discriminate Hl]. }
  destruct Hhead as [r ->].
  unfold strip. cbn [lstrip].
  change (isspace 104) with false. cbn iota.
  rewrite rstrip_keeps_head by reflexivity. reflexivity.
Qed.

Section ResourcesSpec.
Context {W : Type}.
Variable call_model : Z -> pystr -> W -> (model_result + exn) * W.
Variable prompts_map : gmap pystr Z.

Lemma add_links_elem (links : list pystr) : forall (acc : gset pystr) x,
  x ∈ add_links acc links <->
  x ∈ acc \/ exists l, l ∈ links /\ nonempty (strip l) = true /\ x = strip l.
Proof.
  induction links as [| l rest IH]; intros acc x; simpl.
  - split; [auto |]. intros [H | (l & Hl & _)]; [exact H |].
    apply not_elem_of_nil in Hl. contradiction.
  - unfold add_links in *. simpl. rewrite IH.
    destruct (nonempty (strip l)) eqn:Hne.
    + rewrite elem_of_union, elem_of_singleton. split.
      * intros [[H | ->] | (l' & Hl' & Hn & Hx)]; eauto.
        -- right. exists l. split; [left | auto].
        -- right. exists l'. split; [right; exact Hl' | auto].
      * intros [H | (l' & Hl' & Hn & Hx)]; [auto |].
        apply elem_of_cons in Hl'. destruct Hl' as [-> | Hl']; eauto.
    + split.
      * intros [H | (l' & Hl' & Hn & Hx)]; [auto |].
        right. exists l'. split; [right; exact Hl' | auto].
      * intros [H | (l' & Hl' & Hn & Hx)]; [auto |].
        apply elem_of_cons in Hl'. destruct Hl' as [-> | Hl']; [congruence | eauto].
Qed.

(** [run_resources] answers with the elements of a set: no string occurs
    twice. *)
Lemma run_resources_NoDup (clean_text : pystr) (links_from_clean : list pystr)
    (p : process W) (out : list pystr) :
  (run_resources call_model prompts_map clean_text links_from_clean p).1
    = inl out ->
  NoDup out.
Proof.
  unfold run_resources, bind, ext, log, ret.
  destruct (bool_decide (add_links ∅ links_from_clean = ∅)).
  - destruct (call_model _ clean_text (world p)) as [[result | e] w'];
      cbn [fst snd]; [| discriminate].
    destruct (ok result); cbn [fst snd]; intros [= <-]; apply NoDup_elements.
  - cbn [fst snd]. intros [= <-]. apply NoDup_elements.
Qed.

(** With at least one link that is not blank, the model is not called:
    the world is as before, and the answer is made of the stripped
    links. *)
Lemma run_resources_from_links (clean_text : pystr)
    (links_from_clean : list pystr) (p : process W) :
  links_from_clean <> [] ->
  Forall (fun l => http_link l) links_from_clean ->
  (run_resources call_model prompts_map clean_text links_from_clean p).1
    = inl (elements (add_links ∅ links_from_clean))
  /\ world (run_resources call_model prompts_map clean_text
              links_from_clean p).2 = world p
  /\ forall x, x ∈ elements (add_links ∅ links_from_clean) <->
               exists l, l ∈ links_from_clean /\ x = strip l.
Proof.
  intros Hne Hhttp.
  assert (Hset : add_links ∅ links_from_clean <> ∅).
  { destruct links_from_clean as [| l rest]; [contradiction |].
    inversion Hhttp as [| ? ? Hl _]; subst.
    intros Hempty.
    assert (Hin : strip l ∈ add_links ∅ (l :: rest)).
    { apply add_links_elem. right. exists l.
      split; [left |]. split; [apply http_link_nonblank, Hl | reflexivity]. }
    rewrite Hempty in Hin. apply not_elem_of_empty in Hin. exact Hin. }
  unfold run_resources, bind, ext, log, ret.
  rewrite bool_decide_eq_false_2 by exact Hset. cbn [fst snd world].
  split; [reflexivity |]. split; [reflexivity |].
  intros x. rewrite elem_of_elements, add_links_elem. split.
  - intros [H | (l & Hl & _ & Hx)]; [apply not_elem_of_empty in H; contradiction |].
    eauto.
  - intros (l & Hl & Hx). right. exists l. split; [exact Hl |].
    split; [| exact Hx].
    apply http_link_nonblank.
    rewrite Forall_forall in Hhttp. apply Hhttp, Hl.
Qed.

End ResourcesSpec.

(** The links [run_clean] returns all start with [http://] or
    [https://]. *)
Lemma run_clean_links_http {W : Type} (lib : pylib)
    (call_model : Z -> pystr -> W -> (model_result + exn) * W)
    (prompts_map : gmap pystr Z) (transcript_text : pystr) (p : process W)
    (r : clean_result) :
  (run_clean lib call_model prompts_map transcript_text p).1 = inl r ->
  Forall (fun l => http_link l) (links r).
Proof.
  assert (Htail : forall (parsed : option json * option pystr) raw_response
                         (q : process W),
    ((match parsed.1 with
      | None =>
          let detail := u "JSON parse error: " ++ str_of_option parsed.2 in
          log true "ERROR" "ai_pipeline" (u "ai_clean_error")
            [(u "error", detail)] ;;;
          ret {| clean := []; links := []; raw := raw_response;
                 clean_error := Some {| code := u "invalid_json";
                                        detail := detail |} |}
      | Some parsed_data =>
          clean_text <- dict_get parsed_data (u "clean") (JStr []) ;;
          links <- dict_get parsed_data (u "links") (JList []) ;;
          let clean_text :=
            match clean_text with JStr s => s | v => py_str lib v end in
          let links :=
            match links with
            | JList l => omap valid_link l
            | _ => []
            end in
          log true "INFO" "ai_pipeline" (u "ai_clean_parsed")
            [(u "clean_len", str_of_int (len clean_text));
             (u "links", str_of_int (len links))] ;;;
          ret {| clean := clean_text; links := links; raw := raw_response;
                 clean_error := None |}
      end) q).1 = inl r ->
    Forall (fun l => http_link l) (links r)).
  { intros [[parsed_data |] parse_error] raw_response q; cbn [fst snd].
    - destruct parsed_data as [| | | | | | d];
        unfold dict_get, bind, raise, ret, log; cbn [fst snd];
        try discriminate.
      intros [= <-]. cbn [links]. apply valid_links_http.
    - unfold bind, log, ret. cbn [fst snd]. intros [= <-]. constructor. }
  unfold run_clean. unfold bind at 1 2. unfold ext at 1, log at 1.
  cbn [world the_queue slept logged marks].
  destruct (call_model _ transcript_text (world p)) as [[r1 | e] w1];
    [| discriminate].
  destruct (ok r1); cbn [negb].
  - unfold bind at 1.
    match goal with
    | |- context [match (parse_braces lib ?t ?x).1 with _ => _ end] =>
        destruct ((parse_braces lib t x).1) eqn:Hp1
    end.
    + unfold ret at 1. cbv beta iota. intros H.
      exact (Htail _ _ _ H).
    + unfold bind at 1 2. unfold log at 1, ext at 1.
      cbn [world the_queue slept logged marks].
      destruct (call_model _ _ w1) as [[r2 | e] w2]; [| discriminate].
      destruct (ok r2); unfold ret at 1; cbv beta iota; intros H;
        exact (Htail _ _ _ H).
  - unfold bind, log, ret. cbn [fst snd]. intros [= <-]. constructor.
Qed.

(** C9, as the code has it.  [run_resources] never returns a string
    twice.  When the links [run_clean] returned are not empty,
    [run_resources] does not call the model, whatever the model is: the
    world is left as it was, and the answer holds exactly the stripped
    links.  (The RESOURCES request of [process_transcript_chat] is always
    sent, and its answer is kept line by line.) *)
Theorem resources_stage_dedup {W : Type} (lib : pylib)
    (call_model : Z -> pystr -> W -> (model_result + exn) * W)
    (prompts_map : gmap pystr Z) (clean_text : pystr) (p : process W) :
  (forall links_from_clean out,
     (run_resources call_model prompts_map clean_text links_from_clean p).1
       = inl out -> NoDup out)
  /\ (forall (call_model0 : Z -> pystr -> W -> (model_result + exn) * W)
             (transcript_text : pystr) (p1 : process W) (r : clean_result),
        (run_clean lib call_model0 prompts_map transcript_text p1).1 = inl r ->
        links r <> [] ->
        (run_resources call_model prompts_map clean_text (links r) p).1
          = inl (elements (add_links ∅ (links r)))
        /\ world (run_resources call_model prompts_map clean_text
                    (links r) p).2 = world p
        /\ forall x, x ∈ elements (add_links ∅ (links r)) <->
                     exists l, l ∈ links r /\ x = strip l).
Proof.
  split.
  - intros links_from_clean out. apply run_resources_NoDup.
  - intros call_model0 transcript_text p1 r Hclean Hne.
    apply run_resources_from_links; [exact Hne |].
    exact (run_clean_links_http lib call_model0 prompts_map transcript_text
             p1 r Hclean).
Qed.

(** C9 as stated fails on [process_transcript_chat]: the CLEAN answer
    holds a link, yet the RESOURCES request is sent all the same (five
    requests in all), and the two equal lines of its answer are both kept
    in the resource list. *)
Lemma process_transcript_chat_resources_repeat :
  let run :=
    process_transcript_chat example_lib chat_init chat_prompts
      (chat_send answers_links) chat_config (u "raw transcript") p0 in
  exists r,
    run.1 = inl r
    /\ chat_links r = JList [JStr (u "https://a.example")]
    /\ world run.2 = 5%nat
    /\ chat_resources r
       = [u "https://b.example/docs"; u "https://b.example/docs"]
    /\ ~ NoDup (chat_resources r).
Proof.
  vm_compute. eexists. repeat split.
  intros Hnodup. inversion Hnodup as [| ? ? Hnotin _]; subst.
  apply Hnotin. left.
Qed.

Lemma resources_stage_dedup_witness :
  exists r,
    (run_clean example_lib (answering_in_turn [clean_answer]) ∅
       (u "raw transcript") p0).1 = inl r
    /\ links r = [u "https://a.example"]
    /\ (run_resources (answering (u "https://never.asked")) ∅ (u "talk")
          (links r) p0).1 = inl [u "https://a.example"]
    /\ world (run_resources (answering (u "https://never.asked")) ∅
                (u "talk") (links r) p0).2 = 0%nat.
Proof.
  eexists. split; [vm_compute; reflexivity |]. split; [reflexivity |].
  destruct (proj2 (resources_stage_dedup example_lib
                     (answering (u "https://never.asked")) ∅ (u "talk") p0)
              (answering_in_turn [clean_answer]) (u "raw transcript") p0
              {| clean := u "talk"; links := [u "https://a.example"];
                 raw := clean_answer; clean_error := None |})
    as (Hout & Hworld & _).
  - vm_compute. reflexivity.
  - discriminate.
  - split.
    + etransitivity; [exact Hout | vm_compute; reflexivity].
    + exact Hworld.
Defined.

(** ** The retry on a 503, on the reference schedule *)


(** Every call overloaded: three retries after 1 s, 2 s and 4 s, then the
    error of the fourth call. *)
Example retry_on_503_exhausted :
  let run := retry_on_503 example_lib (scripted always_503) 3 true
               [1000; 2000; 4000]%Z p0 in
  run.1 = always_503 3
  /\ world run.2 = 4%nat
  /\ slept run.2 = [1000; 2000; 4000]%Z.
Proof. vm_compute. repeat split. Qed.

(** An error that is not an overload: raised at once, one call, no sleep. *)
Example retry_on_503_fatal :
  let run := retry_on_503 example_lib (scripted unauthorized) 3 true
               [1000; 2000; 4000]%Z p0 in
  run.1 = inr (Raised (u "401 Unauthorized"))
  /\ world run.2 = 1%nat
  /\ slept run.2 = [].
Proof. vm_compute. repeat split. Qed.

(** A schedule with a negative second delay: the first retry sleeps one
    second, the second is never made; the [ValueError] of [time.sleep]
    is raised in place of the overload error. *)
Example retry_on_503_negative_delay :
  let run := retry_on_503 example_lib (scripted always_503) 3 true
               [1000; -1000; 4000]%Z p0 in
  run.1 = inr sleep_error
  /\ world run.2 = 2%nat
  /\ slept run.2 = [1000]%Z.
Proof. vm_compute. repeat split. Qed.

Example is_503_error_examples :
  is_503_error example_lib (Raised (u "503 UNAVAILABLE")) = true
  /\ is_503_error example_lib (Raised (u "Error 503: try again later")) = true
  /\ is_503_error example_lib (Raised (u "503")) = false
  /\ is_503_error example_lib (Raised (u "429 RESOURCE_EXHAUSTED")) = false.
Proof. vm_compute. repeat split. Qed.

(** * Further properties of the code *)

(** ** The queue: size, positions, removal *)

Lemma pop_task_length waiting tid found rest :
  pop_task waiting tid = Some (found, rest) ->
  length waiting = S (length rest).
Proof.
  revert found rest. induction waiting as [| t w IH]; intros found rest; simpl.
  - discriminate.
  - destruct (bool_decide (task_id t = tid)).
    + intros [= <- <-]. reflexivity.
    + destruct (pop_task w tid) as [[f r] |]; [| discriminate].
      intros [= <- <-]. simpl. rewrite (IH f r eq_refl). reflexivity.
Qed.

(** No method takes the waiting sequence beyond [max_size], and none
    changes [max_size]. *)
Lemma queue_step_keeps_bound q c :
  (len (_queue q) <= max_size q)%Z ->
  (len (_queue (queue_step q c)) <= max_size (queue_step q c))%Z
  /\ max_size (queue_step q c) = max_size q.
Proof.
  intros Hinv. destruct c as [url0 source0 ck | | tid | | tid]; simpl.
  - split; [apply add_url_keeps_bound, Hinv |].
    destruct (Z_lt_ge_dec (len (_queue q)) (max_size q)) as [Hroom | Hfull].
    + rewrite add_url_accepted by exact Hroom. reflexivity.
    + rewrite add_url_rejected by exact Hfull. reflexivity.
  - unfold get_next_url. destruct (_queue q) as [| t rest] eqn:Hq; simpl.
    + rewrite Hq. auto.
    + unfold len in *. simpl length in Hinv. split; [lia | reflexivity].
  - unfold mark_completed. destruct (_processing_task q) as [t |]; [| auto].
    destruct (bool_decide (task_id t = tid)); simpl; auto.
  - pose proof (len_nonneg (_queue q)). split; [exact (Z.le_trans _ _ _ H Hinv) | reflexivity].
  - unfold remove_task.
    destruct (pop_task (_queue q) tid) as [[found rest] |] eqn:Hpop; simpl; [| auto].
    apply pop_task_length in Hpop. unfold len in *. split; [lia | reflexivity].
Qed.

(** X1.  The size invariant: starting from a fresh [UrlQueue(max_size)]
    with a non-negative bound, no sequence of [add_url], [get_next_url],
    [mark_completed], [clear_queue] and [remove_task] calls ever leaves
    more than [max_size] tasks waiting. *)
Theorem queue_run_bounded (bound : Z) (calls : list queue_call) :
  (0 <= bound)%Z ->
  (len (_queue (queue_run (UrlQueue_init bound) calls)) <= bound)%Z
  /\ max_size (queue_run (UrlQueue_init bound) calls) = bound.
Proof.
  intros Hbound. unfold queue_run.
  assert (Hgen : forall q,
    (len (_queue q) <= max_size q)%Z ->
    (len (_queue (foldl queue_step q calls)) <= max_size q)%Z
    /\ max_size (foldl queue_step q calls) = max_size q).
  { induction calls as [| c rest IH]; intros q Hinv; simpl; [auto |].
    destruct (queue_step_keeps_bound q c Hinv) as [Hstep Hmax].
    destruct (IH (queue_step q c) Hstep) as [Hlen Hsame].
    rewrite Hmax in *. auto. }
  apply (Hgen (UrlQueue_init bound)). exact Hbound.
Qed.

Lemma queue_run_bounded_witness :
  (len (_queue (queue_run (UrlQueue_init 1)
                  [call_add_url sub_a.1.1 sub_a.1.2 sub_a.2;
                   call_add_url sub_b.1.1 sub_b.1.2 sub_b.2;
                   call_get_next_url;
                   call_add_url sub_b.1.1 sub_b.1.2 sub_b.2])) <= 1)%Z
  /\ max_size (queue_run (UrlQueue_init 1)
                 [call_add_url sub_a.1.1 sub_a.1.2 sub_a.2;
                  call_add_url sub_b.1.1 sub_b.1.2 sub_b.2;
                  call_get_next_url;
                  call_add_url sub_b.1.1 sub_b.1.2 sub_b.2]) = 1%Z.
Proof. apply queue_run_bounded. lia. Defined.

Local Abbreviation other_id tid := (fun t : UrlTask => task_id t <> tid).

Lemma find_position_spec waiting tid : forall i,
  match find_position waiting tid i with
  | Some k =>
      exists n t, k = (i + Z.of_nat n + 1)%Z
        /\ waiting !! n = Some t /\ task_id t = tid
        /\ Forall (other_id tid) (take n waiting)
        /\ pop_task waiting tid = Some (t, take n waiting ++ drop (S n) waiting)
  | None => Forall (other_id tid) waiting /\ pop_task waiting tid = None
  end.
Proof.
  induction waiting as [| t w IH]; intros i; simpl.
  - split; [constructor | reflexivity].
  - destruct (decide (task_id t = tid)) as [Heq | Hne].
    + rewrite !bool_decide_eq_true_2 by exact Heq.
      exists 0%nat, t. simpl. rewrite drop_0.
      repeat split; [lia | exact Heq | constructor].
    + rewrite !bool_decide_eq_false_2 by exact Hne.
      specialize (IH (i + 1)%Z).
      destruct (find_position w tid (i + 1)) as [k |].
      * destruct IH as (n & t' & -> & Hl & Hid & Hall & ->).
        exists (S n), t'. simpl.
        repeat split; [lia | exact Hl | exact Hid |].
        constructor; assumption.
      * destruct IH as [Hall ->]. split; [constructor; assumption | reflexivity].
Qed.

(** X2.  [get_position] answers with the 1-based place of the FIRST waiting
    task that carries the id: the task at that place has the id and no task
    before it has; it answers [None] exactly when no waiting task has the
    id.  The job in flight is never counted. *)
Theorem get_position_first (q : UrlQueue) (tid : pystr) :
  match get_position q tid with
  | Some k =>
      (1 <= k <= len (_queue q))%Z
      /\ exists t, _queue q !! Z.to_nat (k - 1) = Some t
           /\ task_id t = tid
           /\ Forall (other_id tid) (take (Z.to_nat (k - 1)) (_queue q))
  | None => Forall (other_id tid) (_queue q)
  end.
Proof.
  unfold get_position.
  pose proof (find_position_spec (_queue q) tid 0) as H.
  destruct (find_position (_queue q) tid 0) as [k |].
  - destruct H as (n & t & -> & Hl & Hid & Hall & _).
    replace (Z.to_nat (0 + Z.of_nat n + 1 - 1)) with n by lia.
    apply lookup_lt_Some in Hl as Hlt. unfold len.
    split; [lia |]. exists t. auto.
  - exact (proj1 H).
Qed.

(** X3.  [remove_task] takes out exactly the task [get_position] points
    at: the tasks before and after it keep their order, the answer carries
    that task's [url] and [source], and the job in flight is left alone.
    When [get_position] answers [None] the queue is unchanged and the
    answer is a failure. *)
Theorem remove_task_at_position (q : UrlQueue) (tid : pystr) :
  match get_position q tid with
  | Some k =>
      exists t, _queue q !! Z.to_nat (k - 1) = Some t
        /\ remove_success (remove_task q tid).1 = true
        /\ removed_task (remove_task q tid).1 = Some (url t, source t)
        /\ _queue (remove_task q tid).2
           = take (Z.to_nat (k - 1)) (_queue q) ++ drop (Z.to_nat k) (_queue q)
        /\ _processing_task (remove_task q tid).2 = _processing_task q
        /\ max_size (remove_task q tid).2 = max_size q
  | None =>
      remove_success (remove_task q tid).1 = false
      /\ removed_task (remove_task q tid).1 = None
      /\ (remove_task q tid).2 = q
  end.
Proof.
  unfold get_position, remove_task.
  pose proof (find_position_spec (_queue q) tid 0) as H.
  destruct (find_position (_queue q) tid 0) as [k |].
  - destruct H as (n & t & -> & Hl & Hid & Hall & ->).
    replace (Z.to_nat (0 + Z.of_nat n + 1 - 1)) with n by lia.
    replace (Z.to_nat (0 + Z.of_nat n + 1)) with (S n) by lia.
    exists t. simpl. repeat split; try reflexivity. exact Hl.
  - destruct H as [_ ->]. simpl. auto.
Qed.

Lemma find_position_app w t tid : forall i,
  task_id t = tid ->
  find_position (w ++ [t]) tid i
  = match find_position w tid i with
    | Some k => Some k
    | None => Some (i + len w + 1)%Z
    end.
Proof.
  induction w as [| t0 w IH]; intros i Hid; simpl.
  - rewrite bool_decide_eq_true_2 by exact Hid. unfold len. simpl. f_equal. lia.
  - destruct (bool_decide (task_id t0 = tid)); [reflexivity |].
    rewrite (IH (i + 1)%Z Hid).
    destruct (find_position w tid (i + 1)); [reflexivity |].
    unfold len. simpl length. f_equal. lia.
Qed.

(** X4.  The [position] an accepted [add_url] reports and [get_position]
    of the returned [task_id] agree exactly when no waiting task already
    has that id ([task_id] is the source and the whole second of the
    submission, so two submissions of one chat within a second share it);
    otherwise [get_position] points at the earlier task, strictly before
    the reported position. *)
Theorem add_url_position (q : UrlQueue) (url0 source0 : pystr) (ck : clock) :
  (len (_queue q) < max_size q)%Z ->
  exists tid k,
    res_task_id (add_url q url0 source0 ck).1 = Some tid
    /\ get_position (add_url q url0 source0 ck).2 tid = Some k
    /\ (k <= position (add_url q url0 source0 ck).1)%Z
    /\ (k = position (add_url q url0 source0 ck).1
        <-> Forall (other_id tid) (_queue q)).
Proof.
  intros Hroom. rewrite add_url_accepted by exact Hroom.
  cbv zeta. cbn [fst snd res_task_id position].
  set (task := new_UrlTask url0 source0 ck).
  unfold get_position. cbn [_queue].
  pose proof (find_position_app (_queue q) task (task_id task) 0 eq_refl) as Happ.
  pose proof (find_position_spec (_queue q) (task_id task) 0) as H.
  destruct (find_position (_queue q) (task_id task) 0) as [k |].
  - destruct H as (n & t & -> & Hl & Hid & Hall & _).
    apply lookup_lt_Some in Hl as Hlt.
    exists (task_id task), (0 + Z.of_nat n + 1)%Z.
    split; [reflexivity |]. split; [exact Happ |].
    split; [unfold len; lia |]. split; [unfold len; lia |].
    intros Hfresh. exfalso.
    rewrite Forall_lookup in Hfresh. exact (Hfresh n t Hl Hid).
  - exists (task_id task), (0 + len (_queue q) + 1)%Z.
    split; [reflexivity |]. split; [exact Happ |].
    split; [lia |]. split; [intros _; exact (proj1 H) | lia].
Qed.

Lemma add_url_position_witness :
  exists tid k,
    res_task_id (add_url url_queue sub_a.1.1 sub_a.1.2 sub_a.2).1 = Some tid
    /\ get_position (add_url url_queue sub_a.1.1 sub_a.1.2 sub_a.2).2 tid = Some k
    /\ (k <= position (add_url url_queue sub_a.1.1 sub_a.1.2 sub_a.2).1)%Z
    /\ (k = position (add_url url_queue sub_a.1.1 sub_a.1.2 sub_a.2).1
        <-> Forall (other_id tid) (_queue url_queue)).
Proof. apply add_url_position. vm_compute. reflexivity. Defined.

(** Two submissions of one chat within the same second: the second one is
    reported at position 2, and [get_position] of its id answers 1. *)
Example add_url_position_same_second :
  let q1 := (add_url url_queue sub_a.1.1 sub_a.1.2 sub_a.2).2 in
  let r := add_url q1 sub_b.1.1 sub_a.1.2 sub_a.2 in
  position r.1 = 2%Z
  /\ (exists tid, res_task_id r.1 = Some tid /\ get_position r.2 tid = Some 1%Z).
Proof. vm_compute. split; [reflexivity | eexists; split; reflexivity]. Qed.

(** X5.  A burst of submissions on a queue with [room] free places: the
    first [room] of them are accepted and appended in the order of their
    submission, every later one is rejected and leaves no trace. *)
Theorem enqueue_all_drop_tail (subs : list submission) : forall q : UrlQueue,
  _queue (enqueue_all q subs).2
    = _queue q
      ++ map task_of (take (Z.to_nat (max_size q - len (_queue q))) subs)
  /\ map success (enqueue_all q subs).1
    = replicate (length (take (Z.to_nat (max_size q - len (_queue q))) subs)) true
      ++ replicate (length (drop (Z.to_nat (max_size q - len (_queue q))) subs)) false
  /\ _processing_task (enqueue_all q subs).2 = _processing_task q.
Proof.
  induction subs as [| s rest IH]; intros q.
  - simpl. rewrite take_nil, drop_nil, app_nil_r. auto.
  - cbn [enqueue_all].
    destruct (Z_lt_ge_dec (len (_queue q)) (max_size q)) as [Hroom | Hfull].
    + rewrite add_url_accepted by exact Hroom.
      match goal with
      | |- context [enqueue_all ?q1 rest] =>
          specialize (IH q1); destruct (enqueue_all q1 rest) as [rs q2]
      end.
      cbn [fst snd _queue max_size _processing_task] in *.
      rewrite len_app in IH. replace (len [new_UrlTask s.1.1 s.1.2 s.2]) with 1%Z in IH
        by reflexivity.
      destruct (Z.to_nat (max_size q - len (_queue q))) as [| r] eqn:Hr; [lia |].
      replace (Z.to_nat (max_size q - (len (_queue q) + 1))) with r in IH by lia.
      destruct IH as (-> & Hrs & ->).
      cbn [take drop map length replicate app success].
      rewrite Hrs, <- app_assoc. auto.
    + rewrite add_url_rejected by exact Hfull.
      specialize (IH q). destruct (enqueue_all q rest) as [rs q2].
      cbn [fst snd] in *.
      replace (Z.to_nat (max_size q - len (_queue q))) with 0%nat in * by lia.
      rewrite take_0, drop_0 in *. destruct IH as (-> & Hrs & ->).
      cbn [map length replicate app success]. rewrite Hrs. auto.
Qed.

(** X6.  [get_queue_status] and the calls that follow it agree: [is_full]
    says whether the next [add_url] is rejected, [is_empty] whether the
    next [get_next_url] finds nothing, and [processing_task] names the one
    id [mark_completed] accepts. *)
Theorem get_queue_status_agrees (q : UrlQueue) (url0 source0 : pystr)
    (ck : clock) (tid : pystr) :
  is_full (get_queue_status q) = negb (success (add_url q url0 source0 ck).1)
  /\ (is_empty (get_queue_status q) = true <-> (get_next_url q).1 = None)
  /\ ((mark_completed q tid).1 = true
      <-> processing_task (get_queue_status q) = Some tid).
Proof.
  unfold get_queue_status, add_url, get_next_url, mark_completed.
  cbn [is_full is_empty processing_task].
  split; [| split].
  - destruct (len (_queue q) >=? max_size q)%Z; reflexivity.
  - destruct (_queue q) as [| t rest]; cbn; [tauto |].
    unfold len. simpl length. split; [| discriminate].
    intros H. apply Z.eqb_eq in H. lia.
  - destruct (_processing_task q) as [t |]; cbn.
    + destruct (decide (task_id t = tid)) as [Heq | Hne].
      * rewrite bool_decide_eq_true_2 by exact Heq. cbn. rewrite Heq. tauto.
      * rewrite bool_decide_eq_false_2 by exact Hne. cbn.
        split; [discriminate | intros [= H]; contradiction].
    + split; discriminate.
Qed.

(** X7.  [clear_queue] reports how many tasks waited and empties the
    waiting sequence without touching the job in flight: the next
    [get_next_url] finds nothing and [mark_completed] answers, and leaves
    the in-flight slot, as it would have without the call. *)
Theorem clear_queue_keeps_in_flight (q : UrlQueue) (tid : pystr) :
  (clear_queue q).1 = st_queue_size (get_queue_status q)
  /\ (get_next_url (clear_queue q).2).1 = None
  /\ (mark_completed (clear_queue q).2 tid).1 = (mark_completed q tid).1
  /\ _processing_task (mark_completed (clear_queue q).2 tid).2
     = _processing_task (mark_completed q tid).2.
Proof.
  unfold clear_queue, get_next_url, mark_completed.
  cbn [fst snd _queue _processing_task get_queue_status st_queue_size].
  destruct (_processing_task q) as [t |] eqn:Hp.
  - destruct (bool_decide (task_id t = tid)); cbn; rewrite ?Hp; auto.
  - cbn. rewrite Hp. auto.
Qed.

(** ** Long messages: [split_long_message] *)

Example split_long_message_examples :
  TelegramOutput.split_long_message (u "ab" ++ [NEWLINE] ++ u "cd") 5
    = inl [u "ab" ++ [NEWLINE] ++ u "cd"]
  /\ TelegramOutput.split_long_message (u "ab" ++ [NEWLINE] ++ u "cd") 4
    = inl [u "ab"; u "cd"]
  /\ TelegramOutput.split_long_message (u "abcde" ++ [NEWLINE] ++ u "f") 2
    = inl [u "ab"; u "cd"; u "e"; u "f"]
  /\ TelegramOutput.split_long_message
       (u "a" ++ [NEWLINE; NEWLINE; NEWLINE] ++ u "bcd") 3
    = inl [u "a"; u "bcd"].
Proof. vm_compute. repeat split. Qed.

Local Abbreviation no_newlines :=
  (filter (fun c : char => c <> NEWLINE)).
Local Abbreviation starts_with_text s := (head s <> Some NEWLINE).

Lemma rstrip_newlines_filter (s : pystr) :
  no_newlines (TelegramOutput.rstrip_newlines s) = no_newlines s.
Proof.
  induction s as [| c r IH]; [reflexivity |].
  cbn [TelegramOutput.rstrip_newlines].
  destruct (TelegramOutput.rstrip_newlines r) as [| c' r'] eqn:Hr.
  - destruct (N.eqb_spec c NEWLINE) as [-> | Hc].
    + rewrite filter_cons_False by (intros H; exact (H eq_refl)).
      rewrite <- IH. reflexivity.
    + rewrite !filter_cons_True by exact Hc. rewrite <- IH. reflexivity.
  - rewrite !(filter_cons _ c), IH. reflexivity.
Qed.

Lemma rstrip_newlines_nonempty (s : pystr) :
  s <> [] -> starts_with_text s -> TelegramOutput.rstrip_newlines s <> [].
Proof.
  destruct s as [| a r]; [congruence |]. intros _ Ha.
  cbn [TelegramOutput.rstrip_newlines].
  destruct (TelegramOutput.rstrip_newlines r); [| discriminate].
  destruct (N.eqb_spec a NEWLINE) as [-> | _]; [| discriminate].
  exfalso. apply Ha. reflexivity.
Qed.

Lemma split_nonnil c s : split c s <> [].
Proof.
  destruct s as [| a r]; simpl; [discriminate |].
  destruct (a =? c)%N; [discriminate |].
  destruct (split c r); discriminate.
Qed.

Lemma split_lines c s : Forall (Forall (fun a => a <> c)) (split c s).
Proof.
  induction s as [| a r IH]; simpl.
  - repeat constructor.
  - destruct (N.eqb_spec a c) as [-> | Ha].
    + constructor; [constructor | exact IH].
    + destruct (split c r) as [| h t]; [repeat constructor; exact Ha |].
      inversion IH; subst. constructor; [constructor |]; assumption.
Qed.

Lemma split_concat c s :
  concat (split c s) = filter (fun a : char => a <> c) s.
Proof.
  induction s as [| a r IH]; simpl; [reflexivity |].
  destruct (N.eqb_spec a c) as [-> | Ha].
  - rewrite filter_cons_False by (intros H; exact (H eq_refl)). exact IH.
  - rewrite filter_cons_True by exact Ha. rewrite <- IH.
    pose proof (split_nonnil c r). destruct (split c r); [congruence | reflexivity].
Qed.

Lemma filter_no_newline (line : pystr) :
  Forall (fun a => a <> NEWLINE) line -> no_newlines line = line.
Proof.
  induction 1 as [| a r Ha _ IH]; [reflexivity |].
  rewrite filter_cons_True by exact Ha. rewrite IH. reflexivity.
Qed.

(** The loop over the lines: no part it stores is empty, the part under
    construction never starts with a newline, and no character other
    than a newline is dropped. *)
Lemma split_line_loop max_length (lines : list pystr) :
  Forall (Forall (fun a => a <> NEWLINE)) lines ->
  forall parts current,
    Forall (fun p => p <> []) parts -> starts_with_text current ->
    let st := foldl (TelegramOutput.split_line max_length) (parts, current) lines in
    Forall (fun p => p <> []) st.1 /\ starts_with_text st.2
    /\ no_newlines (concat st.1 ++ st.2)
       = no_newlines (concat parts ++ current) ++ concat lines.
Proof.
  induction 1 as [| line rest Hline _ IH]; intros parts current Hparts Hcur.
  - cbv zeta. simpl. rewrite app_nil_r. auto.
  - cbv zeta. cbn [foldl concat].
    replace (TelegramOutput.split_line max_length (parts, current) line)
      with (if (len current + len line + 1 >? max_length)%Z && nonempty current
            then (parts ++ [TelegramOutput.rstrip_newlines current], line)
            else if nonempty current
                 then (parts, current ++ [NEWLINE] ++ line)
                 else (parts, line)) by reflexivity.
    assert (Hhead : starts_with_text line).
    { destruct Hline as [| a r Ha _]; [discriminate |].
      intros [= H]. exact (Ha H). }
    destruct ((len current + len line + 1 >? max_length)%Z && nonempty current)
      eqn:Hflush.
    + apply andb_true_iff in Hflush as [_ Hne].
      assert (Hnn : current <> []) by (destruct current; [discriminate | congruence]).
      specialize (IH (parts ++ [TelegramOutput.rstrip_newlines current]) line).
      destruct IH as (H1 & H2 & H3); [| exact Hhead |].
      { apply Forall_app. split; [exact Hparts |].
        constructor; [| constructor].
        apply rstrip_newlines_nonempty; assumption. }
      split; [exact H1 |]. split; [exact H2 |]. rewrite H3.
      rewrite concat_app, !filter_app. cbn [concat].
      rewrite app_nil_r, rstrip_newlines_filter, (filter_no_newline line Hline).
      rewrite <- !app_assoc. reflexivity.
    + destruct (nonempty current) eqn:Hne.
      * specialize (IH parts (current ++ [NEWLINE] ++ line) Hparts).
        destruct IH as (H1 & H2 & H3).
        { destruct current; [discriminate | exact Hcur]. }
        split; [exact H1 |]. split; [exact H2 |]. rewrite H3.
        rewrite !filter_app.
        rewrite (filter_cons_False _ NEWLINE) by (intros H; exact (H eq_refl)).
        rewrite filter_nil, (filter_no_newline line Hline), <- !app_assoc.
        reflexivity.
      * destruct current; [| discriminate].
        specialize (IH parts line Hparts Hhead).
        destruct IH as (H1 & H2 & H3).
        split; [exact H1 |]. split; [exact H2 |]. rewrite H3.
        rewrite !filter_app, (filter_no_newline line Hline), filter_nil, app_nil_r.
        rewrite <- !app_assoc. reflexivity.
Qed.

(** Cutting by characters: the pieces are the part, none is empty and
    none is longer than the step. *)
Lemma chunks_from_spec (part : pystr) (step : nat) :
  (1 <= step)%nat ->
  forall fuel i, (length part <= i + fuel)%nat ->
    concat (TelegramOutput.chunks_from fuel part i step) = drop i part
    /\ Forall (fun c => c <> [] /\ (length c <= step)%nat)
         (TelegramOutput.chunks_from fuel part i step).
Proof.
  intros Hstep. induction fuel as [| fuel IH]; intros i Hfuel; simpl.
  - rewrite drop_ge by lia. auto.
  - destruct (Nat.ltb_spec i (length part)) as [Hlt | Hge].
    + destruct (IH (i + step)%nat ltac:(lia)) as [Hcat Hall].
      split.
      * cbn [concat]. rewrite Hcat, <- drop_drop. apply take_drop.
      * constructor; [| exact Hall]. split.
        -- intros Hnil. apply (f_equal length) in Hnil.
           rewrite length_take, length_drop in Hnil. simpl in Hnil. lia.
        -- rewrite length_take. lia.
    + rewrite drop_ge by lia. auto.
Qed.

Lemma hard_split_spec max_length (part : pystr) :
  (1 <= max_length)%Z ->
  exists pieces,
    TelegramOutput.hard_split max_length part = inl pieces
    /\ concat pieces = part
    /\ Forall (fun p => (len p <= max_length)%Z) pieces
    /\ (part <> [] -> Forall (fun p => p <> []) pieces).
Proof.
  intros Hmax. unfold TelegramOutput.hard_split.
  destruct (Z.leb_spec (len part) max_length) as [Hfit | Hlong].
  - exists [part]. cbn [concat]. rewrite app_nil_r.
    repeat split; [repeat constructor; exact Hfit |].
    intros Hne. repeat constructor. exact Hne.
  - destruct (Z.eqb_spec max_length 0) as [-> | _]; [lia |].
    destruct (Z.ltb_spec max_length 0) as [Hneg | _]; [lia |].
    destruct (chunks_from_spec part (Z.to_nat max_length) ltac:(lia)
                (length part) 0%nat ltac:(lia)) as [Hcat Hall].
    eexists. split; [reflexivity |]. rewrite drop_0 in Hcat.
    split; [exact Hcat |]. split.
    + eapply Forall_impl; [exact Hall |]. intros c [_ Hc]. unfold len. lia.
    + intros _. eapply Forall_impl; [exact Hall |]. intros c [Hc _]. exact Hc.
Qed.

Lemma final_parts_spec max_length :
  (1 <= max_length)%Z ->
  forall parts final,
  exists out,
    TelegramOutput.final_parts max_length parts final = inl (final ++ out)
    /\ concat out = concat parts
    /\ Forall (fun p => (len p <= max_length)%Z) out
    /\ (Forall (fun p => p <> []) parts -> Forall (fun p => p <> []) out).
Proof.
  intros Hmax. induction parts as [| part rest IH]; intros final.
  - exists []. simpl. rewrite app_nil_r. repeat split; constructor.
  - cbn [TelegramOutput.final_parts].
    destruct (hard_split_spec max_length part Hmax) as (pieces & -> & Hcat & Hfit & Hne).
    destruct (IH (final ++ pieces)) as (out & -> & Hcat' & Hfit' & Hne').
    exists (pieces ++ out). rewrite app_assoc.
    split; [reflexivity |]. split.
    + rewrite concat_app, Hcat, Hcat'. reflexivity.
    + split; [apply Forall_app; auto |].
      intros Hall. inversion Hall; subst. apply Forall_app. auto.
Qed.

(** The parts [split_long_message] returns for a limit of at least one
    character. *)
Lemma split_long_message_spec (text : pystr) (max_length : Z) :
  (1 <= max_length)%Z ->
  exists parts,
    TelegramOutput.split_long_message text max_length = inl parts
    /\ Forall (fun p => (len p <= max_length)%Z) parts
    /\ (text <> [] -> Forall (fun p => p <> []) parts)
    /\ no_newlines (concat parts) = no_newlines text.
Proof.
  intros Hmax. unfold TelegramOutput.split_long_message.
  destruct (Z.leb_spec (len text) max_length) as [Hfit | Hlong].
  - exists [text]. cbn [concat]. rewrite app_nil_r.
    repeat split; [repeat constructor; exact Hfit |].
    intros Hne. repeat constructor. exact Hne.
  - pose proof (split_line_loop max_length (split NEWLINE text)
                  (split_lines NEWLINE text) [] []
                  (Forall_nil_2 _) ltac:(discriminate)) as Hloop.
    cbv zeta in Hloop.
    destruct (foldl (TelegramOutput.split_line max_length) ([], [])
                (split NEWLINE text)) as [parts current].
    cbn [fst snd concat app] in Hloop. destruct Hloop as (Hparts & Hcur & Hkeep).
    rewrite filter_nil, app_nil_l, split_concat in Hkeep.
    set (all := if nonempty current then parts ++ [current] else parts).
    assert (Hall : Forall (fun p => p <> []) all
                   /\ concat all = concat parts ++ current).
    { subst all. destruct current as [| a r]; cbn [nonempty].
      - rewrite app_nil_r. auto.
      - split; [apply Forall_app; split; [exact Hparts | repeat constructor; discriminate] |].
        rewrite concat_app. cbn [concat]. rewrite app_nil_r. reflexivity. }
    destruct Hall as [Hne Hcat].
    destruct (final_parts_spec max_length Hmax all []) as (out & -> & Hout & Hfit & Hkeepne).
    exists out. cbn [app]. split; [reflexivity |]. split; [exact Hfit |].
    split; [intros _; exact (Hkeepne Hne) |].
    rewrite Hout, Hcat. exact Hkeep.
Qed.

(** X8.  With a limit of at least one character, [split_long_message]
    returns (it does not raise), every part it returns fits the limit,
    and, for a text that is not empty, no part is empty. *)
Theorem split_long_message_parts_fit (text : pystr) (max_length : Z) :
  (1 <= max_length)%Z ->
  exists parts,
    TelegramOutput.split_long_message text max_length = inl parts
    /\ Forall (fun p => (len p <= max_length)%Z) parts
    /\ (text <> [] -> Forall (fun p => p <> []) parts).
Proof.
  intros Hmax.
  destruct (split_long_message_spec text max_length Hmax)
    as (parts & Hparts & Hfit & Hne & _).
  exists parts. auto.
Qed.

Lemma split_long_message_parts_fit_witness :
  exists parts,
    TelegramOutput.split_long_message (u "abcde" ++ [NEWLINE] ++ u "f") 2
      = inl parts
    /\ Forall (fun p => (len p <= 2)%Z) parts
    /\ (u "abcde" ++ [NEWLINE] ++ u "f" <> [] -> Forall (fun p => p <> []) parts).
Proof.
  apply (split_long_message_parts_fit (u "abcde" ++ [NEWLINE] ++ u "f") 2).
  lia.
Defined.

(** X9.  With a limit of at least one character, [split_long_message]
    loses nothing but line breaks: the parts, one after the other, hold
    the characters of the text other than newlines, in their order. *)
Theorem split_long_message_keeps_text (text : pystr) (max_length : Z) :
  (1 <= max_length)%Z ->
  exists parts,
    TelegramOutput.split_long_message text max_length = inl parts
    /\ no_newlines (concat parts) = no_newlines text.
Proof.
  intros Hmax.
  destruct (split_long_message_spec text max_length Hmax)
    as (parts & Hparts & _ & _ & Hkeep).
  exists parts. auto.
Qed.

Lemma split_long_message_keeps_text_witness :
  exists parts,
    TelegramOutput.split_long_message
      (u "a" ++ [NEWLINE; NEWLINE; NEWLINE] ++ u "bcd") 3 = inl parts
    /\ no_newlines (concat parts)
       = no_newlines (u "a" ++ [NEWLINE; NEWLINE; NEWLINE] ++ u "bcd").
Proof.
  apply (split_long_message_keeps_text
           (u "a" ++ [NEWLINE; NEWLINE; NEWLINE] ++ u "bcd") 3).
  lia.
Defined.

(** Without room for a single character every line is flushed on its
    own: the parts are the lines that are not empty. *)
Lemma split_line_loop_no_room max_length (lines : list pystr) :
  (max_length <= 0)%Z ->
  Forall (Forall (fun a => a <> NEWLINE)) lines ->
  forall parts current,
    starts_with_text current ->
    let st := foldl (TelegramOutput.split_line max_length) (parts, current) lines in
    st.1 = [] /\ st.2 = [] <-> parts = [] /\ current = [] /\ concat lines = [].
Proof.
  intros Hmax. induction 1 as [| line rest Hline _ IH]; intros parts current Hcur.
  - cbv zeta. simpl. tauto.
  - cbv zeta. cbn [foldl concat].
    replace (TelegramOutput.split_line max_length (parts, current) line)
      with (if (len current + len line + 1 >? max_length)%Z && nonempty current
            then (parts ++ [TelegramOutput.rstrip_newlines current], line)
            else if nonempty current
                 then (parts, current ++ [NEWLINE] ++ line)
                 else (parts, line)) by reflexivity.
    assert (Hhead : starts_with_text line).
    { destruct Hline as [| a r Ha _]; [discriminate |].
      intros [= H]. exact (Ha H). }
    pose proof (len_nonneg current). pose proof (len_nonneg line).
    destruct (Z.gtb_spec (len current + len line + 1) max_length) as [_ | Hle]; [| lia].
    cbn [andb]. destruct current as [| a r]; cbn [nonempty].
    + rewrite (IH parts line Hhead). split.
      * intros (-> & -> & ->). auto.
      * intros (-> & _ & Hcat). apply app_eq_nil in Hcat as [-> ->]. auto.
    + rewrite (IH (parts ++ [TelegramOutput.rstrip_newlines (a :: r)]) line Hhead).
      split.
      * intros (Hnil & _). apply app_eq_nil in Hnil as [_ Hnil]. discriminate.
      * intros (_ & Hnil & _). discriminate.
Qed.

Lemma final_parts_no_room max_length :
  (max_length <= 0)%Z ->
  forall parts final,
    Forall (fun p => p <> []) parts ->
    TelegramOutput.final_parts max_length parts final
    = if (max_length <? 0)%Z then inl final
      else match parts with
           | [] => inl final
           | _ :: _ => inr (Raised (u "range() arg 3 must not be zero"))
           end.
Proof.
  intros Hmax. induction parts as [| part rest IH]; intros final Hparts.
  - cbn. destruct (max_length <? 0)%Z; reflexivity.
  - inversion Hparts as [| ? ? Hne Hrest]; subst.
    cbn [TelegramOutput.final_parts]. unfold TelegramOutput.hard_split.
    assert (0 < len part)%Z by (destruct part; [congruence | unfold len; simpl; lia]).
    destruct (Z.leb_spec (len part) max_length) as [Hfit | _]; [lia |].
    destruct (Z.eqb_spec max_length 0) as [-> | Hnz]; [reflexivity |].
    destruct (Z.ltb_spec max_length 0) as [Hneg | Hpos]; [| lia].
    rewrite (IH _ Hrest). destruct (Z.ltb_spec max_length 0); [| lia].
    rewrite app_nil_r. reflexivity.
Qed.

Lemma no_newlines_nil (text : pystr) :
  no_newlines text = [] <-> forallb (N.eqb NEWLINE) text = true.
Proof.
  induction text as [| a r IH]; [simpl; tauto |].
  cbn [forallb]. destruct (N.eqb_spec NEWLINE a) as [<- | Ha].
  - rewrite filter_cons_False by (intros H; exact (H eq_refl)). exact IH.
  - rewrite filter_cons_True by congruence. split; discriminate.
Qed.

(** X10.  Without room for a single character ([max_length <= 0], which
    [send_formatted_message] passes for a long title) a text that is not
    empty is not split but lost: a negative limit gives no part at all,
    and the limit 0 gives no part for a text of newlines and raises the
    [ValueError] of [range] for any other text. *)
Theorem split_long_message_without_room (text : pystr) (max_length : Z) :
  (max_length <= 0)%Z -> text <> [] ->
  TelegramOutput.split_long_message text max_length
  = if (max_length <? 0)%Z || forallb (N.eqb NEWLINE) text then inl []
    else inr (Raised (u "range() arg 3 must not be zero")).
Proof.
  intros Hmax Htext. unfold TelegramOutput.split_long_message.
  assert (0 < len text)%Z by (destruct text; [congruence | unfold len; simpl; lia]).
  destruct (Z.leb_spec (len text) max_length) as [Hfit | _]; [lia |].
  pose proof (split_line_loop max_length (split NEWLINE text)
                (split_lines NEWLINE text) [] []
                (Forall_nil_2 _) ltac:(discriminate)) as Hloop.
  pose proof (split_line_loop_no_room max_length (split NEWLINE text) Hmax
                (split_lines NEWLINE text) [] [] ltac:(discriminate)) as Hnone.
  cbv zeta in Hloop, Hnone.
  destruct (foldl (TelegramOutput.split_line max_length) ([], [])
              (split NEWLINE text)) as [parts current].
  cbn [fst snd] in Hloop, Hnone. destruct Hloop as (Hparts & _ & _).
  rewrite split_concat, no_newlines_nil in Hnone.
  rewrite final_parts_no_room; [| exact Hmax |].
  - destruct (max_length <? 0)%Z; [reflexivity |]. cbn [orb].
    destruct (forallb (N.eqb NEWLINE) text).
    + destruct (proj2 Hnone) as [-> ->]; [auto | reflexivity].
    + destruct current as [| a r]; cbn [nonempty].
      * destruct parts; [| reflexivity].
        destruct (proj1 Hnone) as (_ & _ & Hf); [auto | discriminate].
      * destruct parts; reflexivity.
  - destruct current; cbn [nonempty]; [exact Hparts |].
    apply Forall_app. split; [exact Hparts | repeat constructor; discriminate].
Qed.

Lemma split_long_message_without_room_witness :
  TelegramOutput.split_long_message (u "ab") 0
  = inr (Raised (u "range() arg 3 must not be zero")).
Proof.
  apply (split_long_message_without_room (u "ab") 0); [lia | discriminate].
Defined.

(** ** Sending to Telegram *)

Lemma send_telegram_message_run {W} (lib : pylib) (c : char) (token : pystr)
    (post : pystr -> pystr -> pystr -> W -> (json + exn) * W)
    (log_func : bool) (chat_id text0 : pystr) (p : process W) :
  exists lg,
    TelegramOutput.send_telegram_message lib (Some (c :: token)) post log_func
      chat_id text0 p
    = (inl (delivered log_func
              (post (sendMessage_url (c :: token)) chat_id text0 (world p)).1),
       Process (post (sendMessage_url (c :: token)) chat_id text0 (world p)).2
         (the_queue p) (slept p) lg (marks p)).
Proof.
  unfold TelegramOutput.send_telegram_message, sendMessage_url.
  set (url0 := u "https://api.telegram.org/bot" ++ (c :: token) ++ u "/sendMessage").
  unfold try_except, bind, ext, log, dict_get, ret, raise.
  destruct p as [w q sl lg mk].
  destruct log_func; cbn [world the_queue slept logged marks];
    destruct (post url0 chat_id text0 w) as [[answer | e] w'];
    cbn [fst snd delivered negb orb];
    try (eexists; reflexivity);
    (destruct answer as [| b | z | fz lit | s | l | d];
     try (eexists; reflexivity));
    (destruct (truthy (from_option id JNull (assoc d (u "ok"))));
     cbn [andb]; try (eexists; reflexivity)).
  destruct (assoc d (u "result")) as [[| b | z | fz lit | s | l | d'] |];
    cbn [from_option id]; eexists; reflexivity.
Qed.

(** X11.  [send_telegram_message] never raises.  Without a token it
    returns [False] and makes no request.  With a token it makes exactly
    one request, to the [sendMessage] address of the token, and returns
    [True] exactly on a delivered answer; with a [log_func], an answer
    whose [ok] is true but whose [result] is not a dictionary counts as a
    failure, because building the log line raises.  The queue is never
    touched and nothing sleeps. *)
Theorem send_telegram_message_outcome {W} (lib : pylib)
    (bot_token : option pystr)
    (post : pystr -> pystr -> pystr -> W -> (json + exn) * W)
    (log_func : bool) (chat_id text0 : pystr) (p : process W) :
  let out := TelegramOutput.send_telegram_message lib bot_token post log_func
               chat_id text0 p in
  the_queue out.2 = the_queue p /\ slept out.2 = slept p
  /\ marks out.2 = marks p
  /\ match bot_token with
     | Some (c :: token) =>
         let answer := post (sendMessage_url (c :: token)) chat_id text0 (world p) in
         out.1 = inl (delivered log_func answer.1) /\ world out.2 = answer.2
     | _ => out.1 = inl false /\ world out.2 = world p
     end.
Proof.
  destruct bot_token as [[| c token] |].
  - cbv zeta. unfold TelegramOutput.send_telegram_message, bind, log, ret.
    destruct log_func; cbn; auto.
  - cbv zeta.
    destruct (send_telegram_message_run lib c token post log_func chat_id text0 p)
      as [lg ->].
    cbn [fst snd world the_queue slept marks]. auto.
  - cbv zeta. unfold TelegramOutput.send_telegram_message, bind, log, ret.
    destruct log_func; cbn; auto.
Qed.

Lemma journaled_run {W}
    (post : pystr -> pystr -> pystr -> W -> (json + exn) * W)
    (url0 chat_id text0 : pystr) (w : W) (j : list journal_entry) :
  journaled post url0 chat_id text0 (w, j)
  = ((post url0 chat_id text0 w).1,
     ((post url0 chat_id text0 w).2,
      j ++ [{| req_url := url0; req_chat_id := chat_id; req_text := text0;
               req_answer := (post url0 chat_id text0 w).1 |}])).
Proof.
  unfold journaled. cbn [fst snd].
  destruct (post url0 chat_id text0 w) as [answer w']. reflexivity.
Qed.

Local Abbreviation addressed token chat_id :=
  (fun e : journal_entry =>
     req_url e = sendMessage_url token /\ req_chat_id e = chat_id).

(** The sending loop on a journaled transport: one request per message,
    in order, whatever the answers; the flag stays true only if it was
    true and every answer was a delivered one. *)
Lemma send_each_journal {W} (lib : pylib) (c : char) (token : pystr)
    (post : pystr -> pystr -> pystr -> W -> (json + exn) * W)
    (log_func : bool) (chat_id : pystr) (msgs : list pystr) :
  forall (success : bool) (p : process (W * list journal_entry)),
  exists entries w lg,
    TelegramOutput.send_each lib (Some (c :: token)) (journaled post) log_func
      chat_id msgs success p
    = (inl (success
            && forallb (fun e => delivered log_func (req_answer e)) entries),
       Process (w, (world p).2 ++ entries) (the_queue p) (slept p) lg (marks p))
    /\ map req_text entries = msgs
    /\ Forall (addressed (c :: token) chat_id) entries.
Proof.
  induction msgs as [| msg rest IH]; intros success p.
  - exists [], (world p).1, (logged p). cbn [TelegramOutput.send_each ret forallb map].
    rewrite andb_true_r, app_nil_r. destruct p as [[w j] q sl lg mk].
    repeat split. constructor.
  - cbn [TelegramOutput.send_each]. unfold bind at 1.
    destruct (send_telegram_message_run lib c token (journaled post) log_func
                chat_id msg p) as [lg1 ->].
    destruct p as [[w j] q sl lg mk]. cbn [world the_queue slept marks].
    rewrite journaled_run. cbn [fst snd].
    set (answer := (post (sendMessage_url (c :: token)) chat_id msg w).1).
    set (w1 := (post (sendMessage_url (c :: token)) chat_id msg w).2).
    set (entry := {| req_url := sendMessage_url (c :: token);
                     req_chat_id := chat_id; req_text := msg;
                     req_answer := answer |}).
    destruct (IH (if delivered log_func answer then success else false)
                (Process (w1, j ++ [entry]) q sl lg1 mk))
      as (entries & w2 & lg2 & -> & Htexts & Haddr).
    exists (entry :: entries), w2, lg2.
    cbn [world the_queue slept marks snd forallb map req_text req_answer].
    rewrite <- app_assoc. cbn [app]. rewrite Htexts.
    split; [| split; [reflexivity | constructor; [split; reflexivity | exact Haddr]]].
    change (req_answer entry) with answer.
    f_equal. f_equal. destruct (delivered log_func answer), success; reflexivity.
Qed.

Local Abbreviation all_delivered log_func :=
  (forallb (fun e : journal_entry => delivered log_func (req_answer e))).

Lemma send_whole_journal {W} (lib : pylib) (c : char) (token : pystr)
    (post : pystr -> pystr -> pystr -> W -> (json + exn) * W)
    (log_func : bool) (chat_id title summary : pystr)
    (success : bool) (p : process (W * list journal_entry)) :
  exists entries w lg,
    TelegramMain.send_whole lib (Some (c :: token)) (journaled post) log_func
      chat_id title summary success p
    = (inl (success && all_delivered log_func entries),
       Process (w, (world p).2 ++ entries) (the_queue p) (slept p) lg (marks p))
    /\ map req_text entries
       = (if nonempty summary
          then [u "<b>" ++ title ++ u ":</b>" ++ TelegramOutput.HTML_BREAK
                  ++ summary]
          else [])
    /\ Forall (addressed (c :: token) chat_id) entries.
Proof.
  unfold TelegramMain.send_whole. destruct (nonempty summary).
  - apply send_each_journal.
  - exists [], (world p).1, (logged p). cbn [forallb map ret].
    rewrite andb_true_r, app_nil_r. destruct p as [[w j] q sl lg mk].
    repeat split. constructor.
Qed.

Lemma send_in_parts_journal {W} (lib : pylib) (c : char) (token : pystr)
    (post : pystr -> pystr -> pystr -> W -> (json + exn) * W)
    (log_func : bool) (chat_id title summary : pystr)
    (success : bool) (p : process (W * list journal_entry)) :
  exists parts entries w lg,
    (if nonempty summary
     then TelegramOutput.split_long_message summary 4000 = inl parts
     else parts = [])
    /\ TelegramMain.send_in_parts lib (Some (c :: token)) (journaled post)
         log_func chat_id title summary success p
       = (inl (success && all_delivered log_func entries),
          Process (w, (world p).2 ++ entries) (the_queue p) (slept p) lg (marks p))
    /\ map req_text entries
       = imap (TelegramMain.part_message title (len parts)) parts
    /\ Forall (addressed (c :: token) chat_id) entries.
Proof.
  unfold TelegramMain.send_in_parts. destruct (nonempty summary).
  - destruct (split_long_message_spec summary 4000 ltac:(lia))
      as (parts & Hparts & _).
    rewrite Hparts. unfold TelegramOutput.returned, bind at 1, ret at 1.
    destruct (send_each_journal lib c token post log_func chat_id
                (imap (TelegramMain.part_message title (len parts)) parts)
                success p) as (entries & w & lg & Hrun & Htexts & Haddr).
    exists parts, entries, w, lg. auto.
  - exists [], [], (world p).1, (logged p). cbn [forallb map ret imap].
    rewrite andb_true_r, app_nil_r. destruct p as [[w j] q sl lg mk].
    repeat split. constructor.
Qed.

(** X12.  [send_telegram_summaries] with a token never raises and never
    stops early: on a journaled transport it makes one request per
    message, in the order short, middle parts, full parts, resources
    (empty summaries are left out, long ones are cut at 4000 characters
    and numbered), and then always the closing notice, whatever the
    answers were.  It returns [True] exactly when every request before
    the closing notice was delivered; the answer to the closing notice is
    ignored. *)
Theorem send_telegram_summaries_journal {W} (lib : pylib) (c : char)
    (token : pystr)
    (post : pystr -> pystr -> pystr -> W -> (json + exn) * W)
    (log_func : bool) (chat_id : pystr) (s : summaries)
    (p : process (W * list journal_entry)) :
  exists middle_parts full_parts entries last w lg,
    (if nonempty (middle s)
     then TelegramOutput.split_long_message (middle s) 4000 = inl middle_parts
     else middle_parts = [])
    /\ (if nonempty (full s)
        then TelegramOutput.split_long_message (full s) 4000 = inl full_parts
        else full_parts = [])
    /\ TelegramMain.send_telegram_summaries lib (Some (c :: token))
         (journaled post) log_func chat_id s p
       = (inl (all_delivered log_func entries),
          Process (w, (world p).2 ++ entries ++ [last])
            (the_queue p) (slept p) lg (marks p))
    /\ map req_text entries
       = (if nonempty (short s)
          then [u "<b>Краткое саммари:</b>" ++ TelegramOutput.HTML_BREAK
                  ++ short s]
          else [])
         ++ imap (TelegramMain.part_message (u "Среднее саммари")
                    (len middle_parts)) middle_parts
         ++ imap (TelegramMain.part_message (u "Полное саммари")
                    (len full_parts)) full_parts
         ++ (if nonempty (resources s)
             then [u "<b>Ресурсы:</b>" ++ TelegramOutput.HTML_BREAK
                     ++ resources s]
             else [])
    /\ req_text last = TelegramMain.FINAL_MSG
    /\ Forall (addressed (c :: token) chat_id) (entries ++ [last]).
Proof.
  unfold TelegramMain.send_telegram_summaries.
  destruct (send_whole_journal lib c token post log_func chat_id
              (u "Краткое саммари") (short s) true p)
    as (e1 & w1 & lg1 & Hrun1 & Ht1 & Ha1).
  unfold bind at 1. rewrite Hrun1. cbn [andb].
  set (p1 := Process (w1, (world p).2 ++ e1) (the_queue p) (slept p) lg1 (marks p)).
  destruct (send_in_parts_journal lib c token post log_func chat_id
              (u "Среднее саммари") (middle s) (all_delivered log_func e1) p1)
    as (middle_parts & e2 & w2 & lg2 & Hm & Hrun2 & Ht2 & Ha2).
  unfold bind at 1. rewrite Hrun2.
  set (p2 := Process (w2, (world p1).2 ++ e2) (the_queue p1) (slept p1) lg2 (marks p1)).
  destruct (send_in_parts_journal lib c token post log_func chat_id
              (u "Полное саммари") (full s)
              (all_delivered log_func e1 && all_delivered log_func e2) p2)
    as (full_parts & e3 & w3 & lg3 & Hf & Hrun3 & Ht3 & Ha3).
  unfold bind at 1. rewrite Hrun3.
  set (p3 := Process (w3, (world p2).2 ++ e3) (the_queue p2) (slept p2) lg3 (marks p2)).
  destruct (send_whole_journal lib c token post log_func chat_id
              (u "Ресурсы") (resources s)
              (all_delivered log_func e1 && all_delivered log_func e2
               && all_delivered log_func e3) p3)
    as (e4 & w4 & lg4 & Hrun4 & Ht4 & Ha4).
  unfold bind at 1. rewrite Hrun4.
  set (p4 := Process (w4, (world p3).2 ++ e4) (the_queue p3) (slept p3) lg4 (marks p3)).
  destruct (send_telegram_message_run lib c token (journaled post) log_func
              chat_id TelegramMain.FINAL_MSG p4) as [lg5 Hrun5].
  unfold bind at 1. rewrite Hrun5.
  subst p4 p3 p2 p1. cbn [world the_queue slept marks snd fst].
  rewrite journaled_run. cbn [fst snd].
  set (last := {| req_url := sendMessage_url (c :: token);
                  req_chat_id := chat_id;
                  req_text := TelegramMain.FINAL_MSG;
                  req_answer := _ |}).
  set (w5 := (post _ _ _ w4).2).
  set (b := all_delivered log_func e1 && all_delivered log_func e2
            && all_delivered log_func e3 && all_delivered log_func e4).
  exists middle_parts, full_parts, (e1 ++ e2 ++ e3 ++ e4), last.
  assert (Hb : all_delivered log_func (e1 ++ e2 ++ e3 ++ e4) = b).
  { subst b. rewrite !forallb_app, !andb_assoc. reflexivity. }
  rewrite Hb. clearbody b.
  assert (Htexts : map req_text (e1 ++ e2 ++ e3 ++ e4)
                   = map req_text e1 ++ map req_text e2 ++ map req_text e3
                     ++ map req_text e4) by (rewrite !map_app; reflexivity).
  rewrite Htexts, Ht1, Ht2, Ht3, Ht4.
  assert (Haddr : Forall (addressed (c :: token) chat_id)
                    ((e1 ++ e2 ++ e3 ++ e4) ++ [last])).
  { rewrite !Forall_app. repeat split; try assumption.
    constructor; [split; reflexivity | constructor]. }
  unfold bind, log, ret.
  destruct b, log_func; cbn [world the_queue slept marks logged];
    (eexists w5, _; split; [exact Hm |]; split; [exact Hf |]; split;
     [rewrite <- !app_assoc; reflexivity |];
     split; [reflexivity |]; split; [reflexivity | exact Haddr]).
Qed.

Lemma split_long_message_negative (text : pystr) (max_length : Z) :
  (max_length < 0)%Z ->
  TelegramOutput.split_long_message text max_length = inl [].
Proof.
  intros Hmax. unfold TelegramOutput.split_long_message.
  pose proof (len_nonneg text).
  destruct (Z.leb_spec (len text) max_length) as [Hfit | _]; [lia |].
  pose proof (split_line_loop max_length (split NEWLINE text)
                (split_lines NEWLINE text) [] []
                (Forall_nil_2 _) ltac:(discriminate)) as Hloop.
  cbv zeta in Hloop.
  destruct (foldl (TelegramOutput.split_line max_length) ([], [])
              (split NEWLINE text)) as [parts current].
  cbn [fst snd] in Hloop. destruct Hloop as (Hparts & _ & _).
  rewrite final_parts_no_room; [| lia |].
  - destruct (Z.ltb_spec max_length 0); [reflexivity | lia].
  - destruct current; cbn [nonempty]; [exact Hparts |].
    apply Forall_app. split; [exact Hparts | repeat constructor; discriminate].
Qed.

(** X13.  [send_formatted_message] with a title of more than 3971
    characters, on a message that is too long to go out whole: the room
    left for the content is negative, the content is cut into no parts,
    and the function reports success ([True]) without making a request
    or writing a log line. *)
Theorem send_formatted_message_long_title {W} (lib : pylib)
    (bot_token : option pystr)
    (post : pystr -> pystr -> pystr -> W -> (json + exn) * W)
    (log_func : bool) (chat_id title content : pystr) (p : process W) :
  (3971 < len title)%Z ->
  (4000 < len (u "<b>" ++ title ++ u "</b>" ++ TelegramOutput.HTML_BREAK
               ++ content))%Z ->
  TelegramOutput.send_formatted_message lib bot_token post log_func
    chat_id title content p
  = (inl true, p).
Proof.
  intros Htitle Hlong. unfold TelegramOutput.send_formatted_message.
  cbv zeta.
  destruct (Z.gtb_spec
              (len (u "<b>" ++ title ++ u "</b>" ++ TelegramOutput.HTML_BREAK
                    ++ content)) 4000) as [_ | Hshort]; [| lia].
  rewrite split_long_message_negative.
  - reflexivity.
  - rewrite !len_app.
    change (len (u "<b>")) with 3%Z. change (len (u "</b>")) with 4%Z.
    change (len TelegramOutput.HTML_BREAK) with 2%Z. lia.
Qed.

Lemma send_formatted_message_long_title_witness :
  TelegramOutput.send_formatted_message example_lib (Some (u "token"))
    (fun _ _ _ (w : nat) => (inl JNull, S w)) true
    (u "42") (replicate 3972 97%N) (replicate 30 97%N) p0
  = (inl true, p0).
Proof.
  apply (send_formatted_message_long_title example_lib (Some (u "token"))
           (fun _ _ _ (w : nat) => (inl JNull, S w)) true
           (u "42") (replicate 3972 97%N) (replicate 30 97%N) p0).
  - vm_compute. reflexivity.
  - vm_compute. reflexivity.
Defined.

Lemma send_telegram_messages_from_journal {W} (lib : pylib) (c : char)
    (token : pystr)
    (post : pystr -> pystr -> pystr -> W -> (json + exn) * W)
    (log_func : bool) (chat_id : pystr) (texts : list pystr) (n : Z) :
  forall (i : Z) (success : bool) (p : process (W * list journal_entry)),
  exists entries w lg,
    TelegramOutput.send_telegram_messages_from lib (Some (c :: token))
      (journaled post) log_func chat_id texts i n success p
    = (inl (success && all_delivered log_func entries),
       Process (w, (world p).2 ++ entries) (the_queue p)
         (slept p ++ replicate (length texts) 100%Z) lg (marks p))
    /\ map req_text entries = texts
    /\ Forall (addressed (c :: token) chat_id) entries.
Proof.
  induction texts as [| text0 rest IH]; intros i success p.
  - exists [], (world p).1, (logged p).
    cbn [TelegramOutput.send_telegram_messages_from ret forallb map length replicate].
    rewrite andb_true_r, !app_nil_r. destruct p as [[w j] q sl lg mk].
    repeat split. constructor.
  - cbn [TelegramOutput.send_telegram_messages_from]. unfold bind at 1.
    destruct (send_telegram_message_run lib c token (journaled post) log_func
                chat_id text0 p) as [lg1 ->].
    destruct p as [[w j] q sl lg mk]. cbn [world the_queue slept marks].
    rewrite journaled_run. cbn [fst snd].
    set (answer := (post (sendMessage_url (c :: token)) chat_id text0 w).1).
    set (w1 := (post (sendMessage_url (c :: token)) chat_id text0 w).2).
    set (entry := {| req_url := sendMessage_url (c :: token);
                     req_chat_id := chat_id; req_text := text0;
                     req_answer := answer |}).
    assert (Hnext : forall lg2,
      exists entries w2 lg3,
        TelegramOutput.send_telegram_messages_from lib (Some (c :: token))
          (journaled post) log_func chat_id rest (i + 1) n
          (if delivered log_func answer then success else false)
          (Process (w1, j ++ [entry]) q (sl ++ [100%Z]) lg2 mk)
        = (inl (success && all_delivered log_func (entry :: entries)),
           Process (w2, j ++ entry :: entries) q
             (sl ++ replicate (length (text0 :: rest)) 100%Z) lg3 mk)
        /\ map req_text (entry :: entries) = text0 :: rest
        /\ Forall (addressed (c :: token) chat_id) (entry :: entries)).
    { intros lg2.
      destruct (IH (i + 1)%Z (if delivered log_func answer then success else false)
                  (Process (w1, j ++ [entry]) q (sl ++ [100%Z]) lg2 mk))
        as (entries & w2 & lg3 & -> & Htexts & Haddr).
      exists entries, w2, lg3.
      cbn [world the_queue slept marks snd forallb map req_text req_answer
           length replicate].
      rewrite <- !app_assoc. cbn [app]. rewrite Htexts.
      split; [| split; [reflexivity | constructor; [split; reflexivity | exact Haddr]]].
      change (req_answer entry) with answer.
      f_equal. f_equal. destruct (delivered log_func answer), success; reflexivity. }
    unfold bind, log, sleep_ms, ret.
    destruct (delivered log_func answer) eqn:Hd; [| destruct log_func];
      cbn [world the_queue slept marks logged];
      match goal with
      | |- context [Process _ _ _ ?lg2 mk] =>
          destruct (Hnext lg2) as (entries & w2 & lg3 & Hrun & Htexts & Haddr)
      end;
      exists (entry :: entries), w2, lg3; auto.
Qed.

(** X14.  [send_telegram_messages] with a token never raises: it makes
    one request per text, in order and whatever the answers, sleeps a
    tenth of a second after each of them (also after the last), and
    returns [True] exactly when every request was delivered. *)
Theorem send_telegram_messages_journal {W} (lib : pylib) (c : char)
    (token : pystr)
    (post : pystr -> pystr -> pystr -> W -> (json + exn) * W)
    (log_func : bool) (chat_id : pystr) (texts : list pystr)
    (p : process (W * list journal_entry)) :
  exists entries w lg,
    TelegramOutput.send_telegram_messages lib (Some (c :: token))
      (journaled post) log_func chat_id texts p
    = (inl (all_delivered log_func entries),
       Process (w, (world p).2 ++ entries) (the_queue p)
         (slept p ++ replicate (length texts) 100%Z) lg (marks p))
    /\ map req_text entries = texts
    /\ Forall (addressed (c :: token) chat_id) entries.
Proof.
  unfold TelegramOutput.send_telegram_messages.
  destruct (send_telegram_messages_from_journal lib c token post log_func
              chat_id texts (len texts) 0 true p)
    as (entries & w & lg & Hrun & Htexts & Haddr).
  exists entries, w, lg. auto.
Qed.

(** ** The video id of a URL *)

Example extract_video_id_examples :
  YtProcessor.extract_video_id (u "https://www.youtube.com/watch?v=dQw4w9WgXcQ&t=10")
    = Some (u "dQw4w9WgXcQ")
  /\ YtProcessor.extract_video_id (u "https://youtu.be/a-b_c?si=x") = Some (u "a-b_c")
  /\ YtProcessor.extract_video_id (u "https://www.youtube.com/embed/xyz") = Some (u "xyz")
  /\ YtProcessor.extract_video_id (u "https://www.youtube.com/v/xyz") = Some (u "xyz")
  /\ YtProcessor.extract_video_id (u "https://www.youtube.com/watch?v=") = None
  /\ YtProcessor.extract_video_id (u "https://example.com/") = None.
Proof. vm_compute. repeat split. Qed.

Lemma startswith_split (p s : pystr) :
  startswith s p = true -> s = p ++ drop (length p) s.
Proof.
  revert s. induction p as [| a p IH]; intros s; [reflexivity |].
  destruct s as [| b s]; simpl; [discriminate |].
  destruct (N.eqb_spec a b) as [-> | _]; [| discriminate].
  simpl. intros H. f_equal. exact (IH s H).
Qed.

Lemma startswith_prefix (p r : pystr) : startswith (p ++ r) p = true.
Proof.
  induction p as [| a p IH]; [destruct r; reflexivity |].
  simpl. rewrite N.eqb_refl. exact IH.
Qed.

Local Abbreviation id_ends post :=
  (match post : pystr with c :: _ => YtProcessor.id_char c = false | [] => True end).

Lemma id_run_spec (s : pystr) :
  forallb YtProcessor.id_char (YtProcessor.id_run s) = true
  /\ exists post, s = YtProcessor.id_run s ++ post /\ id_ends post.
Proof.
  induction s as [| c r [IH1 (post & IH2 & IH3)]]; simpl.
  - split; [reflexivity |]. exists []. auto.
  - destruct (YtProcessor.id_char c) eqn:Hc; simpl.
    + rewrite Hc, IH1. split; [reflexivity |].
      exists post. split; [f_equal; exact IH2 | exact IH3].
    + split; [reflexivity |]. exists (c :: r). auto.
Qed.

Lemma id_run_whole (found post : pystr) :
  forallb YtProcessor.id_char found = true -> id_ends post ->
  YtProcessor.id_run (found ++ post) = found.
Proof.
  intros Hall Hpost. induction found as [| c r IH]; simpl in *.
  - destruct post as [| c r]; [reflexivity |]. simpl. rewrite Hpost. reflexivity.
  - apply andb_true_iff in Hall as [-> Hr]. f_equal. exact (IH Hr).
Qed.

Lemma id_after_spec (marker s found : pystr) :
  YtProcessor.id_after marker s = Some found ->
  found <> [] /\ forallb YtProcessor.id_char found = true
  /\ exists post, s = marker ++ found ++ post /\ id_ends post.
Proof.
  unfold YtProcessor.id_after.
  destruct (startswith s marker) eqn:Hs; [| discriminate].
  apply startswith_split in Hs.
  destruct (id_run_spec (drop (length marker) s)) as [Hall (post & Hsplit & Hpost)].
  destruct (YtProcessor.id_run (drop (length marker) s)) as [| c r] eqn:Hrun;
    [discriminate |].
  intros [= <-]. split; [discriminate |]. split; [exact Hall |].
  exists post. split; [| exact Hpost]. rewrite <- Hsplit. exact Hs.
Qed.

Lemma first_alternative_spec (markers : list pystr) (s found : pystr) :
  YtProcessor.first_alternative markers s = Some found ->
  exists marker, marker ∈ markers /\ YtProcessor.id_after marker s = Some found.
Proof.
  induction markers as [| marker others IH]; simpl; [discriminate |].
  destruct (YtProcessor.id_after marker s) as [found' |] eqn:Hm.
  - intros [= <-]. exists marker. split; [left | exact Hm].
  - intros H. destruct (IH H) as (m & Hin & Hfound).
    exists m. split; [right; exact Hin | exact Hfound].
Qed.

Lemma re_search_id_spec (markers : list pystr) (s found : pystr) :
  YtProcessor.re_search_id markers s = Some found ->
  found <> [] /\ forallb YtProcessor.id_char found = true
  /\ exists pre marker post,
       marker ∈ markers /\ s = pre ++ marker ++ found ++ post /\ id_ends post.
Proof.
  induction s as [| c r IH].
  - simpl. destruct (YtProcessor.first_alternative markers []) eqn:Hf; [| discriminate].
    intros [= ->]. apply first_alternative_spec in Hf as (m & Hin & Hm).
    apply id_after_spec in Hm as (Hne & Hall & post & Hs & Hpost).
    split; [exact Hne |]. split; [exact Hall |]. exists [], m, post. auto.
  - cbn [YtProcessor.re_search_id].
    destruct (YtProcessor.first_alternative markers (c :: r)) eqn:Hf.
    + intros [= ->]. apply first_alternative_spec in Hf as (m & Hin & Hm).
      apply id_after_spec in Hm as (Hne & Hall & post & Hs & Hpost).
      split; [exact Hne |]. split; [exact Hall |]. exists [], m, post. auto.
    + intros H. destruct (IH H) as (Hne & Hall & pre & m & post & Hin & Hs & Hpost).
      split; [exact Hne |]. split; [exact Hall |].
      exists (c :: pre), m, post. rewrite Hs. auto.
Qed.

(** X15.  Whatever [extract_video_id] returns is a video id that stands
    in the URL: it is not empty, it is made of letters, digits, [_] and
    [-] only, it follows one of the four markers, and it is the whole run
    of such characters found there. *)
Theorem extract_video_id_sound (url0 found : pystr) :
  YtProcessor.extract_video_id url0 = Some found ->
  found <> [] /\ forallb YtProcessor.id_char found = true
  /\ exists pre marker post,
       marker ∈ [u "youtube.com/watch?v="; u "youtu.be/";
                 u "youtube.com/embed/"; u "youtube.com/v/"]
       /\ url0 = pre ++ marker ++ found ++ post /\ id_ends post.
Proof.
  unfold YtProcessor.extract_video_id.
  destruct (YtProcessor.re_search_id _ url0) as [found' |] eqn:Hfirst.
  - intros [= <-].
    apply re_search_id_spec in Hfirst as (Hne & Hall & pre & m & post & Hin & Hs & Hp).
    split; [exact Hne |]. split; [exact Hall |]. exists pre, m, post.
    split; [| auto]. revert Hin. rewrite !elem_of_cons, !elem_of_nil. tauto.
  - intros Hsecond.
    apply re_search_id_spec in Hsecond as (Hne & Hall & pre & m & post & Hin & Hs & Hp).
    split; [exact Hne |]. split; [exact Hall |]. exists pre, m, post.
    split; [| auto]. revert Hin. rewrite !elem_of_cons, !elem_of_nil. tauto.
Qed.

Lemma extract_video_id_sound_witness :
  u "a-b_c" <> [] /\ forallb YtProcessor.id_char (u "a-b_c") = true
  /\ exists pre marker post,
       marker ∈ [u "youtube.com/watch?v="; u "youtu.be/";
                 u "youtube.com/embed/"; u "youtube.com/v/"]
       /\ u "https://youtu.be/a-b_c?si=x" = pre ++ marker ++ u "a-b_c" ++ post
       /\ id_ends post.
Proof.
  apply (extract_video_id_sound (u "https://youtu.be/a-b_c?si=x") (u "a-b_c")).
  vm_compute. reflexivity.
Defined.

Lemma id_after_found (marker found post : pystr) :
  found <> [] -> forallb YtProcessor.id_char found = true -> id_ends post ->
  YtProcessor.id_after marker (marker ++ found ++ post) = Some found.
Proof.
  intros Hne Hall Hpost. unfold YtProcessor.id_after.
  rewrite startswith_prefix, drop_app_length, (id_run_whole found post Hall Hpost).
  destruct found; [congruence | reflexivity].
Qed.

Local Abbreviation first_markers :=
  [u "youtube.com/watch?v="; u "youtu.be/"; u "youtube.com/embed/"].

Lemma startswith_other_head (c : char) (r marker : pystr) :
  head marker <> Some c -> marker <> [] -> startswith (c :: r) marker = false.
Proof.
  destruct marker as [| a m]; [congruence |]. simpl. intros Ha _.
  destruct (N.eqb_spec a c) as [-> | _]; [| reflexivity].
  exfalso. apply Ha. reflexivity.
Qed.

(** No marker of the first pattern starts before a [y]. *)
Lemma re_search_id_skip (pre s : pystr) :
  Forall (fun c => c <> 121%N) pre ->
  YtProcessor.re_search_id first_markers (pre ++ s)
  = YtProcessor.re_search_id first_markers s.
Proof.
  induction 1 as [| c pre Hc _ IH]; [reflexivity |].
  cbn [app YtProcessor.re_search_id YtProcessor.first_alternative].
  unfold YtProcessor.id_after.
  rewrite !startswith_other_head; try discriminate; try exact IH;
    intros [= Hy]; apply Hc; symmetry; exact Hy.
Qed.

(** X16.  Round trip: a URL made of anything without a [y] (a scheme,
    [www.], [m.], [music.]), one of the markers [youtube.com/watch?v=],
    [youtu.be/] or [youtube.com/embed/], a video id, and a rest that does
    not continue the id gives back exactly that id. *)
Theorem extract_video_id_round_trip (pre marker found post : pystr) :
  Forall (fun c => c <> 121%N) pre ->
  marker ∈ first_markers ->
  found <> [] -> forallb YtProcessor.id_char found = true -> id_ends post ->
  YtProcessor.extract_video_id (pre ++ marker ++ found ++ post) = Some found.
Proof.
  intros Hpre Hmarker Hne Hall Hpost. unfold YtProcessor.extract_video_id.
  rewrite (re_search_id_skip pre _ Hpre).
  pose proof (id_after_found marker found post Hne Hall Hpost) as Hfound.
  assert (Hfirst : YtProcessor.first_alternative first_markers
                     (marker ++ found ++ post) = Some found).
  { revert Hmarker Hfound. rewrite !elem_of_cons, elem_of_nil.
    intros [-> | [-> | [-> | []]]] Hfound;
      cbn [YtProcessor.first_alternative]; rewrite ?Hfound; reflexivity. }
  destruct (marker ++ found ++ post) as [| c r] eqn:Hs;
    cbn [YtProcessor.re_search_id]; rewrite Hfirst; reflexivity.
Qed.

Lemma extract_video_id_round_trip_witness :
  YtProcessor.extract_video_id
    (u "https://www." ++ u "youtube.com/watch?v=" ++ u "dQw4w9WgXcQ" ++ u "&t=10")
  = Some (u "dQw4w9WgXcQ").
Proof.
  apply (extract_video_id_round_trip (u "https://www.") (u "youtube.com/watch?v=")
           (u "dQw4w9WgXcQ") (u "&t=10")).
  - vm_compute. repeat constructor; discriminate.
  - left.
  - discriminate.
  - vm_compute. reflexivity.
  - vm_compute. reflexivity.
Defined.

Lemma lstrip_suffix (s : pystr) : exists a, s = a ++ lstrip s.
Proof.
  induction s as [| c r [a IH]]; [exists []; reflexivity |].
  simpl. destruct (isspace c).
  - exists (c :: a). simpl. f_equal. exact IH.
  - exists []. reflexivity.
Qed.

Lemma rstrip_prefix (s : pystr) : exists b, s = rstrip s ++ b.
Proof.
  induction s as [| c r [b IH]]; [exists []; reflexivity |].
  simpl. destruct (rstrip r) as [| c' r'] eqn:Hr.
  - destruct (isspace c).
    + exists (c :: r). reflexivity.
    + exists b. simpl. f_equal. exact IH.
  - exists b. simpl. f_equal. exact IH.
Qed.

Lemma strip_infix (s : pystr) : exists a b, s = a ++ strip s ++ b.
Proof.
  destruct (lstrip_suffix s) as [a Ha].
  destruct (rstrip_prefix (lstrip s)) as [b Hb].
  exists a, b. unfold strip. rewrite <- Hb. exact Ha.
Qed.

Lemma first_alternative_found (markers : list pystr) (marker s : pystr) :
  marker ∈ markers -> is_Some (YtProcessor.id_after marker s) ->
  is_Some (YtProcessor.first_alternative markers s).
Proof.
  induction markers as [| m others IH]; [intros H; inversion H |].
  rewrite elem_of_cons. intros [-> | Hin] Hfound; simpl.
  - destruct Hfound as [found ->]. eexists. reflexivity.
  - destruct (YtProcessor.id_after m s); [eexists; reflexivity | exact (IH Hin Hfound)].
Qed.

Lemma re_search_id_found (markers : list pystr) (pre s : pystr) :
  is_Some (YtProcessor.first_alternative markers s) ->
  is_Some (YtProcessor.re_search_id markers (pre ++ s)).
Proof.
  intros Hs. induction pre as [| c pre IH].
  - destruct Hs as [found Hs]. exists found.
    destruct s; simpl in *; rewrite Hs; reflexivity.
  - cbn [app YtProcessor.re_search_id].
    destruct (YtProcessor.first_alternative markers (c :: pre ++ s));
      [eexists; reflexivity | exact IH].
Qed.

Lemma starts_then_split (prefix : pystr) (class : char -> bool) (s : pystr) :
  YtProcessor.starts_then prefix class s = true ->
  exists c rest, s = prefix ++ c :: rest /\ class c = true.
Proof.
  unfold YtProcessor.starts_then. intros H.
  apply andb_true_iff in H as [Hs Hc]. apply startswith_split in Hs.
  destruct (drop (length prefix) s) as [| c rest]; [discriminate |].
  exists c, rest. auto.
Qed.

(** X17.  A URL of ASCII characters that [validate_youtube_url] accepts
    has a video id: [extract_video_id] does not return [None] on it.
    ([\w] also accepts letters outside ASCII, which the id pattern does
    not: the premise on the characters is needed.) *)
Theorem validated_url_has_video_id (word_char : char -> bool) (url0 : pystr) :
  (forall c, (c < 128)%N -> word_char c = true -> YtProcessor.id_char c = true) ->
  Forall (fun c => (c < 128)%N) url0 ->
  YtProcessor.validate_youtube_url word_char url0 = true ->
  exists found, YtProcessor.extract_video_id url0 = Some found.
Proof.
  intros Hword Hascii. unfold YtProcessor.validate_youtube_url.
  destruct (nonempty url0); [| discriminate].
  intros Hvalid. apply existsb_exists in Hvalid as ([opt host] & Hpattern & Hmatch).
  unfold YtProcessor.re_match_url in Hmatch. cbn [fst snd] in Hmatch.
  apply existsb_exists in Hmatch as (prefix & _ & Hstarts).
  apply starts_then_split in Hstarts as (c & rest & Hstrip & Hclass).
  destruct (strip_infix url0) as (a & b & Hurl).
  assert (Hc : YtProcessor.id_char c = true).
  { apply orb_true_iff in Hclass as [Hw | Hdash].
    - apply Hword; [| exact Hw].
      pose proof (strip_Forall _ _ Hascii) as Hs. rewrite Hstrip in Hs.
      rewrite !Forall_app in Hs. destruct Hs as [_ Hs].
      inversion Hs; assumption.
    - apply N.eqb_eq in Hdash as ->. reflexivity. }
  assert (Hhost : host ∈ first_markers).
  { unfold YtProcessor.youtube_patterns in Hpattern. cbn [In] in Hpattern.
    rewrite !elem_of_cons.
    destruct Hpattern as [[= _ <-] | [[= _ <-] | [[= _ <-] | [[= _ <-] | []]]]]; auto. }
  assert (Hafter : is_Some (YtProcessor.id_after host (host ++ c :: rest ++ b))).
  { unfold YtProcessor.id_after.
    rewrite startswith_prefix, drop_app_length. simpl. rewrite Hc.
    eexists. reflexivity. }
  pose proof (first_alternative_found first_markers host _ Hhost Hafter) as Hfirst.
  pose proof (re_search_id_found first_markers (a ++ prefix) _ Hfirst) as Hsearch.
  replace ((a ++ prefix) ++ host ++ c :: rest ++ b) with url0 in Hsearch.
  - unfold YtProcessor.extract_video_id. destruct Hsearch as [found ->].
    exists found. reflexivity.
  - rewrite Hurl at 1. rewrite Hstrip, <- !app_assoc. reflexivity.
Qed.

Lemma validated_url_has_video_id_witness :
  exists found,
    YtProcessor.extract_video_id (u " https://m.youtube.com/watch?v=abc ")
    = Some found.
Proof.
  apply (validated_url_has_video_id YtProcessor.id_char
           (u " https://m.youtube.com/watch?v=abc ")).
  - intros c _ H. exact H.
  - vm_compute. repeat constructor.
  - vm_compute. reflexivity.
Defined.

Example validate_youtube_url_examples :
  let validate := YtProcessor.validate_youtube_url YtProcessor.id_char in
  validate (u "https://www.youtube.com/watch?v=abc") = true
  /\ validate (u "http://youtube.com/watch?v=abc&t=1") = true
  /\ validate (u "  https://youtu.be/abc  ") = true
  /\ validate (u "https://music.youtube.com/watch?v=abc") = true
  /\ validate (u "youtube.com/watch?v=abc") = false
  /\ validate (u "https://www.youtube.com/embed/abc") = false
  /\ validate (u "https://m.youtu.be/abc") = false
  /\ validate (u "https://youtu.be/") = false
  /\ validate [] = false.
Proof. vm_compute. repeat split. Qed.

(** The premise on the characters of X17 is needed: with a letter outside
    ASCII after the marker the URL is accepted and has no video id. *)
Example validated_url_without_video_id :
  let word_char := fun c : char => YtProcessor.id_char c || (c =? 233)%N in
  YtProcessor.validate_youtube_url word_char (u "https://youtu.be/é") = true
  /\ YtProcessor.extract_video_id (u "https://youtu.be/é") = None.
Proof. vm_compute. split; reflexivity. Qed.

(** X18.  [generate_run_id] is never negative and stays below [2^31],
    whatever the hash of the interpreter is. *)
Theorem generate_run_id_range (hash : pystr -> Z) (minute second : Z)
    (video_id : pystr) :
  (0 <= YtProcessor.generate_run_id hash minute second video_id < 2 ^ 31)%Z.
Proof.
  unfold YtProcessor.generate_run_id. cbv zeta.
  change 2147483647%Z with (Z.ones 31).
  rewrite Z.land_ones by lia. apply Z.mod_pos_bound. lia.
Qed.

(** ** The transcript: rotation of the API keys *)

(** One round of the loop: one more key is tried, and the outcome
    decides whether the next one is. *)
Lemma try_keys_round (outcome : pystr -> Transcribe.transcript + Transcribe.error)
    (key : pystr) (rest : list pystr) (i n : Z) (p : process (list pystr)) :
  exists p2 p3,
    world p2 = world p ++ [key] /\ world p3 = world p ++ [key]
    /\ Transcribe.try_keys (keyed_fetch outcome) (key :: rest) i n p
       = match outcome key with
         | inl t => (inl t, p2)
         | inr (Transcribe.ValueError error_code) =>
             if (bool_decide (error_code = u "unauthorized")
                 || bool_decide (error_code = u "rate_limited"))
                && (i <? n - 1)%Z
             then Transcribe.try_keys (keyed_fetch outcome) rest (i + 1) n p3
             else (inr (Transcribe.ValueError error_code), p2)
         | inr _ =>
             if (i <? n - 1)%Z
             then Transcribe.try_keys (keyed_fetch outcome) rest (i + 1) n p3
             else (inr (Transcribe.ValueError (u "unexpected_error")), p3)
         end.
Proof.
  cbn [Transcribe.try_keys].
  unfold Transcribe.tbind, Transcribe.tcatch, Transcribe.tlog, keyed_fetch,
    Transcribe.text, Transcribe.traise, log.
  cbn [fst snd world the_queue slept logged marks].
  destruct (outcome key) as [t | [error_code | err message text0 | text0]].
  - eexists _, (Process (world p ++ [key]) (the_queue p) (slept p) (logged p)
                  (marks p)).
    (split; [| split]); [ | | reflexivity]; reflexivity.
  - destruct ((bool_decide (error_code = u "unauthorized")
               || bool_decide (error_code = u "rate_limited"))
              && (i <? n - 1)%Z).
    + eexists (Process (world p ++ [key]) (the_queue p) (slept p) (logged p)
                 (marks p)), _.
      (split; [| split]); [ | | reflexivity]; reflexivity.
    + eexists _, (Process (world p ++ [key]) (the_queue p) (slept p) (logged p)
                    (marks p)).
      (split; [| split]); [ | | reflexivity]; reflexivity.
  - eexists (Process (world p ++ [key]) (the_queue p) (slept p) (logged p)
               (marks p)), _.
    (split; [| split]); [ | | destruct (i <? n - 1)%Z; reflexivity]; reflexivity.
  - eexists (Process (world p ++ [key]) (the_queue p) (slept p) (logged p)
               (marks p)), _.
    (split; [| split]); [ | | destruct (i <? n - 1)%Z; reflexivity]; reflexivity.
Qed.

Lemma try_keys_rotation (outcome : pystr -> Transcribe.transcript + Transcribe.error)
    (keys : list pystr) :
  forall (i n : Z) (p : process (list pystr)),
  keys <> [] -> n = (i + len keys)%Z ->
  let run := Transcribe.try_keys (keyed_fetch outcome) keys i n p in
  exists k last,
    (1 <= k <= length keys)%nat /\ keys !! (k - 1)%nat = Some last
    /\ world run.2 = world p ++ take k keys
    /\ (forall j key, (j < k - 1)%nat -> keys !! j = Some key ->
                      rotates (outcome key) = true)
    /\ ((k < length keys)%nat -> rotates (outcome last) = false)
    /\ run.1 = match outcome last with
               | inl t => inl t
               | inr (Transcribe.ValueError error_code) =>
                   inr (Transcribe.ValueError error_code)
               | inr _ => inr (Transcribe.ValueError (u "unexpected_error"))
               end.
Proof.
  induction keys as [| key rest IH]; intros i n p Hne Hn; [congruence |].
  cbv zeta.
  destruct (try_keys_round outcome key rest i n p) as (p2 & p3' & Hw2 & Hw3' & ->).
  assert (Hstop : forall r,
    (1 < length (key :: rest) -> rotates (outcome key) = false)%nat ->
    r = match outcome key with
        | inl t => inl t
        | inr (Transcribe.ValueError error_code) =>
            inr (Transcribe.ValueError error_code)
        | inr _ => inr (Transcribe.ValueError (u "unexpected_error"))
        end ->
    forall p3, world p3 = world p ++ [key] ->
    exists k last,
      (1 <= k <= length (key :: rest))%nat
      /\ (key :: rest) !! (k - 1)%nat = Some last
      /\ world (r, p3).2 = world p ++ take k (key :: rest)
      /\ (forall j key', (j < k - 1)%nat -> (key :: rest) !! j = Some key' ->
                         rotates (outcome key') = true)
      /\ ((k < length (key :: rest))%nat -> rotates (outcome last) = false)
      /\ (r, p3).1 = match outcome last with
                     | inl t => inl t
                     | inr (Transcribe.ValueError error_code) =>
                         inr (Transcribe.ValueError error_code)
                     | inr _ => inr (Transcribe.ValueError (u "unexpected_error"))
                     end).
  { intros r Hrot Hr p3 Hw3. exists 1%nat, key. cbn [fst snd].
    split; [simpl; lia |]. split; [reflexivity |]. split; [exact Hw3 |].
    split; [intros j key' Hj; lia |]. split; [exact Hrot | exact Hr]. }
  assert (Hnext : forall p3, world p3 = world p ++ [key] ->
    rest <> [] -> rotates (outcome key) = true ->
    exists k last,
      (1 <= k <= length (key :: rest))%nat
      /\ (key :: rest) !! (k - 1)%nat = Some last
      /\ world (Transcribe.try_keys (keyed_fetch outcome) rest (i + 1) n p3).2
         = world p ++ take k (key :: rest)
      /\ (forall j key', (j < k - 1)%nat -> (key :: rest) !! j = Some key' ->
                         rotates (outcome key') = true)
      /\ ((k < length (key :: rest))%nat -> rotates (outcome last) = false)
      /\ (Transcribe.try_keys (keyed_fetch outcome) rest (i + 1) n p3).1
         = match outcome last with
           | inl t => inl t
           | inr (Transcribe.ValueError error_code) =>
               inr (Transcribe.ValueError error_code)
           | inr _ => inr (Transcribe.ValueError (u "unexpected_error"))
           end).
  { intros p3 Hw3 Hrest Hrot.
    destruct (IH (i + 1)%Z n p3 Hrest) as (k & last & Hk & Hlast & Hworld & Hbefore & Hafter & Hres).
    { rewrite Hn. unfold len. simpl length. lia. }
    exists (S k), last. cbn [length].
    split; [lia |]. split.
    { destruct k as [| k']; [lia |]. simpl. simpl in Hlast.
      rewrite Nat.sub_0_r in Hlast. exact Hlast. }
    split; [rewrite Hworld, Hw3, <- app_assoc; reflexivity |].
    split.
    { intros [| j] key' Hj Hkey'; simpl in Hkey'.
      - injection Hkey' as <-. exact Hrot.
      - apply (Hbefore j key'); [lia | exact Hkey']. }
    split; [intros Hlt; apply Hafter; lia | exact Hres]. }
  assert (Hlen : (i <? n - 1)%Z = negb (bool_decide (rest = []))).
  { rewrite Hn. unfold len. simpl length.
    destruct rest; simpl; [apply Z.ltb_ge | apply Z.ltb_lt]; lia. }
  destruct (outcome key) as [t | [error_code | err message text0 | text0]] eqn:Ho.
  - apply (Hstop _ (fun _ => eq_refl) eq_refl p2 Hw2).
  - rewrite Hlen.
    destruct (bool_decide (error_code = u "unauthorized")
              || bool_decide (error_code = u "rate_limited")) eqn:Hcode;
      cbn [andb].
    + destruct rest as [| key2 rest2] eqn:Hrest.
      * rewrite bool_decide_eq_true_2 by reflexivity. cbn [negb].
        apply (Hstop _ ltac:(simpl; lia) eq_refl p2 Hw2).
      * rewrite bool_decide_eq_false_2 by discriminate. cbn [negb].
        apply Hnext; [exact Hw3' | discriminate | exact Hcode].
    + apply (Hstop _ (fun _ => Hcode) eq_refl p2 Hw2).
  - rewrite Hlen. destruct rest as [| key2 rest2] eqn:Hrest.
    + rewrite bool_decide_eq_true_2 by reflexivity. cbn [negb].
      apply (Hstop _ ltac:(simpl; lia) eq_refl p3' Hw3').
    + rewrite bool_decide_eq_false_2 by discriminate. cbn [negb].
      apply Hnext; [exact Hw3' | discriminate | reflexivity].
  - rewrite Hlen. destruct rest as [| key2 rest2] eqn:Hrest.
    + rewrite bool_decide_eq_true_2 by reflexivity. cbn [negb].
      apply (Hstop _ ltac:(simpl; lia) eq_refl p3' Hw3').
    + rewrite bool_decide_eq_false_2 by discriminate. cbn [negb].
      apply Hnext; [exact Hw3' | discriminate | reflexivity].
Qed.

(** X19.  [fetch_transcript] with at least one key tries the keys in
    order, each at most once, and stops at the first key whose outcome
    does not rotate (a transcript, or a [ValueError] other than
    [unauthorized] and [rate_limited]) or at the last key.  A transcript
    is returned and a [ValueError] raised as they are; any other
    exception on the last key is raised as
    [ValueError("unexpected_error")].  In particular the closing
    [ValueError("all_keys_failed")] of the source is never raised. *)
Theorem fetch_transcript_rotation
    (outcome : pystr -> Transcribe.transcript + Transcribe.error)
    (url0 : pystr) (api_keys : list pystr) (mode : pystr)
    (p : process (list pystr)) :
  api_keys <> [] ->
  let run := Transcribe.fetch_transcript (keyed_fetch outcome) url0 api_keys
               mode p in
  exists k last,
    (1 <= k <= length api_keys)%nat /\ api_keys !! (k - 1)%nat = Some last
    /\ world run.2 = world p ++ take k api_keys
    /\ (forall j key, (j < k - 1)%nat -> api_keys !! j = Some key ->
                      rotates (outcome key) = true)
    /\ ((k < length api_keys)%nat -> rotates (outcome last) = false)
    /\ run.1 = match outcome last with
               | inl t => inl t
               | inr (Transcribe.ValueError error_code) =>
                   inr (Transcribe.ValueError error_code)
               | inr _ => inr (Transcribe.ValueError (u "unexpected_error"))
               end.
Proof.
  intros Hne. cbv zeta. unfold Transcribe.fetch_transcript.
  destruct api_keys as [| key rest] eqn:Hkeys; [congruence |].
  unfold Transcribe.tbind at 1, Transcribe.tlog at 1. cbn [snd].
  set (p1 := (log true "INFO" "transcribe_mod" _ _ p).2).
  change (world p) with (world p1).
  apply (try_keys_rotation outcome (key :: rest) 0 (len (key :: rest)) p1).
  - discriminate.
  - lia.
Qed.

Lemma fetch_transcript_rotation_witness :
  let outcome := fun key : pystr =>
    if bool_decide (key = u "k2")
    then inl {| Transcribe.content := u "text"; Transcribe.lang := u "en" |}
    else inr (Transcribe.ValueError (u "rate_limited")) in
  let run := Transcribe.fetch_transcript (keyed_fetch outcome)
               (u "https://youtu.be/abc") [u "k1"; u "k2"; u "k3"] (u "auto")
               (Process [] url_queue [] [] []) in
  exists k last,
    (1 <= k <= 3)%nat /\ [u "k1"; u "k2"; u "k3"] !! (k - 1)%nat = Some last
    /\ world run.2 = [] ++ take k [u "k1"; u "k2"; u "k3"]
    /\ (forall j key, (j < k - 1)%nat ->
                      [u "k1"; u "k2"; u "k3"] !! j = Some key ->
                      rotates (outcome key) = true)
    /\ ((k < 3)%nat -> rotates (outcome last) = false)
    /\ run.1 = match outcome last with
               | inl t => inl t
               | inr (Transcribe.ValueError error_code) =>
                   inr (Transcribe.ValueError error_code)
               | inr _ => inr (Transcribe.ValueError (u "unexpected_error"))
               end.
Proof.
  intros outcome.
  apply (fetch_transcript_rotation outcome (u "https://youtu.be/abc")
           [u "k1"; u "k2"; u "k3"] (u "auto") (Process [] url_queue [] [] [])).
  discriminate.
Defined.

Example fetch_transcript_examples :
  let outcome := fun key : pystr =>
    if bool_decide (key = u "k2")
    then inr (Transcribe.ValueError (u "server_error"))
    else inr (Transcribe.OtherError (u "boom")) in
  let start := Process [] url_queue [] [] [] in
  let run keys := Transcribe.fetch_transcript (keyed_fetch outcome)
                    (u "https://youtu.be/abc") keys (u "auto") start in
  ((run [u "k1"; u "k2"; u "k3"]).1 = inr (Transcribe.ValueError (u "server_error"))
   /\ world (run [u "k1"; u "k2"; u "k3"]).2 = [u "k1"; u "k2"])
  /\ ((run [u "k1"; u "k3"]).1 = inr (Transcribe.ValueError (u "unexpected_error"))
      /\ world (run [u "k1"; u "k3"]).2 = [u "k1"; u "k3"])
  /\ ((run []).1 = inr (Transcribe.ValueError (u "no_api_keys"))
      /\ world (run []).2 = []).
Proof. vm_compute. repeat split. Qed.

Local Abbreviation sdk_codes :=
  [u "unauthorized"; u "rate_limited"; u "bad_url"; u "server_error";
   u "sdk_error"].

(** Whatever the SDK and the polling of a job do, [_fetch_with_sdk]
    raises a [ValueError] with one of five codes: the codes raised inside
    its [try] ([unexpected_response_format], and [job_timeout] and the
    others of the polling) are caught by its own [except Exception] and
    leave as [sdk_error].  The one other exception is the [TypeError] of
    the log call in the [SupadataError] handler, for a callback that
    names its third parameter [message]. *)
Lemma fetch_with_sdk_raises {W} (lib : pylib) (log_names_message : bool)
    (client_transcript :
       pystr -> pystr -> pystr -> W -> (Transcribe.sdk_answer + Transcribe.error) * W)
    (_poll_sdk_job : pystr -> pystr -> Transcribe.T W Transcribe.transcript)
    (url0 api_key mode : pystr) (p : process W) (e : Transcribe.error) :
  (Transcribe._fetch_with_sdk lib client_transcript _poll_sdk_job
     log_names_message url0 api_key mode p).1 = inr e ->
  (exists error_code,
     e = Transcribe.ValueError error_code /\ error_code ∈ sdk_codes)
  \/ (log_names_message = true /\ exists text0, e = Transcribe.OtherError text0).
Proof.
  unfold Transcribe._fetch_with_sdk, Transcribe.tcatch.
  match goal with
  | |- context [match ?c p with _ => _ end] => destruct (c p) as [[t | e0] p1]
  end; [discriminate |].
  destruct e0 as [error_code | err message text0 | text0].
  - unfold Transcribe.tbind, Transcribe.tlog, Transcribe.traise; cbn [fst snd].
    intros [= <-]. left. eexists. split; [reflexivity |].
    rewrite !elem_of_cons. auto 10.
  - destruct log_names_message.
    + unfold Transcribe.tbind, Transcribe.traise; cbn [fst snd].
      intros [= <-]. right. eauto.
    + unfold Transcribe.tbind, Transcribe.tlog, Transcribe.traise; cbn [fst snd].
      destruct (contains (lower lib err) (u "unauthorized")
                || contains (lower lib err) (u "authentication"));
        [| destruct (contains (lower lib err) (u "rate")
                     || contains (lower lib err) (u "limit"));
           [| destruct (contains (lower lib err) (u "invalid")
                        && contains (lower lib message) (u "url"))]];
        intros [= <-]; left; (eexists; split; [reflexivity |]);
        rewrite !elem_of_cons; auto 10.
  - unfold Transcribe.tbind, Transcribe.tlog, Transcribe.traise; cbn [fst snd].
    intros [= <-]. left. eexists. split; [reflexivity |].
    rewrite !elem_of_cons. auto 10.
Qed.

(** The rotation raises nothing of its own when the fetch raises
    [ValueError]s only; an exception of another class on the last key
    leaves as [unexpected_error]. *)
Lemma try_keys_codes {W} (fetch : pystr -> Transcribe.T W Transcribe.transcript)
    (P : pystr -> Prop) (other : bool) :
  (forall key p e, (fetch key p).1 = inr e ->
     (exists error_code, e = Transcribe.ValueError error_code /\ P error_code)
     \/ (other = true /\ exists text0, e = Transcribe.OtherError text0)) ->
  forall keys i n p e,
    keys <> [] -> n = (i + len keys)%Z ->
    (Transcribe.try_keys fetch keys i n p).1 = inr e ->
    exists error_code,
      e = Transcribe.ValueError error_code
      /\ (P error_code
          \/ (other = true /\ error_code = u "unexpected_error")).
Proof.
  intros Hfetch. induction keys as [| key rest IH]; intros i n p e Hne Hn;
    [congruence |].
  cbn [Transcribe.try_keys].
  unfold Transcribe.tbind at 1, Transcribe.tlog at 1, Transcribe.tcatch. cbn [snd].
  match goal with
  | |- context [fetch key ?p1] =>
      pose proof (Hfetch key p1) as Hkey;
      destruct (fetch key p1) as [[t | e0] p2]
  end; [discriminate |].
  assert (Hnext : (i < n - 1)%Z -> rest <> [] /\ n = (i + 1 + len rest)%Z).
  { intros Hlt. split.
    - intros ->. unfold len in Hn. simpl in Hn. lia.
    - rewrite Hn. unfold len. simpl length. lia. }
  destruct (Hkey e0 eq_refl) as [(error_code & -> & Hcode) | (Hother & text0 & ->)].
  - destruct ((bool_decide (error_code = u "unauthorized")
               || bool_decide (error_code = u "rate_limited"))
              && (i <? n - 1)%Z) eqn:Hcond.
    + unfold Transcribe.tbind at 1, Transcribe.tlog at 1. cbn [snd].
      apply andb_true_iff in Hcond as [_ Hlt]. apply Z.ltb_lt in Hlt.
      destruct (Hnext Hlt) as [Hrest Hlen]. apply IH; assumption.
    + unfold Transcribe.traise. cbn [fst]. intros [= <-]. eauto.
  - unfold Transcribe.tbind at 1, Transcribe.tlog at 1. cbn [snd].
    destruct (Z.ltb_spec i (n - 1)) as [Hlt | _].
    + destruct (Hnext Hlt) as [Hrest Hlen]. apply IH; assumption.
    + unfold Transcribe.traise. cbn [fst]. intros [= <-]. eauto.
Qed.

(** X20.  With the SDK, [fetch_transcript] raises nothing but a
    [ValueError].  With a callback like [log_mod.log] its code is
    [no_api_keys] or one of the five codes [_fetch_with_sdk] lets out
    ([unauthorized], [rate_limited], [bad_url], [server_error],
    [sdk_error]): its own [unexpected_error] and [all_keys_failed], and
    the [job_timeout] of the polling, never reach the caller.  With a
    callback that names its third parameter [message] (the default one
    of [process_youtube_url]) the log call in the [SupadataError] handler
    is a [TypeError], so [unexpected_error] joins the codes;
    [all_keys_failed] and [job_timeout] still never reach the caller. *)
Theorem fetch_transcript_sdk_codes {W} (lib : pylib) (log_names_message : bool)
    (client_transcript :
       pystr -> pystr -> pystr -> W -> (Transcribe.sdk_answer + Transcribe.error) * W)
    (_poll_sdk_job : pystr -> pystr -> Transcribe.T W Transcribe.transcript)
    (url0 : pystr) (api_keys : list pystr) (mode : pystr) (p : process W)
    (e : Transcribe.error) :
  (Transcribe.fetch_transcript
     (fun api_key =>
        Transcribe._fetch_with_sdk lib client_transcript _poll_sdk_job
          log_names_message url0 api_key mode)
     url0 api_keys mode p).1 = inr e ->
  exists error_code,
    e = Transcribe.ValueError error_code
    /\ error_code ∈ u "no_api_keys" :: sdk_codes
                     ++ (if log_names_message then [u "unexpected_error"]
                         else []).
Proof.
  unfold Transcribe.fetch_transcript.
  destruct api_keys as [| key rest].
  - unfold Transcribe.tbind, Transcribe.tlog, Transcribe.traise. cbn [fst snd].
    intros [= <-]. eexists. split; [reflexivity | left].
  - unfold Transcribe.tbind at 1, Transcribe.tlog at 1. cbn [snd].
    intros Hrun.
    destruct (try_keys_codes
                (fun api_key =>
                   Transcribe._fetch_with_sdk lib client_transcript
                     _poll_sdk_job log_names_message url0 api_key mode)
                (fun c => c ∈ sdk_codes) log_names_message
                (fun key0 p1 e1 =>
                   fetch_with_sdk_raises lib log_names_message
                     client_transcript _poll_sdk_job url0 key0 mode p1 e1)
                (key :: rest) 0%Z (len (key :: rest)) _ e
                ltac:(discriminate) ltac:(lia) Hrun)
      as (error_code & -> & Hcode).
    exists error_code. split; [reflexivity |]. right.
    apply elem_of_app.
    destruct Hcode as [Hcode | [-> ->]]; [left; exact Hcode | right; left].
Qed.

Lemma fetch_transcript_sdk_codes_witness :
  exists error_code,
    Transcribe.ValueError (u "unexpected_error")
    = Transcribe.ValueError error_code
    /\ error_code ∈ u "no_api_keys" :: sdk_codes ++ [u "unexpected_error"].
Proof.
  apply (fetch_transcript_sdk_codes example_lib true
           (fun _ _ _ (w : nat) =>
              (inr (Transcribe.SupadataError (u "internal") (u "try later")
                      (u "internal: try later")), S w))
           (fun _ _ => Transcribe.traise (Transcribe.ValueError (u "job_timeout")))
           (u "https://youtu.be/abc") [u "k1"; u "k2"] (u "auto") p0
           (Transcribe.ValueError (u "unexpected_error"))).
  vm_compute. reflexivity.
Defined.

(** An SDK that answers every key with the same [SupadataError], and a
    job whose polling times out.  With [log_mod.log] the error is mapped
    to [server_error] at the first key; with the default callback of
    [process_youtube_url] the log call of the handler fails, every key is
    tried, and [unexpected_error] is raised.  The [job_timeout] of the
    polling leaves as [sdk_error]. *)
Example fetch_transcript_sdk_examples :
  let failing := fun (_ _ _ : pystr) (w : nat) =>
    (inr (Transcribe.SupadataError (u "internal") (u "try later")
            (u "internal: try later")) : Transcribe.sdk_answer + Transcribe.error,
     S w) in
  let queued := fun (_ _ _ : pystr) (w : nat) =>
    (inl (Transcribe.Job (u "j1")) : Transcribe.sdk_answer + Transcribe.error,
     S w) in
  let timeout := fun _ _ : pystr =>
    Transcribe.traise (W := nat) (A := Transcribe.transcript)
      (Transcribe.ValueError (u "job_timeout")) in
  let run names client :=
    Transcribe.fetch_transcript
      (fun api_key =>
         Transcribe._fetch_with_sdk example_lib client timeout names
           (u "https://youtu.be/abc") api_key (u "auto"))
      (u "https://youtu.be/abc") [u "k1"; u "k2"] (u "auto") p0 in
  ((run false failing).1 = inr (Transcribe.ValueError (u "server_error"))
   /\ world (run false failing).2 = 1%nat)
  /\ ((run true failing).1 = inr (Transcribe.ValueError (u "unexpected_error"))
      /\ world (run true failing).2 = 2%nat)
  /\ (run false queued).1 = inr (Transcribe.ValueError (u "sdk_error")).
Proof. vm_compute. repeat split. Qed.

(** ** Notion: a long text in two properties *)

Section NotionWrites.
Context {W : Type}.
Variable update : pystr -> pystr -> pystr -> W -> (unit + exn) * W.
Variable retrieve_database_id : pystr -> W -> (pystr + exn) * W.
Variable retrieve_properties : pystr -> W -> (list pystr + exn) * W.
Variable database_update : pystr -> pystr -> pystr -> W -> (unit + exn) * W.
Variable c : char.
Variable page_tail : pystr.

Local Abbreviation page := (c :: page_tail).
Local Abbreviation set_text :=
  (Notion.set_rich_text true (noting update) (Some page)).

Lemma set_rich_text_noting (name : pystr) (text0 : option pystr) (max_len : Z)
    (p : process (W * list page_update)) :
  exists ok w lg,
    set_text name text0 max_len p
    = (inl ok,
       Process (w, (world p).2
                   ++ [{| upd_page := page; upd_property := name;
                          upd_content := slice_to (default [] text0) max_len;
                          upd_ok := ok |}])
         (the_queue p) (slept p) lg (marks p)).
Proof.
  unfold Notion.set_rich_text, Notion.no_page. cbn [negb orb default from_option id].
  unfold try_except, bind, ext, log, ret, noting.
  destruct p as [[w n] q sl lg mk]. cbn [world the_queue slept logged marks fst snd].
  destruct (update page name (slice_to (default [] text0) max_len) w) as [[[] | e] w1];
    cbn [world the_queue slept logged marks]; eexists _, _, _; reflexivity.
Qed.

Lemma ensure_property_exists_aside (database_id name kind : pystr)
    (p : process (W * list page_update)) :
  exists r w lg,
    Notion.ensure_property_exists (fun d => aside (retrieve_properties d))
      (fun d n k => aside (database_update d n k)) database_id name kind p
    = (inl r, Process (w, (world p).2) (the_queue p) (slept p) lg (marks p)).
Proof.
  unfold Notion.ensure_property_exists, try_except, bind, ext, log, ret, aside.
  destruct p as [[w n] q sl lg mk]. cbn [world the_queue slept logged marks fst snd].
  destruct (retrieve_properties database_id w) as [[properties | e] w1];
    cbn [world the_queue slept logged marks fst snd];
    [| eexists _, _, _; reflexivity].
  destruct (bool_decide (name ∈ properties));
    [eexists _, _, _; reflexivity |].
  destruct (bool_decide (kind ∈ [u "rich_text"; u "title"; u "number";
                                 u "url"; u "date"]));
    [| eexists _, _, _; reflexivity].
  cbn [world the_queue slept logged marks fst snd].
  destruct (database_update database_id name kind w1) as [[[] | e] w2];
    cbn [world the_queue slept logged marks]; eexists _, _, _; reflexivity.
Qed.

Local Abbreviation check_overflow_property overflow_name :=
  (try_except
     (database_id <- ext (aside (retrieve_database_id page)) ;;
      Notion.ensure_property_exists (fun d => aside (retrieve_properties d))
        (fun d n k => aside (database_update d n k)) database_id overflow_name
        (u "rich_text") ;;;
      ret tt)
     (fun e =>
        log true "WARNING" "notion_mod"
          (u "Не удалось получить database_id для проверки свойства")
          [(u "error", str_of_exn e)])).

Lemma check_overflow_property_aside (overflow_name : pystr)
    (p : process (W * list page_update)) :
  exists w lg,
    check_overflow_property overflow_name p
    = (inl tt, Process (w, (world p).2) (the_queue p) (slept p) lg (marks p)).
Proof.
  unfold try_except, bind at 1, ext at 1, aside at 1.
  destruct p as [[w n] q sl lg mk]. cbn [world the_queue slept logged marks fst snd].
  destruct (retrieve_database_id page w) as [[database_id | e] w1];
    cbn [world the_queue slept logged marks fst snd].
  - unfold bind at 1.
    destruct (ensure_property_exists_aside database_id overflow_name
                (u "rich_text") (Process (w1, n) q sl lg mk))
      as (r & w2 & lg2 & ->).
    unfold ret. cbn [world the_queue slept marks snd]. eexists _, _. reflexivity.
  - unfold log. cbn [world the_queue slept logged marks]. eexists _, _. reflexivity.
Qed.

(** X21.  [set_rich_text_with_overflow] with a client, a page, a text
    and a limit that is not negative never raises.  A text within the
    limit is written whole to the one property.  A longer text is written
    to two: its first [max_len] characters to the property and the next
    [max_len] to the overflow property (the second write is attempted
    also when the first one failed); what lies beyond [2 * max_len] is
    written nowhere.  The result is [True] exactly when every write went
    through, so also when the end of the text was dropped. *)
Theorem set_rich_text_with_overflow_stores (name overflow_name t : pystr)
    (max_len : Z) (p : process (W * list page_update)) :
  (0 <= max_len)%Z ->
  exists updates w lg,
    Notion.set_rich_text_with_overflow true (noting update)
      (fun pg => aside (retrieve_database_id pg))
      (fun d => aside (retrieve_properties d))
      (fun d n k => aside (database_update d n k))
      (Some page) name (Some t) max_len overflow_name p
    = (inl (forallb upd_ok updates),
       Process (w, (world p).2 ++ updates) (the_queue p) (slept p) lg (marks p))
    /\ map upd_property updates
       = (if (len t <=? max_len)%Z then [name] else [name; overflow_name])
    /\ concat (map upd_content updates) = take (Z.to_nat (2 * max_len)) t
    /\ Forall (fun e => upd_page e = page) updates.
Proof.
  intros Hmax.
  unfold Notion.set_rich_text_with_overflow, Notion.no_page.
  cbn [negb orb default from_option id].
  unfold try_except at 1, bind at 1, Notion.text_len, ret at 1.
  destruct (Z.leb_spec (len t) max_len) as [Hfit | Hlong].
  - destruct (set_rich_text_noting name (Some t) max_len p) as (ok & w & lg & ->).
    cbn [default from_option id].
    exists [{| upd_page := page; upd_property := name;
               upd_content := slice_to t max_len; upd_ok := ok |}], w, lg.
    cbn [forallb map concat upd_ok upd_property upd_content].
    rewrite andb_true_r, app_nil_r. split; [reflexivity |]. split; [reflexivity |].
    split; [| repeat constructor].
    rewrite slice_to_take by exact Hmax. unfold len in Hfit.
    rewrite !take_ge by lia. reflexivity.
  - unfold bind at 1.
    destruct (set_rich_text_noting name (Some (slice_to t max_len)) max_len p)
      as (ok1 & w1 & lg1 & ->).
    set (p1 := Process _ (the_queue p) (slept p) lg1 (marks p)).
    unfold bind at 1.
    assert (Hmid : exists w2 lg2,
              (if ok1 then check_overflow_property overflow_name else ret tt) p1
              = (inl tt, Process (w2, (world p1).2) (the_queue p1) (slept p1)
                           lg2 (marks p1))).
    { destruct ok1; [apply check_overflow_property_aside |].
      exists w1, lg1. reflexivity. }
    destruct Hmid as (w2 & lg2 & ->).
    set (p2 := Process _ (the_queue p1) (slept p1) lg2 (marks p1)).
    unfold bind at 1.
    destruct (set_rich_text_noting overflow_name (Some (slice_from t max_len))
                max_len p2) as (ok2 & w3 & lg3 & ->).
    unfold ret. subst p2 p1.
    cbn [fst snd world the_queue slept marks default from_option id].
    exists [{| upd_page := page; upd_property := name;
               upd_content := slice_to (slice_to t max_len) max_len;
               upd_ok := ok1 |};
            {| upd_page := page; upd_property := overflow_name;
               upd_content := slice_to (slice_from t max_len) max_len;
               upd_ok := ok2 |}], w3, lg3.
    cbn [forallb map concat upd_ok upd_property upd_content app].
    rewrite andb_true_r, app_nil_r, <- app_assoc.
    split; [reflexivity |]. split; [reflexivity |].
    split; [| repeat constructor].
    unfold slice_from. destruct (Z.leb_spec 0 max_len) as [_ | Hneg]; [| lia].
    rewrite !slice_to_take by exact Hmax.
    rewrite take_take, Nat.min_id.
    replace (Z.to_nat (2 * max_len)) with (Z.to_nat max_len + Z.to_nat max_len)%nat by lia.
    apply take_take_drop.
Qed.

End NotionWrites.

Lemma set_rich_text_with_overflow_stores_witness :
  exists updates w lg,
    Notion.set_rich_text_with_overflow true
      (noting (fun _ _ _ (w : nat) => (inl tt, S w)))
      (fun pg => aside (fun w : nat => (inl (u "db"), w)))
      (fun d => aside (fun w : nat => (inl [], w)))
      (fun d n k => aside (fun w : nat => (inl tt, w)))
      (Some (u "page")) (u "full") (Some (u "abcdefg")) 3 (u "more")
      (Process (0%nat, []) url_queue [] [] [])
    = (inl (forallb upd_ok updates),
       Process (w, [] ++ updates) url_queue [] lg [])
    /\ map upd_property updates
       = (if (len (u "abcdefg") <=? 3)%Z then [u "full"] else [u "full"; u "more"])
    /\ concat (map upd_content updates) = take (Z.to_nat (2 * 3)) (u "abcdefg")
    /\ Forall (fun e => upd_page e = u "page") updates.
Proof.
  apply (set_rich_text_with_overflow_stores
           (fun _ _ _ (w : nat) => (inl tt, S w))
           (fun _ (w : nat) => (inl (u "db"), w))
           (fun _ (w : nat) => (inl [], w))
           (fun _ _ _ (w : nat) => (inl tt, w))
           112%N (u "age") (u "full") (u "more") (u "abcdefg") 3
           (Process (0%nat, []) url_queue [] [] [])).
  lia.
Defined.

(** ** Notion: [retry_with_backoff] *)

Section NotionRetry.
Context {A : Type}.
Variable lib : pylib.
Variable outcomes : nat -> A + exn.
Variable operation : pystr.

Local Abbreviation rounds :=
  (Notion.retry_rounds lib (scripted outcomes) operation).

(** The outcomes that end the loop: a result, or an error of
    authorisation. *)
Local Abbreviation final o :=
  (match o : A + exn with inl _ => true | inr e => auth_error lib e end).
Local Abbreviation result_of o :=
  (match o : A + exn with inl a => Some a | inr _ => None end).
Local Abbreviation positive := (filter (fun d : Z => (0 < d)%Z)).

Lemma handle_api_error_run (e : exn) (p : process nat) :
  exists lg,
    Notion.handle_api_error lib e operation p
    = (inl (auth_error lib e),
       Process (world p) (the_queue p) (slept p) lg (marks p)).
Proof.
  unfold Notion.handle_api_error, auth_error, bind, log, ret. cbv zeta.
  destruct (contains (str_of_exn e) (u "401") || contains (str_of_exn e) (u "403")
            || contains (lower lib (str_of_exn e)) (u "unauthorized"));
    [eexists; reflexivity |].
  destruct (contains (str_of_exn e) (u "429")
            || contains (lower lib (str_of_exn e)) (u "rate_limit"));
    [eexists; reflexivity |].
  destruct (existsb (contains (str_of_exn e)) [u "500"; u "502"; u "503"; u "504"]);
    eexists; reflexivity.
Qed.

Lemma exhausted_run (last : option exn) (p : process nat) :
  exists lg,
    Notion.exhausted (W := nat) (A := A) operation last p
    = (inl None, Process (world p) (the_queue p) (slept p) lg (marks p)).
Proof. unfold Notion.exhausted, bind, log, ret. eexists. reflexivity. Qed.

(** One round: the sleep if the delay is positive, one call, and the
    verdict on its outcome. *)
Lemma retry_rounds_round (d : Z) (rest : list Z) (i n : Z) (last : option exn)
    (p : process nat) :
  exists lg lg',
    rounds (d :: rest) i n last p
    = let p1 := Process (S (world p)) (the_queue p)
                  (slept p ++ positive [d]) lg (marks p) in
      match outcomes (world p) with
      | inl a => (inl (Some a), p1)
      | inr e =>
          if auth_error lib e
          then (inl None,
                Process (S (world p)) (the_queue p) (slept p ++ positive [d])
                  lg' (marks p))
          else rounds rest (i + 1)%Z n (Some e) p1
      end.
Proof.
  cbn [Notion.retry_rounds]. unfold bind at 1.
  assert (Hsleep : exists lg0,
    (if (d >? 0)%Z
     then sleep_ms d ;;;
          log true "INFO" "notion_mod"
            (u "Повтор " ++ str_of_int i ++ u "/" ++ str_of_int n ++ u " для "
               ++ operation ++ u " через " ++ str_of_int d ++ u "мс") []
     else ret tt) p
    = (inl tt, Process (world p) (the_queue p) (slept p ++ positive [d]) lg0
                 (marks p))).
  { destruct (Z.gtb_spec d 0) as [Hpos | Hle].
    - rewrite filter_cons_True by lia. rewrite filter_nil.
      unfold bind, sleep_ms, log. eexists. reflexivity.
    - rewrite filter_cons_False by lia. rewrite filter_nil, app_nil_r.
      exists (logged p). destruct p. reflexivity. }
  destruct Hsleep as [lg0 ->].
  unfold try_except, bind at 1, scripted, ext. cbn [world the_queue slept logged marks].
  destruct (outcomes (world p)) as [a | e].
  - unfold ret. eexists _, lg0. reflexivity.
  - unfold bind at 1.
    match goal with
    | |- context [Notion.handle_api_error lib e operation ?p1] =>
        destruct (handle_api_error_run e p1) as [lg1 ->]
    end.
    cbn [world the_queue slept marks]. destruct (auth_error lib e).
    + match goal with
      | |- context [Notion.exhausted operation (Some e) ?p2] =>
          destruct (exhausted_run (Some e) p2) as [lg2 ->]
      end.
      cbn [world the_queue slept marks]. eexists lg0, _. reflexivity.
    + eexists _, lg0. reflexivity.
Qed.

Lemma retry_rounds_spec (delays : list Z) :
  forall (k : nat) (i n : Z) (last : option exn) (p : process nat),
  (k < length delays)%nat ->
  (forall j, (j < k)%nat -> final (outcomes (world p + j)) = false) ->
  final (outcomes (world p + k)) = true \/ S k = length delays ->
  exists lg,
    rounds delays i n last p
    = (inl (result_of (outcomes (world p + k))),
       Process (world p + k + 1) (the_queue p)
         (slept p ++ positive (take (S k) delays)) lg (marks p)).
Proof.
  induction delays as [| d rest IH]; intros k i n last p Hk Hbefore Hstop;
    [simpl in Hk; lia |].
  destruct (retry_rounds_round d rest i n last p) as (lg & lg' & ->). cbv zeta.
  destruct k as [| k].
  - rewrite Nat.add_0_r in *. cbn [take].
    replace (world p + 1) with (S (world p)) by lia.
    destruct (outcomes (world p)) as [a | e] eqn:Ho; [eexists; reflexivity |].
    destruct (auth_error lib e) eqn:Hauth; [eexists; reflexivity |].
    destruct Hstop as [Hstop | Hlast]; [discriminate |].
    destruct rest; [| simpl in Hlast; lia].
    cbn [Notion.retry_rounds].
    match goal with
    | |- context [Notion.exhausted operation (Some e) ?p2] =>
        destruct (exhausted_run (Some e) p2) as [lg2 ->]
    end.
    eexists. reflexivity.
  - assert (Hfirst : final (outcomes (world p)) = false).
    { rewrite <- (Nat.add_0_r (world p)). apply Hbefore. lia. }
    destruct (outcomes (world p)) as [a | e]; [discriminate |].
    rewrite Hfirst.
    match goal with
    | |- context [rounds rest (i + 1)%Z n (Some e) ?p1] =>
        destruct (IH k (i + 1)%Z n (Some e) p1) as [lg1 ->]
    end.
    + simpl in Hk. lia.
    + intros j Hj. cbn [world]. replace (S (world p) + j) with (world p + S j) by lia.
      apply Hbefore. lia.
    + cbn [world]. replace (S (world p) + k) with (world p + S k) by lia.
      destruct Hstop as [Hstop | Hlast]; [left; exact Hstop | right].
      simpl in Hlast. lia.
    + cbn [world the_queue slept marks].
      replace (S (world p) + k) with (world p + S k) by lia.
      replace (world p + S k + 1) with (world p + S k + 1) by lia.
      eexists. f_equal. f_equal.
      change (take (S (S k)) (d :: rest)) with (d :: take (S k) rest).
      rewrite <- app_assoc. f_equal.
      change (d :: take (S k) rest) with ([d] ++ take (S k) rest).
      rewrite filter_app. reflexivity.
Qed.


End NotionRetry.


(** ** The pipeline: [process_youtube_url] *)

Lemma returns_with_ret {W A} (a : A) (Q : A -> Prop) :
  Q a -> returns_with (W := W) (ret a) Q.
Proof. intros Ha p. exact Ha. Qed.

Lemma returns_with_bind {W A B} (c : M W A) (k : A -> M W B)
    (Q1 : A -> Prop) (Q2 : B -> Prop) :
  returns_with c Q1 -> (forall a, Q1 a -> returns_with (k a) Q2) ->
  returns_with (bind c k) Q2.
Proof.
  intros Hc Hk p. unfold bind. specialize (Hc p).
  destruct (c p) as [[a | e] p1]; [| exact I].
  exact (Hk a Hc p1).
Qed.

Lemma returns_with_try {W A} (c : M W A) (h : exn -> M W A) (Q : A -> Prop) :
  returns_with c Q -> (forall e, returns_with (h e) Q) ->
  returns_with (try_except c h) Q.
Proof.
  intros Hc Hh p. unfold try_except. specialize (Hc p).
  destruct (c p) as [[a | e] p1]; [exact Hc | exact (Hh e p1)].
Qed.

Lemma returns_with_any {W A} (c : M W A) : returns_with c (fun _ => True).
Proof. intros p. destruct (c p).1; exact I. Qed.

Lemma returns_with_weaken {W A} (c : M W A) (Q1 Q2 : A -> Prop) :
  (forall a, Q1 a -> Q2 a) -> returns_with c Q1 -> returns_with c Q2.
Proof.
  intros HQ Hc p. specialize (Hc p). destruct (c p).1; [apply HQ; exact Hc | exact I].
Qed.

(** The entries of a result agree with its [success]. *)
Local Abbreviation coherent word_char url0 :=
  (fun res : YtPipeline.yt_result =>
     YtPipeline.y_url res = url0
     /\ if YtPipeline.y_success res
        then YtProcessor.validate_youtube_url word_char url0 = true
             /\ YtPipeline.y_error res = None
             /\ (exists run_id, YtPipeline.y_run_id res = Some run_id)
             /\ (exists t, YtPipeline.y_transcript res = Some t
                           /\ Transcribe.content t <> [])
             /\ (exists ai s,
                   YtPipeline.y_ai_results res = Some ai /\ chat_err ai = None
                   /\ YtPipeline.y_summaries res = Some s
                   /\ YtPipeline.s_short s = short_summary ai
                   /\ YtPipeline.s_middle s = middle_summary ai
                   /\ YtPipeline.s_full s = full_summary ai)
        else (exists error_text, YtPipeline.y_error res = Some error_text)
             /\ YtPipeline.y_run_id res = None
             /\ YtPipeline.y_summaries res = None).

Section PipelineSpec.
Context {W : Type}.
Variable word_char : char -> bool.
Variable hash : pystr -> Z.
Variable now : W -> Z * Z.
Variable notion_enabled : bool.
Variable prop_max_len : Z.
Variable init_client : M W bool.
Variable ensure_database : M W (option pystr).
Variable upsert_page_for_run : pystr -> Z -> pystr -> M W (option pystr).
Variable fetch_transcript : pystr -> M W Transcribe.transcript.
Variable process_transcript_chat : pystr -> M W chat_results.
Variable log_func : bool.

Local Abbreviation run set_text set_overflow :=
  (YtPipeline.process_youtube_url word_char hash now notion_enabled
     prop_max_len init_client ensure_database upsert_page_for_run
     set_text set_overflow fetch_transcript process_transcript_chat log_func).

Lemma failed_coherent (error_text url0 : pystr) (video_id : option pystr)
    (t : option Transcribe.transcript) (ai : option chat_results) :
  coherent word_char url0 (YtPipeline.failed error_text url0 video_id t ai).
Proof. split; [reflexivity |]. cbn. eauto. Qed.

Lemma process_youtube_url_coherent
    (set_text : pystr -> pystr -> json -> Z -> M W bool)
    (set_overflow : pystr -> pystr -> json -> Z -> pystr -> M W bool)
    (url0 : pystr) :
  returns_with (run set_text set_overflow url0) (coherent word_char url0).
Proof.
  match goal with |- returns_with _ ?Q => set (post := Q) end.
  assert (Hfailed : forall error_text video_id t ai,
            post (YtPipeline.failed error_text url0 video_id t ai))
    by (intros; apply failed_coherent).
  assert (Hdone : YtProcessor.validate_youtube_url word_char url0 = true ->
            forall video_id run_id t ai s,
              Transcribe.content t <> [] -> chat_err ai = None ->
              YtPipeline.s_short s = short_summary ai ->
              YtPipeline.s_middle s = middle_summary ai ->
              YtPipeline.s_full s = full_summary ai ->
              post {| YtPipeline.y_success := true; YtPipeline.y_error := None;
                      YtPipeline.y_url := url0;
                      YtPipeline.y_video_id := video_id;
                      YtPipeline.y_run_id := Some run_id;
                      YtPipeline.y_transcript := Some t;
                      YtPipeline.y_ai_results := Some ai;
                      YtPipeline.y_summaries := Some s |}).
  { intros Hvalid video_id run_id t ai s Ht Hai Hs1 Hs2 Hs3.
    split; [reflexivity |]. cbn.
    split; [exact Hvalid |]. split; [reflexivity |]. split; [eauto |].
    split; [eauto |]. exists ai, s. repeat split; assumption. }
  clearbody post.
  unfold YtPipeline.process_youtube_url.
  apply returns_with_try;
    [| intros e; eapply returns_with_bind; [apply returns_with_any |];
       intros _ _; apply returns_with_ret, Hfailed].
  destruct (YtProcessor.validate_youtube_url word_char url0) eqn:Hvalid;
    cbn [negb]; [| apply returns_with_ret, Hfailed].
  eapply returns_with_bind; [apply returns_with_any |]. intros _ _.
  eapply returns_with_bind; [apply returns_with_any |]. intros run_id _.
  eapply returns_with_bind; [apply returns_with_any |]. intros notion _.
  eapply returns_with_bind; [apply returns_with_any |]. intros _ _.
  eapply (returns_with_bind _ _
            (fun step => match step with
                         | inl res => post res
                         | inr t => Transcribe.content t <> []
                         end)).
  { unfold YtPipeline.transcript_step. apply returns_with_try.
    - eapply returns_with_bind; [apply returns_with_any |]. intros t _.
      destruct (Transcribe.content t) eqn:Hc; cbn [nonempty];
        apply returns_with_ret; [apply Hfailed | rewrite Hc; discriminate].
    - intros e. eapply returns_with_bind; [apply returns_with_any |].
      intros _ _. apply returns_with_ret, Hfailed. }
  intros [res | t] Hstep; [apply returns_with_ret; exact Hstep |].
  eapply returns_with_bind; [apply returns_with_any |]. intros _ _.
  eapply (returns_with_bind _ _
            (fun step => match step with
                         | inl res => post res
                         | inr ai => chat_err ai = None
                         end)).
  { unfold YtPipeline.ai_step. apply returns_with_try.
    - eapply returns_with_bind; [apply returns_with_any |]. intros ai _.
      destruct (chat_err ai) as [err |] eqn:Herr.
      + eapply returns_with_bind; [apply returns_with_any |].
        intros _ _. apply returns_with_ret, Hfailed.
      + apply returns_with_ret. exact Herr.
    - intros e. eapply returns_with_bind; [apply returns_with_any |].
      intros _ _. apply returns_with_ret, Hfailed. }
  intros [res | ai] Hai; [apply returns_with_ret; exact Hai |].
  eapply returns_with_bind; [apply returns_with_any |]. intros _ _.
  apply returns_with_ret. apply Hdone; auto.
Qed.

(** X23.  [process_youtube_url] never raises, whatever its collaborators
    do: it always returns a result, and the entries of the result agree
    with its [success].  A success carries no [error], a [run_id], a
    transcript that is not empty, AI results without an error and the
    summaries taken from them, and its URL passed the validation; a
    failure carries an [error] text, no [run_id] and no summaries.  A URL
    that fails the validation is answered at once: no collaborator is
    called and nothing is logged. *)
Theorem process_youtube_url_result
    (set_text : pystr -> pystr -> json -> Z -> M W bool)
    (set_overflow : pystr -> pystr -> json -> Z -> pystr -> M W bool)
    (url0 : pystr) (p : process W) :
  exists res p',
    run set_text set_overflow url0 p = (inl res, p')
    /\ coherent word_char url0 res
    /\ (if YtProcessor.validate_youtube_url word_char url0 then True
        else p' = p
             /\ YtPipeline.y_error res = Some (u "Некорректный YouTube URL")).
Proof.
  pose proof (process_youtube_url_coherent set_text set_overflow url0 p) as Hco.
  revert Hco. unfold YtPipeline.process_youtube_url, try_except.
  destruct (YtProcessor.validate_youtube_url word_char url0) eqn:Hvalid; cbn [negb].
  - match goal with
    | |- context [match ?body p with _ => _ end] =>
        destruct (body p) as [[res | e] p1]
    end.
    + intros Hco. exists res, p1. split; [reflexivity |].
      split; [exact Hco | exact I].
    + intros Hco. unfold bind, log, ret. eexists _, _.
      split; [reflexivity |]. split; [exact Hco | exact I].
  - unfold ret. cbn [fst]. intros Hco. eexists _, _.
    split; [reflexivity |]. split; [exact Hco |]. split; reflexivity.
Qed.

Lemma save_to_notion_returns
    (set_text : pystr -> pystr -> json -> Z -> M W bool)
    (set_overflow : pystr -> pystr -> json -> Z -> pystr -> M W bool)
    (page : pystr) (s : YtPipeline.yt_summaries) (p : process W) :
  exists p',
    YtPipeline.save_to_notion prop_max_len set_text set_overflow log_func page s p
    = (inl tt, p').
Proof.
  unfold YtPipeline.save_to_notion, try_except.
  match goal with
  | |- context [match ?body p with _ => _ end] =>
      destruct (body p) as [[[] | e] p1]
  end; [eexists; reflexivity |].
  unfold log. eexists. reflexivity.
Qed.

(** X24.  What [process_youtube_url] returns does not depend on the
    saving to Notion: whatever the two writing functions do (return
    [False], raise, change the world), the result is the same.  Only the
    opening of the page, before the transcript is fetched, can turn a run
    into a failure. *)
Theorem process_youtube_url_ignores_notion_writes
    (set_text1 set_text2 : pystr -> pystr -> json -> Z -> M W bool)
    (set_overflow1 set_overflow2 : pystr -> pystr -> json -> Z -> pystr -> M W bool)
    (url0 : pystr) (p : process W) :
  (run set_text1 set_overflow1 url0 p).1 = (run set_text2 set_overflow2 url0 p).1.
Proof.
  unfold YtPipeline.process_youtube_url, try_except.
  destruct (YtProcessor.validate_youtube_url word_char url0); cbn [negb];
    [| reflexivity].
  unfold bind, log, ret. cbv beta iota.
  destruct (YtPipeline.run_id_of _ _ _ _) as [[run_id | e] p1];
    cbv beta iota; [| reflexivity].
  destruct (YtPipeline.open_notion_page _ _ _ _ _ _ _) as [[notion | e] p2];
    cbv beta iota; [| reflexivity].
  destruct (YtPipeline.transcript_step _ _ _ _ _) as [[[res | t] | e] p3];
    cbv beta iota; [reflexivity | | reflexivity].
  destruct (YtPipeline.ai_step _ _ _ _ _ _) as [[[res | ai] | e] p4];
    cbv beta iota; [reflexivity | | reflexivity].
  destruct notion as [[|] [[| c page] |]]; try reflexivity.
  destruct (save_to_notion_returns set_text1 set_overflow1 (c :: page)
              {| YtPipeline.s_short := short_summary ai;
                 YtPipeline.s_middle := middle_summary ai;
                 YtPipeline.s_full := full_summary ai;
                 YtPipeline.s_resources := join [NEWLINE] (chat_resources ai) |}
              p4) as [p5 ->].
  destruct (save_to_notion_returns set_text2 set_overflow2 (c :: page)
              {| YtPipeline.s_short := short_summary ai;
                 YtPipeline.s_middle := middle_summary ai;
                 YtPipeline.s_full := full_summary ai;
                 YtPipeline.s_resources := join [NEWLINE] (chat_resources ai) |}
              p4) as [p6 ->].
  reflexivity.
Qed.

End PipelineSpec.

(** ** The worker loop *)

Section WorkerLoop.
Context {W : Type}.
Variable word_char : char -> bool.
Variable clock_of : W -> clock.
Variable get_telegram_updates :
  Z -> W -> option (list TelegramLoop.tg_update) * W.
Variable process_youtube_url : pystr -> W -> (url_result + exn) * W.
Variable send_telegram_message : pystr -> pystr -> W -> (bool + exn) * W.
Variable send_telegram_summaries : pystr -> summaries -> W -> (bool + exn) * W.
Variable log_func : bool.

Local Abbreviation handle_message :=
  (TelegramLoop.handle_message word_char clock_of send_telegram_message log_func).
Local Abbreviation handle_updates :=
  (TelegramLoop.handle_updates word_char clock_of send_telegram_message log_func).
Local Abbreviation single :=
  (process_single_url process_youtube_url send_telegram_message
     send_telegram_summaries log_func).
Local Abbreviation iteration :=
  (TelegramLoop.iteration word_char clock_of get_telegram_updates
     process_youtube_url send_telegram_message send_telegram_summaries log_func).

(** What a step of the loop may change of the process: the world and the
    log in any way; the waiting sequence within its bound; nothing else,
    unless it is said. *)
Local Abbreviation quiet p p' :=
  (slept p' = slept p /\ marks p' = marks p
   /\ _processing_task (the_queue p') = _processing_task (the_queue p)
   /\ max_size (the_queue p') = max_size (the_queue p)
   /\ ((len (_queue (the_queue p)) <= max_size (the_queue p))%Z ->
       (len (_queue (the_queue p')) <= max_size (the_queue p'))%Z)).

Local Abbreviation keeps c := (forall p : process W, quiet p (c p).2).

Lemma quiet_refl (p : process W) : quiet p p.
Proof. tauto. Qed.

Lemma quiet_trans (p p1 p2 : process W) :
  quiet p p1 -> quiet p1 p2 -> quiet p p2.
Proof.
  intros (Hs & Hm & Hp & Hx & Hb) (Hs' & Hm' & Hp' & Hx' & Hb').
  rewrite Hs', Hm', Hp', Hx', Hs, Hm, Hp, Hx.
  repeat split; try reflexivity.
  intros Hbound. rewrite <- Hx, <- Hx'. apply Hb', Hb, Hbound.
Qed.

Lemma keeps_ret {A} (a : A) : keeps (ret a).
Proof. intros p. apply quiet_refl. Qed.

Lemma keeps_bind {A B} (c : M W A) (k : A -> M W B) :
  keeps c -> (forall a, keeps (k a)) -> keeps (bind c k).
Proof.
  intros Hc Hk p. unfold bind. specialize (Hc p).
  destruct (c p) as [[a | e] p1]; [| exact Hc].
  cbn [snd] in Hc. exact (quiet_trans _ _ _ Hc (Hk a p1)).
Qed.

Lemma keeps_log (lv md : string) (ms : pystr) (kvs : list (pystr * pystr)) :
  keeps (log log_func lv md ms kvs).
Proof. intros p. unfold log. destruct log_func; cbn [snd]; tauto. Qed.

Lemma keeps_ext {A} (f : W -> (A + exn) * W) : keeps (ext f).
Proof.
  intros p. unfold ext. destruct (f (world p)) as [r w]. cbn [snd]. tauto.
Qed.

Lemma keeps_add_url (url0 source0 : pystr) :
  keeps (TelegramLoop.url_queue_add_url clock_of url0 source0).
Proof.
  intros p. unfold TelegramLoop.url_queue_add_url.
  pose proof (add_url_keeps_bound (the_queue p) url0 source0 (clock_of (world p)))
    as Hb.
  destruct (Z_lt_ge_dec (len (_queue (the_queue p))) (max_size (the_queue p)))
    as [Hroom | Hfull].
  - rewrite add_url_accepted in * by exact Hroom.
    cbn [snd the_queue slept marks _processing_task max_size] in *. tauto.
  - rewrite add_url_rejected in * by exact Hfull.
    cbn [snd the_queue slept marks _processing_task max_size] in *. tauto.
Qed.

Lemma handle_message_quiet (message0 : option TelegramLoop.tg_message) :
  keeps (handle_message message0).
Proof.
  unfold TelegramLoop.handle_message.
  destruct message0 as [[[[| c t] |] chat_id username] |];
    try apply keeps_ret.
  apply keeps_bind; [apply keeps_log | intros _].
  destruct (YtProcessor.validate_youtube_url word_char (strip (c :: t)));
    cbn [negb].
  - apply keeps_bind; [apply keeps_add_url | intros queue_result].
    destruct (success queue_result).
    + apply keeps_bind; [apply keeps_ext | intros _; apply keeps_log].
    + apply keeps_bind; [apply keeps_ext | intros _; apply keeps_ret].
  - apply keeps_bind; [apply keeps_ext | intros _; apply keeps_ret].
Qed.

Lemma handle_updates_quiet (updates : list TelegramLoop.tg_update) :
  forall (last : Z) (p : process W),
    (last <= (handle_updates updates last p).1.2)%Z
    /\ quiet p (handle_updates updates last p).2.
Proof.
  induction updates as [| update rest IH]; intros last p.
  - cbn. split; [lia | tauto].
  - cbn [TelegramLoop.handle_updates].
    destruct (Z.leb_spec (TelegramLoop.upd_id update) last) as [Hold | Hnew];
      [apply IH |].
    pose proof (handle_message_quiet (TelegramLoop.upd_message update) p) as Hq.
    cbv beta in Hq.
    destruct (handle_message (TelegramLoop.upd_message update) p) as [[[] | e] p1].
    + destruct (IH (TelegramLoop.upd_id update) p1) as [Hlast Hrest].
      cbn [snd] in Hq. split; [lia | exact (quiet_trans _ _ _ Hq Hrest)].
    + cbn [fst snd] in *. split; [lia | exact Hq].
Qed.

(** A task at the head of the waiting sequence is taken, processed and
    marked on every path through [process_single_url], also on those that
    end in an exception. *)
Lemma process_single_url_takes (p : process W) (task : UrlTask)
    (rest : list UrlTask) :
  _queue (the_queue p) = task :: rest ->
  slept (single p).2 = slept p
  /\ marks (single p).2 = marks p ++ [(task_id task, true)]
  /\ the_queue (single p).2
     = {| max_size := max_size (the_queue p); _queue := rest;
          _processing_task := None |}.
Proof.
  intros Hq. pose proof (get_next_url_cons _ _ _ Hq) as Hget.
  pose proof (mark_completed_after_dequeue _ _ _ Hget) as Hmark.
  cbn [max_size _queue] in Hmark.
  unfold process_single_url, bind, try_except,
    url_queue_get_next_url, url_queue_mark_completed, ext, ret, log.
  rewrite Hget. cbn [world the_queue slept logged marks].
  destruct log_func;
    cbn [world the_queue slept logged marks];
    (destruct (process_youtube_url (url task) (world p)) as [[result | e] w1];
     cbn [world the_queue slept logged marks];
     [ destruct (r_success result);
       repeat match goal with
         | |- context [send_telegram_message ?c ?m ?w] =>
             destruct (send_telegram_message c m w) as [[? | ?] ?];
             cbn [world the_queue slept logged marks]
         | |- context [match r_summaries result with _ => _ end] =>
             destruct (r_summaries result);
             cbn [world the_queue slept logged marks]
         | |- context [send_telegram_summaries ?c ?s ?w] =>
             destruct (send_telegram_summaries c s w) as [[? | ?] ?];
             cbn [world the_queue slept logged marks]
         end
     | ]);
    rewrite ?Hmark; cbn [world the_queue slept logged marks];
    repeat match goal with
      | |- context [send_telegram_message ?c ?m ?w] =>
          destruct (send_telegram_message c m w) as [[? | ?] ?];
          cbn [world the_queue slept logged marks]
      end;
    cbn [fst snd world the_queue slept logged marks]; auto.
Qed.

(** What one call of [process_single_url] may change. *)
Lemma process_single_url_effect (p : process W) :
  slept (single p).2 = slept p
  /\ (length (marks (single p).2) <= length (marks p) + 1)%nat
  /\ max_size (the_queue (single p).2) = max_size (the_queue p)
  /\ ((len (_queue (the_queue p)) <= max_size (the_queue p))%Z ->
      (len (_queue (the_queue (single p).2))
       <= max_size (the_queue (single p).2))%Z)
  /\ (_processing_task (the_queue p) = None ->
      _processing_task (the_queue (single p).2) = None).
Proof.
  destruct (_queue (the_queue p)) as [| task rest] eqn:Hq.
  - rewrite (process_single_url_idle _ _ _ _ p Hq). cbn [snd].
    rewrite Hq. repeat split; auto. lia.
  - destruct (process_single_url_takes p task rest Hq) as (-> & -> & ->).
    cbn [max_size _queue _processing_task]. rewrite length_app. cbn [length].
    unfold len. cbn [length]. repeat split; auto; lia.
Qed.

Lemma process_pending_effect (p : process W) :
  let p' := (TelegramLoop.process_pending process_youtube_url
               send_telegram_message send_telegram_summaries log_func p).2 in
  slept p' = slept p
  /\ (length (marks p') <= length (marks p) + 1)%nat
  /\ max_size (the_queue p') = max_size (the_queue p)
  /\ ((len (_queue (the_queue p)) <= max_size (the_queue p))%Z ->
      (len (_queue (the_queue p')) <= max_size (the_queue p'))%Z)
  /\ (_processing_task (the_queue p) = None ->
      _processing_task (the_queue p') = None).
Proof.
  cbv zeta.
  unfold TelegramLoop.process_pending, TelegramLoop.url_queue_size, bind, ret.
  destruct (st_queue_size (get_queue_status (the_queue p)) >? 0)%Z.
  - assert (Hlog : exists p1,
              log log_func "INFO" "telegram_main"
                (u "Обрабатываем задачу из очереди") [] p = (inl tt, p1)
              /\ the_queue p1 = the_queue p /\ slept p1 = slept p
              /\ marks p1 = marks p).
    { unfold log. destruct log_func; eexists; repeat split. }
    destruct Hlog as (p1 & -> & Hq1 & Hs1 & Hm1).
    pose proof (process_single_url_effect p1) as Heff.
    destruct (single p1) as [[b | e] p2]; cbn [snd] in *;
      rewrite Hq1, Hs1, Hm1 in Heff; exact Heff.
  - cbn [snd]. repeat split; auto. lia.
Qed.

(** One pass of the loop. *)
Lemma iteration_effect (last : Z) (p : process W) :
  exists last' p' d,
    iteration last p = (last', p')
    /\ (last <= last')%Z
    /\ slept p' = slept p ++ [d] /\ (d = 500 \/ d = 1000)%Z
    /\ (length (marks p') <= length (marks p) + 1)%nat
    /\ max_size (the_queue p') = max_size (the_queue p)
    /\ ((len (_queue (the_queue p)) <= max_size (the_queue p))%Z ->
        (len (_queue (the_queue p')) <= max_size (the_queue p'))%Z)
    /\ (_processing_task (the_queue p) = None ->
        _processing_task (the_queue p') = None).
Proof.
  unfold TelegramLoop.iteration.
  destruct (get_telegram_updates (last + 1) (world p)) as [[result |] w].
  - set (p0 := Process w (the_queue p) (slept p) (logged p) (marks p)).
    destruct (handle_updates_quiet result last p0) as [Hlast Hq].
    destruct (handle_updates result last p0) as [[handled last'] p1].
    cbn [fst snd] in Hlast, Hq.
    destruct Hq as (Hs1 & Hm1 & Hp1 & Hx1 & Hb1).
    subst p0. cbn [the_queue slept marks] in *.
    destruct handled as [[] | e].
    + unfold bind.
      pose proof (process_pending_effect p1) as Heff. cbv zeta in Heff.
      destruct (TelegramLoop.process_pending process_youtube_url
                  send_telegram_message send_telegram_summaries log_func p1)
        as [[[] | e] p2]; cbn [snd] in Heff;
        destruct Heff as (Hs2 & Hm2 & Hx2 & Hb2 & Hp2); rewrite Hm1 in Hm2.
      * unfold sleep_ms. eexists _, _, 500%Z. split; [reflexivity |].
        cbn [slept marks the_queue]. rewrite Hs2, Hs1, Hx2, Hx1.
        split; [exact Hlast |]. split; [reflexivity |]. split; [auto |].
        split; [lia |]. split; [reflexivity |].
        split; [intros Hb; rewrite <- Hx1, <- Hx2; apply Hb2, Hb1, Hb |].
        intros Hnone. apply Hp2. rewrite Hp1. exact Hnone.
      * unfold TelegramLoop.on_error, bind, log, sleep_ms.
        eexists _, _, 1000%Z. split; [reflexivity |].
        destruct log_func; cbn [fst snd slept marks the_queue];
          rewrite Hs2, Hs1, Hx2, Hx1;
          (split; [exact Hlast |]; split; [reflexivity |]; split; [auto |];
           split; [lia |]; split; [reflexivity |];
           split; [intros Hb; rewrite <- Hx1, <- Hx2; apply Hb2, Hb1, Hb |];
           intros Hnone; apply Hp2; rewrite Hp1; exact Hnone).
    + unfold TelegramLoop.on_error, bind, log, sleep_ms.
      eexists _, _, 1000%Z. split; [reflexivity |].
      destruct log_func; cbn [fst snd slept marks the_queue];
        rewrite Hs1, Hm1, Hx1, Hp1;
        (split; [exact Hlast |]; split; [reflexivity |]; split; [auto |];
         split; [lia |]; split; [reflexivity |];
         split; [intros Hb; rewrite <- Hx1; apply Hb1, Hb | auto]).
  - unfold sleep_ms. eexists _, _, 1000%Z. split; [reflexivity |].
    cbn [fst snd slept marks the_queue].
    split; [lia |]. split; [reflexivity |]. split; [auto |].
    split; [lia |]. auto.
Qed.

(** X26.  The worker loop, pass by pass: [last_update_id] never
    decreases; every pass ends with exactly one sleep, of half a second,
    or of one second after a failed poll or an exception, so the loop
    never spins; a pass completes at most one task; the waiting sequence
    stays within [max_size]; and once no task is in flight, none is in
    flight between passes, whatever the collaborators do. *)
Theorem worker_loop_passes (rounds : nat) :
  forall (last : Z) (p : process W),
  let r := TelegramLoop.passes word_char clock_of get_telegram_updates
             process_youtube_url send_telegram_message send_telegram_summaries
             log_func rounds last p in
  (last <= r.1)%Z
  /\ (exists naps, slept r.2 = slept p ++ naps /\ length naps = rounds
                   /\ Forall (fun d => d = 500 \/ d = 1000)%Z naps)
  /\ (length (marks r.2) <= length (marks p) + rounds)%nat
  /\ max_size (the_queue r.2) = max_size (the_queue p)
  /\ ((len (_queue (the_queue p)) <= max_size (the_queue p))%Z ->
      (len (_queue (the_queue r.2)) <= max_size (the_queue r.2))%Z)
  /\ (_processing_task (the_queue p) = None ->
      _processing_task (the_queue r.2) = None).
Proof.
  induction rounds as [| n IH]; intros last p; cbv zeta.
  - cbn [TelegramLoop.passes fst snd].
    split; [lia |]. split; [exists []; rewrite app_nil_r; auto |].
    split; [lia |]. auto.
  - cbn [TelegramLoop.passes].
    destruct (iteration_effect last p)
      as (last1 & p1 & d & -> & Hl1 & Hs1 & Hd & Hm1 & Hx1 & Hb1 & Hp1).
    specialize (IH last1 p1). cbv zeta in IH.
    destruct IH as (Hl2 & (naps & Hs2 & Hn & Hall) & Hm2 & Hx2 & Hb2 & Hp2).
    split; [lia |]. split.
    { exists (d :: naps). rewrite Hs2, Hs1, <- app_assoc.
      split; [reflexivity |]. split; [simpl; lia |]. constructor; assumption. }
    split; [lia |]. split; [congruence |].
    split; [intros Hb; apply Hb2, Hb1, Hb | intros Hnone; apply Hp2, Hp1, Hnone].
Qed.

End WorkerLoop.

Section WorkerBatch.
Context {W : Type}.
Variable word_char : char -> bool.
Variable clock_of : W -> clock.
Variable send : pystr -> pystr -> W -> (bool + exn) * W.
Variable log_func : bool.
(** The transport does not raise ([send_telegram_message] never does). *)
Hypothesis send_returns : forall chat_id text0 w,
  exists b w', send chat_id text0 w = (inl b, w').

Local Abbreviation handle_message :=
  (TelegramLoop.handle_message word_char (fun wr => clock_of wr.1)
     (recorded send) log_func).
Local Abbreviation handle_updates :=
  (TelegramLoop.handle_updates word_char (fun wr => clock_of wr.1)
     (recorded send) log_func).
Local Abbreviation valid_text t :=
  (YtProcessor.validate_youtube_url word_char (strip t)).

Lemma recorded_send_run (chat_id text0 : pystr)
    (p : process (W * list (pystr * pystr))) :
  exists b w',
    ext (recorded send chat_id text0) p
    = (inl b,
       Process (w', (world p).2 ++ [(chat_id, text0)]) (the_queue p) (slept p)
         (logged p) (marks p)).
Proof.
  unfold ext, recorded.
  destruct (send_returns chat_id text0 (world p).1) as (b & w' & ->).
  exists b, w'. reflexivity.
Qed.

(** A message with a text gets one reply, and its link is handed to
    [add_url] when it passes the validation. *)
Lemma handle_message_replies (c : char) (t chat_id : pystr)
    (username : option pystr) (p : process (W * list (pystr * pystr))) :
  exists p' reply,
    handle_message
      (Some {| TelegramLoop.msg_text := Some (c :: t);
               TelegramLoop.msg_chat_id := chat_id;
               TelegramLoop.msg_username := username |}) p
    = (inl tt, p')
    /\ (world p').2 = (world p).2 ++ [(chat_id, reply)]
    /\ the_queue p'
       = if valid_text (c :: t)
         then (add_url (the_queue p) (strip (c :: t)) chat_id
                 (clock_of (world p).1)).2
         else the_queue p.
Proof.
  unfold TelegramLoop.handle_message.
  unfold bind at 1.
  assert (Hlog : exists lg,
            log log_func "INFO" "telegram_main" (u "Получено сообщение")
              [(u "chat_id", chat_id); (u "text", strip (c :: t));
               (u "username", default (u "unknown") username)] p
            = (inl tt, Process (world p) (the_queue p) (slept p) lg (marks p))).
  { unfold log. destruct log_func; [eexists; reflexivity |].
    exists (logged p). destruct p; reflexivity. }
  destruct Hlog as [lg ->].
  set (p1 := Process (world p) (the_queue p) (slept p) lg (marks p)).
  destruct (valid_text (c :: t)); cbn [negb].
  - unfold bind at 1, TelegramLoop.url_queue_add_url.
    cbn [world the_queue slept logged marks p1].
    destruct (add_url (the_queue p) (strip (c :: t)) chat_id (clock_of (world p).1))
      as [queue_result q1].
    cbn [snd]. destruct (success queue_result).
    + unfold bind at 1.
      match goal with
      | |- context [ext (recorded send chat_id ?reply) ?p2] =>
          destruct (recorded_send_run chat_id reply p2) as (b & w' & ->);
          exists (log log_func "INFO" "telegram_main" (u "URL добавлен в очередь")
                    [(u "task_id", str_of_option (res_task_id queue_result));
                     (u "position", str_of_int (position queue_result))]
                    (Process (w', (world p2).2 ++ [(chat_id, reply)])
                       (the_queue p2) (slept p2) (logged p2) (marks p2))).2,
                 reply
      end.
      unfold log. destruct log_func; cbn [fst snd world the_queue]; auto.
    + unfold bind at 1.
      match goal with
      | |- context [ext (recorded send chat_id ?reply) ?p2] =>
          destruct (recorded_send_run chat_id reply p2) as (b & w' & ->);
          eexists _, reply
      end.
      unfold ret. cbn [world the_queue snd]. auto.
  - unfold bind at 1.
    match goal with
    | |- context [ext (recorded send chat_id ?reply) ?p2] =>
        destruct (recorded_send_run chat_id reply p2) as (b & w' & ->);
        eexists _, reply
    end.
    unfold ret. cbn [world the_queue snd p1]. auto.
Qed.

Lemma last_cons_default {A} (ids : list A) :
  forall i d, List.last (i :: ids) d = List.last ids i.
Proof.
  induction ids as [| j ids IH]; intros i d; [reflexivity |].
  change (List.last (i :: j :: ids) d) with (List.last (j :: ids) d).
  rewrite (IH j d), (IH j i). reflexivity.
Qed.

Lemma enqueue_all_cons (q : UrlQueue) (s : submission) (rest : list submission) :
  (enqueue_all q (s :: rest)).2
  = (enqueue_all (add_url q s.1.1 s.1.2 s.2).2 rest).2.
Proof.
  cbn [enqueue_all]. destruct (add_url q s.1.1 s.1.2 s.2) as [r q1].
  cbn [snd]. destruct (enqueue_all q1 rest) as [rs q2]. reflexivity.
Qed.

(** X25.  A batch of updates whose ids ascend above the cursor, on a
    transport that does not raise: the loop over the updates does not
    raise, the cursor ends on the last id, every message with a text gets
    exactly one reply, sent to its own chat, in the order of the updates
    (updates without a text get none), and the links that pass the
    validation are handed to [add_url] in that order, stripped, with the
    chat as their source. *)
Theorem handle_updates_replies (updates : list TelegramLoop.tg_update) :
  forall (last : Z) (p : process (W * list (pystr * pystr))),
  ascending last (map TelegramLoop.upd_id updates) = true ->
  exists p' replies subs,
    handle_updates updates last p
    = (inl tt, List.last (map TelegramLoop.upd_id updates) last, p')
    /\ (world p').2 = (world p).2 ++ replies
    /\ map fst replies
       = map TelegramLoop.msg_chat_id (omap text_message updates)
    /\ the_queue p' = (enqueue_all (the_queue p) subs).2
    /\ map (fun s : submission => (s.1.1, s.1.2)) subs
       = map (fun m => (strip (default [] (TelegramLoop.msg_text m)),
                        TelegramLoop.msg_chat_id m))
           (filter (fun m => valid_text (default [] (TelegramLoop.msg_text m)) = true)
              (omap text_message updates)).
Proof.
  induction updates as [| update rest IH]; intros last p Hasc.
  - exists p, [], []. cbn. rewrite app_nil_r. auto.
  - cbn [map ascending] in Hasc. apply andb_true_iff in Hasc as [Hnew Hrest].
    apply Z.ltb_lt in Hnew.
    cbn [TelegramLoop.handle_updates].
    destruct (Z.leb_spec (TelegramLoop.upd_id update) last) as [Hold | _]; [lia |].
    assert (Hlast : List.last (map TelegramLoop.upd_id (update :: rest)) last
                    = List.last (map TelegramLoop.upd_id rest)
                        (TelegramLoop.upd_id update)).
    { cbn [map]. apply last_cons_default. }
    rewrite Hlast.
    change (omap text_message (update :: rest))
      with (match text_message update with
            | Some m => m :: omap text_message rest
            | None => omap text_message rest
            end).
    destruct update as [uid [[[[| c t] |] chat_id username] |]];
      cbn [TelegramLoop.upd_id TelegramLoop.upd_message TelegramLoop.msg_text] in *;
      match goal with
      | |- context [text_message ?upd] =>
          let v := eval cbv [text_message TelegramLoop.upd_message
                             TelegramLoop.msg_text] in (text_message upd) in
          change (text_message upd) with v
      end; cbv beta iota.
    + (* an empty text *)
      destruct (IH uid p Hrest) as (p' & replies & subs & Hrun & Hw & Hr & Hq & Hs).
      exists p', replies, subs. unfold TelegramLoop.handle_message, ret.
      rewrite Hrun. auto.
    + destruct (handle_message_replies c t chat_id username p)
        as (p1 & reply & -> & Hw1 & Hq1).
      destruct (IH uid p1 Hrest) as (p' & replies & subs & Hrun & Hw & Hr & Hq & Hs).
      rewrite Hrun. cbn [map TelegramLoop.msg_chat_id].
      destruct (valid_text (c :: t)) eqn:Hvalid.
      * exists p', ((chat_id, reply) :: replies),
          ((strip (c :: t), chat_id, clock_of (world p).1) :: subs).
        split; [reflexivity |].
        split; [rewrite Hw, Hw1, <- app_assoc; reflexivity |].
        split; [cbn [map fst]; rewrite Hr; reflexivity |].
        split; [rewrite enqueue_all_cons; cbn [fst snd]; rewrite <- Hq1; exact Hq |].
        rewrite filter_cons_True by (cbn [default from_option id TelegramLoop.msg_text]; exact Hvalid).
        cbn [map fst snd default from_option id TelegramLoop.msg_text
             TelegramLoop.msg_chat_id].
        rewrite Hs. reflexivity.
      * exists p', ((chat_id, reply) :: replies), subs.
        split; [reflexivity |].
        split; [rewrite Hw, Hw1, <- app_assoc; reflexivity |].
        split; [cbn [map fst]; rewrite Hr; reflexivity |].
        split; [rewrite Hq, Hq1; reflexivity |].
        rewrite filter_cons_False
          by (cbn [default from_option id TelegramLoop.msg_text];
              rewrite Hvalid; discriminate).
        exact Hs.
    + (* no text *)
      destruct (IH uid p Hrest) as (p' & replies & subs & Hrun & Hw & Hr & Hq & Hs).
      exists p', replies, subs. unfold TelegramLoop.handle_message, ret.
      rewrite Hrun. auto.
    + (* no message *)
      destruct (IH uid p Hrest) as (p' & replies & subs & Hrun & Hw & Hr & Hq & Hs).
      exists p', replies, subs. unfold TelegramLoop.handle_message, ret.
      rewrite Hrun. auto.
Qed.

End WorkerBatch.

Lemma handle_updates_replies_witness :
  let clock_of := fun _ : nat => {| datetime_now := 100; time_time := 100 |} in
  let send := fun (_ _ : pystr) (w : nat) => (inl true, S w) in
  let p := Process (0%nat, []) url_queue [] [] [] in
  exists p' replies subs,
    TelegramLoop.handle_updates YtProcessor.id_char (fun wr => clock_of wr.1)
      (recorded send) true example_updates 4 p
    = (inl tt, List.last (map TelegramLoop.upd_id example_updates) 4%Z, p')
    /\ (world p').2 = (world p).2 ++ replies
    /\ map fst replies
       = map TelegramLoop.msg_chat_id (omap text_message example_updates)
    /\ the_queue p' = (enqueue_all (the_queue p) subs).2
    /\ map (fun s : submission => (s.1.1, s.1.2)) subs
       = map (fun m => (strip (default [] (TelegramLoop.msg_text m)),
                        TelegramLoop.msg_chat_id m))
           (filter (fun m => YtProcessor.validate_youtube_url YtProcessor.id_char
                               (strip (default [] (TelegramLoop.msg_text m))) = true)
              (omap text_message example_updates)).
Proof.
  intros clock_of send p.
  apply (handle_updates_replies YtProcessor.id_char clock_of send true).
  - intros chat_id text0 w. exists true, (S w). reflexivity.
  - vm_compute. reflexivity.
Defined.

Example handle_updates_example :
  let clock_of := fun _ : nat => {| datetime_now := 100; time_time := 100 |} in
  let send := fun (_ _ : pystr) (w : nat) => (inl true, S w) in
  let run := TelegramLoop.handle_updates YtProcessor.id_char
               (fun wr => clock_of wr.1) (recorded send) false example_updates 4
               (Process (0%nat, []) url_queue [] [] []) in
  run.1 = (inl tt, 8%Z)
  /\ map fst (world run.2).2 = [u "42"; u "43"]
  /\ map url (_queue (the_queue run.2)) = [u "https://youtu.be/abc"]
  /\ map source (_queue (the_queue run.2)) = [u "42"]
  /\ (world run.2).2 !! 1%nat = Some (u "43", TelegramLoop.INVALID_MSG).
Proof. vm_compute. repeat split. Qed.

(** ** The AI client: [init_chat_client] *)

Lemma try_clients_first (outcome : pystr -> unit + exn) (api_keys : list pystr) :
  forall (key_index : Z) (p : process (list pystr)),
  exists lg,
    AiChatClient.try_clients (keyed_client outcome) api_keys key_index p
    = (inl (head (filter (fun key => works outcome key = true) api_keys)),
       Process
         (world p
          ++ match list_find (fun key => works outcome key = true) api_keys with
             | Some (i, _) => take (S i) api_keys
             | None => api_keys
             end)
         (the_queue p) (slept p) lg (marks p)).
Proof.
  induction api_keys as [| key rest IH]; intros key_index p.
  - cbn [AiChatClient.try_clients filter head list_find]. unfold bind, log, ret.
    eexists. rewrite app_nil_r. reflexivity.
  - cbn [AiChatClient.try_clients].
    unfold try_except, bind at 1, ext.
    change (keyed_client outcome key (world p)) with (outcome key, world p ++ [key]).
    cbn [list_find].
    destruct (outcome key) as [[] | e] eqn:Ho.
    + rewrite filter_cons_True by (unfold works; rewrite Ho; reflexivity).
      rewrite decide_True by (unfold works; rewrite Ho; reflexivity).
      unfold bind, log, ret. cbn [head take]. rewrite take_0.
      eexists. reflexivity.
    + rewrite filter_cons_False by (unfold works; rewrite Ho; discriminate).
      rewrite decide_False by (unfold works; rewrite Ho; discriminate).
      unfold bind at 1, log at 1.
      match goal with
      | |- context [AiChatClient.try_clients _ rest ?i ?p1] =>
          destruct (IH i p1) as [lg ->]
      end.
      cbn [world the_queue slept marks]. exists lg. f_equal. f_equal.
      rewrite <- app_assoc. cbn [app]. f_equal.
      destruct (list_find (fun key0 => works outcome key0 = true) rest)
        as [[i found] |]; reflexivity.
Qed.

(** X27.  [init_chat_client] never raises.  With the library present it
    builds clients for the keys in order, one attempt per key, stops at
    the first key whose client can be built and returns that client; it
    returns [None] exactly when no key works (or none is configured),
    after trying them all.  Without the library it tries nothing. *)
Theorem init_chat_client_first (available : bool)
    (outcome : pystr -> unit + exn) (api_keys : list pystr)
    (p : process (list pystr)) :
  exists lg,
    AiChatClient.init_chat_client available (keyed_client outcome) api_keys p
    = (inl (if available
            then head (filter (fun key => works outcome key = true) api_keys)
            else None),
       Process
         (world p
          ++ if available
             then match list_find (fun key => works outcome key = true) api_keys with
                  | Some (i, _) => take (S i) api_keys
                  | None => api_keys
                  end
             else [])
         (the_queue p) (slept p) lg (marks p)).
Proof.
  unfold AiChatClient.init_chat_client. destruct available; cbn [negb].
  - destruct api_keys as [| key rest].
    + unfold bind, log, ret. cbn [filter head list_find].
      eexists. rewrite app_nil_r. reflexivity.
    + apply try_clients_first.
  - unfold bind, log, ret. eexists. rewrite app_nil_r. reflexivity.
Qed.

Example init_chat_client_example :
  let outcome := fun key : pystr =>
    if bool_decide (key = u "k1") then inr (Raised (u "bad key")) else inl tt in
  let run := AiChatClient.init_chat_client true (keyed_client outcome)
               [u "k1"; u "k2"; u "k3"] (Process [] url_queue [] [] []) in
  run.1 = inl (Some (u "k2")) /\ world run.2 = [u "k1"; u "k2"].
Proof. vm_compute. split; reflexivity. Qed.

(** ** Prompts: [split_long_text] *)

Local Abbreviation inked := (filter (fun c : char => isspace c = false)).

Lemma rfind_sub_fits (sub s : pystr) :
  (-1 <= rfind_sub s sub)%Z
  /\ ((0 <= rfind_sub s sub)%Z -> (rfind_sub s sub + len sub <= len s)%Z).
Proof.
  induction s as [| c r [IH1 IH2]]; cbn [rfind_sub]; [split; lia |].
  cbv zeta. destruct (Z.leb_spec 0 (rfind_sub r sub)) as [Hfound | Hnone].
  - specialize (IH2 Hfound). unfold len in *. cbn [length]. split; lia.
  - destruct (startswith (c :: r) sub) eqn:Hs; [| split; lia].
    split; [lia |]. intros _. apply startswith_split in Hs.
    apply (f_equal (@length _)) in Hs. rewrite length_app in Hs.
    unfold len. lia.
Qed.

Lemma lstrip_split (s : pystr) :
  exists a, s = a ++ lstrip s /\ Forall (fun c => isspace c = true) a.
Proof.
  induction s as [| c r (a & IH & Ha)]; [exists []; split; [reflexivity | constructor] |].
  simpl. destruct (isspace c) eqn:Hc.
  - exists (c :: a). split; [simpl; f_equal; exact IH | constructor; assumption].
  - exists []. split; [reflexivity | constructor].
Qed.

Lemma rstrip_split (s : pystr) :
  exists b, s = rstrip s ++ b /\ Forall (fun c => isspace c = true) b.
Proof.
  induction s as [| c r (b & IH & Hb)]; [exists []; split; [reflexivity | constructor] |].
  simpl. destruct (rstrip r) as [| c' r'] eqn:Hr.
  - destruct (isspace c) eqn:Hc.
    + exists (c :: r). split; [reflexivity |].
      constructor; [exact Hc |]. rewrite IH. exact Hb.
    + exists b. split; [simpl; f_equal; exact IH | exact Hb].
  - exists b. split; [simpl; f_equal; exact IH | exact Hb].
Qed.

Lemma inked_blank (a : pystr) :
  Forall (fun c => isspace c = true) a -> inked a = [].
Proof.
  induction 1 as [| c r Hc _ IH]; [reflexivity |].
  rewrite filter_cons_False by (rewrite Hc; discriminate). exact IH.
Qed.

Lemma strip_keeps_ink (s : pystr) :
  inked (strip s) = inked s /\ (length (strip s) <= length s)%nat.
Proof.
  destruct (lstrip_split s) as (a & Ha & Hblank_a).
  destruct (rstrip_split (lstrip s)) as (b & Hb & Hblank_b).
  unfold strip. split.
  - rewrite Ha at 2. rewrite Hb at 2.
    rewrite !filter_app, (inked_blank a Hblank_a), (inked_blank b Hblank_b).
    rewrite app_nil_r. reflexivity.
  - apply (f_equal (@length _)) in Ha, Hb. rewrite length_app in Ha, Hb. lia.
Qed.

Section SplitLongText.
Variable exceeds : Z -> Z -> bool.
(** A number greater than seven tenths of a positive number is
    positive. *)
Hypothesis exceeds_positive : forall n m : Z,
  (0 < m)%Z -> exceeds n m = true -> (0 < n)%Z.

Lemma cut_position_range (remaining : pystr) (max_length : Z) :
  (1 <= max_length)%Z ->
  (1 <= PromptNotion.cut_position_of exceeds remaining max_length <= max_length)%Z.
Proof.
  intros Hmax. unfold PromptNotion.cut_position_of. cbv zeta.
  set (window := slice_to remaining max_length).
  assert (Hwin : (len window <= max_length)%Z).
  { subst window. destruct (slice_to_nonneg remaining max_length ltac:(lia)) as [_ H].
    unfold len. lia. }
  destruct (rfind_sub_fits [NEWLINE] window) as [_ Hnl].
  destruct (rfind_sub_fits (u ". ") window) as [_ Hse].
  destruct (rfind_sub_fits [SPACE] window) as [_ Hsp].
  change (len [NEWLINE]) with 1%Z in Hnl. change (len (u ". ")) with 2%Z in Hse.
  change (len [SPACE]) with 1%Z in Hsp.
  destruct (exceeds (rfind_sub window [NEWLINE]) max_length) eqn:H1.
  { apply exceeds_positive in H1; lia. }
  destruct (exceeds (rfind_sub window (u ". ")) max_length) eqn:H2.
  { apply exceeds_positive in H2; lia. }
  destruct (exceeds (rfind_sub window [SPACE]) max_length) eqn:H3.
  { apply exceeds_positive in H3; lia. }
  lia.
Qed.

Local Abbreviation good max_length :=
  (fun part : pystr =>
     part <> [] /\ strip part = part /\ (len part <= max_length)%Z).

Lemma split_loop_spec (max_length : Z) :
  (1 <= max_length)%Z ->
  forall (fuel : nat) (remaining : pystr) (parts : list pystr),
    (length remaining <= fuel)%nat ->
    Forall (good max_length) parts ->
    (max_length < len remaining)%Z \/ strip remaining = remaining ->
    exists out,
      PromptNotion.split_loop exceeds fuel remaining max_length parts = Some out
      /\ Forall (good max_length) out
      /\ inked (concat out) = inked (concat parts ++ remaining)
      /\ forall fuel', (length remaining <= fuel')%nat ->
           PromptNotion.split_loop exceeds fuel' remaining max_length parts
           = Some out.
Proof.
  intros Hmax.
  assert (Hend : forall remaining parts,
    Forall (good max_length) parts ->
    (len remaining <= max_length)%Z -> strip remaining = remaining ->
    Forall (good max_length)
      (if nonempty remaining then parts ++ [remaining] else parts)
    /\ inked (concat (if nonempty remaining then parts ++ [remaining] else parts))
       = inked (concat parts ++ remaining)).
  { intros remaining parts Hparts Hfit Hstripped.
    destruct remaining as [| c r]; cbn [nonempty].
    - rewrite app_nil_r. auto.
    - split.
      + apply Forall_app. split; [exact Hparts |].
        constructor; [| constructor]. split; [discriminate | auto].
      + rewrite concat_app. cbn [concat]. rewrite app_nil_r. reflexivity. }
  induction fuel as [| fuel IH]; intros remaining parts Hfuel Hparts Hstart.
  - assert (remaining = []) as -> by (destruct remaining; [reflexivity | simpl in Hfuel; lia]).
    assert (Hshort : (len (@nil char) >? max_length)%Z = false).
    { destruct (Z.gtb_spec (len (@nil char)) max_length) as [Hl |]; [| reflexivity].
      unfold len in Hl. simpl in Hl. lia. }
    exists parts. cbn [PromptNotion.split_loop nonempty]. rewrite Hshort, app_nil_r.
    split; [reflexivity |]. split; [exact Hparts |]. split; [reflexivity |].
    intros [| fuel'] _; cbn [PromptNotion.split_loop nonempty];
      rewrite Hshort; reflexivity.
  - cbn [PromptNotion.split_loop].
    destruct (Z.gtb_spec (len remaining) max_length) as [Hlong | Hfit].
    + cbv zeta.
      pose proof (cut_position_range remaining max_length Hmax) as Hcut.
      set (cut := PromptNotion.cut_position_of exceeds remaining max_length) in *.
      assert (Htake : slice_to remaining cut = take (Z.to_nat cut) remaining)
        by (apply slice_to_take; lia).
      assert (Hdrop : slice_from remaining cut = drop (Z.to_nat cut) remaining).
      { unfold slice_from. destruct (Z.leb_spec 0 cut); [reflexivity | lia]. }
      rewrite Htake, Hdrop.
      destruct (strip_keeps_ink (take (Z.to_nat cut) remaining)) as [Hink1 Hlen1].
      destruct (strip_keeps_ink (drop (Z.to_nat cut) remaining)) as [Hink2 Hlen2].
      rewrite length_take in Hlen1. rewrite length_drop in Hlen2.
      set (part := strip (take (Z.to_nat cut) remaining)) in *.
      set (rest := strip (drop (Z.to_nat cut) remaining)) in *.
      assert (Hparts' : Forall (good max_length)
                (if nonempty part then parts ++ [part] else parts)
              /\ inked (concat (if nonempty part then parts ++ [part] else parts))
                 = inked (concat parts ++ part)).
      { destruct part as [| c r] eqn:Hp; cbn [nonempty].
        - rewrite app_nil_r. auto.
        - split.
          + apply Forall_app. split; [exact Hparts |].
            constructor; [| constructor]. split; [discriminate |].
            split; [rewrite <- Hp; apply strip_idem |].
            unfold len. lia.
          + rewrite concat_app. cbn [concat]. rewrite app_nil_r. reflexivity. }
      destruct Hparts' as [Hgood Hink].
      unfold len in Hlong.
      destruct (IH rest (if nonempty part then parts ++ [part] else parts))
        as (out & Hrun & Hout & Hkeep & Hany);
        [lia | exact Hgood | right; apply strip_idem |].
      exists out. split; [exact Hrun |]. split; [exact Hout |]. split.
      * rewrite Hkeep, !filter_app, Hink, filter_app, Hink1, Hink2.
        rewrite <- app_assoc, <- !filter_app, take_drop. reflexivity.
      * intros [| fuel'] Hfuel'; [lia |].
        cbn [PromptNotion.split_loop].
        destruct (Z.gtb_spec (len remaining) max_length) as [_ | Hno];
          [| unfold len in Hno; lia].
        cbv zeta. fold cut. rewrite Htake, Hdrop. fold part. fold rest.
        apply Hany. lia.
    + destruct Hstart as [Hlong | Hstripped]; [lia |].
      destruct (Hend remaining parts Hparts Hfit Hstripped) as [Hgood Hink].
      eexists. split; [reflexivity |]. split; [exact Hgood |].
      split; [exact Hink |].
      intros [| fuel'] _; cbn [PromptNotion.split_loop];
        destruct (Z.gtb_spec (len remaining) max_length); (lia || reflexivity).
Qed.

(** X28.  [split_long_text] with a limit of at least one character: the
    loop ends (within as many rounds as the text has characters, and
    with the same result for any larger number), every part fits the
    limit, the parts of a text longer than the limit are stripped and not
    empty, and nothing but white space is lost: the parts, one after the
    other, hold the characters of the text that are not white space, in
    their order. *)
Theorem split_long_text_parts (text0 : pystr) (max_length : Z) :
  (1 <= max_length)%Z ->
  exists parts,
    (forall fuel, (length text0 <= fuel)%nat ->
       PromptNotion.split_long_text exceeds fuel text0 max_length = Some parts)
    /\ Forall (fun part => (len part <= max_length)%Z) parts
    /\ ((max_length < len text0)%Z ->
        Forall (fun part => part <> [] /\ strip part = part) parts)
    /\ inked (concat parts) = inked text0.
Proof.
  intros Hmax. unfold PromptNotion.split_long_text.
  destruct (Z.leb_spec (len text0) max_length) as [Hfit | Hlong].
  - exists [text0]. split; [reflexivity |].
    split; [repeat constructor; exact Hfit |]. split; [lia |].
    cbn [concat]. rewrite app_nil_r. reflexivity.
  - destruct (split_loop_spec max_length Hmax (length text0) text0 []
                (le_n _) (Forall_nil_2 _) (or_introl Hlong))
      as (out & Hrun & Hout & Hkeep & Hany).
    exists out. split; [exact Hany |]. split.
    + eapply Forall_impl; [exact Hout |]. intros part (_ & _ & Hlen). exact Hlen.
    + split; [| exact Hkeep].
      intros _. eapply Forall_impl; [exact Hout |]. intros part (Hne & Hs & _). auto.
Qed.

End SplitLongText.

Lemma round53_nonneg (p : Z) : (0 <= p)%Z -> (0 <= round53 p)%Z.
Proof.
  intros Hp. unfold round53. cbv zeta.
  destruct (Z.log2 p - 52 <=? 0)%Z; [exact Hp |].
  apply Z.shiftl_nonneg.
  assert (Hq : (0 <= Z.shiftr p (Z.log2 p - 52))%Z)
    by (apply Z.shiftr_nonneg; exact Hp).
  destruct (_ || _); lia.
Qed.

(** The floating-point comparison meets the condition of
    [split_long_text_parts]. *)
Lemma float_exceeds_positive (n m : Z) :
  (0 < m)%Z -> float_exceeds n m = true -> (0 < n)%Z.
Proof.
  intros Hm H. unfold float_exceeds in H. apply Z.ltb_lt in H.
  rewrite (Z.sgn_pos m Hm), Z.mul_1_l in H.
  assert (Hr : (0 <= round53 (round53 (Z.abs m) * SEVEN_TENTHS))%Z).
  { apply round53_nonneg. apply Z.mul_nonneg_nonneg.
    - apply round53_nonneg. lia.
    - unfold SEVEN_TENTHS. lia. }
  change (2 ^ 52)%Z with 4503599627370496%Z in H. lia.
Qed.

Lemma split_long_text_parts_witness :
  exists parts,
    (forall fuel, (length (u "ab cd. ef gh") <= fuel)%nat ->
       PromptNotion.split_long_text float_exceeds fuel (u "ab cd. ef gh") 6
       = Some parts)
    /\ Forall (fun part => (len part <= 6)%Z) parts
    /\ ((6 < len (u "ab cd. ef gh"))%Z ->
        Forall (fun part => part <> [] /\ strip part = part) parts)
    /\ inked (concat parts) = inked (u "ab cd. ef gh").
Proof.
  apply (split_long_text_parts float_exceeds).
  - exact float_exceeds_positive.
  - lia.
Defined.

Example split_long_text_example :
  PromptNotion.split_long_text float_exceeds 12 (u "ab cd. ef gh") 6
  = Some [u "ab cd."; u "ef gh"].
Proof. vm_compute. reflexivity. Qed.

(** The product is a double: [90 * 0.7] is 62.99999999999999, below 63,
    while [10 * 0.7] is 7.0 and [1950 * 0.7] is 1365.0; so a line break
    at index 63 of a window of 90 is taken, which seven tenths in exact
    numbers would not allow. *)
Example float_exceeds_examples :
  float_exceeds 63 90 = true
  /\ float_exceeds 7 10 = false
  /\ float_exceeds 1365 1950 = false
  /\ float_exceeds 1366 1950 = true
  /\ float_exceeds 0 0 = false
  /\ float_exceeds (-1) (-1) = false
  /\ float_exceeds 0 (-1) = true.
Proof. vm_compute. repeat split. Qed.

(** ** The model call: [call_model] *)

Section CallModelSpec.
Context {V : Type}.

Lemma calm_ret {A} (a : A) (Q : A -> Prop) : Q a -> calm (V := V) (ret a) Q.
Proof. intros H p. exists (inl a), p. auto. Qed.

Lemma calm_raise {A} (e : exn) (Q : A -> Prop) : calm (V := V) (raise e) Q.
Proof. intros p. exists (inr e), p. auto. Qed.

Lemma calm_bind {A B} (c : M V A) (k : A -> M V B)
    (Q : A -> Prop) (R : B -> Prop) :
  calm c Q -> (forall a, Q a -> calm (V := V) (k a) R) -> calm (V := V) (bind c k) R.
Proof.
  intros Hc Hk p. destruct (Hc p) as (r & p1 & Hrun & Hw & Hr).
  unfold bind. rewrite Hrun. destruct r as [a | e].
  - destruct (Hk a Hr p1) as (r' & p2 & Hrun' & Hw' & Hr').
    exists r', p2. rewrite Hrun', Hw', Hw. auto.
  - exists (inr e), p1. auto.
Qed.

Lemma calm_log lv md ms kvs (Q : unit -> Prop) :
  Q tt -> calm (V := V) (log true lv md ms kvs) Q.
Proof. intros H p. eexists _, _. split; [reflexivity |]. auto. Qed.

Lemma calm_returned {A} (r : A + exn) (Q : A -> Prop) :
  (forall a, r = inl a -> Q a) -> calm (V := V) (TelegramOutput.returned r) Q.
Proof.
  intros H. destruct r as [a | e]; [apply calm_ret; auto | apply calm_raise].
Qed.

Lemma calm_dict_get v key default (Q : json -> Prop) :
  (forall a, Q a) -> calm (V := V) (dict_get v key default) Q.
Proof.
  intros H. unfold dict_get.
  destruct v; try apply calm_raise. apply calm_ret, H.
Qed.

Lemma sure_ret {A} (a : A) (Q : A -> Prop) : Q a -> sure (V := V) (ret a) Q.
Proof. intros H p. exists a, p. auto. Qed.

Lemma sure_bind {A B} (c : M V A) (k : A -> M V B)
    (Q : A -> Prop) (R : B -> Prop) :
  sure c Q -> (forall a, Q a -> sure (V := V) (k a) R) -> sure (V := V) (bind c k) R.
Proof.
  intros Hc Hk p. destruct (Hc p) as (a & p1 & Hrun & Hw & Ha).
  unfold bind. rewrite Hrun.
  destruct (Hk a Ha p1) as (b & p2 & Hrun' & Hw' & Hb).
  exists b, p2. rewrite Hrun', Hw', Hw. auto.
Qed.

Lemma sure_log lv md ms kvs (Q : unit -> Prop) :
  Q tt -> sure (V := V) (log true lv md ms kvs) Q.
Proof. intros H p. eexists _, _. split; [reflexivity |]. auto. Qed.

Lemma sure_try {A} (c : M V A) (h : exn -> M V A)
    (Q : A -> Prop) :
  calm c Q -> (forall e, sure (V := V) (h e) Q) -> sure (V := V) (try_except c h) Q.
Proof.
  intros Hc Hh p. destruct (Hc p) as (r & p1 & Hrun & Hw & Hr).
  unfold try_except. rewrite Hrun. destruct r as [a | e].
  - exists a, p1. auto.
  - destruct (Hh e p1) as (a & p2 & Hrun' & Hw' & Ha).
    exists a, p2. rewrite Hrun', Hw', Hw. auto.
Qed.

Variable lib : pylib.
Variable json_dumps : json -> pystr.
Variable seconds_str : Z -> pystr.
Variable timeout_sec : Z.
Variable max_retries : Z.
Variable backoff_ms : list Z.

Lemma extract_text_calm (result : json) :
  calm (V := V) (AiMod.extract_text lib json_dumps result) (fun _ => True).
Proof.
  unfold AiMod.extract_text.
  repeat first
    [ apply calm_ret; exact I
    | apply calm_log; exact I
    | apply calm_returned; intros; exact I
    | apply calm_dict_get; intros; exact I
    | match goal with
      | |- calm (V := V) (bind _ _) _ =>
          apply (calm_bind _ _ (fun _ => True)); [| intros ? _]
      | |- calm (V := V) (if ?b then _ else _) _ => destruct b
      end ].
Qed.

Lemma calm_time_sleep (delay_ms : Z) (Q : unit -> Prop) :
  Q tt -> calm (V := V) (AiMod.time_sleep delay_ms) Q.
Proof.
  intros H. unfold AiMod.time_sleep.
  destruct (delay_ms <? 0)%Z; [apply calm_raise |].
  intros p. eexists _, _. split; [reflexivity |]. auto.
Qed.

Lemma calm_pause (retry : Z) (line : Z -> M V unit)
    (Q : AiMod.step -> Prop) :
  (forall d, calm (V := V) (line d) (fun _ => True)) -> Q AiMod.Next_retry ->
  calm (V := V) (AiMod.pause backoff_ms retry line) Q.
Proof.
  intros Hline HQ. unfold AiMod.pause, AiMod.backoff_of.
  apply (calm_bind _ _ (fun _ => True)); [apply calm_returned; auto |].
  intros d _. apply (calm_bind _ _ (fun _ => True)); [apply Hline |].
  intros _ _. apply (calm_bind _ _ (fun _ => True));
    [apply calm_time_sleep; exact I |].
  intros _ _. apply calm_ret, HQ.
Qed.

Lemma on_response_calm (r : AiMod.response) (model : pystr)
    (key_index retry : Z) :
  calm (V := V) (AiMod.on_response lib json_dumps seconds_str max_retries backoff_ms
          r model key_index retry)
       (step_ok model key_index).
Proof.
  unfold AiMod.on_response.
  destruct (AiMod.status_code r =? 200)%Z.
  { apply (calm_bind _ _ (fun _ => True)); [apply calm_returned; auto |].
    intros result _.
    apply (calm_bind _ _ (fun _ => True)); [apply calm_log; exact I |].
    intros _ _.
    apply (calm_bind _ _ (fun _ => True)); [apply extract_text_calm |].
    intros text_response _.
    apply (calm_bind _ _
             (fun stripped => exists s, text_response = JStr s
                                        /\ stripped = strip s)).
    { apply calm_returned. intros a Ha.
      destruct text_response; try discriminate Ha.
      injection Ha as <-. eauto. }
    intros stripped (s & -> & ->).
    destruct (nonempty (strip s)) eqn:Hne; cbn [negb].
    - apply (calm_bind _ _ (fun _ => True)); [apply calm_log; exact I |].
      intros _ _. apply calm_ret. unfold step_ok, served.
      cbn [AiMod.c_ok AiMod.c_text AiMod.c_model_used AiMod.c_key_index
           AiMod.c_error AiMod.text_of].
      repeat split; try reflexivity.
      intros Hnil. rewrite Hnil in Hne. discriminate Hne.
    - apply (calm_bind _ _ (fun _ => True)); [apply calm_log; exact I |].
      intros _ _. apply calm_ret. exact I. }
  destruct (AiMod.status_code r =? 429)%Z.
  { destruct (retry <? max_retries)%Z.
    - apply calm_pause; [| exact I]. intros d. apply calm_log. exact I.
    - apply (calm_bind _ _ (fun _ => True)); [apply calm_log; exact I |].
      intros _ _. apply calm_ret. exact I. }
  destruct ((AiMod.status_code r =? 401)%Z || (AiMod.status_code r =? 403)%Z).
  { apply (calm_bind _ _ (fun _ => True)); [apply calm_log; exact I |].
    intros _ _. apply calm_ret. exact I. }
  destruct (AiMod.status_code r >=? 500)%Z.
  { destruct (retry <? max_retries)%Z.
    - apply calm_pause; [| exact I]. intros d. apply calm_log. exact I.
    - apply (calm_bind _ _ (fun _ => True)); [apply calm_log; exact I |].
      intros _ _. apply calm_ret. exact I. }
  apply (calm_bind _ _ (fun _ => True)); [apply calm_log; exact I |].
  intros _ _. apply calm_ret. unfold step_ok, served.
  cbn [AiMod.c_ok AiMod.c_text AiMod.c_model_used AiMod.c_key_index
       AiMod.c_error].
  repeat split; try reflexivity. eauto.
Qed.

(** The schedule of pauses can serve every retry. *)
Hypothesis schedule :
  (max_retries <= 0)%Z
  \/ (backoff_ms <> [] /\ Forall (fun d => (0 <= d)%Z) backoff_ms).

Lemma sure_pause (retry : Z) (line : Z -> M V unit)
    (Q : AiMod.step -> Prop) :
  (0 <= retry < max_retries)%Z ->
  (forall d, sure (V := V) (line d) (fun _ => True)) -> Q AiMod.Next_retry ->
  sure (V := V) (AiMod.pause backoff_ms retry line) Q.
Proof.
  intros Hretry Hline HQ.
  destruct schedule as [Hnone | [Hsome Hpos]]; [lia |].
  unfold AiMod.pause, AiMod.backoff_of, AiMod.list_item. cbv zeta.
  assert (Hlen : (0 < len backoff_ms)%Z).
  { unfold len. destruct backoff_ms; [congruence | simpl; lia]. }
  set (i := Z.min retry (len backoff_ms - 1)).
  assert (Hi : (0 <= i < len backoff_ms)%Z) by (subst i; lia).
  destruct (Z.ltb_spec i 0) as [Hneg | _]; [lia |].
  destruct (Z.ltb_spec i 0) as [Hneg | _]; [lia |].
  destruct (lookup_lt_is_Some_2 backoff_ms (Z.to_nat i)) as [d Hd];
    [unfold len in Hi; lia |].
  rewrite Hd. cbn [TelegramOutput.returned].
  assert (Hd0 : (0 <= d)%Z).
  { rewrite Forall_lookup in Hpos. exact (Hpos _ _ Hd). }
  apply (sure_bind _ _ (fun a => a = d)); [apply sure_ret; reflexivity |].
  intros ? ->. apply (sure_bind _ _ (fun _ => True)); [apply Hline |].
  intros _ _. apply (sure_bind _ _ (fun _ => True)).
  { unfold AiMod.time_sleep. destruct (Z.ltb_spec d 0); [lia |].
    intros p. eexists _, _. split; [reflexivity |]. auto. }
  intros _ _. apply sure_ret, HQ.
Qed.

Lemma on_timeout_sure (retry : Z) (Q : AiMod.step -> Prop) :
  (0 <= retry)%Z -> Q AiMod.Next_retry -> Q AiMod.Next_key ->
  sure (V := V) (AiMod.on_timeout seconds_str max_retries backoff_ms retry) Q.
Proof.
  intros Hretry Hr Hk. unfold AiMod.on_timeout.
  destruct (Z.ltb_spec retry max_retries).
  - apply sure_pause; [lia | | exact Hr]. intros d. apply sure_log. exact I.
  - apply (sure_bind _ _ (fun _ => True)); [apply sure_log; exact I |].
    intros _ _. apply sure_ret, Hk.
Qed.

Lemma on_exception_sure (retry : Z) (e : exn) (Q : AiMod.step -> Prop) :
  (0 <= retry)%Z -> Q AiMod.Next_retry -> Q AiMod.Next_key ->
  sure (V := V) (AiMod.on_exception max_retries backoff_ms retry e) Q.
Proof.
  intros Hretry Hr Hk. unfold AiMod.on_exception.
  apply (sure_bind _ _ (fun _ => True)); [apply sure_log; exact I |].
  intros _ _. destruct (Z.ltb_spec retry max_retries).
  - apply sure_pause; [lia | | exact Hr]. intros d. apply sure_ret. exact I.
  - apply sure_ret, Hk.
Qed.

End CallModelSpec.

Lemma bind_run {W A B} (c : M W A) (k : A -> M W B) (p p1 : process W) (a : A) :
  c p = (inl a, p1) -> bind c k p = k a p1.
Proof. unfold bind. intros ->. reflexivity. Qed.

Section CallModelRuns.
Context {W : Type}.
Variable lib : pylib.
Variable json_dumps : json -> pystr.
Variable seconds_str : Z -> pystr.
Variable load_prompts : W -> (gmap Z AiMod.prompt + exn) * W.
Variable post : pystr -> pystr -> Z -> W -> AiMod.post_outcome * W.
Variable timeout_sec : Z.
Variable max_retries : Z.
Variable backoff_ms : list Z.
Variable api_keys : list pystr.
Variable model_primary : pystr.
Variable model_backup : list pystr.

Hypothesis schedule :
  (max_retries <= 0)%Z
  \/ (backoff_ms <> [] /\ Forall (fun d => (0 <= d)%Z) backoff_ms).

Local Abbreviation journal p := (world p).2.
Local Abbreviation rounds := (Z.to_nat (max_retries + 1)).
Local Abbreviation models := (model_primary :: model_backup).

Lemma attempt_run (full_prompt model api_key : pystr) (key_index retry : Z)
    (p : process (W * list pystr)) :
  (0 <= retry)%Z ->
  exists s p',
    AiMod.attempt lib json_dumps seconds_str (posting post) timeout_sec
      max_retries backoff_ms full_prompt model api_key key_index retry p
    = (inl s, p')
    /\ journal p' = journal p ++ [AiMod.url_of model api_key]
    /\ step_ok model key_index s.
Proof.
  intros Hretry. unfold AiMod.attempt.
  assert (Hext : exists o w,
    ext (fun w0 =>
           let '(o, w') := posting post (AiMod.url_of model api_key)
                             full_prompt timeout_sec w0 in
           (inl o, w')) p
    = (inl o, Process (w, journal p ++ [AiMod.url_of model api_key])
                (the_queue p) (slept p) (logged p) (marks p))).
  { unfold ext, posting.
    destruct (post (AiMod.url_of model api_key) full_prompt timeout_sec
                (world p).1) as [o w].
    exists o, w. reflexivity. }
  destruct Hext as (o & w & Hext). rewrite (bind_run _ _ _ _ _ Hext).
  set (p1 := Process _ _ _ _ _).
  assert (Hsure : forall c : M (W * list pystr) AiMod.step,
            sure c (step_ok model key_index) ->
            exists s p', c p1 = (inl s, p')
              /\ journal p' = journal p ++ [AiMod.url_of model api_key]
              /\ step_ok model key_index s).
  { intros c Hc. destruct (Hc p1) as (s & p' & Hrun & Hw & Hs).
    exists s, p'. split; [exact Hrun |]. rewrite Hw.
    split; [reflexivity | exact Hs]. }
  destruct o as [r | | e]; apply Hsure.
  - apply sure_try; [apply on_response_calm |].
    intros e. apply on_exception_sure; (exact schedule || exact Hretry || exact I).
  - apply on_timeout_sure; (exact schedule || exact Hretry || exact I).
  - apply on_exception_sure; (exact schedule || exact Hretry || exact I).
Qed.

Lemma retry_loop_run (full_prompt model api_key : pystr) (key_index : Z) :
  forall (n : nat) (retry : Z) (p : process (W * list pystr)),
    (0 <= retry)%Z ->
    exists r p' done,
      AiMod.retry_loop lib json_dumps seconds_str (posting post) timeout_sec
        max_retries backoff_ms n full_prompt model api_key key_index retry p
      = (inl r, p')
      /\ journal p' = journal p ++ replicate done (AiMod.url_of model api_key)
      /\ (done <= n)%nat
      /\ match r with
         | Some res => served model key_index res
         | None => True
         end.
Proof.
  induction n as [| n IH]; intros retry p Hretry; cbn [AiMod.retry_loop].
  - exists None, p, 0%nat. cbn. rewrite app_nil_r. auto.
  - destruct (attempt_run full_prompt model api_key key_index retry p Hretry)
      as (s & p1 & Hrun & Hj & Hs).
    rewrite (bind_run _ _ _ _ _ Hrun). destruct s as [| | res].
    + assert (Hnext : (0 <= retry + 1)%Z) by lia.
      destruct (IH (retry + 1)%Z p1 Hnext) as (r & p' & done & Hrun' & Hj' & Hn & Hr).
      exists r, p', (S done). split; [exact Hrun' |].
      rewrite Hj', Hj, <- app_assoc. cbn [replicate app].
      split; [reflexivity |]. split; [lia | exact Hr].
    + exists None, p1, 1%nat. cbn [replicate].
      split; [reflexivity |]. split; [exact Hj |]. split; [lia | exact I].
    + exists (Some res), p1, 1%nat. cbn [replicate].
      split; [reflexivity |]. split; [exact Hj |]. split; [lia | exact Hs].
Qed.

Lemma key_loop_run (full_prompt model : pystr) :
  forall (keys : list pystr) (key_index : Z) (p : process (W * list pystr)),
    (0 <= key_index)%Z -> (key_index + len keys <= len api_keys)%Z ->
    (forall key, key ∈ keys -> key ∈ api_keys) ->
    exists r p' added,
      AiMod.key_loop lib json_dumps seconds_str (posting post) timeout_sec
        max_retries backoff_ms keys full_prompt model key_index p
      = (inl r, p')
      /\ journal p' = journal p ++ added
      /\ (length added <= length keys * rounds)%nat
      /\ Forall (fun x => exists key, key ∈ api_keys
                                      /\ x = AiMod.url_of model key) added
      /\ match r with
         | Some res =>
             exists i, (0 <= i < len api_keys)%Z /\ served model i res
         | None => True
         end.
Proof.
  induction keys as [| api_key rest IH]; intros key_index p Hk Hlen Hin;
    cbn [AiMod.key_loop].
  - exists None, p, []. rewrite app_nil_r.
    repeat split; auto.
  - destruct (sure_log (V := W * list pystr) "INFO" "ai_mod"
                (u "Начинаем вызов AI")
                [(u "model", model); (u "key_index", str_of_int key_index)]
                (fun _ => True) I p) as ([] & p0 & Hlog & Hw0 & _).
    rewrite (bind_run _ _ _ _ _ Hlog).
    destruct (retry_loop_run full_prompt model api_key key_index rounds 0 p0
                (Z.le_refl 0)) as (r & p1 & done & Hrun & Hj & Hn & Hr).
    rewrite (bind_run _ _ _ _ _ Hrun).
    assert (Hurls : Forall (fun x => exists key, key ∈ api_keys
                                      /\ x = AiMod.url_of model key)
                      (replicate done (AiMod.url_of model api_key))).
    { apply Forall_replicate. exists api_key. split; [| reflexivity].
      apply Hin. left. }
    unfold len in Hlen. cbn [length] in Hlen.
    destruct r as [res |].
    + exists (Some res), p1, (replicate done (AiMod.url_of model api_key)).
      split; [reflexivity |]. rewrite Hj, Hw0. split; [reflexivity |].
      rewrite length_replicate. cbn [length].
      split; [lia |]. split; [exact Hurls |].
      exists key_index. split; [unfold len; lia | exact Hr].
    + destruct (IH (key_index + 1)%Z p1) as (r & p' & added & Hrun' & Hj' & Hn' & Hall & Hr');
        [lia | unfold len; lia | intros key Hkey; apply Hin; right; exact Hkey |].
      exists r, p', (replicate done (AiMod.url_of model api_key) ++ added).
      split; [exact Hrun' |]. rewrite Hj', Hj, Hw0, <- app_assoc.
      split; [reflexivity |]. rewrite length_app, length_replicate.
      cbn [length]. split; [lia |].
      split; [apply Forall_app; auto | exact Hr'].
Qed.

Lemma served_coherent (model : pystr) (i : Z) (res : AiMod.call_result) :
  model ∈ models -> (0 <= i < len api_keys)%Z -> served model i res ->
  call_coherent models api_keys res.
Proof.
  intros Hm Hi (Hmodel & Hindex & Hres). unfold call_coherent.
  destruct (AiMod.c_ok res).
  - destruct Hres as [Htext Herr]. rewrite Hmodel, Hindex. auto.
  - destruct Hres as [Htext (detail0 & Herr)]. split; [exact Htext |].
    exists (u "bad_request"), detail0. split; [exact Herr |].
    do 2 right. left.
Qed.

Lemma model_loop_run (full_prompt : pystr) :
  forall (todo : list pystr) (p : process (W * list pystr)),
    (forall model, model ∈ todo -> model ∈ models) ->
    exists r p' added,
      AiMod.model_loop lib json_dumps seconds_str (posting post) timeout_sec
        max_retries backoff_ms api_keys todo full_prompt p
      = (inl r, p')
      /\ journal p' = journal p ++ added
      /\ (length added <= length todo * (length api_keys * rounds))%nat
      /\ Forall (fun x => exists model key,
                   model ∈ models /\ key ∈ api_keys
                   /\ x = AiMod.url_of model key) added
      /\ match r with
         | Some res => call_coherent models api_keys res
         | None => True
         end.
Proof.
  induction todo as [| model rest IH]; intros p Hin; cbn [AiMod.model_loop].
  - exists None, p, []. rewrite app_nil_r. repeat split; auto.
  - destruct (key_loop_run full_prompt model api_keys 0 p)
      as (r & p1 & added & Hrun & Hj & Hn & Hall & Hr); [lia | lia | auto |].
    rewrite (bind_run _ _ _ _ _ Hrun).
    assert (Hm : model ∈ models) by (apply Hin; left).
    assert (Hall' : Forall (fun x => exists model key,
                      model ∈ models /\ key ∈ api_keys
                      /\ x = AiMod.url_of model key) added).
    { eapply Forall_impl; [exact Hall |]. intros x (key & Hkey & ->). eauto. }
    destruct r as [res |].
    + exists (Some res), p1, added. split; [reflexivity |].
      split; [exact Hj |]. cbn [length]. split; [lia |].
      split; [exact Hall' |]. destruct Hr as (i & Hi & Hs).
      exact (served_coherent model i res Hm Hi Hs).
    + destruct (IH p1) as (r & p' & added' & Hrun' & Hj' & Hn' & Hall'' & Hr');
        [intros m Hmr; apply Hin; right; exact Hmr |].
      exists r, p', (added ++ added'). split; [exact Hrun' |].
      rewrite Hj', Hj, <- app_assoc. split; [reflexivity |].
      rewrite length_app. cbn [length]. split; [lia |].
      split; [apply Forall_app; auto | exact Hr'].
Qed.

End CallModelRuns.

Lemma bind_raise_run {W A B} (c : M W A) (k : A -> M W B)
    (p p1 : process W) (e : exn) :
  c p = (inr e, p1) -> bind c k p = (inr e, p1).
Proof. unfold bind. intros ->. reflexivity. Qed.

Section CallModelRequests.
Context {W : Type}.
Variable lib : pylib.
Variable json_dumps : json -> pystr.
Variable seconds_str : Z -> pystr.
Variable load_prompts : W -> (gmap Z AiMod.prompt + exn) * W.
Variable post : pystr -> pystr -> Z -> W -> AiMod.post_outcome * W.
Variable timeout_sec : Z.
Variable max_retries : Z.
Variable backoff_ms : list Z.
Variable api_keys : list pystr.
Variable model_primary : pystr.
Variable model_backup : list pystr.


End CallModelRequests.


Example call_model_example :
  let run :=
    AiMod.call_model example_lib (fun _ => []) (fun _ => [])
      (beside example_prompts) (posting (busy_then (u "A summary.")))
      20 2 [600; 1200]%Z [u "key-1"; u "key-2"] (u "gemini-2.0-flash") []
      2 (u "transcript") (Process (O, []) url_queue [] [] []) in
  run.1 = inl {| AiMod.c_ok := true; AiMod.c_text := u "A summary.";
                 AiMod.c_model_used := u "gemini-2.0-flash";
                 AiMod.c_key_index := 0; AiMod.c_error := None |}
  /\ world run.2
     = (2%nat, [AiMod.url_of (u "gemini-2.0-flash") (u "key-1");
                AiMod.url_of (u "gemini-2.0-flash") (u "key-1")])
  /\ slept run.2 = [600%Z].
Proof. vm_compute. repeat split; reflexivity. Qed.

Section CallModelEmptySchedule.
Context {W : Type}.
Variable lib : pylib.
Variable json_dumps : json -> pystr.
Variable seconds_str : Z -> pystr.
Variable load_prompts : W -> (gmap Z AiMod.prompt + exn) * W.
Variable post : pystr -> pystr -> Z -> W -> AiMod.post_outcome * W.
Variable timeout_sec : Z.
Variable max_retries : Z.
Variable api_keys : list pystr.
Variable model_primary : pystr.
Variable model_backup : list pystr.

Hypothesis retries : (0 < max_retries)%Z.

Lemma pause_without_schedule (line : Z -> M W unit) (p : process W) :
  AiMod.pause [] 0 line p = (inr AiMod.IndexError_list, p).
Proof. reflexivity. Qed.

Lemma on_exception_without_schedule (e : exn) (p : process W) :
  exists lg,
    AiMod.on_exception max_retries [] 0 e p
    = (inr AiMod.IndexError_list,
       Process (world p) (the_queue p) (slept p) lg (marks p)).
Proof.
  unfold AiMod.on_exception.
  destruct (Z.ltb_spec 0 max_retries) as [_ | Hno]; [| lia].
  eexists. unfold bind at 1. unfold log at 1. cbv beta iota.
  rewrite pause_without_schedule. reflexivity.
Qed.

Lemma attempt_without_schedule (full_prompt model api_key : pystr)
    (key_index : Z) (p : process W) (outcome : AiMod.post_outcome) (w : W) :
  post (AiMod.url_of model api_key) full_prompt timeout_sec (world p)
  = (outcome, w) ->
  retryable outcome = true ->
  exists lg,
    AiMod.attempt lib json_dumps seconds_str post timeout_sec max_retries []
      full_prompt model api_key key_index 0 p
    = (inr AiMod.IndexError_list,
       Process w (the_queue p) (slept p) lg (marks p)).
Proof.
  intros Hpost Hretry. unfold AiMod.attempt.
  assert (Hext :
    ext (fun w0 =>
           let '(o, w') := post (AiMod.url_of model api_key) full_prompt
                             timeout_sec w0 in
           (inl o, w')) p
    = (inl outcome,
       Process w (the_queue p) (slept p) (logged p) (marks p))).
  { unfold ext. rewrite Hpost. reflexivity. }
  rewrite (bind_run _ _ _ _ _ Hext).
  set (p1 := Process _ _ _ _ _).
  destruct outcome as [r | | e].
  - assert (Hbody :
      AiMod.on_response lib json_dumps seconds_str max_retries [] r model
        key_index 0 p1
      = (inr AiMod.IndexError_list, p1)).
    { unfold AiMod.on_response. cbn [retryable] in Hretry.
      destruct (Z.eqb_spec (AiMod.status_code r) 200) as [H200 | _].
      { rewrite H200 in Hretry. discriminate Hretry. }
      destruct (Z.ltb_spec 0 max_retries) as [_ | Hno]; [| lia].
      destruct (Z.eqb_spec (AiMod.status_code r) 429) as [_ | H429];
        [apply pause_without_schedule |].
      cbn [orb] in Hretry. apply Z.leb_le in Hretry.
      destruct (Z.eqb_spec (AiMod.status_code r) 401) as [H401 | _]; [lia |].
      destruct (Z.eqb_spec (AiMod.status_code r) 403) as [H403 | _]; [lia |].
      cbn [orb].
      destruct (Z.geb_spec (AiMod.status_code r) 500) as [_ | Hlow]; [| lia].
      apply pause_without_schedule. }
    unfold try_except. rewrite Hbody.
    destruct (on_exception_without_schedule AiMod.IndexError_list p1)
      as (lg & Hrun).
    exists lg. exact Hrun.
  - exists (logged p). unfold AiMod.on_timeout.
    destruct (Z.ltb_spec 0 max_retries) as [_ | Hno]; [| lia].
    apply pause_without_schedule.
  - destruct (on_exception_without_schedule e p1) as (lg & Hrun).
    exists lg. exact Hrun.
Qed.

(** X30.  [call_model] with an empty [backoff_ms] and at least one retry
    allowed: when the first request is answered with 429 or with a status
    of 500 or more, times out or fails with any other exception, the
    pause is read from the empty list, and the [IndexError] leaves
    [call_model], after this one request and without a sleep; no other
    key and no other model is tried. *)
Theorem call_model_empty_backoff (prompt_id : Z) (input_text : pystr)
    (p : process W) (prompts : gmap Z AiMod.prompt) (entry : AiMod.prompt)
    (api_key : pystr) (rest : list pystr) (w1 w2 : W)
    (outcome : AiMod.post_outcome) :
  load_prompts (world p) = (inl prompts, w1) ->
  prompts !! prompt_id = Some entry ->
  api_keys = api_key :: rest ->
  post (AiMod.url_of model_primary api_key)
    (AiMod.full_prompt_of (AiMod.prompt_text entry) input_text) timeout_sec w1
  = (outcome, w2) ->
  retryable outcome = true ->
  exists lg,
    AiMod.call_model lib json_dumps seconds_str load_prompts post timeout_sec
      max_retries [] api_keys model_primary model_backup prompt_id input_text p
    = (inr AiMod.IndexError_list,
       Process w2 (the_queue p) (slept p) lg (marks p)).
Proof.
  intros Hload Hentry Hkeys Hpost Hretry. unfold AiMod.call_model.
  assert (Hext : ext load_prompts p
                 = (inl prompts,
                    Process w1 (the_queue p) (slept p) (logged p) (marks p))).
  { unfold ext. rewrite Hload. reflexivity. }
  rewrite (bind_run _ _ _ _ _ Hext), Hentry, Hkeys. cbn [negb].
  cbn [AiMod.model_loop AiMod.key_loop].
  destruct (Z.to_nat (max_retries + 1)) as [| n] eqn:Hrounds; [lia |].
  cbn [AiMod.retry_loop].
  set (p1 := Process w1 _ _ _ _).
  set (p2 := Process w1 (the_queue p) (slept p)
               (logged p ++ [{| level := u "INFO"; module := u "ai_mod";
                                msg := u "Начинаем вызов AI";
                                kv := [(u "model", model_primary);
                                       (u "key_index", str_of_int 0)] |}])
               (marks p)).
  destruct (attempt_without_schedule
              (AiMod.full_prompt_of (AiMod.prompt_text entry) input_text)
              model_primary api_key 0 p2 outcome w2 Hpost Hretry)
    as (lg & Hrun).
  exists lg.
  apply bind_raise_run, bind_raise_run.
  assert (Hlog : log true "INFO" "ai_mod" (u "Начинаем вызов AI")
                   [(u "model", model_primary); (u "key_index", str_of_int 0)]
                   p1 = (inl tt, p2)) by reflexivity.
  rewrite (bind_run _ _ _ _ _ Hlog).
  apply bind_raise_run, bind_raise_run. exact Hrun.
Qed.

End CallModelEmptySchedule.

Lemma call_model_empty_backoff_witness :
  exists lg,
    AiMod.call_model example_lib (fun _ => []) (fun _ => [])
      example_prompts always_busy 20 2 [] [u "key-1"; u "key-2"]
      (u "gemini-2.0-flash") [u "gemini-1.5-flash"] 2 (u "transcript")
      (Process O url_queue [] [] [])
    = (inr AiMod.IndexError_list, Process 1%nat url_queue [] lg []).
Proof.
  apply (call_model_empty_backoff example_lib (fun _ => []) (fun _ => [])
           example_prompts always_busy 20 2 [u "key-1"; u "key-2"]
           (u "gemini-2.0-flash") [u "gemini-1.5-flash"] ltac:(lia)
           2 (u "transcript") (Process O url_queue [] [] [])
           _ _ (u "key-1") [u "key-2"] O 1%nat _
           eq_refl eq_refl eq_refl eq_refl eq_refl).
Defined.

(** ** The closing log line of [process_transcript_chat] *)

(** A CLEAN answer with ["links": null]: the five requests are sent and
    answered, and then [len(results["links"])], an argument of the
    closing log line, raises; the result is the one of the [except]
    clause, with the code [processing_error] and every field emptied. *)
Example process_transcript_chat_links_null :
  let run :=
    process_transcript_chat example_lib_null chat_init chat_prompts
      (chat_send answers_null) chat_config (u "raw transcript") p0 in
  (exists d, run.1 = inl (failed_results (u "processing_error") d))
  /\ world run.2 = 5%nat.
Proof. vm_compute. split; [eexists |]; reflexivity. Qed.
